(* ===== verification/_CoqProject ===== *)
-Q . S2P
Prelude.v
RingBuffer.v
RingSpec.v
RingProps.v
CString.v
CrashLog.v
Seccomp.v
Landlock.v
LandlockProps.v
RApi.v
SampleR.v
Bridge.v
BridgeSpec.v
BridgeProps.v
Eval.v
EvalSpec.v
EvalProps.v
Seatbelt.v
SeatbeltProps.v
RunR.v
RunRProps.v
Worker.v
WorkerProps.v
Startup.v
StartupProps.v
Stubs.v
