(* ===== verification/Prelude.v ===== *)
(** * Raoui's C core: a verification library

    Raoui is a terminal interface for R written in OCaml.  Its C core
    (c_ffi/ and lib/rffi_stubs.c under src/) runs an embedded R on a worker
    thread, streams what R prints to the interface through a ring buffer, and
    evaluates code of an AI assistant in a sandboxed fork.  This library models
    that core and proves what makes it correct.

    ** How the parts interact

    The interface (OCaml) calls the stubs, which call the API of r_bridge.h.
    Requests wait in slots guarded by one mutex (Worker.v); the worker thread
    takes them, evaluates R code (Eval.v) and processes R's events.  While R
    runs it calls back (Bridge.v): console output, readline requests,
    passthroughs and images become messages of the ring (RingBuffer.v), which
    the interface pops concurrently.  A run_r request is evaluated in a fork
    (RunR.v) confined by Landlock and seccomp on Linux (Landlock.v, Seccomp.v)
    or by a Seatbelt profile on macOS (Seatbelt.v).  Startup.v loads libR and
    boots R; CrashLog.v is the handler of fatal signals.

    ** Files

    - Prelude: machine integers as [Z] with the wrap-around written out ([u8],
      [u32], [u64], [i32]); bytes; the result type [res] whose [fault]s are the
      undefined behaviours checked (out of bounds, NULL, mutex misuse, signed
      overflow, wild jump, ...); mutexes; [memcpy] with its bounds; the heap as a
      class ([malloc] may answer NULL); the tactics and hint databases.
    - RingBuffer, RingSpec, RingProps: c_ffi/ring_buffer.{h,c}.  [ring] is
      [ring_buffer_t]; one definition per function.  RingSpec refines them to a
      bounded queue of messages [mqueue] with drop-oldest eviction
      ([represents]); RingProps has C1-C6: refinement of every run of calls,
      order and integrity, losslessness within the capacity, minimal eviction,
      truncation, accounting.
    - CString: strings, strtok_r, snprintf, %d as the sources use them.
    - CrashLog: load_r.c 92-169; C7 (decimal conversion), C8 (the handler ends
      by re-raising whatever write() answers).
    - Seccomp: sandbox_linux.c 255-298; the filter as classic-BPF data under an
      interpreter; C9 (its verdict is the documented posture), C10.
    - Landlock, LandlockProps: the rest of sandbox_linux.c, as the trace of the
      system calls made; C11 (failures fail closed), C12 (descriptors closed),
      C13 (writes confined), C14 (credential stores unreadable), C15 (the
      ancestor test).
    - RApi: libR as a class: its functions over an opaque state, a call that
      runs R code being the tree of its callbacks; [RApiOk] states the
      documented behaviour relied on.  SampleR is an instance, for the
      witnesses.
    - Bridge, BridgeSpec, BridgeProps: the file-scope state of load_r.c and the
      callbacks, lines 235-413.  The monad [M] passes the state; its outcomes are
      return, longjmp and _exit.  The interface acts between callbacks and
      between two loads of a gate, by a schedule that is arbitrary.  BridgeSpec
      has the weakest-precondition rules and the invariant [binv]; C16 (the
      output stream), C17 (readline), C18 (startup output), C19 (images).
    - Eval, EvalSpec, EvalProps: lines 263-306, 507-520, 590-701, 845-876 and
      1019-1071, with every protect, unprotect, push and early return; C20 (the
      message protocol, balance and absence of stray jumps), C21 (stopping at
      the first error), C22 (stale interrupts), C23 (completions), C24 (the
      quiet evaluators), C25 (a parser jump reported as success).
    - Seatbelt, SeatbeltProps: lines 733-839; C26 (the profile reads back as the
      intended rules), C27 (what they confine).
    - RunR, RunRProps: lines 703-731 and 878-1015; C28 (the parent's result), C29
      (termination under the watchdog), C30 (the child is confined or runs
      nothing), C31 (readline in the child), C32 (the call as a whole).
    - Worker, WorkerProps: lines 60-78 and 1073-1262.  [step] interleaves the
      critical sections of all threads; [worker_rounds] composes the jobs on
      the bridge.  C33 (the worker survives), C34 (which request is served),
      C35 (a caller gets its own output), C36 (shutdown stops the worker), C37
      (and may strand a caller).
    - Startup, StartupProps: lines 417-586, 1075-1087, 1157-1184, 1253-1262; C38
      (what rffi_start answers), C39 (a whole session).
    - Stubs: lib/rffi_stubs.c; C40 (a pop loses nothing).

    ** Bounds and fuel

    The eviction loops of the ring get [rb_used] rounds, which [rb_push_ok]
    proves enough (each round frees a header).  The decimal loop of the crash
    log and [drain_loop] answer [OutOfFuel] when they run out; C7 proves ten digits
    enough, C29 that the watchdog ends the drain within the round whose clock
    passes the limit.  A gate wait runs the schedule's remaining slots and then
    answers [Blocked]: the worker waits for an interface that does nothing
    more.  No block is larger than 2^48 bytes, the address space of a process.

    ** What is assumed of other code

    A call into R makes finitely many callbacks; R functions keep the protection
    stack balanced, R_ToplevelExec catches jumps and restores it, R_tryEval
    reports an error exactly by a NULL result (RApiOk); setup_Rmainloop lets no
    jump out (C38, C39).  The kernel's answers are arbitrary within their types;
    paths resolve consistently (C14).  The mutexes serialise the critical
    sections, so each is one atomic step.

    ** Not modelled

    R itself and its scripts; text written to stderr; the OCaml garbage
    collector and runtime lock; signals other than the crash log's; the memory
    model below sequentially consistent atomics; the state of the parent
    that a fork copies beyond the bridge's; the OCaml interface. *)

From Stdlib Require Export ZArith Lia Bool.
From Stdlib Require Import Strings.Byte Strings.String.
From stdpp Require Export base list numbers option.

#[export] Set Default Goal Selector "!".

Declare Scope craoui_scope.
Delimit Scope craoui_scope with craoui.

#[global] Open Scope Z_scope.

(** ** Automation: one hint database, the tactics every file uses *)

Create HintDb raoui.
Create Rewrite HintDb raoui_len.

(** Split the boolean connectives and comparisons of the hypotheses and the
    goal into the propositions [lia] reads. *)
Ltac zbool :=
  repeat match goal with
  | H : (_ && _)%bool = true |- _ => apply andb_true_iff in H; destruct H
  | H : (_ && _)%bool = false |- _ => apply andb_false_iff in H
  | H : (_ || _)%bool = false |- _ => apply orb_false_iff in H; destruct H
  | H : (_ || _)%bool = true |- _ => apply orb_true_iff in H
  | H : negb _ = true |- _ => apply negb_true_iff in H
  | H : negb _ = false |- _ => apply negb_false_iff in H
  | H : (_ <=? _) = true |- _ => apply Z.leb_le in H
  | H : (_ <=? _) = false |- _ => apply Z.leb_gt in H
  | H : (_ <? _) = true |- _ => apply Z.ltb_lt in H
  | H : (_ <? _) = false |- _ => apply Z.ltb_ge in H
  | H : (_ =? _) = true |- _ => apply Z.eqb_eq in H
  | H : (_ =? _) = false |- _ => apply Z.eqb_neq in H
  end.

(** Case on the test of the first [if] on a comparison in the goal. *)
Ltac zcase :=
  match goal with
  | |- context [if ?b then _ else _] =>
      let E := fresh "E" in destruct b eqn:E; zbool
  end.

(** Destruct the conjunctions and existentials of the context. *)
Ltac deex :=
  repeat match goal with
  | H : ex _ |- _ => destruct H
  | H : _ /\ _ |- _ => destruct H
  end.

(** ** Machine integers: the widths the C code uses, as [Z] with wrap-around *)

Definition u8 (z : Z) : Z := z mod 2 ^ 8.
Definition u32 (z : Z) : Z := z mod 2 ^ 32.
Definition u64 (z : Z) : Z := z mod 2 ^ 64.
#[global] Arguments u64 : simpl never.
Definition i32 (z : Z) : Z := (z + 2 ^ 31) mod 2 ^ 32 - 2 ^ 31.

Definition UINT32_MAX : Z := 2 ^ 32 - 1.
Definition PTRDIFF_MAX : Z := 2 ^ 63 - 1.

Lemma u64_small z : 0 <= z < 2 ^ 64 -> u64 z = z.
Proof. apply Z.mod_small. Qed.

Lemma u32_small z : 0 <= z < 2 ^ 32 -> u32 z = z.
Proof. apply Z.mod_small. Qed.

Lemma u64_range z : 0 <= u64 z < 2 ^ 64.
Proof. apply Z.mod_pos_bound. lia. Qed.

Lemma u32_range z : 0 <= u32 z < 2 ^ 32.
Proof. apply Z.mod_pos_bound. lia. Qed.

Lemma u64_add_l a b : u64 (u64 a + b) = u64 (a + b).
Proof. unfold u64. apply Zplus_mod_idemp_l. Qed.

Lemma i32_small z : - 2 ^ 31 <= z < 2 ^ 31 -> i32 z = z.
Proof. intros. unfold i32. rewrite Z.mod_small; lia. Qed.

#[export] Hint Resolve u64_range u32_range : raoui.

(** Reducing a position that overran a circular buffer at most once. *)
Lemma mod_wrap_once a c : 0 <= a < 2 * c -> a mod c = if a <? c then a else a - c.
Proof.
  intros Ha. destruct (a <? c) eqn:E; zbool.
  - apply Z.mod_small. lia.
  - symmetry. apply (Z.mod_unique a c 1); lia.
Qed.

(** ** Bytes and C strings *)

Abbreviation byte := Init.Byte.byte.
Abbreviation bytes := (list Init.Byte.byte).

#[export] Instance byte_eq_decision : EqDecision byte := Byte.byte_eq_dec.

Definition Z_of_byte (b : byte) : Z := Z.of_N (Byte.to_N b).

Definition byte_of_Z (z : Z) : byte :=
  match Byte.of_N (Z.to_N (z mod 256)) with
  | Some b => b
  | None => Byte.x00
  end.

Lemma Z_of_byte_range b : 0 <= Z_of_byte b < 256.
Proof.
  unfold Z_of_byte. pose proof (Byte.to_N_bounded b). lia.
Qed.

Lemma Z_of_byte_of_Z z : Z_of_byte (byte_of_Z z) = z mod 256.
Proof.
  unfold Z_of_byte, byte_of_Z.
  pose proof (Z.mod_pos_bound z 256 ltac:(lia)) as Hb.
  destruct (Byte.of_N (Z.to_N (z mod 256))) eqn:E.
  - apply Byte.to_of_N in E. rewrite E. lia.
  - apply Byte.of_N_None_iff in E. lia.
Qed.

Lemma byte_of_Z_of_byte b : byte_of_Z (Z_of_byte b) = b.
Proof.
  unfold byte_of_Z. pose proof (Z_of_byte_range b).
  rewrite Z.mod_small by lia. unfold Z_of_byte.
  rewrite N2Z.id, Byte.of_to_N. reflexivity.
Qed.

Lemma Z_of_byte_of_Z_small z : 0 <= z < 256 -> Z_of_byte (byte_of_Z z) = z.
Proof. intros. rewrite Z_of_byte_of_Z. apply Z.mod_small. lia. Qed.

(** The bytes of a string literal of the source. *)
Export String.StringSyntax.
Definition lit (s : string) : bytes := list_byte_of_string s.
Arguments lit s%_string_scope.

(** The length of a byte list as a C size. *)
Definition zlen {A} (l : list A) : Z := Z.of_nat (length l).
#[global] Arguments zlen : simpl never.

Lemma zlen_nonneg {A} (l : list A) : 0 <= zlen l.
Proof. unfold zlen. lia. Qed.

Lemma zlen_app {A} (l k : list A) : zlen (l ++ k) = zlen l + zlen k.
Proof. unfold zlen. rewrite length_app. lia. Qed.

Lemma zlen_nil {A} : zlen (@nil A) = 0.
Proof. reflexivity. Qed.

Lemma zlen_cons {A} (x : A) l : zlen (x :: l) = 1 + zlen l.
Proof. unfold zlen. cbn [length]. lia. Qed.

Lemma zlen_take {A} n (l : list A) : 0 <= n <= zlen l -> zlen (take (Z.to_nat n) l) = n.
Proof. unfold zlen. intros. rewrite length_take. lia. Qed.

Lemma zlen_drop {A} n (l : list A) :
  0 <= n <= zlen l -> zlen (drop (Z.to_nat n) l) = zlen l - n.
Proof. unfold zlen. intros. rewrite length_drop. lia. Qed.

#[export] Hint Rewrite @zlen_app @zlen_nil @zlen_cons : raoui_len.
#[export] Hint Resolve zlen_nonneg : raoui.

(** [size_t] and [int] are read off lists by [zlen]; this reduces lengths of
    appends to sums and gives [lia] the sign facts. *)
Ltac zlens :=
  autorewrite with raoui_len in *;
  repeat match goal with
  | |- context [zlen ?l] =>
      lazymatch goal with
      | H : 0 <= zlen l |- _ => fail
      | _ => pose proof (zlen_nonneg l)
      end
  | H : context [zlen ?l] |- _ =>
      lazymatch goal with
      | H' : 0 <= zlen l |- _ => fail
      | _ => pose proof (zlen_nonneg l)
      end
  end.

(** A NUL-free byte list: what a C string holds before its terminator. *)
Definition is_cstr (s : bytes) : Prop := Forall (fun b => b <> Byte.x00) s.

(** ** Faults and the error monad of the C model

    A C function is a Rocq function into [res]: [Ret] for a call that
    returns, [Fault] for behaviour the C code must never have. *)

Inductive fault :=
  | OutOfBounds    (* a memory access outside its object *)
  | NullDeref      (* a NULL pointer used as an object *)
  | MutexMisuse    (* lock, unlock or destroy of a mutex in the wrong state *)
  | SelfDeadlock   (* relocking a mutex the thread holds *)
  | DivByZero      (* a remainder by zero *)
  | SignedOverflow (* an int operation whose result is no int *)
  | WildJump       (* a longjmp with no live top-level context *)
  | OutOfFuel      (* a loop that used all the iterations it was given *)
  | Blocked.       (* not a fault of the thread: it waits, and no other thread
                      of the run will act again *)

Inductive res (A : Type) :=
  | Ret (a : A)
  | Fault (f : fault).
Arguments Ret {A} a.
Arguments Fault {A} f.

#[export] Instance res_mret : MRet res := fun A a => Ret a.
#[export] Instance res_mbind : MBind res := fun A B k m =>
  match m with
  | Ret a => k a
  | Fault f => Fault f
  end.

Lemma res_bind_ret {A B} (a : A) (k : A -> res B) : (Ret a ≫= k) = k a.
Proof. reflexivity. Qed.

(** A bind returns exactly when both of its parts do. *)
Lemma res_bind_inv {A B} (m : res A) (k : A -> res B) b :
  (m ≫= k) = Ret b -> exists a, m = Ret a /\ k a = Ret b.
Proof. destruct m; cbn; [eauto | discriminate]. Qed.

Lemma res_bind_eq {A B} (m : res A) (k : A -> res B) a r :
  m = Ret a -> k a = r -> (m ≫= k) = r.
Proof. intros -> <-. reflexivity. Qed.

(** Invert every [_ ≫= _ = Ret _] of the context. *)
Ltac res_inv :=
  repeat match goal with
  | H : (_ ≫= _) = Ret _ |- _ =>
      apply res_bind_inv in H; destruct H as (? & ? & H)
  | H : Ret _ = Ret _ |- _ => injection H as H; subst
  | H : Fault _ = Ret _ |- _ => discriminate H
  end.

(** A pointer that is dereferenced. *)
Definition deref {A} (p : option A) : res A :=
  match p with
  | Some a => Ret a
  | None => Fault NullDeref
  end.

(** [a % c] on [size_t]. *)
Definition size_mod (a c : Z) : res Z :=
  if c =? 0 then Fault DivByZero else Ret (a mod c).

(** ** Mutexes, as far as one thread can misuse them *)

Inductive mutex := MutexNone | MutexFree | MutexHeld.

#[export] Instance mutex_eq_decision : EqDecision mutex.
Proof. solve_decision. Defined.

Definition pthread_mutex_lock (m : mutex) : res mutex :=
  match m with
  | MutexFree => Ret MutexHeld
  | MutexHeld => Fault SelfDeadlock
  | MutexNone => Fault MutexMisuse
  end.

Definition pthread_mutex_unlock (m : mutex) : res mutex :=
  match m with
  | MutexHeld => Ret MutexFree
  | _ => Fault MutexMisuse
  end.

Definition pthread_mutex_destroy (m : mutex) : res mutex :=
  match m with
  | MutexFree => Ret MutexNone
  | _ => Fault MutexMisuse
  end.

(** ** Memory blocks: [memcpy] with its bounds *)

Definition in_block (b : bytes) (off n : Z) : bool :=
  (0 <=? off) && (0 <=? n) && (off + n <=? zlen b).

(** [memcpy(dst + doff, src + soff, n)]: the new contents of [dst]. *)
Definition memcpy (dst : bytes) (doff : Z) (src : bytes) (soff n : Z) : res bytes :=
  if in_block dst doff n && in_block src soff n then
    Ret (take (Z.to_nat doff) dst ++
         take (Z.to_nat n) (drop (Z.to_nat soff) src) ++
         drop (Z.to_nat (doff + n)) dst)
  else Fault OutOfBounds.

Lemma in_block_iff b off n :
  in_block b off n = true <-> 0 <= off /\ 0 <= n /\ off + n <= zlen b.
Proof. unfold in_block. rewrite !andb_true_iff, !Z.leb_le. tauto. Qed.

Lemma memcpy_ok dst doff src soff n :
  0 <= doff -> 0 <= n -> 0 <= soff ->
  doff + n <= zlen dst -> soff + n <= zlen src ->
  memcpy dst doff src soff n =
  Ret (take (Z.to_nat doff) dst ++
       take (Z.to_nat n) (drop (Z.to_nat soff) src) ++
       drop (Z.to_nat (doff + n)) dst).
Proof.
  intros. unfold memcpy.
  rewrite (proj2 (in_block_iff dst doff n)) by lia.
  rewrite (proj2 (in_block_iff src soff n)) by lia. reflexivity.
Qed.

(** [memcpy] never changes the size of the block it writes. *)
Lemma memcpy_len dst doff src soff n dst' :
  memcpy dst doff src soff n = Ret dst' -> zlen dst' = zlen dst.
Proof.
  unfold memcpy. destruct (in_block dst doff n) eqn:E1; [|discriminate].
  destruct (in_block src soff n) eqn:E2; [|discriminate]. cbn. intros [= <-].
  apply in_block_iff in E1, E2. unfold zlen in *.
  rewrite !length_app, !length_take, !length_drop. lia.
Qed.

(** Writing at the end of a filled prefix [p] of a block. *)
Lemma memcpy_at p q src n :
  0 <= n <= zlen q -> n <= zlen src ->
  memcpy (p ++ q) (zlen p) src 0 n = Ret (p ++ take (Z.to_nat n) src ++ drop (Z.to_nat n) q).
Proof.
  intros Hn Hs. rewrite memcpy_ok by (zlens; lia). unfold zlen in *. do 2 f_equal.
  - rewrite Nat2Z.id. by rewrite take_app_length.
  - f_equal. rewrite drop_app_ge by lia. f_equal. lia.
Qed.

(** ** The heap: [malloc] answers with a block or with NULL *)

Class Heap := malloc : Z -> option bytes.

(** A block of the size asked for, inside the address space of a process on a
    64-bit host. *)
Definition USER_SPACE : Z := 2 ^ 48.

Definition malloc_ok (f : Z -> option bytes) : Prop :=
  forall n b, f n = Some b -> zlen b = n /\ n <= USER_SPACE.

Class HeapOk `{Heap} : Prop := heap_ok : malloc_ok malloc.

(** [realloc(p, n)] on a block [p], or on NULL. *)
Definition realloc `{Heap} (p : option bytes) (n : Z) : option bytes :=
  match malloc n with
  | None => None
  | Some b =>
      let old := default [] p in
      Some (take (Z.to_nat n) old ++ drop (length old) b)
  end.

(** [strdup]: a copy of the string, or NULL. *)
Definition strdup `{Heap} (s : bytes) : option bytes :=
  match malloc (zlen s + 1) with
  | Some _ => Some s
  | None => None
  end.

Lemma realloc_ok `{HeapOk} p n q :
  realloc p n = Some q -> zlen (default [] p) <= n ->
  zlen q = n /\ n <= USER_SPACE /\ default [] p `prefix_of` q.
Proof.
  unfold realloc. destruct (malloc n) as [b|] eqn:E; [|done]. intros [= <-] Hle.
  apply heap_ok in E as [Hb Hn]. unfold zlen in *.
  rewrite take_ge by lia. split; [rewrite length_app, length_drop; lia|split; [done|by eexists]].
Qed.

(** ** Little-endian 32-bit fields *)

Definition le32_encode (z : Z) : bytes :=
  [byte_of_Z z; byte_of_Z (z / 256); byte_of_Z (z / 65536); byte_of_Z (z / 16777216)].

Definition le32_decode (b0 b1 b2 b3 : byte) : Z :=
  Z_of_byte b0 + 256 * Z_of_byte b1 + 65536 * Z_of_byte b2 + 16777216 * Z_of_byte b3.

Lemma le32_decode_encode z :
  0 <= z < 2 ^ 32 ->
  le32_decode (byte_of_Z z) (byte_of_Z (z / 256))
              (byte_of_Z (z / 65536)) (byte_of_Z (z / 16777216)) = z.
Proof.
  intros. unfold le32_decode. rewrite !Z_of_byte_of_Z. change (2 ^ 32) with 4294967296 in *.
  change 65536 with (256 * 256). change 16777216 with (256 * 256 * 256).
  rewrite <- !Z.div_div by lia.
  set (q1 := z / 256). set (q2 := q1 / 256). set (q3 := q2 / 256).
  pose proof (Z.div_mod z 256 ltac:(lia)). pose proof (Z.div_mod q1 256 ltac:(lia)).
  pose proof (Z.div_mod q2 256 ltac:(lia)).
  assert (0 <= q3 < 256) as Hq3.
  { unfold q3, q2, q1. rewrite !Z.div_div by lia. split.
    - apply Z.div_pos; lia.
    - apply Z.div_lt_upper_bound; lia. }
  rewrite (Z.mod_small q3 256) by lia. fold q2 in H2. fold q1 in H1, H2. lia.
Qed.

Lemma le32_decode_range b0 b1 b2 b3 : 0 <= le32_decode b0 b1 b2 b3 < 2 ^ 32.
Proof.
  unfold le32_decode.
  pose proof (Z_of_byte_range b0). pose proof (Z_of_byte_range b1).
  pose proof (Z_of_byte_range b2). pose proof (Z_of_byte_range b3).
  change (2 ^ 32) with 4294967296. lia.
Qed.
