(* ===== verification/RingBuffer.v ===== *)
(** * The framed ring buffer (c_ffi/ring_buffer.h, c_ffi/ring_buffer.c)

    The state [ring] is [ring_buffer_t]; every function of ring_buffer.c is a
    definition of the same name, with each [memcpy] checked against its two
    blocks, each [% capacity] against zero, and the mutex taken and released
    where the code does.  The lemmas of this file say what the internal
    helpers do to the circular contents; RingSpec.v refines the public
    functions to a queue of messages. *)

From S2P Require Import Prelude.

(** ** Constants of ring_buffer.h *)

Definition RB_MSG_STDOUT := 0.
Definition RB_MSG_STDERR := 1.
Definition RB_MSG_RESULT := 2.
Definition RB_MSG_R_ERROR := 3.
Definition RB_MSG_INTERNAL_ERROR := 4.
Definition RB_MSG_DONE := 5.
Definition RB_MSG_IMAGE := 6.
Definition RB_MSG_NOTICE := 7.
Definition RB_MSG_PASSTHROUGH := 8.
Definition RB_MSG_PASSTHROUGH_END := 9.
Definition RB_MSG_COMPLETIONS := 10.
Definition RB_MSG_READLINE := 11.

Definition RB_FLAG_NONE := 0.
Definition RB_FLAG_TRUNCATED := 1.

Definition RB_OK := 0.
Definition RB_EMPTY := 1.
Definition RB_TRUNCATED_COPY := 2.
Definition RB_ERROR := 3.

(** [sizeof(rb_frame_header_t)]: the struct is packed. *)
Definition RB_FRAME_HEADER_SIZE := 6.

(** ** Data *)

Record frame_header := {
  hdr_kind : Z;
  hdr_flags : Z;
  hdr_len : Z;
}.

(** The object representation of a header (little-endian host). *)
Definition header_bytes (h : frame_header) : bytes :=
  byte_of_Z (hdr_kind h) :: byte_of_Z (hdr_flags h) :: le32_encode (hdr_len h).

(** Reading a header object back; a block of another size is no header. *)
Definition header_of_bytes (b : bytes) : res frame_header :=
  match b with
  | [k; f; b0; b1; b2; b3] =>
      Ret {| hdr_kind := Z_of_byte k; hdr_flags := Z_of_byte f;
             hdr_len := le32_decode b0 b1 b2 b3 |}
  | _ => Fault OutOfBounds
  end.

(** An uninitialised header object. *)
Definition header_object : bytes := repeat Byte.x00 (Z.to_nat RB_FRAME_HEADER_SIZE).

Record ring := {
  rb_buf : option bytes;
  rb_capacity : Z;
  rb_head : Z;
  rb_tail : Z;
  rb_used : Z;
  rb_dropmsgs : Z;
  rb_dropbytes : Z;
  rb_lock : mutex;
}.

(** Assigning the cursors, the counters and the lock of a ring. *)
Definition set_buf_head_used (rb : ring) (b : bytes) (h u : Z) : ring :=
  {| rb_buf := Some b; rb_capacity := rb_capacity rb; rb_head := h;
     rb_tail := rb_tail rb; rb_used := u; rb_dropmsgs := rb_dropmsgs rb;
     rb_dropbytes := rb_dropbytes rb; rb_lock := rb_lock rb |}.

Definition set_tail_used (rb : ring) (t u : Z) : ring :=
  {| rb_buf := rb_buf rb; rb_capacity := rb_capacity rb; rb_head := rb_head rb;
     rb_tail := t; rb_used := u; rb_dropmsgs := rb_dropmsgs rb;
     rb_dropbytes := rb_dropbytes rb; rb_lock := rb_lock rb |}.

Definition set_dropped (rb : ring) (m b : Z) : ring :=
  {| rb_buf := rb_buf rb; rb_capacity := rb_capacity rb; rb_head := rb_head rb;
     rb_tail := rb_tail rb; rb_used := rb_used rb; rb_dropmsgs := m;
     rb_dropbytes := b; rb_lock := rb_lock rb |}.

Definition set_lock (rb : ring) (l : mutex) : ring :=
  {| rb_buf := rb_buf rb; rb_capacity := rb_capacity rb; rb_head := rb_head rb;
     rb_tail := rb_tail rb; rb_used := rb_used rb; rb_dropmsgs := rb_dropmsgs rb;
     rb_dropbytes := rb_dropbytes rb; rb_lock := l |}.

Definition lock_ring (rb : ring) : res ring :=
  l ← pthread_mutex_lock (rb_lock rb); Ret (set_lock rb l).

Definition unlock_ring (rb : ring) : res ring :=
  l ← pthread_mutex_unlock (rb_lock rb); Ret (set_lock rb l).

(** ** Internal helpers (caller holds the lock) *)

Definition ring_write (rb : ring) (src : bytes) (n : Z) : res ring :=
  b ← deref (rb_buf rb);
  let first := u64 (rb_capacity rb - rb_head rb) in
  b' ← (if n <=? first then memcpy b (rb_head rb) src 0 n
        else b1 ← memcpy b (rb_head rb) src 0 first;
             memcpy b1 0 src first (n - first));
  h ← size_mod (u64 (rb_head rb + n)) (rb_capacity rb);
  Ret (set_buf_head_used rb b' h (u64 (rb_used rb + n))).

(** Copying [n] bytes from the tail into [dst]: the common part of
    [ring_read] and [ring_peek]. *)
Definition ring_peek (rb : ring) (dst : bytes) (n : Z) : res bytes :=
  b ← deref (rb_buf rb);
  let first := u64 (rb_capacity rb - rb_tail rb) in
  if n <=? first then memcpy dst 0 b (rb_tail rb) n
  else d1 ← memcpy dst 0 b (rb_tail rb) first;
       memcpy d1 first b 0 (n - first).

Definition ring_read (rb : ring) (dst : bytes) (n : Z) : res (ring * bytes) :=
  b ← deref (rb_buf rb);
  let first := u64 (rb_capacity rb - rb_tail rb) in
  d ← (if n <=? first then memcpy dst 0 b (rb_tail rb) n
       else d1 ← memcpy dst 0 b (rb_tail rb) first;
            memcpy d1 first b 0 (n - first));
  t ← size_mod (u64 (rb_tail rb + n)) (rb_capacity rb);
  Ret (set_tail_used rb t (u64 (rb_used rb - n)), d).

Definition drop_oldest (rb : ring) : res (ring * Z) :=
  if rb_used rb <? RB_FRAME_HEADER_SIZE then Ret (rb, 0)
  else
    hb ← ring_peek rb header_object RB_FRAME_HEADER_SIZE;
    hdr ← header_of_bytes hb;
    let frame_size := RB_FRAME_HEADER_SIZE + hdr_len hdr in
    if rb_used rb <? frame_size then Ret (rb, 0)
    else
      t ← size_mod (u64 (rb_tail rb + frame_size)) (rb_capacity rb);
      let rb1 := set_tail_used rb t (u64 (rb_used rb - frame_size)) in
      Ret (set_dropped rb1 (u64 (rb_dropmsgs rb1 + 1))
                           (u64 (rb_dropbytes rb1 + hdr_len hdr)), frame_size).

(** ** Public API *)

(** [malloc] answers with a block or NULL; [pthread_mutex_init] with 0 or an
    error. *)
Definition rb_init (malloc : Z -> option bytes) (mutex_init : Z)
    (p : option ring) (capacity_bytes : Z) : option ring * Z :=
  match p with
  | None => (p, -1)
  | Some rb =>
      if capacity_bytes <? RB_FRAME_HEADER_SIZE + 1 then (p, -1)
      else
        match malloc capacity_bytes with
        | None =>
            (Some {| rb_buf := None; rb_capacity := rb_capacity rb;
                     rb_head := rb_head rb; rb_tail := rb_tail rb;
                     rb_used := rb_used rb; rb_dropmsgs := rb_dropmsgs rb;
                     rb_dropbytes := rb_dropbytes rb; rb_lock := rb_lock rb |}, -1)
        | Some b =>
            if negb (mutex_init =? 0) then
              (Some {| rb_buf := None; rb_capacity := capacity_bytes; rb_head := 0;
                       rb_tail := 0; rb_used := 0; rb_dropmsgs := 0;
                       rb_dropbytes := 0; rb_lock := rb_lock rb |}, -1)
            else
              (Some {| rb_buf := Some b; rb_capacity := capacity_bytes; rb_head := 0;
                       rb_tail := 0; rb_used := 0; rb_dropmsgs := 0;
                       rb_dropbytes := 0; rb_lock := MutexFree |}, 0)
        end
  end.

Definition rb_deinit (p : option ring) : res (option ring) :=
  match p with
  | None => Ret None
  | Some rb =>
      l ← pthread_mutex_destroy (rb_lock rb);
      Ret (Some {| rb_buf := None; rb_capacity := 0; rb_head := 0; rb_tail := 0;
                   rb_used := 0; rb_dropmsgs := rb_dropmsgs rb;
                   rb_dropbytes := rb_dropbytes rb; rb_lock := l |})
  end.

Definition rb_reset (p : option ring) : res (option ring) :=
  match p with
  | None => Ret None
  | Some rb =>
      rb1 ← lock_ring rb;
      rb2 ← unlock_ring
        {| rb_buf := rb_buf rb1; rb_capacity := rb_capacity rb1; rb_head := 0;
           rb_tail := 0; rb_used := 0; rb_dropmsgs := 0; rb_dropbytes := 0;
           rb_lock := rb_lock rb1 |};
      Ret (Some rb2)
  end.

(** [while (rb->used > 0) drop_oldest(rb);] *)
Fixpoint evict_all (fuel : nat) (rb : ring) : res ring :=
  if 0 <? rb_used rb then
    match fuel with
    | O => Fault OutOfFuel
    | S fuel' => '(rb', _) ← drop_oldest rb; evict_all fuel' rb'
    end
  else Ret rb.

(** [while (free_space < frame_size) { ... }] *)
Fixpoint evict_for (fuel : nat) (rb : ring) (free_space frame_size : Z) : res ring :=
  if free_space <? frame_size then
    match fuel with
    | O => Fault OutOfFuel
    | S fuel' =>
        '(rb', freed) ← drop_oldest rb;
        if freed =? 0 then Ret rb'
        else evict_for fuel' rb' (u64 (rb_capacity rb' - rb_used rb')) frame_size
    end
  else Ret rb.

(** Each round of either loop frees at least one header, so [used] rounds are
    enough; [rb_push_ok] in RingSpec.v proves it. *)
Definition loop_fuel (rb : ring) : nat := Z.to_nat (rb_used rb).

Definition rb_push (p : option ring) (kind flags : Z) (data : bytes) (len : Z)
    : res (option ring * Z) :=
  match p with
  | None => Ret (p, -1)
  | Some rb =>
      match rb_buf rb with
      | None => Ret (p, -1)
      | Some _ =>
          let frame_size := RB_FRAME_HEADER_SIZE + len in
          if rb_capacity rb <? frame_size then
            let max_payload := u32 (rb_capacity rb - RB_FRAME_HEADER_SIZE) in
            let flags := Z.lor flags RB_FLAG_TRUNCATED in
            rb1 ← lock_ring rb;
            rb2 ← evict_all (loop_fuel rb1) rb1;
            let hdr := {| hdr_kind := kind; hdr_flags := flags; hdr_len := max_payload |} in
            rb3 ← ring_write rb2 (header_bytes hdr) RB_FRAME_HEADER_SIZE;
            rb4 ← ring_write rb3 data max_payload;
            rb5 ← unlock_ring rb4;
            Ret (Some rb5, 0)
          else
            rb1 ← lock_ring rb;
            let free_space := u64 (rb_capacity rb1 - rb_used rb1) in
            rb2 ← evict_for (loop_fuel rb1) rb1 free_space frame_size;
            let hdr := {| hdr_kind := kind; hdr_flags := flags; hdr_len := len |} in
            rb3 ← ring_write rb2 (header_bytes hdr) RB_FRAME_HEADER_SIZE;
            rb4 ← ring_write rb3 data len;
            rb5 ← unlock_ring rb4;
            Ret (Some rb5, 0)
      end
  end.

Definition rb_has_data (p : option ring) : res (option ring * bool) :=
  match p with
  | None => Ret (None, false)
  | Some rb =>
      rb1 ← lock_ring rb;
      let has := RB_FRAME_HEADER_SIZE <=? rb_used rb1 in
      rb2 ← unlock_ring rb1;
      Ret (Some rb2, has)
  end.

(** What [rb_pop] leaves with its caller: the status it returns, what it stored
    in [*kind], [*flags] and [*out_len] (nothing on the early returns), and the
    contents of the caller's buffer. *)
Record pop_result := {
  pop_status : Z;
  pop_meta : option (Z * Z * Z);
  pop_out : bytes;
}.

Definition rb_pop (p : option ring) (out : bytes) (out_cap : Z)
    : res (option ring * pop_result) :=
  match p with
  | None => Ret (p, {| pop_status := RB_ERROR; pop_meta := None; pop_out := out |})
  | Some rb =>
      match rb_buf rb with
      | None => Ret (p, {| pop_status := RB_ERROR; pop_meta := None; pop_out := out |})
      | Some _ =>
          rb1 ← lock_ring rb;
          if rb_used rb1 <? RB_FRAME_HEADER_SIZE then
            rb2 ← unlock_ring rb1;
            Ret (Some rb2, {| pop_status := RB_EMPTY; pop_meta := None; pop_out := out |})
          else
            hb ← ring_peek rb1 header_object RB_FRAME_HEADER_SIZE;
            hdr ← header_of_bytes hb;
            if rb_used rb1 <? RB_FRAME_HEADER_SIZE + hdr_len hdr then
              rb2 ← unlock_ring rb1;
              Ret (Some rb2, {| pop_status := RB_ERROR; pop_meta := None; pop_out := out |})
            else
              t ← size_mod (u64 (rb_tail rb1 + RB_FRAME_HEADER_SIZE)) (rb_capacity rb1);
              let rb2 := set_tail_used rb1 t (u64 (rb_used rb1 - RB_FRAME_HEADER_SIZE)) in
              if hdr_len hdr <=? out_cap then
                '(rb3, out') ← ring_read rb2 out (hdr_len hdr);
                rb4 ← unlock_ring rb3;
                Ret (Some rb4,
                     {| pop_status := RB_OK;
                        pop_meta := Some (hdr_kind hdr, hdr_flags hdr, hdr_len hdr);
                        pop_out := out' |})
              else
                '(rb3, out') ← ring_read rb2 out out_cap;
                let remaining := hdr_len hdr - out_cap in
                t' ← size_mod (u64 (rb_tail rb3 + remaining)) (rb_capacity rb3);
                let rb4 := set_tail_used rb3 t' (u64 (rb_used rb3 - remaining)) in
                rb5 ← unlock_ring rb4;
                Ret (Some rb5,
                     {| pop_status := RB_TRUNCATED_COPY;
                        pop_meta := Some (hdr_kind hdr, hdr_flags hdr, out_cap);
                        pop_out := out' |})
      end
  end.

Definition rb_dropped_messages (p : option ring) : res (option ring * Z) :=
  match p with
  | None => Ret (None, 0)
  | Some rb =>
      rb1 ← lock_ring rb;
      let val := rb_dropmsgs rb1 in
      rb2 ← unlock_ring rb1;
      Ret (Some rb2, val)
  end.

Definition rb_dropped_bytes (p : option ring) : res (option ring * Z) :=
  match p with
  | None => Ret (None, 0)
  | Some rb =>
      rb1 ← lock_ring rb;
      let val := rb_dropbytes rb1 in
      rb2 ← unlock_ring rb1;
      Ret (Some rb2, val)
  end.

(** ** The circular contents and the structural invariant *)

(** The [u] bytes found from position [t] on, wrapping at the end of [b]. *)
Definition window (b : bytes) (t u : Z) : bytes :=
  take (Z.to_nat u) (drop (Z.to_nat t) (b ++ b)).

(** The bytes between the tail and the head. *)
Definition contents (rb : ring) : bytes :=
  match rb_buf rb with
  | Some b => window b (rb_tail rb) (rb_used rb)
  | None => []
  end.

(** The cursors of an initialised ring describe a window of its buffer. *)
Record ring_wf (rb : ring) : Prop := {
  wf_buf : exists b, rb_buf rb = Some b /\ zlen b = rb_capacity rb;
  wf_cap : 0 < rb_capacity rb <= PTRDIFF_MAX;
  wf_tail : 0 <= rb_tail rb < rb_capacity rb;
  wf_used : 0 <= rb_used rb <= rb_capacity rb;
  wf_head : rb_head rb = (rb_tail rb + rb_used rb) mod rb_capacity rb;
}.

(** Two rings that differ at most in their buffer and cursors. *)
Definition same_frame (rb rb' : ring) : Prop :=
  rb_capacity rb' = rb_capacity rb /\ rb_dropmsgs rb' = rb_dropmsgs rb /\
  rb_dropbytes rb' = rb_dropbytes rb /\ rb_lock rb' = rb_lock rb.

#[export] Instance same_frame_refl : Reflexive same_frame.
Proof. intros rb. repeat split. Qed.

#[export] Instance same_frame_trans : Transitive same_frame.
Proof. intros a b c (?&?&?&?) (?&?&?&?). repeat split; congruence. Qed.

(** *** Windows of a block *)

Lemma zlen_window b t u :
  0 <= t -> 0 <= u -> t + u <= 2 * zlen b -> zlen (window b t u) = u.
Proof.
  intros. unfold window. apply zlen_take. rewrite zlen_drop; rewrite zlen_app; lia.
Qed.

Lemma contents_len rb : ring_wf rb -> zlen (contents rb) = rb_used rb.
Proof.
  intros [(b & Hb & Hl) ???]. unfold contents. rewrite Hb. apply zlen_window; lia.
Qed.

(** A window that does not wrap, and one that does. *)
Lemma window_mid p d q t u :
  t = zlen p -> u = zlen d -> window (p ++ d ++ q) t u = d.
Proof.
  intros -> ->. unfold window, zlen. rewrite !Nat2Z.id, <- !app_assoc.
  rewrite drop_app_length. apply take_app_length.
Qed.

Lemma window_wrap d2 q d1 t u :
  t = zlen d2 + zlen q -> u = zlen d1 + zlen d2 ->
  window (d2 ++ q ++ d1) t u = d1 ++ d2.
Proof.
  intros -> ->. unfold window, zlen. rewrite <- !Nat2Z.inj_add, !Nat2Z.id, <- !app_assoc.
  rewrite (app_assoc d2 q), drop_app_length' by (rewrite length_app; lia).
  rewrite (app_assoc d1 d2). apply take_app_length'. rewrite length_app. lia.
Qed.

(** Reducing the start of a window modulo the block size. *)
Lemma window_mod b t u :
  0 <= t < 2 * zlen b -> 0 <= u -> t + u <= 2 * zlen b -> u <= zlen b ->
  window b (t mod zlen b) u = window b t u.
Proof.
  intros Ht Hu Htu Hub. rewrite mod_wrap_once by lia. zcase; [done|].
  unfold window, zlen in *. rewrite (drop_app_ge b b (Z.to_nat t)) by lia.
  rewrite drop_app_le, take_app_le by (rewrite ?length_drop; lia).
  do 2 f_equal. lia.
Qed.

Lemma window_take b t u i :
  0 <= i <= u -> take (Z.to_nat i) (window b t u) = window b t i.
Proof. intros. unfold window. rewrite take_take. f_equal. lia. Qed.

Lemma window_drop b t u i :
  0 <= t < zlen b -> 0 <= i <= u -> u <= zlen b ->
  drop (Z.to_nat i) (window b t u) = window b ((t + i) mod zlen b) (u - i).
Proof.
  intros. rewrite window_mod by lia. unfold window.
  rewrite skipn_firstn_comm, drop_drop. f_equal; [lia|]. f_equal. lia.
Qed.

(** Every window has one of the two shapes. *)
Lemma split_at (l : bytes) n :
  0 <= n <= zlen l -> exists l1 l2, l = l1 ++ l2 /\ zlen l1 = n.
Proof.
  intros. exists (take (Z.to_nat n) l), (drop (Z.to_nat n) l).
  rewrite take_drop. split; [done|]. by apply zlen_take.
Qed.

Lemma window_cases b t u :
  0 <= t < zlen b -> 0 <= u <= zlen b ->
  (t + u < zlen b /\ exists p q, b = p ++ window b t u ++ q /\ zlen p = t) \/
  (zlen b <= t + u /\ exists d2 q d1, b = d2 ++ q ++ d1 /\ window b t u = d1 ++ d2 /\
     zlen d1 = zlen b - t /\ zlen d2 = t + u - zlen b).
Proof.
  intros Ht Hu. destruct (Z.lt_ge_cases (t + u) (zlen b)); [left | right]; (split; [done|]).
  - destruct (split_at b t) as (p & r & -> & Hp); [lia|].
    rewrite zlen_app in *. destruct (split_at r u) as (d & q & -> & Hd); [lia|].
    exists p, q. split; [|done]. by rewrite window_mid.
  - destruct (split_at b t) as (p & d1 & -> & Hp); [lia|].
    rewrite zlen_app in *.
    destruct (split_at p (t + u - (zlen p + zlen d1))) as (d2 & q & -> & Hd); [lia|].
    zlens. exists d2, q, d1. rewrite <- app_assoc.
    split; [done|]. split; [|lia].
    apply window_wrap; lia.
Qed.

(** *** [memcpy] on blocks given in parts *)

Lemma memcpy_parts p r q src soff n off :
  off = zlen p -> n = zlen r -> 0 <= soff -> soff + n <= zlen src ->
  memcpy (p ++ r ++ q) off src soff n =
  Ret (p ++ take (Z.to_nat n) (drop (Z.to_nat soff) src) ++ q).
Proof.
  intros -> -> Hs Hl. rewrite memcpy_ok by (zlens; lia).
  f_equal. unfold zlen. rewrite !Nat2Z.id, take_app_length. do 2 f_equal.
  rewrite app_assoc. apply drop_app_length'. rewrite length_app. lia.
Qed.

Lemma memcpy_prefix r q src soff n :
  n = zlen r -> 0 <= soff -> soff + n <= zlen src ->
  memcpy (r ++ q) 0 src soff n = Ret (take (Z.to_nat n) (drop (Z.to_nat soff) src) ++ q).
Proof. intros. by apply (memcpy_parts [] r q). Qed.

(** [take] split where the source of a wrapped copy is. *)
Lemma take_split_at (src : bytes) n m :
  0 <= m <= n -> take (Z.to_nat m) src ++ take (Z.to_nat (n - m)) (drop (Z.to_nat m) src)
                 = take (Z.to_nat n) src.
Proof. intros. rewrite take_take_drop. f_equal. lia. Qed.

(** ** What the internal helpers do to the contents *)

(** The two-part copy of [ring_write], at the position after a window. *)
Lemma write_window b t u h src n :
  zlen b <= PTRDIFF_MAX -> 0 <= t < zlen b -> 0 <= u -> 0 <= n <= zlen src ->
  u + n <= zlen b -> h = (t + u) mod zlen b ->
  exists b',
    (let first := u64 (zlen b - h) in
     if n <=? first then memcpy b h src 0 n
     else b1 ← memcpy b h src 0 first; memcpy b1 0 src first (n - first)) = Ret b' /\
    zlen b' = zlen b /\ window b' t (u + n) = window b t u ++ take (Z.to_nat n) src.
Proof.
  intros Hc Ht Hu Hn Hun Hh. unfold PTRDIFF_MAX in Hc.
  rewrite mod_wrap_once in Hh by lia.
  assert (Hs : zlen (take (Z.to_nat n) src) = n) by (apply zlen_take; lia).
  destruct (window_cases b t u) as [(Hlt & p & q & Hb & Hp)|(Hge & d2 & q & d1 & Hb & Hw & H1 & H2)];
    [lia|lia| |].
  - assert (Hd : zlen (window b t u) = u) by (apply zlen_window; lia).
    revert Hb Hd. generalize (window b t u). intros d -> Hd.
    rewrite !zlen_app in *. rewrite (proj2 (Z.ltb_lt _ _)) in Hh by lia. subst h.
    rewrite u64_small by lia. cbn zeta. zcase.
    + destruct (split_at q n) as (r & q' & -> & Hr); [lia|].
      rewrite (app_assoc p d), memcpy_parts by (zlens; lia). eexists; split; [done|].
      rewrite drop_0. split; [zlens; lia|].
      rewrite <- app_assoc, (app_assoc d).
      apply window_mid; zlens; lia.
    + destruct (split_at p (n - zlen q)) as (r & p' & -> & Hr); [lia|].
      assert (Hf : zlen (take (Z.to_nat (zlen q)) src) = zlen q) by (apply zlen_take; lia).
      replace (zlen _ + _ - _) with (zlen q) by (zlens; lia).
      replace ((r ++ p') ++ d ++ q) with (((r ++ p') ++ d) ++ q ++ [])
        by (by rewrite app_nil_r, <- app_assoc).
      rewrite memcpy_parts by (zlens; lia). cbn [mbind res_mbind].
      rewrite app_nil_r, <- !app_assoc, memcpy_prefix by (zlens; lia).
      eexists; split; [done|].
      assert (Hr' : zlen (take (Z.to_nat (n - zlen q)) (drop (Z.to_nat (zlen q)) src)) = n - zlen q)
        by (apply zlen_take; rewrite zlen_drop; zlens; lia).
      rewrite drop_0, <- (take_split_at src n (zlen q)) by lia.
      split; [zlens; lia|]. rewrite (app_assoc d).
      apply window_wrap; zlens; lia.
  - rewrite Hw. clear Hw. subst b. rewrite !zlen_app in *.
    rewrite (proj2 (Z.ltb_ge _ _)) in Hh by lia. subst h.
    rewrite u64_small by (zlens; lia). cbn zeta.
    rewrite (proj2 (Z.leb_le _ _)) by (zlens; lia).
    destruct (split_at q n) as (r & q' & -> & Hr); [lia|].
    rewrite <- app_assoc, memcpy_parts by (zlens; lia). eexists; split; [done|].
    rewrite drop_0. split; [zlens; lia|].
    rewrite <- app_assoc, (app_assoc d2).
    apply window_wrap; zlens; lia.
Qed.

(** The two-part copy of [ring_peek] and [ring_read]: a prefix of a window. *)
Lemma read_window b t n dst :
  zlen b <= PTRDIFF_MAX -> 0 <= t < zlen b -> 0 <= n <= zlen b -> n <= zlen dst ->
  (let first := u64 (zlen b - t) in
   if n <=? first then memcpy dst 0 b t n
   else d1 ← memcpy dst 0 b t first; memcpy d1 first b 0 (n - first)) =
  Ret (window b t n ++ drop (Z.to_nat n) dst).
Proof.
  intros Hc Ht Hn Hd. unfold PTRDIFF_MAX in Hc.
  rewrite u64_small by lia. cbn zeta. unfold window. zcase.
  - rewrite memcpy_ok by lia. rewrite drop_app_le, take_app_le by (unfold zlen in *; rewrite ?length_drop; lia).
    done.
  - destruct (split_at dst n) as (d & d2 & -> & Hd1); [lia|].
    destruct (split_at d (zlen b - t)) as (e & f & -> & He); [lia|].
    zlens. rewrite <- !app_assoc, memcpy_prefix by lia. cbn [mbind res_mbind].
    assert (Hl : zlen (drop (Z.to_nat t) b) = zlen b - t) by (apply zlen_drop; lia).
    assert (Hf : forall k, k = zlen b - t -> take (Z.to_nat k) (drop (Z.to_nat t) b) = drop (Z.to_nat t) b)
      by (intros; apply take_ge; unfold zlen in *; lia).
    rewrite !Hf by lia.
    rewrite memcpy_parts by lia. f_equal. rewrite drop_0, app_assoc. f_equal.
    + rewrite drop_app_le by (unfold zlen in *; lia). symmetry.
      rewrite take_app, take_ge by (unfold zlen in *; lia). do 2 f_equal.
      unfold zlen in *. lia.
    + rewrite !app_assoc, drop_app_length'; [done|]. rewrite length_app. unfold zlen in *. lia.
Qed.

Section Helpers.

Context (rb : ring) (Hwf : ring_wf rb).

(** [ring_write] appends its bytes to the contents when they fit. *)
Lemma ring_write_ok src n :
  0 <= n <= zlen src -> n <= rb_capacity rb - rb_used rb ->
  exists rb', ring_write rb src n = Ret rb' /\ ring_wf rb' /\
    contents rb' = contents rb ++ take (Z.to_nat n) src /\
    rb_used rb' = rb_used rb + n /\ same_frame rb rb'.
Proof.
  intros Hn Hfit. destruct Hwf as [(b & Hb & Hl) Hc Ht Hu Hh].
  destruct (write_window b (rb_tail rb) (rb_used rb) (rb_head rb) src n)
    as (b' & Hw & Hl' & Hwin); [lia..|by rewrite Hl|].
  cbv zeta in Hw. unfold ring_write, size_mod. rewrite Hb, <- Hl. cbn [deref mbind res_mbind].
  rewrite Hw. cbn [mbind res_mbind]. rewrite (proj2 (Z.eqb_neq _ _)) by lia.
  cbn [mbind res_mbind]. unfold PTRDIFF_MAX in *.
  assert (0 <= rb_head rb < zlen b) by (rewrite Hh, Hl; apply Z.mod_pos_bound; lia).
  rewrite !u64_small by lia. eexists; split; [done|].
  split; [|split; [|split; [done|by repeat split]]].
  - split; cbn; [|unfold PTRDIFF_MAX; lia|lia|lia|].
    + eexists; split; [done|lia].
    + rewrite Hh, <- Hl, Zplus_mod_idemp_l. f_equal. lia.
  - unfold contents. rewrite Hb. exact Hwin.
Qed.

(** [ring_peek] reads a prefix of the contents. *)
Lemma ring_peek_ok dst n :
  0 <= n <= rb_used rb -> n <= zlen dst ->
  ring_peek rb dst n =
  Ret (take (Z.to_nat n) (contents rb) ++ drop (Z.to_nat n) dst).
Proof.
  intros Hn Hd. destruct Hwf as [(b & Hb & Hl) Hc Ht Hu Hh].
  unfold ring_peek, contents. rewrite Hb, <- Hl. cbn [deref mbind res_mbind].
  pose proof (read_window b (rb_tail rb) n dst) as Hr. cbv zeta in *.
  rewrite Hr by lia. by rewrite window_take by lia.
Qed.

(** Moving the tail over [n] bytes removes them from the contents. *)
Lemma advance_ok n :
  0 <= n <= rb_used rb ->
  exists t, size_mod (u64 (rb_tail rb + n)) (rb_capacity rb) = Ret t /\
    let rb' := set_tail_used rb t (u64 (rb_used rb - n)) in
    ring_wf rb' /\ contents rb' = drop (Z.to_nat n) (contents rb) /\
    rb_used rb' = rb_used rb - n.
Proof.
  intros Hn. destruct Hwf as [(b & Hb & Hl) Hc Ht Hu Hh].
  unfold size_mod, PTRDIFF_MAX in *. rewrite (proj2 (Z.eqb_neq _ _)) by lia.
  eexists; split; [done|]. cbv zeta. rewrite !u64_small by lia. split; [|split; [|done]].
  - split; cbn; [eauto|unfold PTRDIFF_MAX; lia|apply Z.mod_pos_bound; lia|lia|].
    rewrite Hh, Zplus_mod_idemp_l. f_equal. lia.
  - unfold contents. cbn. rewrite Hb, <- Hl. symmetry. apply window_drop; lia.
Qed.

Lemma ring_read_ok dst n :
  0 <= n <= rb_used rb -> n <= zlen dst ->
  exists rb', ring_read rb dst n =
      Ret (rb', take (Z.to_nat n) (contents rb) ++ drop (Z.to_nat n) dst) /\
    ring_wf rb' /\ contents rb' = drop (Z.to_nat n) (contents rb) /\
    rb_used rb' = rb_used rb - n /\ same_frame rb rb'.
Proof.
  intros Hn Hd. pose proof (ring_peek_ok dst n Hn Hd) as Hp.
  destruct (advance_ok n Hn) as (t & Ht & Hwf' & Hc' & Hu').
  unfold ring_peek in Hp. unfold ring_read. cbv zeta in *.
  destruct (rb_buf rb) as [b|] eqn:Hb; [|discriminate Hp]. cbn [deref mbind res_mbind] in *.
  rewrite Hp. cbn [mbind res_mbind]. rewrite Ht. cbn [mbind res_mbind].
  eexists; split; [done|]. split; [done|]. split; [done|]. split; [done|by repeat split].
Qed.

End Helpers.
