(* ===== verification/RingSpec.v ===== *)
(** * The ring buffer as a queue of messages

    The abstract specification of ring_buffer.c: a bounded queue of messages
    with the drop-oldest policy of c_ffi/STREAMING_FFI_PLAN.md, the relation
    [represents] between a [ring] and a queue, and the refinement of each
    public function and of every sequence of calls. *)

From S2P Require Import Prelude RingBuffer.

(** ** Messages and their frames *)

Record msg := {
  msg_kind : Z;
  msg_flags : Z;
  msg_data : bytes;
}.

Definition msg_wf (m : msg) : Prop :=
  0 <= msg_kind m < 256 /\ 0 <= msg_flags m < 256 /\ zlen (msg_data m) < 2 ^ 32.

Definition msg_header (m : msg) : frame_header :=
  {| hdr_kind := msg_kind m; hdr_flags := msg_flags m; hdr_len := zlen (msg_data m) |}.

Definition frame (m : msg) : bytes := header_bytes (msg_header m) ++ msg_data m.
#[global] Arguments frame : simpl never.

Fixpoint frames (q : list msg) : bytes :=
  match q with
  | [] => []
  | m :: q' => frame m ++ frames q'
  end.

Definition msg_size (m : msg) : Z := RB_FRAME_HEADER_SIZE + zlen (msg_data m).

(** Payload bytes of a list of messages: what [dropped_bytes] counts. *)
Fixpoint payload_bytes (q : list msg) : Z :=
  match q with
  | [] => 0
  | m :: q' => zlen (msg_data m) + payload_bytes q'
  end.

(** ** The specification: a bounded queue that drops its oldest messages *)

Record mqueue := {
  mq_capacity : Z;
  mq_msgs : list msg;
  mq_dropmsgs : Z;
  mq_dropbytes : Z;
}.

(** The messages to give up, oldest first, so that [need] more bytes fit. *)
Fixpoint evict (cap need : Z) (q : list msg) : list msg * list msg :=
  match q with
  | [] => ([], [])
  | m :: q' =>
      if zlen (frames q) + need <=? cap then ([], q)
      else let '(d, k) := evict cap need q' in (m :: d, k)
  end.

Definition count_dropped (a : mqueue) (d : list msg) (q : list msg) : mqueue :=
  {| mq_capacity := mq_capacity a; mq_msgs := q;
     mq_dropmsgs := u64 (mq_dropmsgs a + zlen d);
     mq_dropbytes := u64 (mq_dropbytes a + payload_bytes d) |}.

Definition spec_push (a : mqueue) (m : msg) : mqueue :=
  if mq_capacity a <? msg_size m then
    count_dropped a (mq_msgs a)
      [{| msg_kind := msg_kind m;
          msg_flags := Z.lor (msg_flags m) RB_FLAG_TRUNCATED;
          msg_data := take (Z.to_nat (mq_capacity a - RB_FRAME_HEADER_SIZE)) (msg_data m) |}]
  else
    let '(d, k) := evict (mq_capacity a) (msg_size m) (mq_msgs a) in
    count_dropped a d (k ++ [m]).

(** Popping into a buffer [out] of which [out_cap] bytes may be written. *)
Definition spec_pop (a : mqueue) (out : bytes) (out_cap : Z) : mqueue * pop_result :=
  match mq_msgs a with
  | [] => (a, {| pop_status := RB_EMPTY; pop_meta := None; pop_out := out |})
  | m :: q =>
      let n := Z.min (zlen (msg_data m)) out_cap in
      ({| mq_capacity := mq_capacity a; mq_msgs := q;
          mq_dropmsgs := mq_dropmsgs a; mq_dropbytes := mq_dropbytes a |},
       {| pop_status := if zlen (msg_data m) <=? out_cap then RB_OK else RB_TRUNCATED_COPY;
          pop_meta := Some (msg_kind m, msg_flags m, n);
          pop_out := take (Z.to_nat n) (msg_data m) ++ drop (Z.to_nat n) out |})
  end.

Definition spec_reset (a : mqueue) : mqueue :=
  {| mq_capacity := mq_capacity a; mq_msgs := []; mq_dropmsgs := 0; mq_dropbytes := 0 |}.

(** ** The representation relation *)

(** [rb], with its lock in state [l], holds the frames of [a]'s messages. *)
Record represents_in (l : mutex) (rb : ring) (a : mqueue) : Prop := {
  rep_wf : ring_wf rb;
  rep_cap : rb_capacity rb = mq_capacity a;
  rep_cap_min : RB_FRAME_HEADER_SIZE < mq_capacity a;
  rep_contents : contents rb = frames (mq_msgs a);
  rep_msgs : Forall msg_wf (mq_msgs a);
  rep_dropmsgs : rb_dropmsgs rb = mq_dropmsgs a;
  rep_dropbytes : rb_dropbytes rb = mq_dropbytes a;
  rep_counters : 0 <= mq_dropmsgs a < 2 ^ 64 /\ 0 <= mq_dropbytes a < 2 ^ 64;
  rep_lock : rb_lock rb = l;
}.

Abbreviation represents := (represents_in MutexFree).

(** ** Frames *)

Lemma zlen_frame m : zlen (frame m) = msg_size m.
Proof. unfold frame, msg_size, RB_FRAME_HEADER_SIZE, zlen. rewrite length_app. cbn. lia. Qed.

#[export] Hint Rewrite zlen_frame : raoui_len.

Lemma frames_app q1 q2 : frames (q1 ++ q2) = frames q1 ++ frames q2.
Proof. induction q1; cbn; [done|]. by rewrite IHq1, app_assoc. Qed.

Lemma payload_bytes_app q1 q2 :
  payload_bytes (q1 ++ q2) = payload_bytes q1 + payload_bytes q2.
Proof. induction q1; cbn; lia. Qed.

Lemma payload_bytes_nonneg q : 0 <= payload_bytes q.
Proof. induction q; cbn; zlens; lia. Qed.

Lemma header_roundtrip h :
  0 <= hdr_kind h < 256 -> 0 <= hdr_flags h < 256 -> 0 <= hdr_len h < 2 ^ 32 ->
  header_of_bytes (header_bytes h) = Ret h.
Proof.
  intros Hk Hf Hl. destruct h as [k f n]. cbn in *.
  rewrite !Z_of_byte_of_Z_small, le32_decode_encode by done. done.
Qed.

(** Peeking at a ring whose contents begin with a frame reads its header. *)
Lemma peek_frame m rest :
  msg_wf m ->
  header_of_bytes (take (Z.to_nat RB_FRAME_HEADER_SIZE) (frame m ++ rest) ++
                   drop (Z.to_nat RB_FRAME_HEADER_SIZE) header_object)
  = Ret (msg_header m).
Proof.
  intros (Hk & Hf & Hl). pose proof (zlen_nonneg (msg_data m)).
  exact (header_roundtrip (msg_header m) Hk Hf (conj H Hl)).
Qed.

Lemma drop_frame_header m rest :
  drop (Z.to_nat RB_FRAME_HEADER_SIZE) (frame m ++ rest) = msg_data m ++ rest.
Proof. reflexivity. Qed.

Lemma drop_frame m rest :
  drop (Z.to_nat (msg_size m)) (frame m ++ rest) = rest.
Proof.
  apply drop_app_length'. rewrite <- zlen_frame. unfold zlen. lia.
Qed.

Lemma rep_used l rb a :
  represents_in l rb a -> rb_used rb = zlen (frames (mq_msgs a)).
Proof. intros H. by rewrite <- (contents_len rb (rep_wf _ _ _ H)), (rep_contents _ _ _ H). Qed.

Lemma zlen_frames_zero q : zlen (frames q) <= 0 -> q = [].
Proof.
  destruct q as [|m q]; [done|]. cbn. zlens. unfold msg_size, RB_FRAME_HEADER_SIZE.
  zlens. lia.
Qed.

(** Less than a header of contents means no message. *)
Lemma frames_small q : zlen (frames q) < RB_FRAME_HEADER_SIZE <-> q = [].
Proof.
  split; [|by intros ->]. destruct q as [|m q]; [done|]. cbn. zlens.
  unfold msg_size in *. zlens. lia.
Qed.

Lemma count_dropped_nil a q :
  0 <= mq_dropmsgs a < 2 ^ 64 /\ 0 <= mq_dropbytes a < 2 ^ 64 ->
  mq_msgs a = q -> count_dropped a [] q = a.
Proof.
  intros [? ?] <-. destruct a. unfold count_dropped. cbn in *. rewrite zlen_nil, !Z.add_0_r.
  by rewrite !u64_small.
Qed.

Lemma count_dropped_app a d1 q1 d2 q2 :
  count_dropped (count_dropped a d1 q1) d2 q2 = count_dropped a (d1 ++ d2) q2.
Proof.
  unfold count_dropped. cbn. rewrite !u64_add_l, payload_bytes_app, zlen_app.
  f_equal; f_equal; lia.
Qed.

(** ** Eviction *)

Lemma drop_oldest_nil l rb a :
  represents_in l rb a -> mq_msgs a = [] -> drop_oldest rb = Ret (rb, 0).
Proof.
  intros H Hq. unfold drop_oldest. rewrite (rep_used _ _ _ H), Hq. done.
Qed.

Lemma drop_oldest_cons l rb a m q :
  represents_in l rb a -> mq_msgs a = m :: q ->
  exists rb', drop_oldest rb = Ret (rb', msg_size m) /\
    represents_in l rb' (count_dropped a [m] q).
Proof.
  intros H Hq. pose proof (rep_used _ _ _ H) as Hu. rewrite Hq in Hu. cbn in Hu. zlens.
  destruct H as [Hwf Hc Hmin Hcont Hms Hdm Hdb Hcnt Hl].
  rewrite Hq in *. apply Forall_cons_1 in Hms as [Hm Hms].
  assert (Hsz : msg_size m = RB_FRAME_HEADER_SIZE + zlen (msg_data m)) by done.
  pose proof (zlen_nonneg (msg_data m)).
  unfold drop_oldest. rewrite (proj2 (Z.ltb_ge _ _)) by lia.
  rewrite ring_peek_ok by (try done; unfold header_object, RB_FRAME_HEADER_SIZE in *; cbn; lia).
  cbn [mbind res_mbind]. rewrite Hcont. cbn [frames].
  rewrite peek_frame by done. cbn [mbind res_mbind msg_header hdr_len].
  rewrite <- Hsz, (proj2 (Z.ltb_ge _ _)) by lia.
  destruct (advance_ok rb Hwf (msg_size m)) as (t & Ht & Hwf' & Hc' & Hu');
    [unfold RB_FRAME_HEADER_SIZE in *; lia|].
  rewrite Ht. cbn [mbind res_mbind]. eexists; split; [done|].
  split; cbn; try done.
  - by destruct Hwf'; split.
  - transitivity (drop (Z.to_nat (msg_size m)) (contents rb)); [exact Hc'|].
    rewrite Hcont. cbn [frames]. apply drop_frame.
  - by rewrite Hdm.
  - rewrite Hdb. f_equal. lia.
  - split; apply u64_range.
Qed.

Lemma evict_all_ok l fuel rb a :
  represents_in l rb a -> (Z.to_nat (rb_used rb) <= fuel)%nat ->
  exists rb', evict_all fuel rb = Ret rb' /\
    represents_in l rb' (count_dropped a (mq_msgs a) []).
Proof.
  revert rb a. induction fuel as [|fuel IH]; intros rb a H Hf;
    pose proof (rep_used _ _ _ H) as Hu; destruct (mq_msgs a) as [|m q] eqn:Hq.
  1, 3: exists rb; unfold evict_all; rewrite Hu; (split; [done|]);
    rewrite count_dropped_nil; [done|apply H|done].
  - rewrite Hu in Hf. cbn in Hf. zlens. unfold msg_size, RB_FRAME_HEADER_SIZE in Hf.
    zlens. lia.
  - destruct (drop_oldest_cons l rb a m q H Hq) as (rb1 & Hd & H1).
    destruct (IH rb1 _ H1) as (rb2 & He & H2).
    { rewrite (rep_used _ _ _ H1). rewrite Hu in Hf. cbn in Hf |- *. zlens.
      unfold msg_size, RB_FRAME_HEADER_SIZE in Hf. zlens. lia. }
    exists rb2. cbn [evict_all]. rewrite (proj2 (Z.ltb_lt _ _)).
    2:{ rewrite Hu. cbn. zlens. unfold msg_size, RB_FRAME_HEADER_SIZE. zlens. lia. }
    rewrite Hd. cbn [mbind res_mbind]. split; [done|].
    revert H2. cbn [mq_msgs count_dropped]. by rewrite count_dropped_app.
Qed.

(** [evict] gives up no more than it has to. *)
Lemma evict_split cap need q d k : evict cap need q = (d, k) -> q = d ++ k.
Proof.
  revert d k. induction q as [|m q IH]; cbn; intros d k.
  - by intros [= <- <-].
  - case_match; [by intros [= <- <-]|].
    destruct (evict cap need q) as [d' k']. intros [= <- <-]. by rewrite (IH d' k').
Qed.

Lemma evict_fits cap need q d k :
  need <= cap -> evict cap need q = (d, k) -> zlen (frames k) + need <= cap.
Proof.
  intros Hn. revert d k. induction q as [|m q IH]; cbn [evict]; intros d k.
  - intros [= <- <-]. cbn. zlens. lia.
  - destruct (zlen (frames (m :: q)) + need <=? cap) eqn:E; zbool; [by intros [= <- <-]|].
    destruct (evict cap need q) as [d' k']. intros [= <- <-]. by apply IH with (d := d').
Qed.

Lemma evict_minimal cap need q d m k :
  evict cap need q = (d ++ [m], k) -> cap < zlen (frames (m :: k)) + need.
Proof.
  revert d. induction q as [|m' q IH]; cbn [evict]; intros d.
  - by intros [= E]; destruct d.
  - destruct (zlen (frames (m' :: q)) + need <=? cap) eqn:E; zbool.
    + by intros [= E']; destruct d.
    + destruct (evict cap need q) as [d' k'] eqn:Hev. intros [= Hd ->].
      destruct d as [|x d]; cbn in Hd; injection Hd as -> ->; [|eauto].
      by rewrite (evict_split _ _ _ _ _ Hev) in E.
Qed.

Lemma evict_for_ok l fuel need rb a d k :
  represents_in l rb a -> (Z.to_nat (rb_used rb) <= fuel)%nat ->
  need <= rb_capacity rb -> evict (mq_capacity a) need (mq_msgs a) = (d, k) ->
  exists rb', evict_for fuel rb (u64 (rb_capacity rb - rb_used rb)) need = Ret rb' /\
    represents_in l rb' (count_dropped a d k).
Proof.
  intros H Hf Hneed. revert rb a d k H Hf Hneed.
  induction fuel as [|fuel IH]; intros rb a d k H Hf Hneed Hev;
    pose proof (rep_used _ _ _ H) as Hu; pose proof (rep_wf _ _ _ H) as [_ Hcap _ Hus _];
    pose proof (rep_cap _ _ _ H) as Hc; unfold PTRDIFF_MAX in Hcap;
    rewrite (u64_small (rb_capacity rb - rb_used rb)) by lia;
    destruct (mq_msgs a) as [|m q] eqn:Hq; cbn [evict] in Hev.
  1, 3: injection Hev as <- <-; exists rb; unfold evict_for; cbn in Hu; rewrite Hu, zlen_nil;
    rewrite (proj2 (Z.ltb_ge _ _)) by lia; (split; [done|]);
    rewrite count_dropped_nil; [done|apply H|done].
  - rewrite Hu in Hf. cbn in Hf. zlens. unfold msg_size, RB_FRAME_HEADER_SIZE in Hf.
    zlens. lia.
  - cbn [evict_for]. destruct (zlen (frames (m :: q)) + need <=? mq_capacity a) eqn:E; zbool.
    + injection Hev as <- <-. exists rb. rewrite (proj2 (Z.ltb_ge _ _)) by lia.
      split; [done|]. rewrite count_dropped_nil; [done|apply H|done].
    + destruct (evict (mq_capacity a) need q) as [d' k'] eqn:Hev'. injection Hev as <- <-.
      destruct (drop_oldest_cons l rb a m q H Hq) as (rb1 & Hd & H1).
      assert (Hsz : 0 < msg_size m)
        by (unfold msg_size, RB_FRAME_HEADER_SIZE; zlens; lia).
      destruct (IH rb1 _ d' k' H1) as (rb2 & He & H2).
      { rewrite (rep_used _ _ _ H1). rewrite Hu in Hf. cbn in Hf |- *. zlens. lia. }
      { rewrite (rep_cap _ _ _ H1). cbn. lia. }
      { exact Hev'. }
      exists rb2. rewrite (proj2 (Z.ltb_lt _ _)) by lia. rewrite Hd. cbn [mbind res_mbind].
      rewrite (proj2 (Z.eqb_neq _ _)) by lia. split; [done|].
      by rewrite count_dropped_app in H2.
Qed.

(** ** Taking and releasing the lock *)

Lemma lock_ring_ok rb a :
  represents rb a ->
  exists rb', lock_ring rb = Ret rb' /\ represents_in MutexHeld rb' a /\
    rb_capacity rb' = rb_capacity rb /\ rb_used rb' = rb_used rb.
Proof.
  intros [[] ???????]. unfold lock_ring. rewrite rep_lock0. eexists; split; [done|].
  split; [|done]. by split; [split|..].
Qed.

Lemma unlock_ring_ok rb a :
  represents_in MutexHeld rb a ->
  exists rb', unlock_ring rb = Ret rb' /\ represents rb' a.
Proof.
  intros [[] ???????]. unfold unlock_ring. rewrite rep_lock0. eexists; split; [done|].
  by split; [split|..].
Qed.

(** ** Writing one frame *)

Definition enqueue (a : mqueue) (m : msg) : mqueue :=
  {| mq_capacity := mq_capacity a; mq_msgs := mq_msgs a ++ [m];
     mq_dropmsgs := mq_dropmsgs a; mq_dropbytes := mq_dropbytes a |}.

Lemma header_bytes_len h : zlen (header_bytes h) = RB_FRAME_HEADER_SIZE.
Proof. reflexivity. Qed.

Lemma write_frame_ok l rb a m data n :
  represents_in l rb a -> msg_wf m ->
  zlen (frames (mq_msgs a)) + msg_size m <= mq_capacity a ->
  0 <= n <= zlen data -> take (Z.to_nat n) data = msg_data m ->
  exists rb1 rb2,
    ring_write rb (header_bytes (msg_header m)) RB_FRAME_HEADER_SIZE = Ret rb1 /\
    ring_write rb1 data n = Ret rb2 /\ represents_in l rb2 (enqueue a m).
Proof.
  intros H Hm Hfit Hn Hdata. pose proof (rep_used _ _ _ H) as Hu.
  destruct H as [Hwf Hc Hmin Hcont Hms Hdm Hdb Hcnt Hl].
  assert (Hnd : zlen (msg_data m) = n) by (rewrite <- Hdata; apply zlen_take; lia).
  unfold msg_size in Hfit. assert (Hh : 0 <= RB_FRAME_HEADER_SIZE) by done.
  destruct (ring_write_ok rb Hwf (header_bytes (msg_header m)) RB_FRAME_HEADER_SIZE)
    as (rb1 & E1 & Hwf1 & Hc1 & Hu1 & (S1 & S2 & S3 & S4)); [done|lia|].
  destruct (ring_write_ok rb1 Hwf1 data n)
    as (rb2 & E2 & Hwf2 & Hc2 & Hu2 & (T1 & T2 & T3 & T4)); [done|lia|].
  exists rb1, rb2. split; [done|]. split; [done|].
  split; cbn; try congruence.
  - rewrite Hc2, Hc1, Hcont, frames_app, Hdata. cbn. unfold frame.
    by rewrite app_nil_r, <- app_assoc.
  - by apply Forall_app_2; [|apply Forall_singleton].
Qed.

Lemma lor_1_byte f : 0 <= f < 256 -> 0 <= Z.lor f 1 < 256.
Proof.
  intros. split; [apply Z.lor_nonneg; lia|].
  destruct (Z.eq_dec f 0) as [->|]; [done|].
  apply Z.log2_lt_cancel. rewrite Z.log2_lor by lia.
  change (Z.log2 1) with 0. pose proof (Z.log2_nonneg f).
  assert (Z.log2 f < Z.log2 256); [|lia].
  apply (Z.log2_lt_pow2 f 8); lia.
Qed.

(** ** Refinement of the public functions *)

(** The message [rb_push] is asked to store. *)
Definition push_msg (kind flags : Z) (data : bytes) (len : Z) : msg :=
  {| msg_kind := kind; msg_flags := flags; msg_data := take (Z.to_nat len) data |}.

Section Push.

Context (rb : ring) (a : mqueue) (kind flags : Z) (data : bytes) (len : Z).
Hypothesis Hrep : represents rb a.
Hypothesis Hkind : 0 <= kind < 256.
Hypothesis Hflags : 0 <= flags < 256.
Hypothesis Hlen : 0 <= len <= zlen data.
Hypothesis Hlen32 : len < 2 ^ 32.

Let m := push_msg kind flags data len.

Lemma push_msg_len : zlen (msg_data m) = len.
Proof. apply zlen_take; lia. Qed.

Lemma push_msg_size : msg_size m = RB_FRAME_HEADER_SIZE + len.
Proof. unfold msg_size. by rewrite push_msg_len. Qed.

Lemma rb_push_oversize :
  rb_capacity rb < RB_FRAME_HEADER_SIZE + len ->
  exists rb', rb_push (Some rb) kind flags data len = Ret (Some rb', 0) /\
    represents rb' (spec_push a m).
Proof.
  intros Ec. destruct (lock_ring_ok rb a Hrep) as (rb1 & E1 & H1 & C1 & U1).
  pose proof (wf_buf _ (rep_wf _ _ _ Hrep)) as (b & Hb & _).
  pose proof (rep_cap_min _ _ _ Hrep) as Hmin.
  pose proof (eq_refl : RB_FRAME_HEADER_SIZE = 6) as E6.
  unfold rb_push, spec_push. rewrite <- (rep_cap _ _ _ Hrep) in Hmin |- *.
  rewrite Hb, push_msg_size, (proj2 (Z.ltb_lt _ _)) by done.
  rewrite E1. cbn [mbind res_mbind].
  destruct (evict_all_ok _ (loop_fuel rb1) rb1 a H1) as (rb2 & E2 & H2); [done|].
  rewrite E2. cbn [mbind res_mbind].
  set (mt := {| msg_kind := _; msg_flags := _; msg_data := _ |}).
  assert (Hmt : zlen (msg_data mt) = rb_capacity rb - RB_FRAME_HEADER_SIZE)
    by (apply zlen_take; rewrite push_msg_len; lia).
  rewrite u32_small by lia.
  destruct (write_frame_ok _ rb2 _ mt data (rb_capacity rb - RB_FRAME_HEADER_SIZE) H2)
    as (rb3 & rb4 & E3 & E4 & H4).
  - split; [done|]. split; [apply (lor_1_byte flags Hflags)|lia].
  - cbn. unfold msg_size. rewrite Hmt, <- (rep_cap _ _ _ Hrep). zlens. lia.
  - lia.
  - cbn. rewrite take_take. f_equal. lia.
  - assert (Hh : msg_header mt = {| hdr_kind := kind;
      hdr_flags := Z.lor flags RB_FLAG_TRUNCATED;
      hdr_len := rb_capacity rb - RB_FRAME_HEADER_SIZE |}) by (unfold msg_header; by rewrite Hmt).
    rewrite Hh in E3. rewrite E3. cbn [mbind res_mbind].
    rewrite E4. cbn [mbind res_mbind].
    destruct (unlock_ring_ok rb4 _ H4) as (rb5 & E5 & H5). rewrite E5.
    exists rb5. by split.
Qed.

Lemma rb_push_fits :
  RB_FRAME_HEADER_SIZE + len <= rb_capacity rb ->
  exists rb', rb_push (Some rb) kind flags data len = Ret (Some rb', 0) /\
    represents rb' (spec_push a m).
Proof.
  intros Ec. destruct (lock_ring_ok rb a Hrep) as (rb1 & E1 & H1 & C1 & U1).
  pose proof (wf_buf _ (rep_wf _ _ _ Hrep)) as (b & Hb & _).
  pose proof (rep_cap _ _ _ Hrep) as Hcap.
  unfold rb_push, spec_push. rewrite Hb, <- Hcap, push_msg_size.
  rewrite (proj2 (Z.ltb_ge _ _)), E1 by lia. cbn [mbind res_mbind].
  destruct (evict (mq_capacity a) (msg_size m) (mq_msgs a)) as [d k] eqn:Hev.
  rewrite push_msg_size in Hev.
  destruct (evict_for_ok _ (loop_fuel rb1) (RB_FRAME_HEADER_SIZE + len) rb1 a d k H1) as (rb2 & E2 & H2);
    [done| |exact Hev|]; [lia|].
  rewrite E2. cbn [mbind res_mbind].
  destruct (write_frame_ok _ rb2 _ m data len H2) as (rb3 & rb4 & E3 & E4 & H4).
  - split; [done|]. split; [done|]. by rewrite push_msg_len.
  - cbn. rewrite push_msg_size. apply (evict_fits _ _ (mq_msgs a) d); [lia|exact Hev].
  - lia.
  - done.
  - assert (Hh : msg_header m = {| hdr_kind := kind; hdr_flags := flags; hdr_len := len |})
      by (unfold msg_header; by rewrite push_msg_len).
    rewrite Hh in E3. rewrite E3. cbn [mbind res_mbind].
    rewrite E4. cbn [mbind res_mbind].
    destruct (unlock_ring_ok rb4 _ H4) as (rb5 & E5 & H5). rewrite E5.
    exists rb5. split; [done|]. by rewrite Hcap, Hev.
Qed.

Lemma rb_push_ok :
  exists rb', rb_push (Some rb) kind flags data len = Ret (Some rb', 0) /\
    represents rb' (spec_push a m).
Proof.
  destruct (Z.lt_ge_cases (rb_capacity rb) (RB_FRAME_HEADER_SIZE + len));
    auto using rb_push_oversize, rb_push_fits.
Qed.

End Push.

(** *** Popping *)

(** A ring left with the frames of the later messages. *)
Lemma rep_tail l rb a m q rb' :
  represents_in l rb a -> mq_msgs a = m :: q -> ring_wf rb' -> same_frame rb rb' ->
  contents rb' = frames q ->
  represents_in l rb' {| mq_capacity := mq_capacity a; mq_msgs := q;
    mq_dropmsgs := mq_dropmsgs a; mq_dropbytes := mq_dropbytes a |}.
Proof.
  intros [] Hq Hwf (S1 & S2 & S3 & S4) Hc. rewrite Hq in *.
  split; cbn; try congruence. by apply Forall_cons_1 in rep_msgs0 as [].
Qed.

Lemma read_payload_ok rb data rest out n :
  ring_wf rb -> contents rb = data ++ rest -> 0 <= n <= zlen data -> n <= zlen out ->
  exists rb', ring_read rb out n =
      Ret (rb', take (Z.to_nat n) data ++ drop (Z.to_nat n) out) /\
    ring_wf rb' /\ contents rb' = drop (Z.to_nat n) data ++ rest /\ same_frame rb rb'.
Proof.
  intros Hwf Hc Hn Hout. pose proof (contents_len rb Hwf) as Hl.
  rewrite Hc, zlen_app in Hl. pose proof (zlen_nonneg rest).
  destruct (ring_read_ok rb Hwf out n) as (rb' & E & Hwf' & Hc' & _ & Hs); [lia|done|].
  exists rb'. rewrite E, Hc', Hc. unfold zlen in *.
  rewrite take_app_le, drop_app_le by lia. done.
Qed.

Lemma skip_ok rb data rest n :
  ring_wf rb -> contents rb = data ++ rest -> n = zlen data ->
  exists t, size_mod (u64 (rb_tail rb + n)) (rb_capacity rb) = Ret t /\
    let rb' := set_tail_used rb t (u64 (rb_used rb - n)) in
    ring_wf rb' /\ contents rb' = rest /\ same_frame rb rb'.
Proof.
  intros Hwf Hc ->. pose proof (contents_len rb Hwf) as Hl. rewrite Hc in Hl. zlens.
  destruct (advance_ok rb Hwf (zlen data)) as (t & E & Hwf' & Hc' & _); [lia|].
  exists t. split; [done|]. split; [done|]. split; [|by repeat split].
  cbv zeta in Hc'. rewrite Hc', Hc. unfold zlen. by rewrite Nat2Z.id, drop_app_length.
Qed.

Section Pop.

Context (rb : ring) (a : mqueue) (m : msg) (q : list msg).
Hypothesis Hrep : represents_in MutexHeld rb a.
Hypothesis Hq : mq_msgs a = m :: q.

(** The header of the first message is peeked, then stepped over. *)
Lemma pop_header_ok :
  exists hb t,
    (rb_used rb <? RB_FRAME_HEADER_SIZE) = false /\
    ring_peek rb header_object RB_FRAME_HEADER_SIZE = Ret hb /\
    header_of_bytes hb = Ret (msg_header m) /\
    (rb_used rb <? RB_FRAME_HEADER_SIZE + zlen (msg_data m)) = false /\
    size_mod (u64 (rb_tail rb + RB_FRAME_HEADER_SIZE)) (rb_capacity rb) = Ret t /\
    let rb' := set_tail_used rb t (u64 (rb_used rb - RB_FRAME_HEADER_SIZE)) in
    ring_wf rb' /\ contents rb' = msg_data m ++ frames q /\ same_frame rb rb'.
Proof.
  pose proof (rep_used _ _ _ Hrep) as Hu. destruct Hrep as [Hwf Hc Hmin Hcont Hms _ _ _ _].
  rewrite Hq in Hu, Hms, Hcont. apply Forall_cons_1 in Hms as [Hm _].
  cbn in Hu. rewrite zlen_app, zlen_frame in Hu. unfold msg_size in Hu.
  pose proof (eq_refl : RB_FRAME_HEADER_SIZE = 6) as E6.
  pose proof (zlen_nonneg (msg_data m)). pose proof (zlen_nonneg (frames q)).
  destruct (skip_ok rb (header_bytes (msg_header m)) (msg_data m ++ frames q) RB_FRAME_HEADER_SIZE)
    as (t & Ht & Hskip); [done| |done|].
  { rewrite Hcont. cbn [frames]. unfold frame. by rewrite <- app_assoc. }
  eexists _, t. split; [apply Z.ltb_ge; lia|].
  split; [apply ring_peek_ok; [done|lia|done]|].
  split; [rewrite Hcont; by apply peek_frame|]. split; [apply Z.ltb_ge; lia|done].
Qed.
End Pop.

Lemma rb_pop_ok rb a out out_cap :
  represents rb a -> 0 <= out_cap <= zlen out ->
  exists rb', rb_pop (Some rb) out out_cap = Ret (Some rb', snd (spec_pop a out out_cap)) /\
    represents rb' (fst (spec_pop a out out_cap)).
Proof.
  intros H Hout. destruct (lock_ring_ok rb a H) as (rb1 & E1 & H1 & C1 & U1).
  pose proof (wf_buf _ (rep_wf _ _ _ H)) as (b & Hb & _).
  unfold rb_pop, spec_pop. rewrite Hb, E1. cbn [mbind res_mbind].
  destruct (mq_msgs a) as [|m q] eqn:Hq.
  { rewrite (rep_used _ _ _ H1), Hq. cbn.
    destruct (unlock_ring_ok rb1 a H1) as (rb2 & E2 & H2). rewrite E2. exists rb2. by split. }
  destruct (pop_header_ok rb1 a m q H1 Hq) as (hb & t & -> & -> & E3 & E4 & E5 & W2 & K2 & S2).
  cbn [mbind res_mbind]. rewrite E3. cbn [mbind res_mbind msg_header hdr_len hdr_kind hdr_flags].
  rewrite E4, E5. cbn [mbind res_mbind]. set (rb2 := set_tail_used _ _ _) in *.
  pose proof (zlen_nonneg (msg_data m)). destruct (zlen (msg_data m) <=? out_cap) eqn:E; zbool.
  - destruct (read_payload_ok rb2 _ _ out (zlen (msg_data m)) W2 K2)
      as (rb3 & E6 & W3 & K3 & S3); [lia|lia|].
    rewrite E6, Z.min_l by lia. cbn [mbind res_mbind].
    rewrite (drop_ge (msg_data m)) in K3 by (unfold zlen; lia).
    destruct (unlock_ring_ok rb3 _ (rep_tail _ _ a m q rb3 H1 Hq W3 ltac:(by etransitivity) K3))
      as (rb4 & E7 & H4).
    rewrite E7. exists rb4. by split.
  - destruct (read_payload_ok rb2 _ _ out out_cap W2 K2) as (rb3 & E6 & W3 & K3 & S3); [lia|lia|].
    rewrite E6, Z.min_r by lia. cbn [mbind res_mbind].
    destruct (skip_ok rb3 _ _ (zlen (msg_data m) - out_cap) W3 K3) as (t' & E7 & W4 & K4 & S4);
      [symmetry; apply zlen_drop; lia|].
    rewrite E7. cbn [mbind res_mbind]. set (rb4 := set_tail_used rb3 _ _) in *.
    destruct (unlock_ring_ok rb4 _ (rep_tail _ _ a m q rb4 H1 Hq W4
      ltac:(etransitivity; [exact S2|by etransitivity]) K4)) as (rb5 & E8 & H5).
    rewrite E8. exists rb5. by split.
Qed.

(** *** The remaining accessors *)

Lemma rb_reset_ok rb a :
  represents rb a ->
  exists rb', rb_reset (Some rb) = Ret (Some rb') /\ represents rb' (spec_reset a).
Proof.
  intros H. destruct (lock_ring_ok rb a H) as (rb1 & E1 & H1 & _ & _).
  unfold rb_reset. rewrite E1. cbn [mbind res_mbind].
  set (rb2 := {| rb_buf := _; rb_capacity := _ |}).
  assert (represents_in MutexHeld rb2 (spec_reset a)) as H2.
  { destruct H1 as [[(b & Hb & Hl) ????] ???????].
    split; cbn; try done; [|unfold contents; cbn; by rewrite Hb].
    split; cbn; [by exists b|done|lia|lia|].
    by rewrite Z.mod_0_l by lia. }
  destruct (unlock_ring_ok rb2 _ H2) as (rb3 & E3 & H3). rewrite E3. exists rb3. by split.
Qed.

Lemma rb_has_data_ok rb a :
  represents rb a ->
  exists rb', rb_has_data (Some rb) =
    Ret (Some rb', match mq_msgs a with [] => false | _ => true end) /\ represents rb' a.
Proof.
  intros H. destruct (lock_ring_ok rb a H) as (rb1 & E1 & H1 & _ & _).
  unfold rb_has_data. rewrite E1. cbn [mbind res_mbind].
  destruct (unlock_ring_ok rb1 a H1) as (rb2 & E2 & H2). rewrite E2. exists rb2.
  split; [|done]. cbn. do 2 f_equal. rewrite (rep_used _ _ _ H1).
  pose proof (frames_small (mq_msgs a)). destruct (mq_msgs a) as [|m q]; [done|].
  apply Z.leb_le. destruct (Z.lt_ge_cases (zlen (frames (m :: q))) RB_FRAME_HEADER_SIZE); [|lia].
  by apply H0 in H3.
Qed.

Lemma rb_dropped_messages_ok rb a :
  represents rb a ->
  exists rb', rb_dropped_messages (Some rb) = Ret (Some rb', mq_dropmsgs a) /\ represents rb' a.
Proof.
  intros H. destruct (lock_ring_ok rb a H) as (rb1 & E1 & H1 & _ & _).
  unfold rb_dropped_messages. rewrite E1. cbn [mbind res_mbind].
  destruct (unlock_ring_ok rb1 a H1) as (rb2 & E2 & H2). rewrite E2. exists rb2.
  cbn. by rewrite (rep_dropmsgs _ _ _ H1).
Qed.

Lemma rb_dropped_bytes_ok rb a :
  represents rb a ->
  exists rb', rb_dropped_bytes (Some rb) = Ret (Some rb', mq_dropbytes a) /\ represents rb' a.
Proof.
  intros H. destruct (lock_ring_ok rb a H) as (rb1 & E1 & H1 & _ & _).
  unfold rb_dropped_bytes. rewrite E1. cbn [mbind res_mbind].
  destruct (unlock_ring_ok rb1 a H1) as (rb2 & E2 & H2). rewrite E2. exists rb2.
  cbn. by rewrite (rep_dropbytes _ _ _ H1).
Qed.

Definition spec_init (cap : Z) : mqueue :=
  {| mq_capacity := cap; mq_msgs := []; mq_dropmsgs := 0; mq_dropbytes := 0 |}.

Lemma rb_init_ok malloc mutex_init rb cap rb' :
  malloc_ok malloc -> rb_init malloc mutex_init (Some rb) cap = (Some rb', 0) ->
  represents rb' (spec_init cap).
Proof.
  intros Hm. unfold rb_init. destruct (cap <? RB_FRAME_HEADER_SIZE + 1) eqn:E; zbool; [done|].
  destruct (malloc cap) as [b|] eqn:Eb; [|done].
  destruct (negb (mutex_init =? 0)); [done|]. intros [= <-].
  apply Hm in Eb as [Hl Hc]. unfold RB_FRAME_HEADER_SIZE in E. unfold USER_SPACE in Hc.
  split; cbn; try done; [|unfold RB_FRAME_HEADER_SIZE; lia].
  split; cbn; [by exists b|unfold PTRDIFF_MAX; lia|lia|lia|]. by rewrite Z.mod_0_l by lia.
Qed.

(** ** Runs of calls *)

Inductive rb_op :=
  | OpPush (kind flags : Z) (data : bytes) (len : Z)
  | OpPop (out : bytes) (out_cap : Z)
  | OpHasData
  | OpReset
  | OpDroppedMessages
  | OpDroppedBytes.

Inductive rb_ret :=
  | RetCode (rc : Z)
  | RetPop (r : pop_result)
  | RetHas (b : bool)
  | RetUnit
  | RetCount (n : Z).

(** The contract of each call: byte-sized kinds and flags, buffers as long as
    the lengths passed with them. *)
Definition op_ok (o : rb_op) : Prop :=
  match o with
  | OpPush kind flags data len =>
      0 <= kind < 256 /\ 0 <= flags < 256 /\ 0 <= len <= zlen data /\ len < 2 ^ 32
  | OpPop out out_cap => 0 <= out_cap <= zlen out
  | _ => True
  end.

Definition rb_step (p : option ring) (o : rb_op) : res (option ring * rb_ret) :=
  match o with
  | OpPush kind flags data len =>
      '(p', rc) ← rb_push p kind flags data len; Ret (p', RetCode rc)
  | OpPop out out_cap => '(p', r) ← rb_pop p out out_cap; Ret (p', RetPop r)
  | OpHasData => '(p', b) ← rb_has_data p; Ret (p', RetHas b)
  | OpReset => p' ← rb_reset p; Ret (p', RetUnit)
  | OpDroppedMessages => '(p', n) ← rb_dropped_messages p; Ret (p', RetCount n)
  | OpDroppedBytes => '(p', n) ← rb_dropped_bytes p; Ret (p', RetCount n)
  end.

Fixpoint rb_run (p : option ring) (ops : list rb_op) : res (option ring * list rb_ret) :=
  match ops with
  | [] => Ret (p, [])
  | o :: ops' =>
      '(p1, r) ← rb_step p o;
      '(p2, rs) ← rb_run p1 ops';
      Ret (p2, r :: rs)
  end.

Definition spec_step (a : mqueue) (o : rb_op) : mqueue * rb_ret :=
  match o with
  | OpPush kind flags data len => (spec_push a (push_msg kind flags data len), RetCode 0)
  | OpPop out out_cap => let '(a', r) := spec_pop a out out_cap in (a', RetPop r)
  | OpHasData => (a, RetHas (match mq_msgs a with [] => false | _ => true end))
  | OpReset => (spec_reset a, RetUnit)
  | OpDroppedMessages => (a, RetCount (mq_dropmsgs a))
  | OpDroppedBytes => (a, RetCount (mq_dropbytes a))
  end.

Fixpoint spec_run (a : mqueue) (ops : list rb_op) : mqueue * list rb_ret :=
  match ops with
  | [] => (a, [])
  | o :: ops' =>
      let '(a1, r) := spec_step a o in
      let '(a2, rs) := spec_run a1 ops' in (a2, r :: rs)
  end.

Lemma rb_step_ok rb a o :
  represents rb a -> op_ok o ->
  exists rb', rb_step (Some rb) o = Ret (Some rb', snd (spec_step a o)) /\
    represents rb' (fst (spec_step a o)).
Proof.
  intros H Ho. destruct o; cbn [op_ok] in Ho.
  - destruct Ho as (? & ? & ? & ?).
    edestruct (rb_push_ok rb a kind flags data len) as (rb' & E & H'); [done..|].
    exists rb'. unfold rb_step. by rewrite E.
  - destruct (rb_pop_ok rb a out out_cap H Ho) as (rb' & E & H').
    exists rb'. unfold rb_step, spec_step. rewrite E. by destruct (spec_pop a out out_cap).
  - destruct (rb_has_data_ok rb a H) as (rb' & E & H'). exists rb'. unfold rb_step. by rewrite E.
  - destruct (rb_reset_ok rb a H) as (rb' & E & H'). exists rb'. unfold rb_step. by rewrite E.
  - destruct (rb_dropped_messages_ok rb a H) as (rb' & E & H').
    exists rb'. unfold rb_step. by rewrite E.
  - destruct (rb_dropped_bytes_ok rb a H) as (rb' & E & H').
    exists rb'. unfold rb_step. by rewrite E.
Qed.

Lemma rb_run_ok ops rb a :
  represents rb a -> Forall op_ok ops ->
  exists rb', rb_run (Some rb) ops = Ret (Some rb', snd (spec_run a ops)) /\
    represents rb' (fst (spec_run a ops)).
Proof.
  revert rb a. induction ops as [|o ops IH]; intros rb a H Ho; [by exists rb|].
  apply Forall_cons_1 in Ho as [Ho Hos].
  destruct (rb_step_ok rb a o H Ho) as (rb1 & E1 & H1).
  destruct (IH rb1 _ H1 Hos) as (rb2 & E2 & H2).
  exists rb2. cbn. rewrite E1. cbn [mbind res_mbind]. rewrite E2.
  destruct (spec_step a o) as [a1 r]. cbn in *. by destruct (spec_run a1 ops).
Qed.
