(* ===== verification/RingProps.v ===== *)
(** * Properties of the ring buffer

    The theorems of ring_buffer.c as its callers see them: refinement of every
    run of calls from [rb_init], the drop-oldest policy, truncation, lossless
    FIFO delivery within the capacity, and the accounting of dropped
    messages. *)

From S2P Require Import Prelude RingBuffer RingSpec.

(** ** Observations on runs *)

(** The messages a run asks to store, in order. *)
Fixpoint pushed (ops : list rb_op) : list msg :=
  match ops with
  | [] => []
  | OpPush kind flags data len :: ops' => push_msg kind flags data len :: pushed ops'
  | _ :: ops' => pushed ops'
  end.

(** What a run delivered: the meta-data and payload of each successful pop. *)
Fixpoint delivered (rs : list rb_ret) : list (Z * Z * bytes) :=
  match rs with
  | [] => []
  | RetPop {| pop_meta := Some (kind, flags, n); pop_out := out |} :: rs' =>
      (kind, flags, take (Z.to_nat n) out) :: delivered rs'
  | _ :: rs' => delivered rs'
  end.

(** A delivery comes from a message: same kind, flags equal or marked
    truncated, payload a prefix. *)
Definition comes_from (m : msg) (d : Z * Z * bytes) : Prop :=
  let '(kind, flags, data) := d in
  kind = msg_kind m /\
  (flags = msg_flags m \/ flags = Z.lor (msg_flags m) RB_FLAG_TRUNCATED) /\
  data `prefix_of` msg_data m.

Definition no_reset (o : rb_op) : Prop :=
  match o with OpReset => False | _ => True end.

(** Pushing each message of a list; popping [n] times into buffers of [cap]. *)
Definition push_op (m : msg) : rb_op :=
  OpPush (msg_kind m) (msg_flags m) (msg_data m) (zlen (msg_data m)).

Definition pop_op (cap : Z) : rb_op := OpPop (repeat Byte.x00 (Z.to_nat cap)) cap.

(** A stored message [m'] stems from the pushed message [m]. *)
Definition stored_as (m m' : msg) : Prop :=
  msg_kind m' = msg_kind m /\
  (msg_flags m' = msg_flags m \/ msg_flags m' = Z.lor (msg_flags m) RB_FLAG_TRUNCATED) /\
  msg_data m' `prefix_of` msg_data m.

(** ** Lemmas on the specification *)

Lemma stored_as_refl m : stored_as m m.
Proof. repeat split; auto. Qed.

Lemma prefix_take n (l : bytes) : take n l `prefix_of` l.
Proof. exists (drop n l). by rewrite take_drop. Qed.

(** A push queues, after a suffix of the old queue, the message or its
    truncation, and counts the rest as dropped. *)
Lemma spec_push_shape a m :
  exists d k m', mq_msgs a = d ++ k /\ stored_as m m' /\
    spec_push a m = count_dropped a d (k ++ [m']).
Proof.
  unfold spec_push. case_match.
  - eexists (mq_msgs a), [], _. split; [by rewrite app_nil_r|]. split; [|done].
    split; [done|]. split; [by right|]. apply prefix_take.
  - destruct (evict (mq_capacity a) (msg_size m) (mq_msgs a)) as [d k] eqn:E.
    exists d, k, m. split; [by eapply evict_split|]. split; [apply stored_as_refl|done].
Qed.

Lemma comes_from_stored s m d : stored_as s m -> comes_from m d -> comes_from s d.
Proof.
  destruct d as [[kind flags] data]. intros (K & F & P) (Hk & Hf & Hp).
  split; [congruence|]. split; [|by etransitivity].
  destruct F as [F|F], Hf as [Hf|Hf]; rewrite F in Hf; auto.
  rewrite <- Z.lor_assoc, Z.lor_diag in Hf. auto.
Qed.

(** The first message of the queue, delivered whole or cut to the buffer. *)
Definition delivery (m : msg) (out_cap : Z) : Z * Z * bytes :=
  (msg_kind m, msg_flags m, take (Z.to_nat (Z.min (zlen (msg_data m)) out_cap)) (msg_data m)).

Lemma delivered_pop a m q out out_cap rs :
  mq_msgs a = m :: q -> 0 <= out_cap <= zlen out ->
  delivered (RetPop (snd (spec_pop a out out_cap)) :: rs) =
  delivery m out_cap :: delivered rs.
Proof.
  intros Hq Hc. unfold spec_pop. rewrite Hq. cbn. unfold delivery. do 2 f_equal.
  pose proof (zlen_nonneg (msg_data m)).
  apply take_app_length'. rewrite length_take. unfold zlen in *. lia.
Qed.

Lemma delivery_comes_from m out_cap : comes_from m (delivery m out_cap).
Proof. split; [done|]. split; [by left|]. apply prefix_take. Qed.

(** Everything delivered or still queued stems, in order, from what was queued
    or pushed. *)
Lemma spec_run_fifo ops a src :
  Forall op_ok ops -> Forall2 stored_as src (mq_msgs a) ->
  exists l l', Forall2 comes_from l (delivered (snd (spec_run a ops))) /\
    Forall2 stored_as l' (mq_msgs (fst (spec_run a ops))) /\
    l ++ l' `sublist_of` src ++ pushed ops.
Proof.
  revert a src. induction ops as [|o ops IH]; intros a src Hok Hsrc.
  { exists [], src. cbn. by rewrite app_nil_r. }
  apply Forall_cons_1 in Hok as [Ho Hok].
  destruct o as [kind flags data len|out out_cap| | | |]; cbn [spec_run spec_step pushed].
  1: { destruct (spec_push_shape a (push_msg kind flags data len)) as (d & k & m' & Hq & Hm & ->).
    rewrite Hq in Hsrc. apply Forall2_app_inv_r in Hsrc as (sd & sk & _ & Hsk & ->).
    set (a1 := count_dropped a d (k ++ [m'])).
    destruct (IH a1 (sk ++ [push_msg kind flags data len]) Hok) as (l & l' & Hl & Hl' & Hs).
    { apply Forall2_app; [done|]. by constructor. }
    exists l, l'. destruct (spec_run a1 ops). split; [done|]. split; [done|].
    rewrite <- app_assoc in Hs. rewrite <- app_assoc. by apply sublist_inserts_l. }
  1: { destruct (mq_msgs a) as [|m q] eqn:Hq.
    - destruct (IH a src Hok) as (l & l' & Hl & Hl' & Hs); [by rewrite Hq|].
      exists l, l'. unfold spec_pop. rewrite Hq. by destruct (spec_run a ops).
    - apply Forall2_cons_inv_r in Hsrc as (s & src' & Hs0 & Hsrc & ->).
      destruct (IH (fst (spec_pop a out out_cap)) src' Hok) as (l & l' & Hl & Hl' & Hs).
      { unfold spec_pop. by rewrite Hq. }
      exists (s :: l), l'. pose proof (delivered_pop a m q out out_cap) as Hd.
      destruct (spec_pop a out out_cap) as [a1 r]. cbn [fst snd] in *.
      destruct (spec_run a1 ops) as [a2 rs]. cbn [fst snd] in *.
      rewrite Hd by done. split; [|split; [done|by constructor]].
      constructor; [|done]. eapply comes_from_stored; [done|]. apply delivery_comes_from. }
  2: { destruct (IH (spec_reset a) [] Hok) as (l & l' & Hl & Hl' & Hs); [by constructor|].
    exists l, l'. destruct (spec_run (spec_reset a) ops). split; [done|]. split; [done|].
    by apply sublist_inserts_l. }
  all: destruct (IH a src Hok Hsrc) as (l & l' & Hl & Hl' & Hs); exists l, l';
    by destruct (spec_run a ops).
Qed.

(** The drop counter is what was queued or pushed and is no longer there. *)
Lemma spec_run_accounting ops a :
  Forall op_ok ops -> Forall no_reset ops -> 0 <= mq_dropmsgs a < 2 ^ 64 ->
  mq_dropmsgs (fst (spec_run a ops)) =
  u64 (mq_dropmsgs a + zlen (mq_msgs a) + zlen (pushed ops)
       - zlen (delivered (snd (spec_run a ops))) - zlen (mq_msgs (fst (spec_run a ops)))).
Proof.
  revert a. induction ops as [|o ops IH]; intros a Hok Hnr Hr.
  { cbn. zlens. rewrite u64_small; lia. }
  apply Forall_cons_1 in Hok as [Ho Hok]. apply Forall_cons_1 in Hnr as [Hn Hnr].
  destruct o as [kind flags data len|out out_cap| | | |]; cbn [spec_run spec_step pushed];
    [| | |done|..].
  1: { destruct (spec_push_shape a (push_msg kind flags data len)) as (d & k & m' & Hq & _ & ->).
    specialize (IH (count_dropped a d (k ++ [m'])) Hok Hnr (u64_range _)).
    destruct (spec_run _ ops) as [a2 rs]. cbn [fst snd delivered] in *. rewrite IH.
    unfold count_dropped. cbn [mq_dropmsgs mq_msgs]. rewrite Hq. zlens.
    rewrite <- !Z.add_sub_assoc, <- !Z.add_assoc, u64_add_l. f_equal. lia. }
  1: { destruct (mq_msgs a) as [|m q] eqn:Hq.
    - specialize (IH a Hok Hnr Hr). unfold spec_pop. rewrite Hq.
      destruct (spec_run a ops) as [a2 rs]. cbn [fst snd delivered] in *. by rewrite IH, Hq.
    - specialize (IH (fst (spec_pop a out out_cap)) Hok Hnr).
      pose proof (delivered_pop a m q out out_cap) as Hd.
      assert (Ha : mq_dropmsgs (fst (spec_pop a out out_cap)) = mq_dropmsgs a /\
                   mq_msgs (fst (spec_pop a out out_cap)) = q)
        by (unfold spec_pop; by rewrite Hq).
      destruct (spec_pop a out out_cap) as [a1 r]. cbn [fst snd] in *. destruct Ha as [Ha1 Ha2].
      rewrite Ha1, Ha2 in IH. specialize (IH Hr).
      destruct (spec_run a1 ops) as [a2 rs]. cbn [fst snd] in *.
      rewrite Hd, IH by done. f_equal. zlens. lia. }
  all: specialize (IH a Hok Hnr Hr); destruct (spec_run a ops); exact IH.
Qed.

(** Pushes that fit are queued as they are. *)
Lemma spec_run_pushes ms a :
  Forall msg_wf ms -> zlen (frames (mq_msgs a)) + zlen (frames ms) <= mq_capacity a ->
  0 <= mq_dropmsgs a < 2 ^ 64 /\ 0 <= mq_dropbytes a < 2 ^ 64 ->
  spec_run a (map push_op ms) =
  ({| mq_capacity := mq_capacity a; mq_msgs := mq_msgs a ++ ms;
      mq_dropmsgs := mq_dropmsgs a; mq_dropbytes := mq_dropbytes a |},
   map (fun _ => RetCode 0) ms).
Proof.
  revert a. induction ms as [|m ms IH]; intros a Hms Hfit Hr.
  { cbn. rewrite app_nil_r. by destruct a. }
  apply Forall_cons_1 in Hms as [Hm Hms]. cbn [map]. cbn [spec_run push_op spec_step].
  replace (push_msg _ _ _ _) with m
    by (destruct m; unfold push_msg, zlen; cbn; by rewrite Nat2Z.id, take_ge).
  cbn [frames] in Hfit. zlens.
  assert (Hpush : spec_push a m = {| mq_capacity := mq_capacity a; mq_msgs := mq_msgs a ++ [m];
    mq_dropmsgs := mq_dropmsgs a; mq_dropbytes := mq_dropbytes a |}).
  { unfold spec_push. rewrite (proj2 (Z.ltb_ge _ _)) by lia.
    replace (evict _ _ _) with (@nil msg, mq_msgs a).
    - unfold count_dropped. cbn. rewrite zlen_nil, !Z.add_0_r. by rewrite !u64_small by lia.
    - destruct (mq_msgs a) as [|m' q]; [done|]. cbn [evict].
      by rewrite (proj2 (Z.leb_le _ _)) by lia. }
  rewrite Hpush, IH; cbn [mq_capacity mq_msgs mq_dropmsgs mq_dropbytes]; [|done| |done].
  - by rewrite <- app_assoc.
  - rewrite frames_app. cbn [frames]. zlens. lia.
Qed.

Lemma spec_run_pops ms a cap :
  mq_msgs a = ms -> Forall (fun m => zlen (msg_data m) <= cap) ms -> 0 <= cap ->
  delivered (snd (spec_run a (map (fun _ => pop_op cap) ms))) =
    map (fun m => (msg_kind m, msg_flags m, msg_data m)) ms /\
  mq_msgs (fst (spec_run a (map (fun _ => pop_op cap) ms))) = [].
Proof.
  intros Hq Hms Hc. revert a Hq. induction ms as [|m ms IH]; intros a Hq; [done|].
  apply Forall_cons_1 in Hms as [Hm Hms]. cbn [map spec_run].
  change (spec_step a (pop_op cap)) with
    (let '(a', r) := spec_pop a (repeat Byte.x00 (Z.to_nat cap)) cap in (a', RetPop r)).
  pose proof (delivered_pop a m ms (repeat Byte.x00 (Z.to_nat cap)) cap) as Hd.
  specialize (IH Hms (fst (spec_pop a (repeat Byte.x00 (Z.to_nat cap)) cap))).
  assert (Ha : mq_msgs (fst (spec_pop a (repeat Byte.x00 (Z.to_nat cap)) cap)) = ms)
    by (unfold spec_pop; by rewrite Hq).
  destruct (spec_pop a _ cap) as [a1 r]. cbn [fst snd] in *.
  destruct (IH Ha) as [IH1 IH2].
  destruct (spec_run a1 _) as [a2 rs]. cbn [fst snd] in *. split; [|done].
  rewrite Hd, IH1; [|done|].
  - unfold delivery. do 2 f_equal. apply take_ge. unfold zlen in *. lia.
  - unfold zlen. rewrite repeat_length. lia.
Qed.

Lemma spec_run_app ops1 ops2 a :
  spec_run a (ops1 ++ ops2) =
  (fst (spec_run (fst (spec_run a ops1)) ops2),
   snd (spec_run a ops1) ++ snd (spec_run (fst (spec_run a ops1)) ops2)).
Proof.
  revert a. induction ops1 as [|o ops1 IH]; intros a; cbn [app spec_run].
  { cbn [fst snd]. by destruct (spec_run a ops2). }
  destruct (spec_step a o) as [a1 r]. rewrite IH.
  destruct (spec_run a1 ops1) as [a2 rs]. cbn [fst snd]. by destruct (spec_run a2 ops2).
Qed.

Lemma delivered_codes rs1 rs2 :
  Forall (fun r => exists rc, r = RetCode rc) rs1 -> delivered (rs1 ++ rs2) = delivered rs2.
Proof. induction 1 as [|? ? [? ->]]; done. Qed.

Lemma push_ops_ok ms : Forall msg_wf ms -> Forall op_ok (map push_op ms).
Proof.
  induction 1 as [|m ms (? & ? & ?) ? IH]; constructor; [|done].
  cbn. pose proof (zlen_nonneg (msg_data m)). repeat split; lia.
Qed.

Lemma pop_ops_ok {A} (ms : list A) cap :
  0 <= cap -> Forall op_ok (map (fun _ => pop_op cap) ms).
Proof.
  intros. apply Forall_map, Forall_true. intros _. cbn. unfold zlen.
  rewrite repeat_length. lia.
Qed.

(** ** A concrete ring for the witnesses *)

(** A [malloc] that serves up to 1 KiB of zeroed memory. *)
Definition small_malloc (n : Z) : option bytes :=
  if (0 <=? n) && (n <=? 1024) then Some (repeat Byte.x00 (Z.to_nat n)) else None.

Lemma small_malloc_ok : malloc_ok small_malloc.
Proof.
  intros n b. unfold small_malloc. destruct (_ && _) eqn:E; [|done]. intros [= <-].
  zbool. unfold zlen, USER_SPACE. rewrite repeat_length. lia.
Qed.

(** [ring_buffer_t] as static storage holds it before [rb_init]. *)
Definition zero_ring : ring :=
  {| rb_buf := None; rb_capacity := 0; rb_head := 0; rb_tail := 0; rb_used := 0;
     rb_dropmsgs := 0; rb_dropbytes := 0; rb_lock := MutexNone |}.

(** A ring of 24 bytes, freshly initialised. *)
Definition ring24 : ring :=
  {| rb_buf := Some (repeat Byte.x00 24); rb_capacity := 24; rb_head := 0; rb_tail := 0;
     rb_used := 0; rb_dropmsgs := 0; rb_dropbytes := 0; rb_lock := MutexFree |}.

Lemma ring24_represents : represents ring24 (spec_init 24).
Proof. exact (rb_init_ok small_malloc 0 zero_ring 24 ring24 small_malloc_ok eq_refl). Qed.

(** Two pushes that fit, a third that wraps and evicts, an oversize one. *)
Definition sample_ops : list rb_op :=
  [OpPush 0 0 (lit "abcd") 4; OpPush 1 0 (lit "efgh") 4; OpPop (lit "........") 8;
   OpPush 10 0 (lit "0123456789") 10; OpPop (lit "........") 4; OpHasData;
   OpPush 0 0 (lit "a message that is longer than the ring") 38; OpPop (lit "....................") 20;
   OpDroppedMessages; OpDroppedBytes].

Lemma sample_ops_ok : Forall op_ok sample_ops.
Proof. repeat constructor; vm_compute; congruence. Qed.

(** ** The theorems *)

(** C1. A ring that [rb_init] set up behaves under every sequence of API calls
    exactly as a bounded queue of messages with the drop-oldest policy: no call
    runs out of its buffers, misuses the mutex or loops for ever, each returns
    what the queue returns, and the ring left represents the queue left. *)
Theorem ring_refines_queue malloc mutex_init rb0 rb cap ops :
  malloc_ok malloc ->
  rb_init malloc mutex_init (Some rb0) cap = (Some rb, 0) ->
  Forall op_ok ops ->
  exists rb', rb_run (Some rb) ops = Ret (Some rb', snd (spec_run (spec_init cap) ops)) /\
    represents rb' (fst (spec_run (spec_init cap) ops)).
Proof.
  intros Hm Hi Hops. apply rb_run_ok; [|done]. by eapply rb_init_ok.
Qed.

Lemma ring_refines_queue_witness :
  exists rb', rb_run (Some ring24) sample_ops =
      Ret (Some rb', snd (spec_run (spec_init 24) sample_ops)) /\
    represents rb' (fst (spec_run (spec_init 24) sample_ops)).
Proof.
  apply (ring_refines_queue small_malloc 0 zero_ring).
  - exact small_malloc_ok.
  - vm_compute. reflexivity.
  - exact sample_ops_ok.
Defined.



(** C3. Within the capacity nothing is lost or altered: messages whose frames
    fit the ring together, pushed into an empty ring and then popped into
    buffers that are large enough, come back equal, in order, flags
    included. *)
Theorem ring_lossless_roundtrip rb a ms cap :
  represents rb a -> mq_msgs a = [] -> Forall msg_wf ms ->
  zlen (frames ms) <= mq_capacity a ->
  0 <= cap -> Forall (fun m => zlen (msg_data m) <= cap) ms ->
  exists rb' rs,
    rb_run (Some rb) (map push_op ms ++ map (fun _ => pop_op cap) ms) = Ret (Some rb', rs) /\
    delivered rs = map (fun m => (msg_kind m, msg_flags m, msg_data m)) ms /\
    contents rb' = [].
Proof.
  intros H Hq Hms Hfit Hc Hcap.
  destruct (rb_run_ok (map push_op ms ++ map (fun _ => pop_op cap) ms) rb a H)
    as (rb' & E & H').
  { apply Forall_app_2; [by apply push_ops_ok|by apply pop_ops_ok]. }
  pose proof (spec_run_pushes ms a Hms) as Hp. rewrite Hq in Hp. specialize (Hp Hfit (rep_counters _ _ _ H)).
  rewrite spec_run_app, Hp in E, H'. cbn [fst snd] in E, H'.
  set (a1 := {| mq_capacity := _; mq_msgs := _ |}) in E, H'.
  destruct (spec_run_pops ms a1 cap eq_refl Hcap Hc) as [Hd Hnil].
  eexists rb', _. split; [exact E|]. split.
  - rewrite delivered_codes; [exact Hd|]. apply Forall_map, Forall_true. eauto.
  - rewrite (rep_contents _ _ _ H'). cbn [fst]. by rewrite Hnil.
Qed.

(** Two messages, one with an embedded NUL and a flag, that fill 24 bytes. *)
Definition sample_msgs : list msg :=
  [{| msg_kind := 0; msg_flags := 0; msg_data := [Byte.x68; Byte.x00; Byte.xff; Byte.x0a] |};
   {| msg_kind := 6; msg_flags := 1; msg_data := lit "12345678" |}].

Lemma ring_lossless_roundtrip_witness :
  exists rb' rs,
    rb_run (Some ring24) (map push_op sample_msgs ++ map (fun _ => pop_op 9) sample_msgs)
      = Ret (Some rb', rs) /\
    delivered rs = map (fun m => (msg_kind m, msg_flags m, msg_data m)) sample_msgs /\
    contents rb' = [].
Proof.
  apply (ring_lossless_roundtrip ring24 (spec_init 24) sample_msgs 9).
  - exact ring24_represents.
  - reflexivity.
  - repeat constructor; vm_compute; congruence.
  - vm_compute. congruence.
  - lia.
  - repeat constructor; vm_compute; congruence.
Defined.

(** C4. Eviction is minimal and oldest-first: pushing a message that fits the
    capacity keeps the longest suffix of the queued messages next to which the
    new frame fits, appends the message behind it, and counts exactly the
    messages and payload bytes given up. *)
Theorem rb_push_drops_oldest rb a kind flags data len :
  represents rb a -> 0 <= kind < 256 -> 0 <= flags < 256 -> 0 <= len <= zlen data ->
  len < 2 ^ 32 -> RB_FRAME_HEADER_SIZE + len <= rb_capacity rb ->
  exists rb' d k,
    rb_push (Some rb) kind flags data len = Ret (Some rb', 0) /\
    mq_msgs a = d ++ k /\
    contents rb' = frames (k ++ [push_msg kind flags data len]) /\
    rb_dropmsgs rb' = u64 (rb_dropmsgs rb + zlen d) /\
    rb_dropbytes rb' = u64 (rb_dropbytes rb + payload_bytes d) /\
    (forall d' k', mq_msgs a = d' ++ k' ->
       zlen (frames k') + (RB_FRAME_HEADER_SIZE + len) <= rb_capacity rb ->
       (length k' <= length k)%nat).
Proof.
  intros H Hk Hf Hlen H32 Hfit.
  destruct (rb_push_ok rb a kind flags data len H Hk Hf Hlen H32) as (rb' & E & H').
  unfold spec_push in H'. rewrite push_msg_size, <- (rep_cap _ _ _ H) in H' by done.
  rewrite (proj2 (Z.ltb_ge _ _)) in H' by done.
  destruct (evict _ _ _) as [d k] eqn:Hev. pose proof (evict_split _ _ _ _ _ Hev) as Hq.
  exists rb', d, k. split; [done|]. split; [done|].
  split; [apply (rep_contents _ _ _ H')|].
  split; [rewrite (rep_dropmsgs _ _ _ H), (rep_dropmsgs _ _ _ H'); done|].
  split; [rewrite (rep_dropbytes _ _ _ H), (rep_dropbytes _ _ _ H'); done|].
  intros d' k' Hq' Hfit'. destruct (decide (length k' <= length k)%nat) as [|Hgt]; [done|].
  exfalso. rewrite Hq in Hq'. destruct (app_eq_inv _ _ _ _ Hq') as [(z & -> & Hz)|(z & -> & Hz)].
  - destruct z as [|m z _] using rev_ind; [subst; cbn in Hgt; lia|].
    rewrite app_assoc in Hev. apply evict_minimal in Hev. subst k'.
    rewrite <- app_assoc in Hfit'. cbn in Hev, Hfit'. rewrite frames_app in Hfit'. cbn in Hfit'.
    zlens. lia.
  - rewrite Hz, length_app in Hgt. lia.
Qed.

(** A ring of 24 bytes filled by three messages of 8, 8 and 7 bytes. *)
Definition three_msgs : list msg :=
  [{| msg_kind := 0; msg_flags := 0; msg_data := lit "ab" |};
   {| msg_kind := 1; msg_flags := 0; msg_data := lit "cd" |};
   {| msg_kind := 0; msg_flags := 0; msg_data := lit "e" |}].

Definition ring24_full : ring :=
  match rb_run (Some ring24) (map push_op three_msgs) with
  | Ret (Some rb, _) => rb
  | _ => ring24
  end.

Definition queue24_full : mqueue :=
  {| mq_capacity := 24; mq_msgs := three_msgs; mq_dropmsgs := 0; mq_dropbytes := 0 |}.

Lemma ring24_full_represents : represents ring24_full queue24_full.
Proof.
  destruct (rb_run_ok (map push_op three_msgs) ring24 (spec_init 24) ring24_represents)
    as (rb' & E & H').
  { apply push_ops_ok. repeat constructor; vm_compute; congruence. }
  unfold ring24_full. rewrite E. exact H'.
Qed.

Lemma rb_push_drops_oldest_witness :
  exists rb' d k,
    rb_push (Some ring24_full) 5 0 (lit "xyz") 2 = Ret (Some rb', 0) /\
    mq_msgs queue24_full = d ++ k /\
    contents rb' = frames (k ++ [push_msg 5 0 (lit "xyz") 2]) /\
    rb_dropmsgs rb' = u64 (rb_dropmsgs ring24_full + zlen d) /\
    rb_dropbytes rb' = u64 (rb_dropbytes ring24_full + payload_bytes d) /\
    (forall d' k', mq_msgs queue24_full = d' ++ k' ->
       zlen (frames k') + (RB_FRAME_HEADER_SIZE + 2) <= rb_capacity ring24_full ->
       (length k' <= length k)%nat).
Proof.
  apply (rb_push_drops_oldest ring24_full queue24_full 5 0 (lit "xyz") 2);
    [exact ring24_full_represents|lia|lia|vm_compute; intuition congruence|lia|].
  vm_compute. congruence.
Defined.

(** C5. A message longer than the ring replaces everything: it is stored with
    the truncation flag set and its payload cut to the bytes after one header,
    every queued message is counted as dropped, and the very next pop delivers
    that cut message. *)
Theorem rb_push_truncates_oversize rb a kind flags data len out out_cap :
  represents rb a -> 0 <= kind < 256 -> 0 <= flags < 256 -> 0 <= len <= zlen data ->
  len < 2 ^ 32 -> rb_capacity rb < RB_FRAME_HEADER_SIZE + len ->
  rb_capacity rb <= out_cap <= zlen out ->
  let n := rb_capacity rb - RB_FRAME_HEADER_SIZE in
  exists rb1 rb2,
    rb_push (Some rb) kind flags data len = Ret (Some rb1, 0) /\
    rb_used rb1 = rb_capacity rb /\
    rb_dropmsgs rb1 = u64 (rb_dropmsgs rb + zlen (mq_msgs a)) /\
    rb_pop (Some rb1) out out_cap =
      Ret (Some rb2, {| pop_status := RB_OK;
                        pop_meta := Some (kind, Z.lor flags RB_FLAG_TRUNCATED, n);
                        pop_out := take (Z.to_nat n) data ++ drop (Z.to_nat n) out |}) /\
    contents rb2 = [].
Proof.
  intros H Hk Hf Hlen H32 Hbig Hout n.
  destruct (rb_push_ok rb a kind flags data len H Hk Hf Hlen H32) as (rb1 & E1 & H1).
  pose proof (rep_cap _ _ _ H) as Hc. pose proof (rep_cap_min _ _ _ H) as Hmin.
  rewrite <- Hc in Hmin. pose proof (eq_refl : RB_FRAME_HEADER_SIZE = 6) as E6.
  unfold spec_push in H1. rewrite push_msg_size, <- Hc in H1 by done.
  rewrite (proj2 (Z.ltb_lt _ _)) in H1 by done. fold n in H1.
  assert (Hd : take (Z.to_nat n) (msg_data (push_msg kind flags data len)) = take (Z.to_nat n) data)
    by (cbn; rewrite take_take; f_equal; lia).
  rewrite Hd in H1. assert (Hn : zlen (take (Z.to_nat n) data) = n) by (apply zlen_take; lia).
  destruct (rb_pop_ok rb1 _ out out_cap H1) as (rb2 & E2 & H2); [lia|].
  unfold spec_pop in E2, H2. cbn [count_dropped mq_msgs msg_data] in E2, H2.
  rewrite Hn, Z.min_l, (proj2 (Z.leb_le _ _)) in E2 by lia.
  exists rb1, rb2. split; [done|].
  split; [rewrite (rep_used _ _ _ H1); cbn; zlens; unfold msg_size; cbn; lia|].
  split; [rewrite (rep_dropmsgs _ _ _ H1), (rep_dropmsgs _ _ _ H); done|].
  split; [|exact (rep_contents _ _ _ H2)].
  rewrite E2. cbn. rewrite take_take, Nat.min_id. done.
Qed.

Lemma rb_push_truncates_oversize_witness :
  let data := lit "a message that is longer than the ring" in
  let out := repeat Byte.x00 24 in
  exists rb1 rb2,
    rb_push (Some ring24_full) 0 0 data 38 = Ret (Some rb1, 0) /\
    rb_used rb1 = 24 /\
    rb_dropmsgs rb1 = u64 (rb_dropmsgs ring24_full + 3) /\
    rb_pop (Some rb1) out 24 =
      Ret (Some rb2, {| pop_status := RB_OK; pop_meta := Some (0, 1, 18);
                        pop_out := take 18 data ++ drop 18 out |}) /\
    contents rb2 = [].
Proof.
  refine (rb_push_truncates_oversize ring24_full queue24_full 0 0 _ 38 (repeat Byte.x00 24) 24
            ring24_full_represents _ _ _ _ _ _); vm_compute; intuition congruence.
Defined.


