(* ===== verification/CString.v ===== *)
(** * The C string functions the bridge uses

    A [char *] is the byte list before its terminator; [strcmp], [strncmp],
    [strtok_r], [snprintf] and the [%d] conversion are the C library's, as far
    as the sources use them. *)

From S2P Require Import Prelude.

Definition INT_MAX : Z := 2 ^ 31 - 1.
Definition INT_MIN : Z := - 2 ^ 31.

(** [strcmp(a, b) == 0]. *)
Definition strcmp_eq (a b : bytes) : bool := bool_decide (a = b).

(** [strncmp(a, b, n) == 0]: the first [n] characters agree, the terminator
    included. *)
Definition strncmp_eq (a b : bytes) (n : Z) : bool :=
  bool_decide (take (Z.to_nat n) (a ++ [Byte.x00]) = take (Z.to_nat n) (b ++ [Byte.x00])).

(** [s[i]] for [i] up to the terminator. *)
Definition c_char (s : bytes) (i : Z) : byte := nth (Z.to_nat i) (s ++ [Byte.x00]) Byte.x00.

(** The C string stored in a block: the bytes before its first terminator. *)
Fixpoint c_string (b : bytes) : bytes :=
  match b with
  | [] => []
  | c :: b' => if decide (c = Byte.x00) then [] else c :: c_string b'
  end.

(** The tokens successive [strtok_r(s, d, &save)] calls return: the maximal
    non-empty runs of characters other than [d]. *)
Definition flush_token (acc : bytes) : list bytes :=
  match acc with
  | [] => []
  | _ => [acc]
  end.

Fixpoint strtok_from (d : byte) (s acc : bytes) : list bytes :=
  match s with
  | [] => flush_token acc
  | c :: s' =>
      if decide (c = d) then flush_token acc ++ strtok_from d s' []
      else strtok_from d s' (acc ++ [c])
  end.

Definition strtok (d : byte) (s : bytes) : list bytes := strtok_from d s [].

(** [snprintf(buf, size, ...)] of a result [s]: what it stores (with the
    terminator) and what it returns. *)
Definition snprintf_store (size : Z) (s : bytes) : bytes :=
  take (Z.to_nat (size - 1)) s.

Definition snprintf_ret (s : bytes) : Z := if zlen s <=? INT_MAX then zlen s else -1.

(** [%d]: the decimal digits of [n], most significant first. *)
Definition digit_char (d : Z) : byte := byte_of_Z (48 + d).

Fixpoint dec_digits (fuel : nat) (n : Z) : bytes :=
  match fuel with
  | O => []
  | S fuel' =>
      if n <? 10 then [digit_char n]
      else dec_digits fuel' (n / 10) ++ [digit_char (n mod 10)]
  end.

(** Ten digits are enough for an [int]. *)
Definition format_d (v : Z) : bytes :=
  if v <? 0 then lit "-" ++ dec_digits 10 (- v) else dec_digits 10 v.

(** Reading a decimal number back. *)
Definition digit_val (b : byte) : Z := Z_of_byte b - 48.

Fixpoint parse_digits (acc : Z) (s : bytes) : Z :=
  match s with
  | [] => acc
  | c :: s' => parse_digits (10 * acc + digit_val c) s'
  end.

Definition parse_d (s : bytes) : Z :=
  match s with
  | c :: s' => if decide (c = Byte.x2d) then - parse_digits 0 s' else parse_digits 0 s
  | [] => 0
  end.

(** ** Lemmas *)

Lemma strcmp_eq_iff a b : strcmp_eq a b = true <-> a = b.
Proof. unfold strcmp_eq. apply bool_decide_eq_true. Qed.

(** Over a whole NUL-free [a], [strncmp] decides that [a] is a prefix of [b]. *)
Lemma strncmp_prefix a b :
  is_cstr a -> strncmp_eq a b (zlen a) = true <-> a `prefix_of` b.
Proof.
  intros Ha. unfold strncmp_eq, zlen. rewrite bool_decide_eq_true, Nat2Z.id, take_app_length.
  split.
  - intros E. destruct (decide (length a <= length b)%nat) as [Hl|Hl].
    + rewrite take_app_le in E by lia. rewrite E. exists (drop (length a) b).
      by rewrite take_drop.
    + exfalso. rewrite take_ge in E by (rewrite length_app; cbn; lia).
      rewrite E in Ha. apply Forall_app in Ha as [_ Ha]. by inversion Ha.
  - intros [k ->]. by rewrite <- app_assoc, take_app_length.
Qed.

Lemma c_string_app s rest : is_cstr s -> c_string (s ++ Byte.x00 :: rest) = s.
Proof.
  induction 1 as [|c s Hc _ IH]; cbn; [done|]. by rewrite decide_False, IH.
Qed.

Lemma c_string_is_cstr b : is_cstr (c_string b).
Proof.
  induction b as [|c b IH]; cbn; [constructor|]. case_decide; [constructor|]. by constructor.
Qed.

Lemma flush_token_spec acc t : t ∈ flush_token acc -> t = acc /\ t <> [].
Proof. destruct acc; cbn; [by intros ?%elem_of_nil|]. by intros ->%list_elem_of_singleton. Qed.

Lemma strtok_from_spec d s acc t :
  d ∉ acc -> t ∈ strtok_from d s acc -> t <> [] /\ d ∉ t.
Proof.
  revert acc. induction s as [|c s IH]; intros acc Hacc; cbn.
  - by intros [-> ?]%flush_token_spec.
  - case_decide as Hc.
    + rewrite elem_of_app. intros [[-> ?]%flush_token_spec|Ht]; [done|].
      by apply (IH []); [apply not_elem_of_nil|].
    + apply IH. rewrite elem_of_app, list_elem_of_singleton. by intros [?|E]; [|subst].
Qed.

(** A token is never empty and never holds the delimiter. *)
Lemma strtok_spec d s t : t ∈ strtok d s -> t <> [] /\ d ∉ t.
Proof. apply strtok_from_spec. apply not_elem_of_nil. Qed.

Lemma strtok_from_forall P d s acc :
  Forall P s -> Forall P acc -> Forall (Forall P) (strtok_from d s acc).
Proof.
  intros Hs. revert acc. induction Hs as [|c s Hc _ IH]; intros acc Ha; cbn.
  - destruct acc; cbn; [constructor|by apply Forall_singleton].
  - case_decide; [|apply IH, Forall_app_2; [done|by apply Forall_singleton]].
    apply Forall_app_2; [destruct acc; cbn; [constructor|by apply Forall_singleton]|].
    apply IH. constructor.
Qed.

(** Tokens hold only characters of the string. *)
Lemma strtok_forall P d s : Forall P s -> Forall (Forall P) (strtok d s).
Proof. intros. by apply strtok_from_forall. Qed.

Lemma strtok_from_token d t s acc :
  d ∉ t -> acc ++ t <> [] -> strtok_from d (t ++ d :: s) acc = (acc ++ t) :: strtok d s.
Proof.
  revert acc. induction t as [|c t IH]; intros acc Ht Hne; cbn.
  - rewrite decide_True by done. rewrite app_nil_r in *. by destruct acc.
  - apply not_elem_of_cons in Ht as [Hc Ht]. rewrite decide_False by done.
    rewrite IH; [by rewrite <- app_assoc|done|by destruct acc].
Qed.

(** Tokenising newline-terminated lines gives the lines back. *)
Lemma strtok_lines d ls :
  Forall (fun t => t <> [] /\ d ∉ t) ls ->
  strtok d (concat (map (fun t => t ++ [d]) ls)) = ls.
Proof.
  induction 1 as [|t ls [Hne Hd] _ IH]; [done|]. cbn [map concat]. rewrite <- app_assoc. cbn [app].
  unfold strtok at 1. by rewrite strtok_from_token, IH.
Qed.

Lemma digit_val_char d : 0 <= d < 10 -> digit_val (digit_char d) = d.
Proof. intros. unfold digit_val, digit_char. rewrite Z_of_byte_of_Z_small; lia. Qed.

Lemma parse_digits_app s1 s2 acc :
  parse_digits acc (s1 ++ s2) = parse_digits (parse_digits acc s1) s2.
Proof. revert acc. induction s1; intros; cbn; [done|]. apply IHs1. Qed.

Lemma parse_dec_digits fuel n :
  0 <= n < 10 ^ Z.of_nat fuel -> parse_digits 0 (dec_digits fuel n) = n.
Proof.
  revert n. induction fuel as [|fuel IH]; intros n Hn; [cbn in *; lia|].
  cbn [dec_digits]. destruct (n <? 10) eqn:E; zbool.
  - cbn. rewrite digit_val_char by lia. lia.
  - rewrite parse_digits_app, IH.
    + cbn. rewrite digit_val_char by (apply Z.mod_pos_bound; lia).
      pose proof (Z.div_mod n 10 ltac:(lia)). lia.
    + rewrite Nat2Z.inj_succ, Z.pow_succ_r in Hn by lia.
      split; [apply Z.div_pos; lia|apply Z.div_lt_upper_bound; lia].
Qed.

Lemma dec_digits_len fuel n : zlen (dec_digits fuel n) <= Z.of_nat fuel.
Proof.
  revert n. induction fuel as [|fuel IH]; intros n; cbn [dec_digits]; [done|].
  case_match; zlens; [lia|]. specialize (IH (n / 10)). lia.
Qed.

(** A digit is neither the minus sign nor the terminator nor a newline. *)
Lemma digit_char_range d : 0 <= d < 10 -> 48 <= Z_of_byte (digit_char d) <= 57.
Proof. intros. unfold digit_char. rewrite Z_of_byte_of_Z_small; lia. Qed.

Lemma dec_digits_chars fuel n :
  0 <= n -> Forall (fun b => 48 <= Z_of_byte b <= 57) (dec_digits fuel n).
Proof.
  revert n. induction fuel as [|fuel IH]; intros n Hn; cbn [dec_digits]; [done|].
  destruct (n <? 10) eqn:E; zbool.
  - apply Forall_singleton, digit_char_range. lia.
  - apply Forall_app_2; [apply IH; apply Z.div_pos; lia|].
    apply Forall_singleton, digit_char_range, Z.mod_pos_bound. lia.
Qed.

Lemma dec_digits_nonempty fuel n : dec_digits (S fuel) n <> [].
Proof. cbn [dec_digits]. case_match; [done|]. intros E. by apply app_eq_nil in E as [_ ?]. Qed.
