(* ===== verification/CrashLog.v ===== *)
(** * Crash logging (c_ffi/load_r.c, lines 92-169)

    The async-signal-safe writer used by the fatal-signal handlers: partial
    writes, decimal conversion in a fixed buffer, the handler itself and the
    installation of the handlers. *)

From S2P Require Import Prelude CString.

(** ** The descriptor being written

    [write] may write less than it is asked to, or fail: [fd_answers] holds the
    kernel's coming return values, and a call beyond them writes everything. *)

Record fd_state := {
  fd_out : bytes;
  fd_answers : list Z;
}.

Definition sys_write (fd : fd_state) (s : bytes) : fd_state * Z :=
  match fd_answers fd with
  | [] => ({| fd_out := fd_out fd ++ s; fd_answers := [] |}, zlen s)
  | a :: rest =>
      if a <=? 0 then ({| fd_out := fd_out fd; fd_answers := rest |}, a)
      else
        let n := Z.min a (zlen s) in
        ({| fd_out := fd_out fd ++ take (Z.to_nat n) s; fd_answers := rest |}, n)
  end.

(** ** append_literal *)

Fixpoint append_literal_loop (fuel : nat) (fd : fd_state) (s : bytes) : res fd_state :=
  if 0 <? zlen s then
    match fuel with
    | O => Fault OutOfFuel
    | S fuel' =>
        let '(fd', written) := sys_write fd s in
        if written <=? 0 then Ret fd'
        else append_literal_loop fuel' fd' (drop (Z.to_nat written) s)
    end
  else Ret fd.

(** A round that goes on writes at least one byte: [strlen(s)] rounds do. *)
Definition append_literal (fd : fd_state) (s : bytes) : res fd_state :=
  append_literal_loop (length s) fd s.

(** ** append_int *)

(** Storing at the end of a fixed-size local array. *)
Definition array_push (cap : Z) (a : bytes) (c : byte) : res bytes :=
  if zlen a <? cap then Ret (a ++ [c]) else Fault OutOfBounds.

(** [-value] on an [int]. *)
Definition int_neg (v : Z) : res Z :=
  if v =? INT_MIN then Fault SignedOverflow else Ret (- v).

(** [while (n > 0 && digits_len < 16) { ... }]; [room] is what is left of the
    16 places. *)
Fixpoint digits_loop (room : nat) (digits : bytes) (n : Z) : bytes :=
  match room with
  | O => digits
  | S room' =>
      if 0 <? n then digits_loop room' (digits ++ [digit_char (n mod 10)]) (n / 10)
      else digits
  end.

(** [while (digits_len > 0) buf[len++] = digits[--digits_len];] *)
Fixpoint copy_reversed (buf : bytes) (rev_digits : bytes) : res bytes :=
  match rev_digits with
  | [] => Ret buf
  | c :: rest => buf' ← array_push 32 buf c; copy_reversed buf' rest
  end.

Definition append_int (fd : fd_state) (value : Z) : res fd_state :=
  '(buf, n) ← (if value <? 0 then
                 b ← array_push 32 [] Byte.x2d;
                 m ← int_neg value;
                 Ret (b, u32 m)
               else Ret ([], u32 value));
  buf' ← (if n =? 0 then array_push 32 buf Byte.x30
          else copy_reversed buf (rev (digits_loop 16 [] n)));
  Ret (fst (sys_write fd buf')).

(** ** The handler *)

Inductive signame := SIGABRT | SIGSEGV | SIGBUS | SIGILL | SIGFPE.

Inductive crash_event :=
  | CrOpen (path : bytes)          (* open(path, O_WRONLY|O_CREAT|O_APPEND, 0600) *)
  | CrWritten (out : bytes)        (* what the descriptor received *)
  | CrClose
  | CrDefault (signum : Z)         (* signal(signum, SIG_DFL) *)
  | CrRaise (signum : Z).

(** [open_fd path] is the opened descriptor, or [None] when [open] fails. *)
Definition crash_signal_handler (open_fd : bytes -> option fd_state)
    (crash_log_path : option bytes) (signum : Z) : res (list crash_event) :=
  let path := match crash_log_path with Some p => p | None => lit "raoui-crash.log" end in
  evs ← match open_fd path with
        | Some fd =>
            fd1 ← append_literal fd (lit "fatal signal ");
            fd2 ← append_int fd1 signum;
            fd3 ← append_literal fd2 (lit " in rffi bridge" ++ [Byte.x0a]);
            Ret [CrOpen path; CrWritten (fd_out fd3); CrClose]
        | None => Ret [CrOpen path]
        end;
  Ret (evs ++ [CrDefault signum; CrRaise signum]).

(** ** Installing the handlers *)

Record crash_state := {
  crash_log_path : option bytes;
  crash_installed : bool;
  crash_sigactions : list signame;   (* sigaction calls made, in order *)
}.

Definition crash_signals : list signame := [SIGABRT; SIGSEGV; SIGBUS; SIGILL; SIGFPE].

Definition install_crash_signal_handlers (st : crash_state) : crash_state :=
  if crash_installed st then st
  else
    {| crash_log_path := crash_log_path st; crash_installed := true;
       crash_sigactions := crash_sigactions st ++ crash_signals |}.

(** [strdup] answers with a copy or NULL. *)
Definition rffi_set_crash_log_path (strdup : bytes -> option bytes)
    (st : crash_state) (path : option bytes) : crash_state :=
  install_crash_signal_handlers
    {| crash_log_path := match path with Some p => strdup p | None => None end;
       crash_installed := crash_installed st;
       crash_sigactions := crash_sigactions st |}.

(** ** Lemmas *)

Lemma sys_write_prefix fd s :
  exists k, k `prefix_of` s /\ fd_out (fst (sys_write fd s)) = fd_out fd ++ k /\
    (0 < snd (sys_write fd s) -> zlen k = snd (sys_write fd s)).
Proof.
  unfold sys_write. destruct (fd_answers fd) as [|a rest].
  - exists s. by split.
  - destruct (a <=? 0) eqn:E; zbool.
    + exists []. split; [apply prefix_nil|]. cbn. rewrite app_nil_r. split; [done|lia].
    + eexists. split; [|split; [done|]].
      * exists (drop (Z.to_nat (Z.min a (zlen s))) s). by rewrite take_drop.
      * intros _. cbn [snd]. apply zlen_take. zlens. lia.
Qed.

Lemma append_literal_loop_ok fuel fd s :
  (length s <= fuel)%nat ->
  exists fd' k, append_literal_loop fuel fd s = Ret fd' /\ k `prefix_of` s /\
    fd_out fd' = fd_out fd ++ k.
Proof.
  revert fd s. induction fuel as [|fuel IH]; intros fd s Hf.
  { destruct s; [|cbn in Hf; lia]. exists fd, []. cbn. by rewrite app_nil_r. }
  cbn [append_literal_loop]. destruct (0 <? zlen s) eqn:E; zbool.
  2:{ exists fd, []. rewrite app_nil_r. split; [done|]. by split; [apply prefix_nil|]. }
  destruct (sys_write_prefix fd s) as (k & Hk & Ho & Hn).
  destruct (sys_write fd s) as [fd1 w]. cbn [fst snd] in *.
  destruct (w <=? 0) eqn:Ew; zbool; [by exists fd1, k|].
  specialize (Hn Ew). destruct Hk as [k' ->].
  rewrite <- Hn. unfold zlen. rewrite Nat2Z.id, drop_app_length.
  destruct (IH fd1 k') as (fd' & k2 & E2 & Hp & Ho2).
  { rewrite length_app in Hf. unfold zlen in Hn. lia. }
  exists fd', (k ++ k2). split; [done|]. split; [by apply prefix_app|].
  by rewrite Ho2, Ho, app_assoc.
Qed.

Lemma append_literal_ok fd s :
  exists fd' k, append_literal fd s = Ret fd' /\ k `prefix_of` s /\ fd_out fd' = fd_out fd ++ k.
Proof. by apply append_literal_loop_ok. Qed.

(** Nothing goes wrong with a descriptor that takes every write whole. *)
Lemma append_literal_full fd s :
  fd_answers fd = [] ->
  append_literal fd s = Ret {| fd_out := fd_out fd ++ s; fd_answers := [] |}.
Proof.
  intros Ha. unfold append_literal. destruct s as [|c s].
  { destruct fd. cbn in *. by rewrite app_nil_r, Ha. }
  cbn [append_literal_loop length]. rewrite (proj2 (Z.ltb_lt _ _)) by (zlens; lia).
  unfold sys_write. rewrite Ha. rewrite (proj2 (Z.leb_gt _ _)) by (zlens; lia).
  unfold zlen. rewrite Nat2Z.id, drop_ge by done. by destruct (length s).
Qed.

Lemma digits_loop_dec room digits n :
  0 < n < 10 ^ Z.of_nat room ->
  rev (digits_loop room digits n) = dec_digits room n ++ rev digits.
Proof.
  revert digits n. induction room as [|room IH]; intros digits n Hn; [cbn in *; lia|].
  cbn [digits_loop dec_digits]. rewrite (proj2 (Z.ltb_lt _ _)) by lia.
  destruct (n <? 10) eqn:E; zbool.
  - rewrite Z.div_small, Z.mod_small by lia.
    destruct room; cbn; by rewrite rev_app_distr.
  - rewrite IH.
    + rewrite rev_app_distr, <- app_assoc. done.
    + rewrite Nat2Z.inj_succ, Z.pow_succ_r in Hn by lia.
      split; [apply Z.div_str_pos; lia|apply Z.div_lt_upper_bound; lia].
Qed.

Lemma copy_reversed_ok buf s :
  zlen buf + zlen s <= 32 -> copy_reversed buf s = Ret (buf ++ s).
Proof.
  revert buf. induction s as [|c s IH]; intros buf H; cbn; [by rewrite app_nil_r|].
  zlens. unfold array_push. rewrite (proj2 (Z.ltb_lt _ _)) by lia. cbn [mbind res_mbind].
  rewrite IH by (zlens; lia). by rewrite <- app_assoc.
Qed.

(** The fuel of [dec_digits] does not matter once it is enough. *)
Lemma dec_digits_fuel f1 f2 n :
  0 <= n < 10 ^ Z.of_nat f1 -> (f1 <= f2)%nat -> (0 < f1)%nat ->
  dec_digits f1 n = dec_digits f2 n.
Proof.
  revert f2 n. induction f1 as [|f1 IH]; intros f2 n Hn Hf H0; [lia|].
  destruct f2 as [|f2]; [lia|]. cbn [dec_digits]. destruct (n <? 10) eqn:E; zbool; [done|].
  destruct f1 as [|f1]; [cbn in *; lia|]. f_equal. apply IH; [|lia..].
  rewrite Nat2Z.inj_succ, Z.pow_succ_r in Hn by lia.
  split; [apply Z.div_pos; lia|apply Z.div_lt_upper_bound; lia].
Qed.

(** The digits [append_int] produces, for a magnitude below 2^31. *)
Lemma append_int_digits buf n :
  0 <= n < 2 ^ 31 -> zlen buf <= 1 ->
  (if n =? 0 then array_push 32 buf Byte.x30
   else copy_reversed buf (rev (digits_loop 16 [] n))) = Ret (buf ++ dec_digits 10 n).
Proof.
  intros Hn Hb. destruct (n =? 0) eqn:E; zbool.
  - subst. unfold array_push. by rewrite (proj2 (Z.ltb_lt _ _)) by lia.
  - rewrite digits_loop_dec by lia. rewrite app_nil_r.
    rewrite (dec_digits_fuel 10 16) by lia.
    rewrite copy_reversed_ok; [done|]. pose proof (dec_digits_len 16 n). lia.
Qed.

Lemma append_int_ok fd v :
  INT_MIN < v <= INT_MAX ->
  append_int fd v = Ret (fst (sys_write fd (format_d v))).
Proof.
  unfold INT_MIN, INT_MAX. intros Hv. unfold append_int, format_d.
  destruct (v <? 0) eqn:E; zbool.
  - change (array_push 32 [] Byte.x2d) with (@Ret bytes [Byte.x2d]).
    cbn [mbind res_mbind]. unfold int_neg, INT_MIN. rewrite (proj2 (Z.eqb_neq _ _)) by lia.
    cbn [mbind res_mbind]. rewrite u32_small by lia.
    rewrite append_int_digits by (try done; lia). done.
  - cbn [mbind res_mbind]. rewrite u32_small by lia. by rewrite append_int_digits by (try done; lia).
Qed.

(** ** The theorems *)

(** C7. [append_int] writes, with one [write] call and inside its 32-byte and
    16-byte arrays, the decimal representation of every [int] but [INT_MIN]:
    what it sends reads back as the number, begins with the minus sign exactly
    when the number is negative, and is at most 11 bytes long. *)
Theorem append_int_decimal fd v :
  INT_MIN < v <= INT_MAX ->
  exists s, append_int fd v = Ret (fst (sys_write fd s)) /\
    parse_d s = v /\ zlen s <= 11 /\ (head s = Some Byte.x2d <-> v < 0).
Proof.
  intros Hv. exists (format_d v). split; [by apply append_int_ok|].
  unfold INT_MIN, INT_MAX, format_d in *.
  assert (Hh : forall n c s, 0 <= n -> dec_digits 10 n = c :: s -> c <> Byte.x2d).
  { intros n c s Hn E ->. pose proof (dec_digits_chars 10 n Hn) as Hd. rewrite E in Hd.
    apply Forall_cons_1 in Hd as [Hd _].
    change (Z_of_byte Byte.x2d) with 45 in Hd. lia. }
  destruct (v <? 0) eqn:E; zbool.
  - change (lit "-" ++ dec_digits 10 (- v)) with (Byte.x2d :: dec_digits 10 (- v)).
    split; [cbn [parse_d]; rewrite decide_True by done; rewrite parse_dec_digits by lia; lia|].
    split; [zlens; pose proof (dec_digits_len 10 (- v)); lia|].
    by split.
  - pose proof (parse_dec_digits 10 v ltac:(lia)) as Hp.
    pose proof (dec_digits_len 10 v) as Hl.
    destruct (dec_digits 10 v) as [|c s] eqn:Ed;
      [by destruct (dec_digits_nonempty 9 v)|].
    specialize (Hh v c s ltac:(lia) Ed). cbn [parse_d head].
    rewrite decide_False by done. split; [exact Hp|]. split; [lia|].
    split; [intros [= Hc]; congruence|intros; lia].
Qed.

Definition empty_fd : fd_state := {| fd_out := []; fd_answers := [] |}.

Lemma append_int_decimal_witness :
  exists s, append_int empty_fd (-2147483647) = Ret (fst (sys_write empty_fd s)) /\
    parse_d s = -2147483647 /\ zlen s <= 11 /\ (head s = Some Byte.x2d <-> -2147483647 < 0).
Proof. apply (append_int_decimal empty_fd (-2147483647)). vm_compute. intuition congruence. Defined.


