(* ===== verification/Seccomp.v ===== *)
(** * The seccomp filter of the run_r sandbox (c_ffi/sandbox_linux.c, 255-298)

    The filter is a classic-BPF program; this file gives the forms of
    instruction it uses their semantics, and proves what the program decides
    for every system call.  The numbers the C file takes from the Linux headers
    are the fields of a class: the theorems hold for any values of them, the
    witnesses use the x86-64 ones. *)

From S2P Require Import Prelude.

(** ** The kernel's numbers *)

Class LinuxAbi := {
  AUDIT_ARCH_X86_64 : Z;
  NR_execve : Z;
  NR_execveat : Z;
  NR_socket : Z;
  AF_UNIX : Z;
  EACCES : Z;
  SECCOMP_RET_ERRNO : Z;
  SECCOMP_RET_DATA : Z;
  SECCOMP_RET_ALLOW : Z;
}.

(** [struct seccomp_data]: a 32-bit number and architecture, the instruction
    pointer, six 64-bit arguments. *)
Record seccomp_data := {
  sd_nr : Z;
  sd_arch : Z;
  sd_ip : Z;
  sd_args : list Z;
}.

Definition offsetof_nr : Z := 0.
Definition offsetof_arch : Z := 4.
Definition offsetof_args (i : Z) : Z := 16 + 8 * i.

(** The 32-bit words of the structure, in memory order (little-endian). *)
Definition seccomp_words (d : seccomp_data) : list Z :=
  u32 (sd_nr d) :: u32 (sd_arch d) ::
  concat (map (fun a => [u32 a; u32 (a / 2 ^ 32)]) (sd_ip d :: sd_args d)).

(** ** Classic BPF, the instruction forms the filter uses *)

Inductive sock_filter :=
  | BPF_LD_W_ABS (k : Z)            (* A := the word at offset k *)
  | BPF_JEQ_K (k jt jf : Z)         (* skip jt instructions if A = k, jf if not *)
  | BPF_RET_K (k : Z).              (* stop with the value k *)

(** One instruction: the accumulator and the number of instructions to skip,
    or the verdict; [None] for a load outside the data. *)
Definition bpf_step (d : seccomp_data) (a : Z) (i : sock_filter) : option (Z + Z * Z) :=
  match i with
  | BPF_LD_W_ABS k =>
      if k mod 4 =? 0 then
        match seccomp_words d !! Z.to_nat (k / 4) with
        | Some w => Some (inr (w, 0))
        | None => None
        end
      else None
  | BPF_JEQ_K k jt jf => Some (inr (a, if a =? k then jt else jf))
  | BPF_RET_K k => Some (inl k)
  end.

(** Running a program from its first instruction; jumps only go forward, so
    the recursion is on the instructions left, [skip] of which are passed
    over.  [None]: the program ran off its end or loaded out of range. *)
Fixpoint bpf_run (prog : list sock_filter) (d : seccomp_data) (a skip : Z) : option Z :=
  match prog with
  | [] => None
  | i :: prog' =>
      if 0 <? skip then bpf_run prog' d a (skip - 1)
      else
        match bpf_step d a i with
        | Some (inl v) => Some v
        | Some (inr (a', skip')) => bpf_run prog' d a' skip'
        | None => None
        end
  end.

Lemma bpf_run_ld p d a k w :
  bpf_step d a (BPF_LD_W_ABS k) = Some (inr (w, 0)) ->
  bpf_run (BPF_LD_W_ABS k :: p) d a 0 = bpf_run p d w 0.
Proof. intros E. cbn [bpf_run]. by rewrite E. Qed.

Lemma bpf_run_jeq p d a k jt jf :
  bpf_run (BPF_JEQ_K k jt jf :: p) d a 0 = bpf_run p d a (if a =? k then jt else jf).
Proof. done. Qed.

(** Three instructions are passed over by a skip of three, and so on. *)
Lemma bpf_run_skip i p d a n :
  0 < n -> bpf_run (i :: p) d a n = bpf_run p d a (n - 1).
Proof. intros. cbn [bpf_run]. by rewrite (proj2 (Z.ltb_lt _ _)) by lia. Qed.

(** ** The filter *)

Section Filter.

Context `{LinuxAbi}.

Definition SECCOMP_RET_KILL_PROCESS : Z := 2147483648.   (* 0x80000000U *)

Definition DENY_EACCES : Z := Z.lor SECCOMP_RET_ERRNO (Z.land EACCES SECCOMP_RET_DATA).

Definition seccomp_filter : list sock_filter :=
  [ (* reject calls from an unexpected architecture *)
    BPF_LD_W_ABS offsetof_arch;
    BPF_JEQ_K AUDIT_ARCH_X86_64 1 0;
    BPF_RET_K SECCOMP_RET_KILL_PROCESS;
    (* load the syscall number *)
    BPF_LD_W_ABS offsetof_nr;
    (* deny program execution *)
    BPF_JEQ_K NR_execve 0 1;
    BPF_RET_K DENY_EACCES;
    BPF_JEQ_K NR_execveat 0 1;
    BPF_RET_K DENY_EACCES;
    (* deny network: allow only AF_UNIX sockets *)
    BPF_JEQ_K NR_socket 0 3;
    BPF_LD_W_ABS (offsetof_args 0);
    BPF_JEQ_K AF_UNIX 1 0;
    BPF_RET_K DENY_EACCES;
    (* everything else is allowed *)
    BPF_RET_K SECCOMP_RET_ALLOW ].

(** What [prctl(PR_SET_SECCOMP, SECCOMP_MODE_FILTER, &prog)] installs. *)
Record sock_fprog := { fprog_len : Z; fprog_filter : list sock_filter }.

Definition fprog : sock_fprog :=
  {| fprog_len := zlen seccomp_filter mod 2 ^ 16; fprog_filter := seccomp_filter |}.

(** [apply_seccomp]: the filter installed, if any, the error text and the
    return code; [prctl] is the kernel's answer. *)
Definition apply_seccomp (prctl : sock_fprog -> Z) : option sock_fprog * option bytes * Z :=
  if negb (prctl fprog =? 0) then (None, Some (lit "prctl(PR_SET_SECCOMP) failed"), -1)
  else (Some fprog, None, 0).

(** The verdict of the filter on a system call. *)
Definition seccomp_verdict (d : seccomp_data) : option Z := bpf_run seccomp_filter d 0 0.

(** A call with its six arguments. *)
Definition wf_call (d : seccomp_data) : Prop := length (sd_args d) = 6%nat.

(** The domain a [socket] call asks for: an [int], the low half of its
    argument. *)
Definition socket_domain (d : seccomp_data) : Z := u32 (nth 0 (sd_args d) 0).

(** The posture of sandbox_linux.h, as a decision. *)
Definition posture (d : seccomp_data) : Z :=
  if negb (u32 (sd_arch d) =? AUDIT_ARCH_X86_64) then SECCOMP_RET_KILL_PROCESS
  else if (u32 (sd_nr d) =? NR_execve) || (u32 (sd_nr d) =? NR_execveat) then DENY_EACCES
  else if (u32 (sd_nr d) =? NR_socket) && negb (socket_domain d =? AF_UNIX) then DENY_EACCES
  else SECCOMP_RET_ALLOW.

(** What the header says of the return values: an ALLOW is none of the others. *)
Class LinuxAbiOk : Prop := {
  deny_not_allow : DENY_EACCES <> SECCOMP_RET_ALLOW;
  kill_not_allow : SECCOMP_RET_KILL_PROCESS <> SECCOMP_RET_ALLOW;
}.

(** A whole run is one pass over thirteen instructions. *)
Ltac bpf_exec :=
  repeat first
    [ rewrite bpf_run_jeq
    | rewrite bpf_run_skip by done; cbn [Z.sub Z.add Z.opp Z.pos_sub Pos.pred_double]
    | erewrite bpf_run_ld by reflexivity; cbn [sd_nr sd_arch sd_args] ].

Lemma seccomp_verdict_eq d : wf_call d -> seccomp_verdict d = Some (posture d).
Proof.
  unfold wf_call, seccomp_verdict, posture, socket_domain.
  destruct d as [nr arch ip [|a0 args]]; [done|]. intros _. cbn [sd_nr sd_arch sd_args nth].
  unfold seccomp_filter. bpf_exec.
  destruct (u32 arch =? AUDIT_ARCH_X86_64); [|done]. bpf_exec.
  destruct (u32 nr =? NR_execve); [done|]. bpf_exec.
  destruct (u32 nr =? NR_execveat); [done|]. bpf_exec.
  destruct (u32 nr =? NR_socket); [|done]. bpf_exec.
  by destruct (u32 a0 =? AF_UNIX).
Qed.

End Filter.

(** ** The x86-64 numbers, for the witnesses (linux/audit.h, asm/unistd_64.h,
    linux/seccomp.h) *)

#[export] Instance x86_64_abi : LinuxAbi := {
  AUDIT_ARCH_X86_64 := 3221225534;
  NR_execve := 59;
  NR_execveat := 322;
  NR_socket := 41;
  AF_UNIX := 1;
  EACCES := 13;
  SECCOMP_RET_ERRNO := 327680;
  SECCOMP_RET_DATA := 65535;
  SECCOMP_RET_ALLOW := 2147418112;
}.

#[export] Instance x86_64_abi_ok : LinuxAbiOk.
Proof. split; vm_compute; discriminate. Qed.

Definition call_with (arch nr arg0 : Z) : seccomp_data :=
  {| sd_nr := nr; sd_arch := arch; sd_ip := 0; sd_args := [arg0; 0; 0; 0; 0; 0] |}.

(** x32 system calls carry this bit in their number and the x86-64
    architecture value (asm/unistd_x32.h). *)
Definition X32_SYSCALL_BIT : Z := 1073741824.

(** ** The theorems *)





(** The filter compares the whole number, so an x32 execve, which the kernel
    reports under the x86-64 architecture, is let through. *)
Theorem seccomp_x32_execve_allowed :
  seccomp_verdict (call_with AUDIT_ARCH_X86_64 (X32_SYSCALL_BIT + 520) 0)
  = Some SECCOMP_RET_ALLOW.
Proof. vm_compute. reflexivity. Qed.
