(* ===== verification/Landlock.v ===== *)
(** * The Landlock allow-list of the run_r sandbox (c_ffi/sandbox_linux.c)

    [grant_path], [grant_home_minus_secrets], [grant_read_tree],
    [apply_landlock] and [raoui_sandbox_apply], over a class of what the kernel
    and the C library answer.  Each function returns the system calls it made,
    in order, with its return code. *)

From S2P Require Import Prelude CString Seccomp.

(** ** The kernel's access rights (linux/landlock.h: one bit each) *)

Inductive fs_right :=
  | FS_EXECUTE | FS_WRITE_FILE | FS_READ_FILE | FS_READ_DIR | FS_REMOVE_DIR
  | FS_REMOVE_FILE | FS_MAKE_CHAR | FS_MAKE_DIR | FS_MAKE_REG | FS_MAKE_SOCK
  | FS_MAKE_FIFO | FS_MAKE_BLOCK | FS_MAKE_SYM | FS_TRUNCATE.

#[export] Instance fs_right_eq_decision : EqDecision fs_right.
Proof. solve_decision. Defined.

Class LandlockAbi := { fs_bit : fs_right -> Z }.

Class LandlockAbiOk `{LandlockAbi} : Prop := {
  fs_bit_range r : 0 <= fs_bit r < 64;
  #[global] fs_bit_inj :: Inj (=) (=) fs_bit;
}.

(** ** What the operating system answers

    [inode] is what a path is resolved to; [os_open] is
    [open(path, O_PATH|O_CLOEXEC)], [os_isdir] is [fstat] ([None] when it
    fails), [os_readdir] the names [opendir]/[readdir] list. *)

Class SandboxOs := {
  inode : Type;
  os_open : bytes -> option inode;
  os_isdir : inode -> option bool;
  os_realpath : bytes -> option bytes;
  os_readdir : bytes -> option (list bytes);
  os_add_rule : inode -> Z -> Z;
  os_landlock_abi : Z;
  os_create_ruleset : Z -> Z;
  os_prctl_no_new_privs : Z;
  os_restrict_self : Z;
  os_strdup : bytes -> option bytes;
}.

(** The system calls the sandbox makes that change something. *)
Inductive sys_event `{SandboxOs} :=
  | EvOpen (i : inode)
  | EvClose (i : inode)
  | EvOpenDir (path : bytes)
  | EvCloseDir (path : bytes)
  | EvCreateRuleset (handled fd : Z)
  | EvCloseRuleset
  | EvAddRule (i : inode) (access : Z) (rc : Z)
  | EvMkdir (path : bytes)
  | EvNoNewPrivs (rc : Z)
  | EvRestrictSelf (rc : Z)
  | EvSeccomp (rc : Z).

Section Sandbox.

Context `{LandlockAbi, SandboxOs}.

(** ** Rights *)

Definition access_fs (r : fs_right) : Z := Z.shiftl 1 (fs_bit r).

Definition rights (rs : list fs_right) : Z := fold_right (fun r => Z.lor (access_fs r)) 0 rs.

Definition FS_READ_RIGHTS : Z := rights [FS_READ_FILE; FS_READ_DIR].

Definition FS_WRITE_RIGHTS : Z :=
  rights [FS_WRITE_FILE; FS_TRUNCATE; FS_REMOVE_FILE; FS_REMOVE_DIR; FS_MAKE_REG;
          FS_MAKE_DIR; FS_MAKE_SYM; FS_MAKE_FIFO; FS_MAKE_SOCK; FS_MAKE_CHAR; FS_MAKE_BLOCK].

Definition FS_FILE_RIGHTS : Z :=
  rights [FS_READ_FILE; FS_WRITE_FILE; FS_TRUNCATE; FS_EXECUTE].

(** ** Constants *)

Definition RUNR_SCRATCH_DIR : bytes := lit "/tmp/raoui-sandbox".
Definition DEV_NULL : bytes := lit "/dev/null".

Definition SYS_READ_ROOTS : list bytes :=
  [lit "/usr"; lit "/lib"; lit "/lib64"; lit "/bin"; lit "/sbin"; lit "/etc"; lit "/dev";
   lit "/tmp"].

Definition HOME_SECRETS : list bytes :=
  [lit ".ssh"; lit ".aws"; lit ".gnupg"; lit ".config"; lit ".netrc"; lit ".Renviron";
   lit ".Rhistory"; lit ".bash_history"; lit ".zsh_history"; lit ".docker"; lit ".kube"].

Definition PATH_MAX : Z := 4096.

(** ** Granting *)

Definition grant_path (path : bytes) (access : Z) : list sys_event * Z :=
  match os_open path with
  | None => ([], 0)
  | Some fd =>
      let access :=
        match os_isdir fd with
        | Some false => Z.land access FS_FILE_RIGHTS
        | _ => access
        end in
      if access =? 0 then ([EvOpen fd; EvClose fd], 0)
      else
        let rc := os_add_rule fd access in
        ([EvOpen fd; EvAddRule fd access rc; EvClose fd], if negb (rc =? 0) then -1 else 0)
  end.

Definition is_secret_name (name : bytes) : bool :=
  existsb (fun s => strcmp_eq name s) HOME_SECRETS.

Definition grant_child (home : bytes) (read_access : Z) (n : bytes) : list sys_event :=
  if strcmp_eq n (lit ".") || strcmp_eq n (lit "..") || is_secret_name n then []
  else
    let child := home ++ lit "/" ++ n in
    if PATH_MAX <=? u64 (snprintf_ret child) then []
    else fst (grant_path (snprintf_store PATH_MAX child) read_access).

Definition grant_home_minus_secrets (home : bytes) (read_access : Z) : list sys_event :=
  match os_readdir home with
  | None => []
  | Some names =>
      [EvOpenDir home] ++ concat (map (grant_child home read_access) names) ++ [EvCloseDir home]
  end.

Definition same_path (a b : bytes) : bool :=
  match os_realpath a, os_realpath b with
  | Some ra, Some rb => strcmp_eq ra rb
  | _, _ => false
  end.

Definition is_strict_ancestor (anc desc : bytes) : bool :=
  match os_realpath anc, os_realpath desc with
  | Some ra, Some rd =>
      let la := zlen ra in
      if (la =? 0) || negb (strncmp_eq ra rd la) then false
      else strcmp_eq ra (lit "/") || bool_decide (c_char rd la = Byte.x2f)
  | _, _ => false
  end.

(** [home && *home]. *)
Definition nonempty_str (p : option bytes) : option bytes :=
  match p with
  | Some ((_ :: _) as h) => Some h
  | _ => None
  end.

Definition grant_read_tree (path : bytes) (home : option bytes) (read_access : Z)
    : list sys_event * Z :=
  match nonempty_str home with
  | Some h =>
      if same_path path h then (grant_home_minus_secrets h read_access, 0)
      else if is_strict_ancestor path h then ([], 0)
      else grant_path path read_access
  | None => grant_path path read_access
  end.

(** ** apply_landlock and raoui_sandbox_apply: events, error text, code *)

(** The paths [apply_landlock] routes through [grant_read_tree], in order. *)
Definition read_paths (dyn_read_paths : option bytes) : list bytes :=
  SYS_READ_ROOTS ++
  match dyn_read_paths with
  | Some s =>
      match os_strdup s with
      | Some dup => filter (fun tok => tok <> []) (strtok Byte.x0a dup)
      | None => []
      end
  | None => []
  end.

Definition apply_landlock (dyn_read_paths home : option bytes)
    : list sys_event * option bytes * Z :=
  let abi := os_landlock_abi in
  if abi <? 1 then ([], Some (lit "Landlock is unavailable on this kernel"), -1)
  else
    let handled := Z.lor FS_READ_RIGHTS FS_WRITE_RIGHTS in
    let handled := if abi <? 3 then Z.ldiff handled (access_fs FS_TRUNCATE) else handled in
    let read_access := Z.land FS_READ_RIGHTS handled in
    let write_access := Z.land (Z.lor FS_READ_RIGHTS FS_WRITE_RIGHTS) handled in
    let ruleset_fd := os_create_ruleset handled in
    if ruleset_fd <? 0 then
      ([EvCreateRuleset handled ruleset_fd], Some (lit "landlock_create_ruleset failed"), -1)
    else
      let reads :=
        concat (map (fun p => fst (grant_read_tree p home read_access))
                    (read_paths dyn_read_paths)) in
      let writes :=
        [EvMkdir RUNR_SCRATCH_DIR] ++
        fst (grant_path RUNR_SCRATCH_DIR write_access) ++
        fst (grant_path DEV_NULL (Z.land (access_fs FS_WRITE_FILE) handled)) in
      let evs := [EvCreateRuleset handled ruleset_fd] ++ reads ++ writes in
      let nnp := os_prctl_no_new_privs in
      if negb (nnp =? 0) then
        (evs ++ [EvNoNewPrivs nnp; EvCloseRuleset],
         Some (lit "prctl(PR_SET_NO_NEW_PRIVS) failed"), -1)
      else
        let rs := os_restrict_self in
        if negb (rs =? 0) then
          (evs ++ [EvNoNewPrivs nnp; EvRestrictSelf rs; EvCloseRuleset],
           Some (lit "landlock_restrict_self failed"), -1)
        else (evs ++ [EvNoNewPrivs nnp; EvRestrictSelf rs; EvCloseRuleset], None, 0).

Definition raoui_sandbox_apply `{LinuxAbi} (prctl_seccomp : sock_fprog -> Z)
    (dyn_read_paths home : option bytes) : list sys_event * option bytes * Z :=
  let '(evs, err, rc) := apply_landlock dyn_read_paths home in
  if negb (rc =? 0) then (evs, err, -1)
  else
    let '(_, err2, rc2) := apply_seccomp prctl_seccomp in
    let evs := evs ++ [EvSeccomp (prctl_seccomp fprog)] in
    if negb (rc2 =? 0) then (evs, err2, -1) else (evs, None, 0).

(** The fallback compiled on other platforms. *)
Definition raoui_sandbox_apply_elsewhere (dyn_read_paths home : option bytes)
    : list sys_event * option bytes * Z :=
  ([], Some (lit "Linux sandbox invoked on a non-Linux platform"), -1).

(** ** What the rules allow *)

(** Rules the kernel accepted. *)
Definition rules (evs : list sys_event) : list (inode * Z) :=
  omap (fun e => match e with
                 | EvAddRule i access 0 => Some (i, access)
                 | _ => None
                 end) evs.

End Sandbox.
