(* ===== verification/LandlockProps.v ===== *)
(** * Properties of the Landlock allow-list

    Canonical paths as component lists, the correctness of the textual
    ancestor test, and what the rules [apply_landlock] leaves in force allow:
    writes, descriptors, ordering, and the credential stores under $HOME. *)

From S2P Require Import Prelude CString Seccomp Landlock.

(** ** Canonical paths *)

Abbreviation comps := (list bytes).

Definition slash : byte := Byte.x2f.

Definition comp_ok (c : bytes) : Prop := c <> [] /\ (slash ∉ c) /\ is_cstr c.

Fixpoint render_comps (p : comps) : bytes :=
  match p with
  | [] => []
  | c :: p' => slash :: c ++ render_comps p'
  end.

(** What [realpath] prints for the file reached by these components. *)
Definition render (p : comps) : bytes :=
  match p with
  | [] => [slash]
  | _ => render_comps p
  end.

Lemma render_comps_app p q : render_comps (p ++ q) = render_comps p ++ render_comps q.
Proof.
  induction p as [|c p IH]; [done|]. cbn. by rewrite IH, <- app_assoc.
Qed.

Lemma render_cstr p : Forall comp_ok p -> is_cstr (render p).
Proof.
  intros Hp. assert (is_cstr (render_comps p)).
  { induction Hp as [|c p (? & ? & ?) _ IH]; [by apply Forall_nil|]. cbn.
    constructor; [done|]. by apply Forall_app_2. }
  destruct p; [by repeat constructor|done].
Qed.

(** Text after a component: nothing, or something that starts with a slash. *)
Definition stops (s : bytes) : Prop := s = [] \/ exists s', s = slash :: s'.

Lemma stops_render p k : stops k -> stops (render_comps p ++ k).
Proof. intros Hk. destruct p; [done|]. right. by eexists. Qed.

Lemma comp_split a b x y :
  slash ∉ a -> slash ∉ b -> stops x -> stops y -> a ++ x = b ++ y -> a = b /\ x = y.
Proof.
  revert b. induction a as [|c a IH]; intros b Ha Hb Hx Hy E.
  - destruct b as [|d b]; [done|]. cbn in E. exfalso.
    destruct Hx as [->|[x' ->]]; [done|]. injection E as <- _. apply Hb. left.
  - destruct b as [|d b].
    + exfalso. cbn in E. destruct Hy as [->|[y' ->]]; [done|]. injection E as -> _.
      apply Ha. left.
    + injection E as -> E. apply not_elem_of_cons in Ha as [_ Ha].
      apply not_elem_of_cons in Hb as [_ Hb].
      by destruct (IH b Ha Hb Hx Hy E) as [-> ->].
Qed.

Lemma render_comps_prefix a d k :
  Forall comp_ok a -> Forall comp_ok d -> stops k ->
  render_comps d = render_comps a ++ k -> a `prefix_of` d /\ (k = [] -> a = d).
Proof.
  revert d. induction a as [|c a IH]; intros d Ha Hd Hk E.
  - split; [apply prefix_nil|]. intros ->. by destruct d.
  - apply Forall_cons_1 in Ha as [(_ & Hc & _) Ha].
    destruct d as [|e d]; [done|]. apply Forall_cons_1 in Hd as [(_ & He & _) Hd].
    cbn in E. injection E as E. rewrite <- app_assoc in E.
    apply comp_split in E as [-> E]; [|done..| |by apply stops_render].
    + destruct (IH d Ha Hd Hk E) as [Hp Hnil]. split; [by apply prefix_cons|].
      intros ->. by rewrite Hnil.
    + rewrite <- (app_nil_r (render_comps d)). apply stops_render. by left.
Qed.

Lemma render_inj a d : Forall comp_ok a -> Forall comp_ok d -> render a = render d -> a = d.
Proof.
  assert (Hone : forall c p, comp_ok c -> render_comps (c :: p) <> [slash]).
  { intros c p (Hc & _) E. injection E as E. by apply app_eq_nil in E as [-> _]. }
  intros Ha Hd E. destruct a as [|c a], d as [|e d]; [done| | |].
  - exfalso. apply Forall_cons_1 in Hd as [He _]. by apply (Hone e d He).
  - exfalso. apply Forall_cons_1 in Ha as [Hc _]. by apply (Hone c a Hc).
  - destruct (render_comps_prefix (c :: a) (e :: d) [] Ha Hd) as [_ Heq]; [by left| |by apply Heq].
    by rewrite app_nil_r.
Qed.

(** ** The two textual tests *)

Section Tests.

Context `{SandboxOs}.
Context (a b : bytes) (pa pb : comps).
Hypothesis Ha : os_realpath a = Some (render pa).
Hypothesis Hb : os_realpath b = Some (render pb).
Hypothesis Hpa : Forall comp_ok pa.
Hypothesis Hpb : Forall comp_ok pb.

Lemma same_path_iff : same_path a b = true <-> pa = pb.
Proof.
  unfold same_path. rewrite Ha, Hb, strcmp_eq_iff. split; [|by intros ->].
  by apply render_inj.
Qed.

Lemma c_char_at s k : c_char (s ++ k) (zlen s) = hd Byte.x00 (k ++ [Byte.x00]).
Proof.
  unfold c_char, zlen. rewrite Nat2Z.id, <- app_assoc, app_nth2, Nat.sub_diag by lia.
  by destruct k.
Qed.

Lemma render_not_root c p : Forall comp_ok (c :: p) -> strcmp_eq (render (c :: p)) (lit "/") = false.
Proof.
  intros Hc. apply Forall_cons_1 in Hc as [(Hc & _) _]. apply bool_decide_eq_false.
  intros E. injection E as E. by apply app_eq_nil in E as [-> _].
Qed.

Lemma strict_ancestor_text c p :
  pa = c :: p ->
  pa `prefix_of` pb /\ pa <> pb <-> exists k, render pb = render_comps pa ++ slash :: k.
Proof.
  intros Hp. split.
  - intros [[q ->] Hne]. destruct q as [|e q]; [by rewrite app_nil_r in Hne|].
    exists (e ++ render_comps q). rewrite Hp. exact (render_comps_app (c :: p) (e :: q)).
  - intros [k Hk].
    assert (Hr : render_comps pb = render_comps pa ++ slash :: k).
    { destruct pb as [|e q]; [|exact Hk]. exfalso. rewrite Hp in Hk, Hpa.
      apply Forall_cons_1 in Hpa as [(Hc & _) _]. injection Hk as Hk. by destruct c. }
    destruct (render_comps_prefix pa pb (slash :: k) Hpa Hpb) as [Hpre _];
      [right; by eexists|done|].
    split; [done|]. intros ->. apply (f_equal length) in Hr. rewrite length_app in Hr.
    cbn in Hr. lia.
Qed.

Lemma is_strict_ancestor_iff :
  is_strict_ancestor a b = true <-> pa `prefix_of` pb /\ (pa <> pb \/ pa = []).
Proof.
  unfold is_strict_ancestor. rewrite Ha, Hb.
  pose proof (strncmp_prefix (render pa) (render pb) (render_cstr pa Hpa)) as Hpre.
  assert (pa = [] \/ exists c p, pa = c :: p) as [Hp|(c & p & Hp)]
    by (destruct pa; eauto).
  { rewrite Hp in Hpre |- *. split; [intros _; split; [apply prefix_nil|by right]|]. intros _.
    replace (strncmp_eq _ _ _) with true; [done|]. symmetry. apply Hpre.
    destruct pb; by eexists. }
  assert (Hren : render pa = render_comps pa) by (by rewrite Hp).
  assert (Hroot : strcmp_eq (render pa) (lit "/") = false).
  { rewrite Hp. apply render_not_root. rewrite <- Hp. exact Hpa. }
  rewrite (proj2 (Z.eqb_neq _ _)) by (rewrite Hren, Hp; cbn [render_comps]; zlens; lia).
  rewrite Hroot. transitivity (pa `prefix_of` pb /\ pa <> pb).
  2:{ rewrite Hp. split; [intros [? ?]; auto|]. by intros [? [?|?]]. }
  rewrite (strict_ancestor_text c p Hp), <- Hren. cbn [orb].
  destruct (strncmp_eq _ _ _) eqn:Es; cbn [negb].
  - destruct Hpre as [Hpre _]. destruct (Hpre eq_refl) as [k Hk].
    rewrite Hk, c_char_at, bool_decide_eq_true. split.
    + destruct k as [|x k]; cbn; [done|]. intros ->. by exists k.
    + intros [k' E]. apply app_inv_head in E. by rewrite E.
  - split; [done|]. intros [k Hk]. apply Hpre. by eexists.
Qed.

End Tests.

(** ** Access rights *)

Section Rights.

Context `{LandlockAbiOk}.

Lemma access_fs_testbit r n :
  0 <= n -> Z.testbit (access_fs r) n = true <-> fs_bit r = n.
Proof.
  intros Hn. unfold access_fs. pose proof (fs_bit_range r).
  rewrite Z.shiftl_spec by done.
  destruct (Z.lt_ge_cases n (fs_bit r)).
  - rewrite Z.testbit_neg_r by lia. split; [done|lia].
  - change 1 with (2 ^ 0). rewrite Z.pow2_bits_eqb, Z.eqb_eq by lia. lia.
Qed.

Lemma rights_testbit rs n :
  0 <= n -> Z.testbit (rights rs) n = true <-> exists r, r ∈ rs /\ fs_bit r = n.
Proof.
  intros Hn. induction rs as [|r rs IH]; cbn.
  - rewrite Z.testbit_0_l. split; [done|]. by intros (? & ?%elem_of_nil & _).
  - rewrite Z.lor_spec, orb_true_iff, IH, access_fs_testbit by done.
    setoid_rewrite elem_of_cons. split.
    + intros [?|(r' & ? & ?)]; [by exists r; split; [left|]|by exists r'; split; [right|]].
    + intros (r' & [->|?] & ?); [by left|right; by exists r'].
Qed.

(** A right is granted by a mask of rights exactly when it is listed. *)
Lemma rights_grants rs r :
  Z.testbit (rights rs) (fs_bit r) = true <-> r ∈ rs.
Proof.
  pose proof (fs_bit_range r). rewrite rights_testbit by lia. split; [|by exists r].
  intros (r' & Hr & E). by apply (inj fs_bit) in E as ->.
Qed.

Lemma read_rights_no_write w :
  w ∈ [FS_WRITE_FILE; FS_TRUNCATE; FS_REMOVE_FILE; FS_REMOVE_DIR; FS_MAKE_REG; FS_MAKE_DIR;
       FS_MAKE_SYM; FS_MAKE_FIFO; FS_MAKE_SOCK; FS_MAKE_CHAR; FS_MAKE_BLOCK] ->
  Z.testbit FS_READ_RIGHTS (fs_bit w) = false.
Proof.
  intros Hw. apply not_true_iff_false. intros Ht%rights_grants.
  repeat (apply elem_of_cons in Ht as [->|Ht]); try by apply elem_of_nil in Ht.
  all: repeat (apply elem_of_cons in Hw as [?|Hw]; [done|]); by apply elem_of_nil in Hw.
Qed.

End Rights.

(** ** The system calls of each function *)

Section Events.

Context `{LandlockAbi, SandboxOs}.

Lemma rules_app evs1 evs2 : rules (evs1 ++ evs2) = rules evs1 ++ rules evs2.
Proof. apply omap_app. Qed.

Lemma grant_path_rules p access i acc :
  (i, acc) ∈ rules (fst (grant_path p access)) ->
  os_open p = Some i /\ (forall n, Z.testbit acc n = true -> Z.testbit access n = true).
Proof.
  unfold grant_path. destruct (os_open p) as [fd|]; [|by intros ?%elem_of_nil].
  set (acc' := match os_isdir fd with Some false => _ | _ => access end).
  assert (Hsub : forall n, Z.testbit acc' n = true -> Z.testbit access n = true).
  { intros n. unfold acc'. destruct (os_isdir fd) as [[]|]; try done.
    rewrite Z.land_spec. by intros [? _]%andb_true_iff. }
  destruct (acc' =? 0); [by intros ?%elem_of_nil|]. cbn.
  destruct (os_add_rule fd acc'); try by intros ?%elem_of_nil.
  intros [= -> ->]%list_elem_of_singleton. done.
Qed.

(** Descriptors opened and closed, in order. *)
Definition opened (evs : list sys_event) : list (inode + bytes) :=
  omap (fun e => match e with
                 | EvOpen i => Some (inl i)
                 | EvOpenDir d => Some (inr d)
                 | _ => None
                 end) evs.

Definition closed (evs : list sys_event) : list (inode + bytes) :=
  omap (fun e => match e with
                 | EvClose i => Some (inl i)
                 | EvCloseDir d => Some (inr d)
                 | _ => None
                 end) evs.

(** The events a grant consists of. *)
Definition grant_event (e : sys_event) : Prop :=
  match e with
  | EvOpen _ | EvClose _ | EvOpenDir _ | EvCloseDir _ | EvAddRule _ _ _ | EvMkdir _ => True
  | _ => False
  end.

(** A batch of grants: closes what it opens, makes no other call. *)
Definition grants (evs : list sys_event) : Prop :=
  opened evs ≡ₚ closed evs /\ Forall grant_event evs.

Lemma opened_app evs1 evs2 : opened (evs1 ++ evs2) = opened evs1 ++ opened evs2.
Proof. apply omap_app. Qed.

Lemma closed_app evs1 evs2 : closed (evs1 ++ evs2) = closed evs1 ++ closed evs2.
Proof. apply omap_app. Qed.

Lemma grants_nil : grants [].
Proof. by split; [|apply Forall_nil]. Qed.

Lemma grants_app evs1 evs2 : grants evs1 -> grants evs2 -> grants (evs1 ++ evs2).
Proof.
  intros [E1 F1] [E2 F2]. split; [|by apply Forall_app_2].
  rewrite opened_app, closed_app. by apply Permutation_app.
Qed.

Lemma grants_concat evss : Forall grants evss -> grants (concat evss).
Proof. induction 1; cbn; [apply grants_nil|]. by apply grants_app. Qed.

Lemma grant_path_grants p access : grants (fst (grant_path p access)).
Proof.
  unfold grant_path. destruct (os_open p) as [fd|]; [|apply grants_nil].
  case_match; case_match; (split; [done|by repeat constructor]).
Qed.

Lemma grant_child_grants home access n : grants (grant_child home access n).
Proof.
  unfold grant_child. case_match; [apply grants_nil|]. case_match; [apply grants_nil|].
  apply grant_path_grants.
Qed.

Lemma grant_home_grants home access : grants (grant_home_minus_secrets home access).
Proof.
  unfold grant_home_minus_secrets. destruct (os_readdir home) as [ns|]; [|apply grants_nil].
  assert (Hg : grants (concat (map (grant_child home access) ns))).
  { apply grants_concat, Forall_map, Forall_true. intros. apply grant_child_grants. }
  destruct Hg as [E F]. split.
  - rewrite !opened_app, !closed_app, E. cbn. rewrite app_nil_r. apply Permutation_cons_append.
  - repeat constructor. by apply Forall_app_2; [|repeat constructor].
Qed.

Lemma grant_read_tree_grants p home access : grants (fst (grant_read_tree p home access)).
Proof.
  unfold grant_read_tree. case_match; [|apply grant_path_grants].
  case_match; [apply grant_home_grants|]. case_match; [apply grants_nil|].
  apply grant_path_grants.
Qed.

(** What [apply_landlock] asks for on an ABI. *)
Definition handled_rights : Z :=
  if os_landlock_abi <? 3
  then Z.ldiff (Z.lor FS_READ_RIGHTS FS_WRITE_RIGHTS) (access_fs FS_TRUNCATE)
  else Z.lor FS_READ_RIGHTS FS_WRITE_RIGHTS.

Definition read_events (dyn home : option bytes) : list sys_event :=
  concat (map (fun p => fst (grant_read_tree p home (Z.land FS_READ_RIGHTS handled_rights)))
              (read_paths dyn)).

Definition write_events : list sys_event :=
  [EvMkdir RUNR_SCRATCH_DIR] ++
  fst (grant_path RUNR_SCRATCH_DIR
         (Z.land (Z.lor FS_READ_RIGHTS FS_WRITE_RIGHTS) handled_rights)) ++
  fst (grant_path DEV_NULL (Z.land (access_fs FS_WRITE_FILE) handled_rights)).

Lemma read_events_grants dyn home : grants (read_events dyn home).
Proof. apply grants_concat, Forall_map, Forall_true. intros. apply grant_read_tree_grants. Qed.

Lemma write_events_grants : grants write_events.
Proof.
  apply grants_app; [by split; [|repeat constructor]|].
  apply grants_app; apply grant_path_grants.
Qed.

(** The runs of [apply_landlock]. *)
Lemma apply_landlock_cases dyn home :
  let '(evs, err, rc) := apply_landlock dyn home in
  (rc = -1 /\ is_Some err /\ evs = [] /\ os_landlock_abi < 1) \/
  (exists fd, fd = os_create_ruleset handled_rights /\ fd < 0 /\ rc = -1 /\ is_Some err /\
     evs = [EvCreateRuleset handled_rights fd]) \/
  (exists fd rest, fd = os_create_ruleset handled_rights /\ 0 <= fd /\ 1 <= os_landlock_abi /\
     evs = EvCreateRuleset handled_rights fd :: read_events dyn home ++ write_events ++ rest /\
     ((rc = -1 /\ is_Some err /\ os_prctl_no_new_privs <> 0 /\
       rest = [EvNoNewPrivs os_prctl_no_new_privs; EvCloseRuleset]) \/
      (rc = -1 /\ is_Some err /\ os_prctl_no_new_privs = 0 /\ os_restrict_self <> 0 /\
       rest = [EvNoNewPrivs 0; EvRestrictSelf os_restrict_self; EvCloseRuleset]) \/
      (rc = 0 /\ err = None /\ os_prctl_no_new_privs = 0 /\ os_restrict_self = 0 /\
       rest = [EvNoNewPrivs 0; EvRestrictSelf 0; EvCloseRuleset]))).
Proof.
  unfold apply_landlock. cbv zeta. fold handled_rights.
  destruct (os_landlock_abi <? 1) eqn:E1; zbool; [left; by eauto|].
  destruct (os_create_ruleset _ <? 0) eqn:E2; zbool; [right; left; eexists; by eauto|].
  fold (read_events dyn home). fold write_events.
  destruct (os_prctl_no_new_privs =? 0) eqn:E3; cbn [negb]; zbool;
    [destruct (os_restrict_self =? 0) eqn:E4; cbn [negb]; zbool|];
    right; right; eexists _, _; (split; [reflexivity|]); (split; [done|]); (split; [done|]);
    (split; [rewrite <- app_assoc; cbn [app]; rewrite <- app_assoc; reflexivity|]).
  - right; right. by rewrite E3, E4.
  - right; left. rewrite E3. by eauto.
  - left. by eauto.
Qed.

End Events.

(** ** Rules, and the files they make readable or writable *)

Section Rules.

Context `{LandlockAbiOk, SandboxOs}.

Lemma rules_concat evss i acc :
  (i, acc) ∈ rules (concat evss) -> exists evs, evs ∈ evss /\ (i, acc) ∈ rules evs.
Proof.
  induction evss as [|evs evss IH]; cbn [concat]; [by intros ?%elem_of_nil|].
  rewrite rules_app, elem_of_app. intros [Hr|Hr].
  - exists evs. by split; [left|].
  - destruct (IH Hr) as (evs' & ? & ?). exists evs'. by split; [right|].
Qed.

(** Every rule of a run comes from the reads or from the writes. *)
Lemma apply_landlock_rules dyn home i acc :
  (i, acc) ∈ rules (fst (fst (apply_landlock dyn home))) ->
  (i, acc) ∈ rules (read_events dyn home) \/ (i, acc) ∈ rules write_events.
Proof.
  pose proof (apply_landlock_cases dyn home) as Hc.
  destruct (apply_landlock dyn home) as [[evs err] rc]. cbn [fst].
  destruct Hc as [(_ & _ & -> & _)|[(fd & _ & _ & _ & _ & ->)|(fd & rest & _ & _ & _ & -> & Hr)]];
    [by intros ?%elem_of_nil|by intros ?%elem_of_nil|].
  intros Hin. change (rules _) with (rules (read_events dyn home ++ write_events ++ rest)) in Hin.
  rewrite !rules_app, !elem_of_app in Hin. destruct Hin as [?|[?|Hin]]; [by left|by right|].
  exfalso. by destruct Hr as [(_ & _ & _ & ->)|[(_ & _ & _ & _ & ->)|(_ & _ & _ & _ & ->)]];
    apply elem_of_nil in Hin.
Qed.

Lemma write_events_rules i acc :
  (i, acc) ∈ rules write_events ->
  os_open RUNR_SCRATCH_DIR = Some i \/
  (os_open DEV_NULL = Some i /\
   forall n, Z.testbit acc n = true -> Z.testbit (access_fs FS_WRITE_FILE) n = true).
Proof.
  unfold write_events. rewrite !rules_app, !elem_of_app.
  intros [?%elem_of_nil|[Hr|Hr]]; [done| |]; apply grant_path_rules in Hr as [Ho Hl].
  - by left.
  - right. split; [done|]. intros n Hn%Hl. rewrite Z.land_spec in Hn.
    by apply andb_true_iff in Hn as [? _].
Qed.

(** Rules of the read phase grant reading only. *)
Lemma grant_read_tree_rules p home access i acc n :
  (i, acc) ∈ rules (fst (grant_read_tree p home access)) ->
  Z.testbit acc n = true -> Z.testbit access n = true.
Proof.
  assert (Hgp : forall q, (i, acc) ∈ rules (fst (grant_path q access)) ->
                          Z.testbit acc n = true -> Z.testbit access n = true).
  { intros q Hr Hn. apply grant_path_rules in Hr as [_ Hl]. by apply Hl. }
  unfold grant_read_tree. destruct (nonempty_str home) as [h|]; [|by apply Hgp].
  case_match; [|case_match; [by intros ?%elem_of_nil|by apply Hgp]].
  cbn [fst]. unfold grant_home_minus_secrets.
  destruct (os_readdir h) as [ns|]; [|by intros ?%elem_of_nil].
  rewrite !rules_app, !elem_of_app. intros [?%elem_of_nil|[Hr|?%elem_of_nil]]; [done| |done].
  apply rules_concat in Hr as (evs & Hin & Hr). apply list_elem_of_fmap in Hin as (c & -> & _).
  revert Hr. unfold grant_child. case_match; [by intros ?%elem_of_nil|].
  case_match; [by intros ?%elem_of_nil|]. apply Hgp.
Qed.

Lemma read_events_rules dyn home i acc n :
  (i, acc) ∈ rules (read_events dyn home) -> Z.testbit acc n = true ->
  Z.testbit FS_READ_RIGHTS n = true.
Proof.
  intros Hr Hn. apply rules_concat in Hr as (evs & Hin & Hr).
  apply list_elem_of_fmap in Hin as (p & -> & _).
  eapply grant_read_tree_rules in Hr; [|done]. rewrite Z.land_spec in Hr.
  by apply andb_true_iff in Hr as [? _].
Qed.

End Rules.

(** ** The credential stores *)

Section Secrets.

Context `{LandlockAbiOk, SandboxOs}.

(** The file each inode is: its canonical path. *)
Context (inode_path : inode -> comps).

(** [open] and [realpath] resolve a path to the same file. *)
Hypothesis open_resolves : forall p i,
  os_open p = Some i -> os_realpath p = Some (render (inode_path i)).
Hypothesis inode_path_ok : forall i, Forall comp_ok (inode_path i).

(** $HOME, resolved. *)
Context (home : bytes) (hc : comps).
Hypothesis home_set : home <> [].
Hypothesis home_resolves : os_realpath home = Some (render hc).
Hypothesis hc_ok : Forall comp_ok hc.

(** The entries of $HOME that are not credential stores are no symbolic links. *)
Hypothesis home_children : forall ns n i,
  os_readdir home = Some ns -> n ∈ ns -> n <> lit "." -> n <> lit ".." ->
  is_secret_name n = false ->
  os_open (snprintf_store PATH_MAX (home ++ lit "/" ++ n)) = Some i -> inode_path i = hc ++ [n].

(** A file is readable under a set of rules when a rule on one of its ancestors,
    or on itself, grants reading. *)
Definition readable (rs : list (inode * Z)) (f : comps) : Prop :=
  exists i acc, (i, acc) ∈ rs /\ inode_path i `prefix_of` f /\
    Z.testbit acc (fs_bit FS_READ_FILE) = true.

(** The credential store [s] under $HOME, and what is in it. *)
Definition in_store (s : bytes) (f : comps) : Prop := hc ++ [s] `prefix_of` f.

Lemma nonempty_home : nonempty_str (Some home) = Some home.
Proof.
  assert (Hx : forall h : bytes, h <> [] -> nonempty_str (Some h) = Some h) by (intros [|c h] Hh; [congruence|reflexivity]).
  by apply Hx.
Qed.

Lemma prefix_snoc_cases (p q : comps) x :
  p `prefix_of` q ++ [x] -> p `prefix_of` q \/ p = q ++ [x].
Proof.
  intros [k Hk]. destruct k as [|y k _] using rev_ind; [right; by rewrite app_nil_r in Hk|left].
  rewrite app_assoc in Hk. apply app_inj_tail in Hk as [-> _]. by eexists.
Qed.

(** A path granted directly covers a store only from inside it. *)
Lemma direct_grant_cover p i s f :
  os_open p = Some i -> same_path p home = false -> is_strict_ancestor p home = false ->
  in_store s f -> inode_path i `prefix_of` f -> in_store s (inode_path i).
Proof.
  intros Ho Hs Ha Hf Hi. pose proof (open_resolves p i Ho) as Hr.
  destruct (prefix_weak_total _ _ _ Hi Hf) as [Hp|Hp]; [|done].
  apply prefix_snoc_cases in Hp as [Hp|Hp]; [|unfold in_store; by rewrite Hp].
  exfalso. destruct (decide (inode_path i = hc)) as [E|E].
  - apply (same_path_iff p home _ _ Hr home_resolves (inode_path_ok i) hc_ok) in E. congruence.
  - assert (is_strict_ancestor p home = true); [|congruence].
    apply (is_strict_ancestor_iff p home _ _ Hr home_resolves (inode_path_ok i) hc_ok). auto.
Qed.

Lemma home_grant_cover s f i acc access :
  s ∈ HOME_SECRETS -> in_store s f ->
  (i, acc) ∈ rules (grant_home_minus_secrets home access) -> ~ inode_path i `prefix_of` f.
Proof.
  intros Hs Hf. unfold grant_home_minus_secrets.
  destruct (os_readdir home) as [ns|] eqn:Hd; [|by intros ?%elem_of_nil].
  rewrite !rules_app, !elem_of_app. intros [?%elem_of_nil|[Hr|?%elem_of_nil]]; [done| |done].
  apply rules_concat in Hr as (evs & Hin & Hr). apply list_elem_of_fmap in Hin as (n & -> & Hn).
  revert Hr. unfold grant_child.
  destruct (strcmp_eq n (lit ".") || _ || _) eqn:E; [by intros ?%elem_of_nil|].
  case_match; [by intros ?%elem_of_nil|]. intros [Ho _]%grant_path_rules Hi.
  apply orb_false_iff in E as [[E1 E2]%orb_false_iff E3].
  rewrite (home_children ns n i) in Hi; [|done|done| | |done|done].
  - destruct Hf as [k ->]. destruct Hi as [k' Hk]. rewrite <- !app_assoc in Hk.
    apply app_inv_head in Hk. injection Hk as -> _.
    apply not_true_iff_false in E3. apply E3. apply existsb_exists. exists n.
    split; [by apply list_elem_of_In|]. by apply strcmp_eq_iff.
  - intros ->. by apply bool_decide_eq_false in E1.
  - intros ->. by apply bool_decide_eq_false in E2.
Qed.

Lemma grant_read_tree_cover p s f i acc access :
  s ∈ HOME_SECRETS -> in_store s f ->
  (forall j, os_open p = Some j -> ~ in_store s (inode_path j)) ->
  (i, acc) ∈ rules (fst (grant_read_tree p (Some home) access)) ->
  ~ inode_path i `prefix_of` f.
Proof.
  intros Hs Hf Hp. unfold grant_read_tree. rewrite nonempty_home.
  destruct (same_path p home) eqn:E1; [cbn [fst]; by apply home_grant_cover with (s := s)|].
  destruct (is_strict_ancestor p home) eqn:E2; [by intros ?%elem_of_nil|].
  intros [Ho _]%grant_path_rules Hi. apply (Hp i Ho). by eapply direct_grant_cover.
Qed.

End Secrets.

(** A grant on a directory none of whose components is named like a store, and
    above which $HOME does not lie, covers no store. *)
Lemma plain_dir_cover (hc p f : comps) s :
  ~ p `prefix_of` hc -> s ∉ p -> in_store hc s f -> ~ p `prefix_of` f.
Proof.
  intros Hh Hs Hf Hp. assert (Hin : s ∈ p); [|done].
  destruct (prefix_weak_total _ _ _ Hp Hf) as [Hc|[k ->]].
  - apply prefix_snoc_cases in Hc as [?| ->]; [done|]. apply elem_of_app. right. by left.
  - rewrite <- app_assoc. apply elem_of_app. right. by left.
Qed.

(** ** A concrete system, for the witnesses *)

#[export] Instance linux_landlock_abi : LandlockAbi := {
  fs_bit r :=
    match r with
    | FS_EXECUTE => 0 | FS_WRITE_FILE => 1 | FS_READ_FILE => 2 | FS_READ_DIR => 3
    | FS_REMOVE_DIR => 4 | FS_REMOVE_FILE => 5 | FS_MAKE_CHAR => 6 | FS_MAKE_DIR => 7
    | FS_MAKE_REG => 8 | FS_MAKE_SOCK => 9 | FS_MAKE_FIFO => 10 | FS_MAKE_BLOCK => 11
    | FS_MAKE_SYM => 12 | FS_TRUNCATE => 14
    end;
}.

#[export] Instance linux_landlock_abi_ok : LandlockAbiOk.
Proof. split; [intros []; cbn; lia|intros [] []; done]. Qed.

(** Path text, canonical components, directory or not. *)
Definition sample_files : list (bytes * comps * bool) :=
  [ (lit "/", [], true);
    (lit "/usr", [lit "usr"], true);
    (lit "/lib", [lit "usr"; lit "lib"], true);
    (lit "/etc", [lit "etc"], true);
    (lit "/dev", [lit "dev"], true);
    (lit "/dev/null", [lit "dev"; lit "null"], false);
    (lit "/tmp", [lit "tmp"], true);
    (lit "/tmp/raoui-sandbox", [lit "tmp"; lit "raoui-sandbox"], true);
    (lit "/home", [lit "home"], true);
    (lit "/home/u", [lit "home"; lit "u"], true);
    (lit "/home/user2/lib", [lit "home"; lit "user2"; lit "lib"], true);
    (lit "/home/u/.ssh", [lit "home"; lit "u"; lit ".ssh"], true);
    (lit "/home/u/data.csv", [lit "home"; lit "u"; lit "data.csv"], false);
    (lit "/home/u/proj", [lit "home"; lit "u"; lit "proj"], true) ].

Fixpoint find_file (p : bytes) (fs : list (bytes * comps * bool)) (n : nat) : option nat :=
  match fs with
  | [] => None
  | (q, _, _) :: fs' => if decide (p = q) then Some n else find_file p fs' (S n)
  end.

Definition sample_path (i : nat) : comps :=
  match sample_files !! i with Some (_, c, _) => c | None => [] end.

#[export] Instance sample_os : SandboxOs := {
  inode := nat;
  os_open p := find_file p sample_files 0;
  os_isdir i := match sample_files !! i with Some (_, _, d) => Some d | None => None end;
  os_realpath p := option_map (fun i => render (sample_path i)) (find_file p sample_files 0);
  os_readdir p := if decide (p = lit "/home/u")
                  then Some [lit "."; lit ".."; lit ".ssh"; lit "data.csv"; lit "proj"]
                  else None;
  os_add_rule _ _ := 0;
  os_landlock_abi := 4;
  os_create_ruleset _ := 7;
  os_prctl_no_new_privs := 0;
  os_restrict_self := 0;
  os_strdup s := Some s;
}.

#[export] Instance comp_ok_dec c : Decision (comp_ok c).
Proof. unfold comp_ok, is_cstr. apply _. Defined.

Lemma sample_path_ok i : Forall comp_ok (sample_path i).
Proof.
  unfold sample_path. destruct (sample_files !! i) as [[[q c] d]|] eqn:E; [|by constructor].
  do 14 (destruct i as [|i]; [injection E as <- <- <-;
    match goal with |- ?P => apply (bool_decide_unpack P) end; vm_compute; exact I|]).
  by vm_compute in E.
Qed.

Lemma sample_open_resolves p i :
  os_open p = Some i -> os_realpath p = Some (render (sample_path i)).
Proof. cbn. by intros ->. Qed.

Lemma sample_home_children ns n i :
  os_readdir (lit "/home/u") = Some ns -> n ∈ ns -> n <> lit "." -> n <> lit ".." ->
  is_secret_name n = false ->
  os_open (snprintf_store PATH_MAX (lit "/home/u" ++ lit "/" ++ n)) = Some i ->
  sample_path i = [lit "home"; lit "u"] ++ [n].
Proof.
  intros Hns Hn. vm_compute in Hns. injection Hns as <-.
  repeat (apply elem_of_cons in Hn as [->|Hn]; [|]); [..|by apply elem_of_nil in Hn]; intros H1 H2 H3 H4.
  - done.
  - done.
  - by vm_compute in H3.
  - vm_compute in H4. injection H4 as <-. reflexivity.
  - vm_compute in H4. injection H4 as <-. reflexivity.
Qed.

(** Every failure comes with one of the fixed, short texts. *)
Lemma sandbox_error_text `{LandlockAbi, SandboxOs, LinuxAbi} prctl dyn home :
  let '(_, err, rc) := raoui_sandbox_apply prctl dyn home in
  rc <> 0 -> exists s, err = Some s /\ zlen s < 64.
Proof.
  unfold raoui_sandbox_apply, apply_landlock, apply_seccomp.
  repeat case_match; simplify_eq; intros; try done; eexists; (split; [done|by vm_compute]).
Qed.

(** ** The theorems *)



(** C12. No descriptor leaks on any path: the files and directories the sandbox
    opens are those it closes, and the ruleset is closed exactly when its
    creation succeeded. *)
Theorem sandbox_closes_descriptors `{LandlockAbi, SandboxOs} dyn home :
  let '(evs, _, _) := apply_landlock dyn home in
  opened evs ≡ₚ closed evs /\
  (EvCloseRuleset ∈ evs <-> 1 <= os_landlock_abi /\ 0 <= os_create_ruleset handled_rights).
Proof.
  pose proof (apply_landlock_cases dyn home) as Hc.
  destruct (apply_landlock dyn home) as [[evs err] rc].
  destruct Hc as [(_ & _ & -> & Ha)|[(fd & -> & Hfd & _ & _ & ->)|
    (fd & rest & -> & Hfd & Ha & -> & Hrest)]].
  - split; [done|]. rewrite elem_of_nil. lia.
  - split; [done|]. rewrite list_elem_of_singleton. split; [done|lia].
  - assert (Hr : opened rest = [] /\ closed rest = [] /\ EvCloseRuleset ∈ rest).
    { destruct Hrest as [(_ & _ & _ & ->)|[(_ & _ & _ & _ & ->)|(_ & _ & _ & _ & ->)]];
        (split; [done|split; [done|]]); repeat first [solve [left] | right]. }
    destruct Hr as (Ho & Hcl & Hin).
    destruct (grants_app _ _ (read_events_grants dyn home) write_events_grants) as [Hg _].
    split.
    + rewrite app_assoc. set (evs := _ ++ write_events) in *.
      change (opened (evs ++ rest) ≡ₚ closed (evs ++ rest)).
      by rewrite opened_app, closed_app, Ho, Hcl, !app_nil_r.
    + split; [done|]. intros _. right. rewrite !elem_of_app. auto.
Qed.

(** C13. Writing is confined: a rule in force that grants any governed right other
    than reading is on the scratch directory, or it grants file writing and
    nothing else on /dev/null. *)
Theorem sandbox_write_confined `{LandlockAbiOk, SandboxOs} dyn home i acc r :
  (i, acc) ∈ rules (fst (fst (apply_landlock dyn home))) ->
  Z.testbit acc (fs_bit r) = true ->
  r ∈ [FS_READ_FILE; FS_READ_DIR] \/ os_open RUNR_SCRATCH_DIR = Some i \/
  (os_open DEV_NULL = Some i /\ r = FS_WRITE_FILE).
Proof.
  intros Hr Hb. pose proof (fs_bit_range r).
  apply apply_landlock_rules in Hr as [Hr|Hr].
  - left. apply rights_grants. by eapply read_events_rules.
  - right. apply write_events_rules in Hr as [?|[Ho Hw]]; [by left|right].
    split; [done|]. apply Hw, access_fs_testbit in Hb; [|lia]. by apply (inj fs_bit).
Qed.

Lemma sandbox_write_confined_witness :
  FS_MAKE_REG ∈ [FS_READ_FILE; FS_READ_DIR] \/ @os_open sample_os RUNR_SCRATCH_DIR = Some 7%nat \/
  (@os_open sample_os DEV_NULL = Some 7%nat /\ FS_MAKE_REG = FS_WRITE_FILE).
Proof.
  apply (sandbox_write_confined (H1 := sample_os) (Some (lit "/home/u")) (Some (lit "/home/u")) 7%nat 24574).
  - apply list_elem_of_In. vm_compute. tauto.
  - vm_compute. reflexivity.
Defined.



(** C15. The ancestor test of [grant_read_tree] is the one on path components: on
    paths that resolve, it holds exactly when every component of the first
    begins the second and the two differ (or the first is the root), so a
    directory that merely shares a textual prefix, /home/u against /home/user2,
    is no ancestor; and [same_path] is equality of the resolved paths. *)
Theorem ancestor_test_correct `{SandboxOs} a b pa pb :
  os_realpath a = Some (render pa) -> os_realpath b = Some (render pb) ->
  Forall comp_ok pa -> Forall comp_ok pb ->
  (is_strict_ancestor a b = true <-> pa `prefix_of` pb /\ (pa <> pb \/ pa = [])) /\
  (same_path a b = true <-> pa = pb).
Proof.
  intros Ha Hb Hpa Hpb. split.
  - by apply is_strict_ancestor_iff.
  - by apply same_path_iff.
Qed.

Lemma ancestor_test_correct_witness :
  @is_strict_ancestor sample_os (lit "/home/u") (lit "/home/user2/lib") = true <->
  [lit "home"; lit "u"] `prefix_of` [lit "home"; lit "user2"; lit "lib"] /\
  ([lit "home"; lit "u"] <> [lit "home"; lit "user2"; lit "lib"] \/ [lit "home"; lit "u"] = []).
Proof.
  apply (ancestor_test_correct (H := sample_os)).
  - vm_compute. reflexivity.
  - vm_compute. reflexivity.
  - exact (sample_path_ok 9).
  - exact (sample_path_ok 10).
Defined.

(** A path handed over that lies inside a credential store is granted all the
    same: the store's files become readable. *)
Theorem store_exposed_from_inside :
  readable (H1 := sample_os) sample_path
    (rules (fst (fst (apply_landlock (Some (lit "/home/u/.ssh")) (Some (lit "/home/u"))))))
    [lit "home"; lit "u"; lit ".ssh"; lit "id_rsa"].
Proof.
  exists 11%nat, 12. split; [apply list_elem_of_In; vm_compute; tauto|].
  split; [by exists [lit "id_rsa"]|]. vm_compute. reflexivity.
Qed.
