(* ===== verification/RApi.v ===== *)
(** * R, as the bridge calls it and is called back

    libR is not under src/: its functions are the fields of the class [RApi],
    over an opaque state [W] of the interpreter.  A call that can run R code is
    an [rcall]: the tree of the callbacks it makes before it returns, jumps out
    (R's error longjmp) or dies.  [RApiOk] states what the bridge relies on. *)

From S2P Require Import Prelude CString.

(** [ParseStatus] of load_r.c, lines 35-41. *)
Inductive ParseStatus := PARSE_NULL | PARSE_OK | PARSE_INCOMPLETE | PARSE_ERROR | PARSE_EOF.

#[export] Instance ParseStatus_eq_decision : EqDecision ParseStatus.
Proof. solve_decision. Defined.

(** ** Calls into R *)

Section Calls.
Context {SEXP W : Type}.

(** The C functions of the bridge R calls, with their arguments and the type
    of what R gets back.  [CheckInterrupts] is R's own poll of
    [R_interrupts_pending], which it clears as it acts on it. *)
Inductive callback : Type -> Type :=
  | WriteConsoleEx (s : bytes) (len otype : Z) : callback unit
  | FlushConsole : callback unit
  | ShowMessage (s : bytes) : callback unit
  | ReadConsole (prompt buf : bytes) (len : Z) : callback (bytes * Z)
  | EnterPassthrough : callback SEXP
  | ExitPassthrough : callback SEXP
  | EmitImage (source_path preview_path width height mime : SEXP) : callback SEXP
  | CheckInterrupts : callback Z.

Inductive rcall (A : Type) : Type :=
  | RRet (w : W) (a : A)
      (* the call returns *)
  | RJump (w : W) (st : option ParseStatus)
      (* it longjmps to the innermost top-level context; [st] is what it had
         stored through a ParseStatus pointer by then *)
  | RSuicide (w : W) (msg : bytes)
      (* a fatal error: R calls ptr_R_Suicide *)
  | RCallback {B : Type} (w : W) (c : callback B) (k : W -> B -> rcall A).
      (* it calls back, and goes on with the answer *)

(** What R passes to the callbacks: a console buffer holds the bytes
    announced, a read buffer has room for a newline and a terminator. *)
Definition callback_ok {B} (c : callback B) : Prop :=
  match c with
  | WriteConsoleEx s len _ => 0 <= len <= zlen s /\ len <= INT_MAX
  | ReadConsole _ buf len => 2 <= len <= zlen buf /\ len <= INT_MAX
  | _ => True
  end.

(** A call whose callbacks are well formed and which returns with the
    protection stack at height [d]. *)
Fixpoint rcall_ok (pp_depth : W -> Z) (d : Z) {A} (t : rcall A) : Prop :=
  match t with
  | RRet _ w _ => pp_depth w = d
  | RJump _ _ _ => True
  | RSuicide _ _ _ => True
  | RCallback _ w c k =>
      callback_ok c /\
      forall w' x, pp_depth w' = pp_depth w -> rcall_ok pp_depth d (k w' x)
  end.

(** A property of the value a call returns, whatever the callbacks answer. *)
Fixpoint rcall_returns {A} (P : A -> Prop) (t : rcall A) : Prop :=
  match t with
  | RRet _ _ a => P a
  | RJump _ _ _ => True
  | RSuicide _ _ _ => True
  | RCallback _ _ _ k => forall w' x, rcall_returns P (k w' x)
  end.
End Calls.
Arguments rcall : clear implicits.
Arguments callback : clear implicits.
Arguments RRet {SEXP W A} w a.
Arguments RJump {SEXP W A} w st.
Arguments RSuicide {SEXP W A} w msg.
Arguments RCallback {SEXP W A B} w c k.

(** ** The functions looked up with dlsym (load_r.c, lines 173-231) *)

Class RApi := {
  SEXP : Type;
  W : Type;
  R_NilValue : SEXP;
  R_GlobalEnv : SEXP;
  R_UnboundValue : SEXP;
  SEXP_eqb : SEXP -> SEXP -> bool;
  (* the height of the pointer-protection stack *)
  pp_depth : W -> Z;
  Rf_protect : SEXP -> W -> W;
  Rf_unprotect : Z -> W -> W;
  Rf_mkString : bytes -> W -> W * SEXP;
  Rf_install : bytes -> W -> W * SEXP;
  Rf_lang1 : SEXP -> W -> W * SEXP;
  Rf_lang2 : SEXP -> SEXP -> W -> W * SEXP;
  Rf_asChar : SEXP -> W -> W * SEXP;
  R_CHAR : SEXP -> W -> bytes;
  VECTOR_ELT : SEXP -> Z -> W -> SEXP;
  Rf_length : SEXP -> W -> Z;
  Rf_asLogical : SEXP -> W -> Z;
  Rf_defineVar : SEXP -> SEXP -> SEXP -> W -> W;
  Rf_findVar : SEXP -> SEXP -> W -> SEXP;
  (* the calls that run R code; NULL is [None] *)
  R_ParseVector : SEXP -> Z -> SEXP -> W -> rcall SEXP W (option SEXP * ParseStatus);
  R_tryEval : SEXP -> SEXP -> W -> rcall SEXP W (option SEXP * Z);
  Rf_PrintValue : SEXP -> W -> rcall SEXP W unit;
  R_ProcessEvents : W -> rcall SEXP W unit;
  R_checkActivity : W -> rcall SEXP W bool;
  R_runHandlers : W -> rcall SEXP W unit;
  Rf_initialize_R : list bytes -> W -> W * Z;
  setup_Rmainloop : W -> rcall SEXP W unit;
  (* [R_unwind w0 w]: R_ToplevelExec, entered in [w0], catching a jump made in [w] *)
  R_unwind : W -> W -> W;
}.

(** The documented behaviour of these functions: the protection stack is
    balanced by every R function, R_ToplevelExec restores it when it catches a
    jump, R_tryEval reports an error exactly when it returns NULL, and a parse
    that succeeds returns an expression vector. *)
Class RApiOk `{RApi} : Prop := {
  pp_nonneg w : 0 <= pp_depth w;
  pp_protect x w : pp_depth (Rf_protect x w) = pp_depth w + 1;
  pp_unprotect n w : 0 <= n <= pp_depth w -> pp_depth (Rf_unprotect n w) = pp_depth w - n;
  pp_mkString s w : pp_depth (fst (Rf_mkString s w)) = pp_depth w;
  pp_install s w : pp_depth (fst (Rf_install s w)) = pp_depth w;
  pp_lang1 f w : pp_depth (fst (Rf_lang1 f w)) = pp_depth w;
  pp_lang2 f x w : pp_depth (fst (Rf_lang2 f x w)) = pp_depth w;
  pp_asChar x w : pp_depth (fst (Rf_asChar x w)) = pp_depth w;
  pp_defineVar s v e w : pp_depth (Rf_defineVar s v e w) = pp_depth w;
  pp_unwind w0 w : pp_depth (R_unwind w0 w) = pp_depth w0;
  parse_ok t n src w : rcall_ok pp_depth (pp_depth w) (R_ParseVector t n src w);
  tryEval_ok e env w : rcall_ok pp_depth (pp_depth w) (R_tryEval e env w);
  tryEval_error e env w :
    rcall_returns (fun r => fst r = None <-> snd r <> 0) (R_tryEval e env w);
  print_ok x w : rcall_ok pp_depth (pp_depth w) (Rf_PrintValue x w);
  processEvents_ok w : rcall_ok pp_depth (pp_depth w) (R_ProcessEvents w);
  checkActivity_ok w : rcall_ok pp_depth (pp_depth w) (R_checkActivity w);
  runHandlers_ok w : rcall_ok pp_depth (pp_depth w) (R_runHandlers w);
  pp_initialize args w : pp_depth (fst (Rf_initialize_R args w)) = pp_depth w;
  mainloop_ok w : rcall_ok pp_depth (pp_depth w) (setup_Rmainloop w);
}.
