(* ===== verification/SampleR.v ===== *)
(** * A small R: an instance of [RApi] that satisfies [RApiOk]

    The bridge's theorems are stated for any R with the documented behaviour;
    this one evaluates a few commands and shows that such an R exists, for
    the witnesses.  A line of code evaluates to itself and prints itself,
    except for: [stop] (an error with a message on stderr), [ask] (reads a line
    and evaluates to it), [sh] (a passthrough), [img] (emits an image),
    [badprint] (its print method fails), [die] (R_Suicide), [spin] (polls for
    an interrupt and fails if there is one). *)

From S2P Require Import Prelude CString RingBuffer RingSpec RApi.

Inductive sx :=
  | SNil
  | SUnbound
  | SGlobal
  | SSym (s : bytes)
  | SStr (s : bytes)
  | SLgl (z : Z)
  | SVec (l : list sx)
  | SCall (l : list sx).

Definition sx_eqb (x y : sx) : bool :=
  match x, y with
  | SNil, SNil | SUnbound, SUnbound | SGlobal, SGlobal => true
  | SSym s, SSym t | SStr s, SStr t => bool_decide (s = t)
  | SLgl z, SLgl w => z =? w
  | _, _ => false
  end.

(** The interpreter's state: the height of the protection stack and the
    variables defined. *)
Record sw := { sw_pp : Z; sw_vars : list bytes }.

Definition nl : byte := Byte.x0a.

Definition sample_parse (t : sx) (w : sw) : rcall sx sw (option sx * ParseStatus) :=
  match t with
  | SStr s =>
      let lines := strtok nl s in
      if bool_decide (lit "(" ∈ lines) then RRet w (None, PARSE_INCOMPLETE)
      else if bool_decide (lit ")" ∈ lines) then RRet w (None, PARSE_ERROR)
      else if bool_decide (lit "badescape" ∈ lines) then RJump w (Some PARSE_OK)
      else RRet w (Some (SVec (map SStr lines)), PARSE_OK)
  | _ => RRet w (None, PARSE_ERROR)
  end.

Definition visible_value (x : sx) : option sx * Z := (Some (SVec [x; SLgl 1]), 0).

(** A console buffer of R's. *)
Definition read_buffer : bytes := repeat Byte.x00 16.

Definition sample_line (s : bytes) (w : sw) : rcall sx sw (option sx * Z) :=
  if bool_decide (s = lit "stop") then
    let m := lit "Error: stop" ++ [nl] in
    RCallback w (WriteConsoleEx m (zlen m) 1) (fun w' _ => RRet w' (None, 1))
  else if bool_decide (s = lit "ask") then
    RCallback w (ReadConsole (lit "? ") read_buffer 16)
      (fun w' r => RRet w' (visible_value (SStr (hd [] (strtok nl (fst r))))))
  else if bool_decide (s = lit "sh") then
    RCallback w EnterPassthrough (fun w1 _ =>
      RCallback w1 ExitPassthrough (fun w2 x => RRet w2 (visible_value x)))
  else if bool_decide (s = lit "img") then
    RCallback w (EmitImage (SStr (lit "/t/a.png")) (SStr (lit "/t/b.png")) (SStr (lit "640"))
                   (SStr (lit "480")) (SStr (lit "image/png")))
      (fun w' x => RRet w' (visible_value x))
  else if bool_decide (s = lit "die") then RSuicide w (lit "out of memory")
  else if bool_decide (s = lit "spin") then
    RCallback w CheckInterrupts
      (fun w' v => RRet w' (if v =? 0 then visible_value (SStr s) else (None, 1)))
  else RRet w (visible_value (SStr s)).

Definition sample_eval (e : sx) (w : sw) : rcall sx sw (option sx * Z) :=
  match e with
  | SCall [SSym f; SStr s] => sample_line s w
  | SCall _ => RRet w (Some SNil, 0)
  | x => RRet w (Some x, 0)
  end.

Definition sample_print (x : sx) (w : sw) : rcall sx sw unit :=
  match x with
  | SStr s =>
      if bool_decide (s = lit "badprint") then RJump w None
      else let m := take 100 s ++ [nl] in
           RCallback w (WriteConsoleEx m (zlen m) 0) (fun w' _ => RRet w' tt)
  | _ => RRet w tt
  end.

Definition set_pp (w : sw) (d : Z) : sw := {| sw_pp := Z.max 0 d; sw_vars := sw_vars w |}.

#[export] Instance sample_R : RApi := {|
  SEXP := sx;
  W := sw;
  R_NilValue := SNil;
  R_GlobalEnv := SGlobal;
  R_UnboundValue := SUnbound;
  SEXP_eqb := sx_eqb;
  pp_depth w := Z.max 0 (sw_pp w);
  Rf_protect x w := set_pp w (Z.max 0 (sw_pp w) + 1);
  Rf_unprotect n w := set_pp w (Z.max 0 (sw_pp w) - n);
  Rf_mkString s w := (w, SStr s);
  Rf_install s w := (w, SSym s);
  Rf_lang1 f w := (w, SCall [f]);
  Rf_lang2 f x w := (w, SCall [f; x]);
  Rf_asChar x w := (w, x);
  R_CHAR x w := match x with SStr s => s | _ => lit "NA" end;
  VECTOR_ELT x i w := match x with SVec l => nth (Z.to_nat i) l SNil | _ => SNil end;
  Rf_length x w := match x with SVec l => zlen l | _ => 0 end;
  Rf_asLogical x w := match x with SLgl z => z | _ => 0 end;
  Rf_defineVar s v e w :=
    match s with SSym n => {| sw_pp := sw_pp w; sw_vars := n :: sw_vars w |} | _ => w end;
  Rf_findVar s e w := SUnbound;
  R_ParseVector t n src w := sample_parse t w;
  R_tryEval e env w := sample_eval e w;
  Rf_PrintValue x w := sample_print x w;
  R_ProcessEvents w := RRet w tt;
  R_checkActivity w := RRet w false;
  R_runHandlers w := RRet w tt;
  Rf_initialize_R args w := (w, 0);
  setup_Rmainloop w :=
    let m := lit "Welcome" ++ [nl] in
    RCallback w (WriteConsoleEx m (zlen m) 0) (fun w' _ => RRet w' tt);
  R_unwind w0 w := set_pp w (sw_pp w0);
|}.

Lemma sample_line_ok s w :
  rcall_ok (fun w => Z.max 0 (sw_pp w)) (Z.max 0 (sw_pp w)) (sample_line s w) /\
  rcall_returns (fun r => fst r = None <-> snd r <> 0) (sample_line s w).
Proof.
  unfold sample_line.
  repeat match goal with |- context [bool_decide ?p] => case_bool_decide end; cbn;
    try by (split; [|split]).
  - split; [split; [done|]|done]. intros w1 _ E1. split; [done|]. intros w2 _ E2. congruence.
  - split; [by split|]. intros _ x. by destruct (x =? 0).
Qed.

Lemma sample_eval_ok e w :
  rcall_ok (fun w => Z.max 0 (sw_pp w)) (Z.max 0 (sw_pp w)) (sample_eval e w) /\
  rcall_returns (fun r => fst r = None <-> snd r <> 0) (sample_eval e w).
Proof.
  destruct e as [| | | | | | |[|[] [|[] []]]]; try apply sample_line_ok; by split.
Qed.

#[export] Instance sample_R_ok : RApiOk.
Proof.
  split; cbn; try (intros; first [done | lia]).
  - intros s v e w. by destruct s.
  - intros t n src w. by destruct t; cbn; repeat case_bool_decide.
  - intros e env w. apply sample_eval_ok.
  - intros e env w. apply sample_eval_ok.
  - intros x w. destruct x; cbn; try done. case_bool_decide; cbn; [done|].
    split; [|done]. unfold zlen, INT_MAX. rewrite length_app, length_take.
    change (length [nl]) with 1%nat. lia.
Qed.
