(* ===== verification/Bridge.v ===== *)
(** * The R bridge: state shared with R's callbacks and with the frontend
      (c_ffi/load_r.c, lines 43-91 and 252-413)

    The globals the callbacks touch are a record [bridge]; a C function that
    runs on the R worker thread is a computation in the monad [M], whose
    outcome says whether it returned, was left by a longjmp or ended the
    process.  The frontend is the other thread: [sched] holds what it will do
    next, a slot of actions for each point where the worker can be observed. *)

From S2P Require Import Prelude CString RingBuffer RingSpec CrashLog RApi.

(** ** State *)

(** Which function [*ptr_R_WriteConsoleEx] holds. *)
Inductive console_fn := CbInitCapture | CbWriteConsoleEx | CbRunrCapture.

(** What the frontend can do to the state of this file while R runs: the API
    functions of r_bridge.h it calls. *)
Inductive frontend_op :=
  | FPop (out : bytes) (out_cap : Z)
  | FHasData
  | FReset
  | FSignalPassthrough
  | FSubmitReadline (input : bytes)
  | FInterrupt.

(** The output ring, with the history of its two ends: [sent] are the messages
    pushed, [received] the answers of the pops (nothing reads either). *)
Record output := {
  g_rb : ring;
  sent : list msg;
  received : list pop_result;
}.

Record gates := {
  passthrough_gate : Z;
  readline_gate : Z;
  readline_input_buf : option bytes;
  readline_mutex : mutex;
}.

Record init_capture := {
  init_output_buf : option bytes;
  init_output_len : Z;
  init_output_cap : Z;
}.

(** The child's end of the capture pipe: [g_runr_pipe_fd] and what write() on
    it has done. *)
Record pipe_end := {
  g_runr_pipe_fd : Z;
  pipe_fd : fd_state;
}.

Section Bridge.
Context `{RApi, Heap}.

(** The globals that point into libR, and R's own state [rw]. *)
Record rglobals := {
  ptr_R_WriteConsoleEx : console_fn;
  R_interrupts_pending : option Z;      (* None: R_interrupts_pending_ptr is NULL *)
  R_ToplevelExec_fn : bool;             (* false: the symbol is missing *)
  R_ProcessEvents_fn : bool;
  R_checkActivity_fn : bool;            (* all three of checkActivity, runHandlers, InputHandlers *)
  withVisible_sym : SEXP;
  raoui_after_top_level_sym : SEXP;
  rw : W;
}.

Record bridge := {
  b_out : output;
  b_gates : gates;
  b_init : init_capture;
  b_pipe : pipe_end;
  b_r : rglobals;
  sched : list (list frontend_op);
}.

Definition set_out (b : bridge) (o : output) : bridge :=
  {| b_out := o; b_gates := b_gates b; b_init := b_init b; b_pipe := b_pipe b;
     b_r := b_r b; sched := sched b |}.
Definition set_gates (b : bridge) (g : gates) : bridge :=
  {| b_out := b_out b; b_gates := g; b_init := b_init b; b_pipe := b_pipe b;
     b_r := b_r b; sched := sched b |}.
Definition set_init (b : bridge) (c : init_capture) : bridge :=
  {| b_out := b_out b; b_gates := b_gates b; b_init := c; b_pipe := b_pipe b;
     b_r := b_r b; sched := sched b |}.
Definition set_pipe (b : bridge) (p : pipe_end) : bridge :=
  {| b_out := b_out b; b_gates := b_gates b; b_init := b_init b; b_pipe := p;
     b_r := b_r b; sched := sched b |}.
Definition set_r (b : bridge) (r : rglobals) : bridge :=
  {| b_out := b_out b; b_gates := b_gates b; b_init := b_init b; b_pipe := b_pipe b;
     b_r := r; sched := sched b |}.
Definition set_sched (b : bridge) (s : list (list frontend_op)) : bridge :=
  {| b_out := b_out b; b_gates := b_gates b; b_init := b_init b; b_pipe := b_pipe b;
     b_r := b_r b; sched := s |}.

Definition set_rw (r : rglobals) (w : W) : rglobals :=
  {| ptr_R_WriteConsoleEx := ptr_R_WriteConsoleEx r;
     R_interrupts_pending := R_interrupts_pending r;
     R_ToplevelExec_fn := R_ToplevelExec_fn r; R_ProcessEvents_fn := R_ProcessEvents_fn r;
     R_checkActivity_fn := R_checkActivity_fn r; withVisible_sym := withVisible_sym r;
     raoui_after_top_level_sym := raoui_after_top_level_sym r; rw := w |}.
Definition set_interrupts (r : rglobals) (v : option Z) : rglobals :=
  {| ptr_R_WriteConsoleEx := ptr_R_WriteConsoleEx r; R_interrupts_pending := v;
     R_ToplevelExec_fn := R_ToplevelExec_fn r; R_ProcessEvents_fn := R_ProcessEvents_fn r;
     R_checkActivity_fn := R_checkActivity_fn r; withVisible_sym := withVisible_sym r;
     raoui_after_top_level_sym := raoui_after_top_level_sym r; rw := rw r |}.
Definition set_console (r : rglobals) (f : console_fn) : rglobals :=
  {| ptr_R_WriteConsoleEx := f; R_interrupts_pending := R_interrupts_pending r;
     R_ToplevelExec_fn := R_ToplevelExec_fn r; R_ProcessEvents_fn := R_ProcessEvents_fn r;
     R_checkActivity_fn := R_checkActivity_fn r; withVisible_sym := withVisible_sym r;
     raoui_after_top_level_sym := raoui_after_top_level_sym r; rw := rw r |}.
Definition set_passthrough_gate (g : gates) (v : Z) : gates :=
  {| passthrough_gate := v; readline_gate := readline_gate g;
     readline_input_buf := readline_input_buf g; readline_mutex := readline_mutex g |}.
Definition set_readline_gate (g : gates) (v : Z) : gates :=
  {| passthrough_gate := passthrough_gate g; readline_gate := v;
     readline_input_buf := readline_input_buf g; readline_mutex := readline_mutex g |}.
Definition set_readline_buf (g : gates) (p : option bytes) : gates :=
  {| passthrough_gate := passthrough_gate g; readline_gate := readline_gate g;
     readline_input_buf := p; readline_mutex := readline_mutex g |}.
Definition set_readline_mutex (g : gates) (m : mutex) : gates :=
  {| passthrough_gate := passthrough_gate g; readline_gate := readline_gate g;
     readline_input_buf := readline_input_buf g; readline_mutex := m |}.

(** ** The monad of the worker thread *)

Inductive outcome (A : Type) :=
  | Done (a : A)                            (* returned *)
  | Jumped (st : option ParseStatus)        (* left by a longjmp *)
  | Exited (code : Z).                      (* the process called _exit *)
Arguments Done {A} a.
Arguments Jumped {A} st.
Arguments Exited {A} code.

Definition M (A : Type) : Type := bridge -> res (bridge * outcome A).

#[global] Instance M_ret : MRet M := fun A a b => Ret (b, Done a).
#[global] Instance M_bind : MBind M := fun A B k m b =>
  match m b with
  | Ret (b', Done a) => k a b'
  | Ret (b', Jumped st) => Ret (b', Jumped st)
  | Ret (b', Exited c) => Ret (b', Exited c)
  | Fault f => Fault f
  end.

Definition gets {A} (f : bridge -> A) : M A := fun b => Ret (b, Done (f b)).
Definition modify (f : bridge -> bridge) : M unit := fun b => Ret (f b, Done tt).
Definition lift {A} (r : res A) : M A := fun b => a ← r; Ret (b, Done a).
Definition jump {A} (st : option ParseStatus) : M A := fun b => Ret (b, Jumped st).
Definition exit_process {A} (code : Z) : M A := fun b => Ret (b, Exited code).

(** R functions that run no R code. *)
Definition rcalls {A} (f : W -> W * A) : M A := fun b =>
  let '(w, a) := f (rw (b_r b)) in Ret (set_r b (set_rw (b_r b) w), Done a).
Definition reads {A} (f : W -> A) : M A := gets (fun b => f (rw (b_r b))).
Definition rdo (f : W -> W) : M unit := rcalls (fun w => (f w, tt)).

(** ** API functions the frontend calls on this state *)

Definition rffi_rb_pop (out : bytes) (out_cap : Z) (b : bridge) : res (bridge * pop_result) :=
  '(rb, r) ← rb_pop (Some (g_rb (b_out b))) out out_cap;
  rb' ← deref rb;
  Ret (set_out b {| g_rb := rb'; sent := sent (b_out b);
                    received := received (b_out b) ++ [r] |}, r).

Definition rffi_rb_has_data (b : bridge) : res (bridge * bool) :=
  '(rb, r) ← rb_has_data (Some (g_rb (b_out b)));
  rb' ← deref rb;
  Ret (set_out b {| g_rb := rb'; sent := sent (b_out b); received := received (b_out b) |}, r).

Definition rffi_rb_reset (b : bridge) : res bridge :=
  rb ← rb_reset (Some (g_rb (b_out b)));
  rb' ← deref rb;
  Ret (set_out b {| g_rb := rb'; sent := sent (b_out b); received := received (b_out b) |}).

Definition rffi_rb_dropped_messages (b : bridge) : res (bridge * Z) :=
  '(rb, r) ← rb_dropped_messages (Some (g_rb (b_out b)));
  rb' ← deref rb;
  Ret (set_out b {| g_rb := rb'; sent := sent (b_out b); received := received (b_out b) |}, r).

Definition rffi_rb_dropped_bytes (b : bridge) : res (bridge * Z) :=
  '(rb, r) ← rb_dropped_bytes (Some (g_rb (b_out b)));
  rb' ← deref rb;
  Ret (set_out b {| g_rb := rb'; sent := sent (b_out b); received := received (b_out b) |}, r).

Definition rffi_signal_passthrough (b : bridge) : bridge :=
  set_gates b (set_passthrough_gate (b_gates b) 1).

Definition rffi_submit_readline_input (input : bytes) (b : bridge) : res bridge :=
  l ← pthread_mutex_lock (readline_mutex (b_gates b));
  let g1 := set_readline_mutex (b_gates b) l in
  let g2 := set_readline_buf g1 (strdup input) in
  l2 ← pthread_mutex_unlock (readline_mutex g2);
  Ret (set_gates b (set_readline_gate (set_readline_mutex g2 l2) 1)).

Definition rffi_interrupt (b : bridge) : bridge * Z :=
  match R_interrupts_pending (b_r b) with
  | None => (b, -1)
  | Some _ => (set_r b (set_interrupts (b_r b) (Some 1)), 0)
  end.

(** Handing over the init output empties the capture. *)
Definition rffi_take_init_output (b : bridge) : bridge * option bytes :=
  (set_init b {| init_output_buf := None; init_output_len := 0; init_output_cap := 0 |},
   init_output_buf (b_init b)).

Definition frontend_step (o : frontend_op) (b : bridge) : res bridge :=
  match o with
  | FPop out out_cap => '(b', _) ← rffi_rb_pop out out_cap b; Ret b'
  | FHasData => '(b', _) ← rffi_rb_has_data b; Ret b'
  | FReset => rffi_rb_reset b
  | FSignalPassthrough => Ret (rffi_signal_passthrough b)
  | FSubmitReadline input => rffi_submit_readline_input input b
  | FInterrupt => Ret (fst (rffi_interrupt b))
  end.

Fixpoint frontend_steps (ops : list frontend_op) (b : bridge) : res bridge :=
  match ops with
  | [] => Ret b
  | o :: ops' => b' ← frontend_step o b; frontend_steps ops' b'
  end.

(** The frontend's next slot runs. *)
Definition tick : M unit := fun b =>
  match sched b with
  | [] => Ret (b, Done tt)
  | ops :: rest => b' ← frontend_steps ops (set_sched b rest); Ret (b', Done tt)
  end.

(** [while (!atomic_load(&gate)) usleep(1000);]: the frontend's next slot runs
    between two loads; when it has none left the worker waits for ever. *)
Fixpoint wait_open (gate : gates -> Z) (slots : nat) : M unit :=
  g ← gets (fun b => gate (b_gates b));
  if negb (g =? 0) then mret tt
  else
    match slots with
    | O => lift (Fault Blocked)
    | S slots' => tick ;; wait_open gate slots'
    end.

Definition wait_gate (gate : gates -> Z) : M unit :=
  n ← gets (fun b => length (sched b)); wait_open gate n.

(** ** Pushing on the output ring *)

(** [rb_push(&g_rb, kind, 0, data, len)]. *)
Definition push (kind : Z) (data : bytes) (len : Z) : M Z := fun b =>
  '(rb, rc) ← rb_push (Some (g_rb (b_out b))) kind 0 data len;
  rb' ← deref rb;
  Ret (set_out b {| g_rb := rb'; sent := sent (b_out b) ++ [push_msg kind 0 data len];
                    received := received (b_out b) |}, Done rc).

(** [rb_push(&g_rb, kind, 0, s, (uint32_t)strlen(s))]. *)
Definition push_str (kind : Z) (s : bytes) : M Z := push kind s (u32 (zlen s)).

(** ** The callbacks *)

(** The end of [cb_read_console], once the gate has opened (lines 318-332):
    close it, copy the line to R's buffer under [readline_mutex], drop it. *)
Definition take_readline (buf : bytes) (len : Z) : M (bytes * Z) :=
  modify (fun b => set_gates b (set_readline_gate (b_gates b) 0)) ;;
  l ← (g ← gets b_gates; lift (pthread_mutex_lock (readline_mutex g)));
  modify (fun b => set_gates b (set_readline_mutex (b_gates b) l)) ;;
  input ← gets (fun b => default [] (readline_input_buf (b_gates b)));
  let n0 := zlen input in
  let n := if len <? i32 (n0 + 2) then u64 (len - 2) else n0 in
  buf1 ← lift (memcpy buf 0 input 0 n);
  buf2 ← lift (memcpy buf1 n [Byte.x0a] 0 1);
  buf3 ← lift (memcpy buf2 (u64 (n + 1)) [Byte.x00] 0 1);
  modify (fun b => set_gates b (set_readline_buf (b_gates b) None)) ;;
  l2 ← (g ← gets b_gates; lift (pthread_mutex_unlock (readline_mutex g)));
  modify (fun b => set_gates b (set_readline_mutex (b_gates b) l2)) ;;
  mret (buf3, 1).

Definition cb_read_console (prompt buf : bytes) (len : Z) : M (bytes * Z) :=
  push_str RB_MSG_READLINE prompt ;;
  wait_gate readline_gate ;;
  take_readline buf len.

Definition cb_write_console_ex (s : bytes) (len otype : Z) : M unit :=
  let kind := if otype =? 0 then RB_MSG_STDOUT else RB_MSG_STDERR in
  push kind s (u32 len) ;; mret tt.

Definition cb_init_capture (s : bytes) (len otype : Z) : M unit :=
  if len <=? 0 then mret tt
  else
    c ← gets b_init;
    let need := u64 (init_output_len c + len + 1) in
    let grow := init_output_cap c <? need in
    let cap := if grow then u64 (need * 2) else init_output_cap c in
    let p := if grow then realloc (init_output_buf c) cap else init_output_buf c in
    buf ← lift (deref p);
    buf1 ← lift (memcpy buf (init_output_len c) s 0 len);
    let l := u64 (init_output_len c + len) in
    buf2 ← lift (memcpy buf1 l [Byte.x00] 0 1);
    modify (fun b => set_init b {| init_output_buf := Some buf2; init_output_len := l;
                                   init_output_cap := cap |}).

(** The forked child's console: R's output goes to the capture pipe. *)
Definition pipe_write (s : bytes) (len : Z) : M unit :=
  modify (fun b => set_pipe b {| g_runr_pipe_fd := g_runr_pipe_fd (b_pipe b);
    pipe_fd := fst (sys_write (pipe_fd (b_pipe b)) (take (Z.to_nat len) s)) |}).

Definition cb_runr_capture (s : bytes) (len otype : Z) : M unit :=
  p ← gets b_pipe;
  if 0 <=? g_runr_pipe_fd p then pipe_write s len else mret tt.

Definition cb_flush_console : M unit := mret tt.

Definition cb_show_message (s : bytes) : M unit := push_str RB_MSG_STDERR s ;; mret tt.

(** [fprintf(stderr, ...); _exit(1);] *)
Definition cb_suicide {A} (s : bytes) : M A := exit_process 1.

Definition raoui_enter_passthrough : M SEXP :=
  push RB_MSG_PASSTHROUGH [] 0 ;;
  wait_gate passthrough_gate ;;
  modify (fun b => set_gates b (set_passthrough_gate (b_gates b) 0)) ;;
  mret R_NilValue.

Definition raoui_exit_passthrough : M SEXP :=
  push RB_MSG_PASSTHROUGH_END [] 0 ;; mret R_NilValue.

(** The payload of an image message (format string of lines 391-392). *)
Definition image_payload (source preview mime width height : bytes) : bytes :=
  lit "source_path=" ++ source ++ [Byte.x0a] ++
  lit "preview_path=" ++ preview ++ [Byte.x0a] ++
  lit "mime=" ++ mime ++ [Byte.x0a] ++
  lit "width=" ++ width ++ [Byte.x0a] ++
  lit "height=" ++ height ++ [Byte.x0a].

Definition as_char_str (x : SEXP) : M bytes :=
  c ← rcalls (Rf_asChar x); reads (R_CHAR c).

Definition raoui_emit_image (source_path preview_path width height mime : SEXP) : M SEXP :=
  source_path_str ← as_char_str source_path;
  preview_path_str ← as_char_str preview_path;
  width_str ← as_char_str width;
  height_str ← as_char_str height;
  mime_str ← as_char_str mime;
  if bool_decide (source_path_str = []) || bool_decide (preview_path_str = []) then
    mret R_NilValue
  else
    let s := image_payload source_path_str preview_path_str mime_str width_str height_str in
    let written := snprintf_ret s in
    if written <? 0 then mret R_NilValue
    else if 8192 <=? written then mret R_NilValue
    else push RB_MSG_IMAGE (snprintf_store 8192 s) (u32 written) ;; mret R_NilValue.

(** R checks for a pending interrupt, clearing the flag it acts on. *)
Definition check_interrupts : M Z :=
  v ← (r ← gets b_r; lift (deref (R_interrupts_pending r)));
  modify (fun b => set_r b (set_interrupts (b_r b) (Some 0))) ;;
  mret v.

(** ** Running a call into R *)

(** The function a callback slot holds (installed by [init_r]). *)
Definition handle {B} (c : callback SEXP B) : M B :=
  match c in callback _ B return M B with
  | WriteConsoleEx s len otype =>
      f ← gets (fun b => ptr_R_WriteConsoleEx (b_r b));
      match f with
      | CbInitCapture => cb_init_capture s len otype
      | CbWriteConsoleEx => cb_write_console_ex s len otype
      | CbRunrCapture => cb_runr_capture s len otype
      end
  | FlushConsole => cb_flush_console
  | ShowMessage s => cb_show_message s
  | ReadConsole prompt buf len => cb_read_console prompt buf len
  | EnterPassthrough => raoui_enter_passthrough
  | ExitPassthrough => raoui_exit_passthrough
  | EmitImage source preview width height mime =>
      raoui_emit_image source preview width height mime
  | CheckInterrupts => check_interrupts
  end.

Definition put_w (w : W) : M unit := rdo (fun _ => w).

(** The frontend may act before each callback. *)
Fixpoint run_rcall {A} (t : rcall SEXP W A) : M A :=
  match t with
  | RRet w a => put_w w ;; mret a
  | RJump w st => put_w w ;; jump st
  | RSuicide w s => put_w w ;; cb_suicide s
  | RCallback w c k =>
      put_w w ;; tick ;;
      x ← handle c;
      fun b => run_rcall (k (rw (b_r b)) x) b
  end.

Definition rrun {A} (f : W -> rcall SEXP W A) : M A :=
  fun b => run_rcall (f (rw (b_r b))) b.

(** [Rf_unprotect(n)]: taking more than the stack holds is an R error. *)
Definition unprotect (n : Z) : M unit :=
  d ← reads pp_depth;
  if d <? n then jump None else rdo (Rf_unprotect n).

Definition protect (x : SEXP) : M SEXP := rdo (Rf_protect x) ;; mret x.

(** *** toplevel_exec

    [fn] works on its data structure [data]; [store] is what a jump out of it
    leaves stored there.  R_ToplevelExec catches a jump and answers 0; without
    it [fn] runs bare and the jump goes on. *)
Definition toplevel_exec {D} (fn : D -> M D) (store : option ParseStatus -> D -> D)
    (data : D) : M (Z * D) := fun b =>
  if R_ToplevelExec_fn (b_r b) then
    match fn data b with
    | Ret (b', Done d) => Ret (b', Done (1, d))
    | Ret (b', Jumped st) =>
        Ret (set_r b' (set_rw (b_r b') (R_unwind (rw (b_r b)) (rw (b_r b')))),
             Done (0, store st data))
    | Ret (b', Exited c) => Ret (b', Exited c)
    | Fault f => Fault f
    end
  else (d ← fn data; mret (1, d)) b.

End Bridge.
Arguments Done {A} a.
Arguments Jumped {A} st.
Arguments Exited {A} code.
