(* ===== verification/BridgeSpec.v ===== *)
(** * Program logic of the worker thread, and what its callbacks preserve

    [wp] gives the computations of Bridge.v their weakest preconditions;
    [binv] is the invariant of the bridge between two actions of either
    thread, [evolves] what a call into R may change. *)

From S2P Require Import Prelude CString RingBuffer RingSpec CrashLog RApi Bridge.

(** ** Weakest preconditions *)

Section Wp.
Context `{RApi, Heap}.

(** [m] from [b] ends in an outcome and a state of [Q], or stops with a fault
    of [F] (for most of the development: waiting for a frontend that is gone). *)
Definition wpF (F : fault -> Prop) {A} (m : M A) (Q : outcome A -> bridge -> Prop)
    (b : bridge) : Prop :=
  match m b with
  | Ret (b', o) => Q o b'
  | Fault f => F f
  end.

Definition waiting (f : fault) : Prop := f = Blocked.

(** Sequencing: [Q] for the outcomes that leave, [R] for the value passed on. *)
Definition on_done {A B} (R : A -> bridge -> Prop) (Q : outcome B -> bridge -> Prop)
    (o : outcome A) (b : bridge) : Prop :=
  match o with
  | Done a => R a b
  | Jumped st => Q (Jumped st) b
  | Exited c => Q (Exited c) b
  end.

Variable F : fault -> Prop.

Lemma wp_bind {A B} (m : M A) (k : A -> M B) Q b :
  wpF F m (on_done (fun a => wpF F (k a) Q) Q) b -> wpF F (m ≫= k) Q b.
Proof.
  unfold wpF, mbind, M_bind, on_done. destruct (m b) as [[b' [a|st|c]]|f]; auto.
Qed.

Lemma wp_mono {A} (m : M A) (Q R : outcome A -> bridge -> Prop) b :
  wpF F m Q b -> (forall o b', Q o b' -> R o b') -> wpF F m R b.
Proof. unfold wpF. destruct (m b) as [[b' o]|f]; auto. Qed.

Lemma wp_mono_F {A} (G : fault -> Prop) (m : M A) (Q : outcome A -> bridge -> Prop) b :
  wpF F m Q b -> (forall f, F f -> G f) -> wpF G m Q b.
Proof. unfold wpF. destruct (m b) as [[b' o]|f]; auto. Qed.

Lemma wp_ret {A} (a : A) (Q : outcome A -> bridge -> Prop) b : Q (Done a) b -> wpF F (mret a) Q b.
Proof. done. Qed.

Lemma wp_gets {A} (f : bridge -> A) (Q : outcome A -> bridge -> Prop) b :
  Q (Done (f b)) b -> wpF F (gets f) Q b.
Proof. done. Qed.

Lemma wp_modify f (Q : outcome unit -> bridge -> Prop) b :
  Q (Done tt) (f b) -> wpF F (modify f) Q b.
Proof. done. Qed.

Lemma wp_lift {A} (r : res A) a (Q : outcome A -> bridge -> Prop) b :
  r = Ret a -> Q (Done a) b -> wpF F (lift r) Q b.
Proof. unfold wpF, lift. by intros ->. Qed.

Lemma wp_rcalls {A} (f : W -> W * A) (Q : outcome A -> bridge -> Prop) b :
  Q (Done (snd (f (rw (b_r b))))) (set_r b (set_rw (b_r b) (fst (f (rw (b_r b)))))) ->
  wpF F (rcalls f) Q b.
Proof. unfold wpF, rcalls. by destruct (f (rw (b_r b))). Qed.

Lemma wp_reads {A} (f : W -> A) (Q : outcome A -> bridge -> Prop) b :
  Q (Done (f (rw (b_r b)))) b -> wpF F (reads f) Q b.
Proof. done. Qed.

Lemma wp_rdo f (Q : outcome unit -> bridge -> Prop) b :
  Q (Done tt) (set_r b (set_rw (b_r b) (f (rw (b_r b))))) -> wpF F (rdo f) Q b.
Proof. done. Qed.

Lemma wp_unprotect `{!RApiOk} n (Q : outcome unit -> bridge -> Prop) b :
  n <= pp_depth (rw (b_r b)) ->
  Q (Done tt) (set_r b (set_rw (b_r b) (Rf_unprotect n (rw (b_r b))))) ->
  wpF F (unprotect n) Q b.
Proof.
  intros Hn HQ. unfold unprotect. apply wp_bind, wp_reads. cbn [on_done].
  rewrite (proj2 (Z.ltb_ge _ _)) by done. by apply wp_rdo.
Qed.

Lemma wp_protect x (Q : outcome SEXP -> bridge -> Prop) b :
  Q (Done x) (set_r b (set_rw (b_r b) (Rf_protect x (rw (b_r b))))) -> wpF F (protect x) Q b.
Proof. intros HQ. unfold protect. apply wp_bind, wp_rdo. cbn [on_done]. by apply wp_ret. Qed.

(** A protected run: the jump is caught and the protection stack unwound. *)
Lemma wp_toplevel {D} (fn : D -> M D) store data (Q : outcome (Z * D) -> bridge -> Prop) b :
  R_ToplevelExec_fn (b_r b) = true ->
  wpF F (fn data) (fun o b' => match o with
    | Done d => Q (Done (1, d)) b'
    | Jumped st =>
        Q (Done (0, store st data))
          (set_r b' (set_rw (b_r b') (R_unwind (rw (b_r b)) (rw (b_r b')))))
    | Exited c => Q (Exited c) b'
    end) b ->
  wpF F (toplevel_exec fn store data) Q b.
Proof.
  unfold wpF, toplevel_exec. intros ->. by destruct (fn data b) as [[b' [d|st|c]]|f].
Qed.

End Wp.

Abbreviation wp := (wpF waiting).

Lemma wp_eq `{RApi, Heap} F {A} (m : M A) b b' o (Q : outcome A -> bridge -> Prop) :
  m b = Ret (b', o) -> Q o b' -> wpF F m Q b.
Proof. unfold wpF. by intros ->. Qed.

(** Nothing is allowed to go wrong. *)
Lemma wp_total `{RApi, Heap} {A} (m : M A) b (Q : outcome A -> bridge -> Prop) :
  wpF (fun _ => False) m Q b -> exists b' o, m b = Ret (b', o) /\ Q o b'.
Proof. unfold wpF. destruct (m b) as [[b' o]|f]; [eauto|done]. Qed.

(** One step of symbolic execution at the head of a computation. *)
Ltac wp_step :=
  lazymatch goal with
  | |- wpF _ (_ ≫= _) _ _ => apply wp_bind
  | |- wpF _ (mret _) _ _ => apply wp_ret
  | |- wpF _ (gets _) _ _ => apply wp_gets
  | |- wpF _ (modify _) _ _ => apply wp_modify
  | |- wpF _ (rcalls _) _ _ => apply wp_rcalls
  | |- wpF _ (reads _) _ _ => apply wp_reads
  | |- wpF _ (rdo _) _ _ => apply wp_rdo
  | |- wpF _ (protect _) _ _ => apply wp_protect
  | |- on_done _ _ _ _ => cbn [on_done]
  end.
Ltac wp_steps := repeat wp_step.

(** ** The history of the output ring *)

(** The message as the ring of capacity [cap] stores it. *)
Definition stored (cap : Z) (m : msg) : msg :=
  if cap <? msg_size m then
    {| msg_kind := msg_kind m; msg_flags := Z.lor (msg_flags m) RB_FLAG_TRUNCATED;
       msg_data := take (Z.to_nat (cap - RB_FRAME_HEADER_SIZE)) (msg_data m) |}
  else m.

(** The message a pop handed to the frontend, if it did. *)
Definition got (r : pop_result) : option msg :=
  match pop_meta r with
  | Some (k, f, n) =>
      Some {| msg_kind := k; msg_flags := f; msg_data := take (Z.to_nat n) (pop_out r) |}
  | None => None
  end.

Definition delivered (rs : list pop_result) : list msg := omap got rs.

(** The kinds a callback pushes while R runs. *)
Definition output_kinds : list Z :=
  [RB_MSG_STDOUT; RB_MSG_STDERR; RB_MSG_IMAGE; RB_MSG_PASSTHROUGH; RB_MSG_PASSTHROUGH_END;
   RB_MSG_READLINE].

Definition is_output (m : msg) : Prop := msg_kind m ∈ output_kinds.

Lemma spec_push_stored a m :
  exists d k, mq_msgs a = d ++ k /\
    mq_msgs (spec_push a m) = k ++ [stored (mq_capacity a) m] /\
    mq_capacity (spec_push a m) = mq_capacity a.
Proof.
  unfold spec_push, stored. destruct (mq_capacity a <? msg_size m) eqn:E.
  - exists (mq_msgs a), []. by rewrite app_nil_r.
  - destruct (evict _ _ _) as [d k] eqn:Hev. exists d, k. split; [|done].
    by eapply evict_split.
Qed.

Lemma delivered_snoc rs r :
  delivered (rs ++ [r]) = delivered rs ++ match got r with Some m => [m] | None => [] end.
Proof. unfold delivered. by rewrite omap_app. Qed.

(** A pop with room for the largest message delivers the oldest one. *)
Lemma spec_pop_delivers a out out_cap :
  Forall (fun m => zlen (msg_data m) <= out_cap) (mq_msgs a) -> out_cap <= zlen out ->
  match got (snd (spec_pop a out out_cap)) with Some m => [m] | None => [] end
    ++ mq_msgs (fst (spec_pop a out out_cap)) = mq_msgs a /\
  mq_capacity (fst (spec_pop a out out_cap)) = mq_capacity a.
Proof.
  intros Hcap Hout. unfold spec_pop. destruct (mq_msgs a) as [|m q] eqn:E; cbn; [done|].
  apply Forall_cons_1 in Hcap as [Hm _]. split; [|done]. f_equal. rewrite Z.min_l by lia.
  destruct m as [k f d]. cbn in *. f_equal.
  rewrite take_app_length'; [|rewrite length_take; unfold zlen in *; lia].
  apply take_ge. unfold zlen. lia.
Qed.

(** Every stored message fits in the ring. *)
Lemma represents_msg_fits rb a m :
  represents rb a -> m ∈ mq_msgs a -> RB_FRAME_HEADER_SIZE + zlen (msg_data m) <= mq_capacity a.
Proof.
  intros Hr Hm. pose proof (rep_used _ _ _ Hr) as Hu. pose proof (rep_wf _ _ _ Hr) as Hw.
  rewrite <- (rep_cap _ _ _ Hr). pose proof (wf_used _ Hw) as Hb.
  apply list_elem_of_split in Hm as (q1 & q2 & E). rewrite E, frames_app in Hu. cbn [frames] in Hu.
  rewrite !zlen_app, zlen_frame in Hu. unfold msg_size in Hu. zlens. lia.
Qed.

(** ** The invariant *)

Section Invariant.
Context `{RApi, Heap}.

(** The capture buffer: NULL and empty, or a block of the recorded capacity
    with room for the terminator. *)
Definition capture_ok (c : init_capture) : Prop :=
  match init_output_buf c with
  | None => init_output_len c = 0 /\ init_output_cap c = 0
  | Some p =>
      zlen p = init_output_cap c /\ init_output_cap c <= USER_SPACE /\
      0 <= init_output_len c < init_output_cap c
  end.

(** The contract of the frontend: pop buffers at least as large as the ring,
    input lines shorter than 2 GiB. *)
Definition frontend_op_ok (cap : Z) (o : frontend_op) : Prop :=
  match o with
  | FPop out out_cap => cap <= out_cap <= zlen out
  | FSubmitReadline input => zlen input < INT_MAX - 2
  | _ => True
  end.

(** Output ring: it represents a queue, and what the frontend has received
    followed by what is still queued is a subsequence of what was sent. *)
Definition ring_inv (cap : Z) (o : output) : Prop :=
  exists q, represents (g_rb o) q /\ mq_capacity q = cap /\
    delivered (received o) ++ mq_msgs q `sublist_of` map (stored cap) (sent o).

Record binv (cap : Z) (b : bridge) : Prop := {
  inv_ring : ring_inv cap (b_out b);
  inv_mutex : readline_mutex (b_gates b) = MutexFree;
  inv_line : zlen (default [] (readline_input_buf (b_gates b))) < INT_MAX - 2;
  inv_capture : capture_ok (b_init b);
  inv_sched : Forall (Forall (frontend_op_ok cap)) (sched b);
  inv_interrupts : is_Some (R_interrupts_pending (b_r b));
}.

(** What a call into R may do to the bridge: append output messages; the
    symbols, the optional functions and the installed console stay. *)
Record evolves (b b' : bridge) : Prop := {
  ev_sent : exists outs, sent (b_out b') = sent (b_out b) ++ outs /\ Forall is_output outs;
  ev_console : ptr_R_WriteConsoleEx (b_r b') = ptr_R_WriteConsoleEx (b_r b);
  ev_toplevel : R_ToplevelExec_fn (b_r b') = R_ToplevelExec_fn (b_r b);
  ev_wv : withVisible_sym (b_r b') = withVisible_sym (b_r b);
  ev_hook : raoui_after_top_level_sym (b_r b') = raoui_after_top_level_sym (b_r b);
}.

#[global] Instance evolves_refl : Reflexive evolves.
Proof. intros b. split; try done. exists []. by rewrite app_nil_r. Qed.

#[global] Instance evolves_trans : Transitive evolves.
Proof.
  intros b1 b2 b3 [(o1 & E1 & F1) ????] [(o2 & E2 & F2) ????]. split; try congruence.
  exists (o1 ++ o2). rewrite E2, E1, <- app_assoc. split; [done|by apply Forall_app_2].
Qed.

Lemma evolves_same b b' :
  sent (b_out b') = sent (b_out b) -> ptr_R_WriteConsoleEx (b_r b') = ptr_R_WriteConsoleEx (b_r b) ->
  R_ToplevelExec_fn (b_r b') = R_ToplevelExec_fn (b_r b) ->
  withVisible_sym (b_r b') = withVisible_sym (b_r b) ->
  raoui_after_top_level_sym (b_r b') = raoui_after_top_level_sym (b_r b) ->
  evolves b b'.
Proof. intros E ????. split; try done. exists []. by rewrite app_nil_r. Qed.

(** Only R's own state changed. *)
Lemma binv_set_rw cap b w : binv cap b -> binv cap (set_r b (set_rw (b_r b) w)).
Proof. by intros []. Qed.

Lemma evolves_set_rw b b' w : evolves b b' -> evolves b (set_r b' (set_rw (b_r b') w)).
Proof. intros. etrans; [done|by apply evolves_same]. Qed.

Lemma binv_set_sched cap b s :
  binv cap b -> Forall (Forall (frontend_op_ok cap)) s -> binv cap (set_sched b s).
Proof. by intros []. Qed.

End Invariant.
#[export] Hint Resolve binv_set_rw evolves_set_rw : raoui.

(** ** The actions of both threads preserve the invariant *)

Section Preservation.
Context `{RApiOk, HeapOk}.

(** What a callback leaves: the invariant, an evolved bridge and R's
    protection stack at the height it had. *)
Definition callback_post cap b (b' : bridge) : Prop :=
  binv cap b' /\ evolves b b' /\ pp_depth (rw (b_r b')) = pp_depth (rw (b_r b)).

Definition returns {A} (P : bridge -> Prop) (o : outcome A) (b : bridge) : Prop :=
  match o with Done _ => P b | _ => False end.

Lemma callback_post_refl cap b : binv cap b -> callback_post cap b b.
Proof. by split. Qed.

Lemma callback_post_trans cap b1 b2 b3 :
  callback_post cap b1 b2 -> callback_post cap b2 b3 -> callback_post cap b1 b3.
Proof. intros (_ & E1 & P1) (I2 & E2 & P2). split; [done|]. split; [by etrans|congruence]. Qed.

Lemma ring_inv_sent cap o rb :
  (exists q, represents rb q /\ mq_capacity q = cap /\
    delivered (received o) ++ mq_msgs q `sublist_of` map (stored cap) (sent o)) ->
  ring_inv cap {| g_rb := rb; sent := sent o; received := received o |}.
Proof. done. Qed.

Lemma rffi_rb_pop_ok cap b out out_cap :
  binv cap b -> cap <= out_cap <= zlen out ->
  exists b' r, rffi_rb_pop out out_cap b = Ret (b', r) /\ callback_post cap b b'.
Proof.
  intros Hb Hc. destruct (inv_ring _ _ Hb) as (q & Hq & <- & Hs).
  pose proof (rep_cap_min _ _ _ Hq). unfold RB_FRAME_HEADER_SIZE in *.
  destruct (rb_pop_ok _ _ out out_cap Hq) as (rb' & E & Hq'); [lia|].
  unfold rffi_rb_pop. rewrite E. cbn. do 2 eexists. split; [done|].
  split; [|by split; [apply evolves_same|]].
  destruct Hb as [_ ? ? ? ? ?]. split; try done. cbn.
  destruct (spec_pop_delivers q out out_cap) as [Hd Hcap].
  { apply Forall_forall. intros m Hm%list_elem_of_In.
    pose proof (represents_msg_fits _ _ _ Hq Hm). unfold RB_FRAME_HEADER_SIZE in *. lia. }
  { lia. }
  exists (fst (spec_pop q out out_cap)). split; [done|]. split; [done|]. cbn.
  by rewrite delivered_snoc, <- app_assoc, Hd.
Qed.

Lemma rffi_rb_has_data_ok cap b :
  binv cap b -> exists b' r, rffi_rb_has_data b = Ret (b', r) /\ callback_post cap b b'.
Proof.
  intros Hb. destruct (inv_ring _ _ Hb) as (q & Hq & Hc & Hs).
  destruct (rb_has_data_ok _ _ Hq) as (rb' & E & Hq').
  unfold rffi_rb_has_data. rewrite E. cbn. do 2 eexists. split; [done|].
  split; [|by split; [apply evolves_same|]].
  destruct Hb as [_ ? ? ? ? ?]. split; try done. by exists q.
Qed.

Lemma sublist_drop_queue {A} (d q s : list A) : d ++ q `sublist_of` s -> d ++ [] `sublist_of` s.
Proof. intros. etrans; [|done]. apply sublist_app; [done|apply sublist_nil_l]. Qed.

Lemma rffi_rb_reset_ok cap b :
  binv cap b -> exists b', rffi_rb_reset b = Ret b' /\ callback_post cap b b'.
Proof.
  intros Hb. destruct (inv_ring _ _ Hb) as (q & Hq & Hc & Hs).
  destruct (rb_reset_ok _ _ Hq) as (rb' & E & Hq').
  unfold rffi_rb_reset. rewrite E. cbn. eexists. split; [done|].
  split; [|by split; [apply evolves_same|]].
  destruct Hb as [_ ? ? ? ? ?]. split; try done. exists (spec_reset q).
  split; [done|]. split; [done|]. by eapply sublist_drop_queue.
Qed.

Lemma rffi_submit_readline_input_ok cap b input :
  binv cap b -> zlen input < INT_MAX - 2 ->
  exists b', rffi_submit_readline_input input b = Ret b' /\ callback_post cap b b' /\
    readline_gate (b_gates b') = 1 /\ readline_input_buf (b_gates b') = strdup input.
Proof.
  intros Hb Hi. unfold rffi_submit_readline_input. rewrite (inv_mutex _ _ Hb).
  eexists. split; [done|]. split; [|done].
  split; [|by split; [apply evolves_same|]].
  destruct Hb as [? ? ? ? ? ?]. split; try done. cbn. unfold strdup.
  case_match; [done|]. cbn. unfold zlen, INT_MAX in *. cbn. lia.
Qed.

Lemma frontend_step_ok cap o b :
  binv cap b -> frontend_op_ok cap o ->
  exists b', frontend_step o b = Ret b' /\ callback_post cap b b'.
Proof.
  intros Hb Ho. destruct o as [out out_cap| | | |input|]; cbn [frontend_op_ok frontend_step] in *.
  - destruct (rffi_rb_pop_ok cap b out out_cap Hb Ho) as (b' & r & -> & ?). by exists b'.
  - destruct (rffi_rb_has_data_ok cap b Hb) as (b' & r & -> & ?). by exists b'.
  - by apply rffi_rb_reset_ok.
  - eexists. split; [done|]. split; [|by split; [apply evolves_same|]]. by destruct Hb.
  - destruct (rffi_submit_readline_input_ok cap b input Hb Ho) as (b' & ? & ? & _). by exists b'.
  - eexists. split; [done|]. unfold rffi_interrupt.
    destruct (R_interrupts_pending (b_r b)); [|by apply callback_post_refl].
    split; [|by split; [apply evolves_same|]]. by destruct Hb.
Qed.

Lemma frontend_steps_ok cap ops b :
  binv cap b -> Forall (frontend_op_ok cap) ops ->
  exists b', frontend_steps ops b = Ret b' /\ callback_post cap b b'.
Proof.
  revert b. induction ops as [|o ops IH]; intros b Hb Ho.
  - exists b. split; [done|by apply callback_post_refl].
  - apply Forall_cons_1 in Ho as [Ho Hos].
    destruct (frontend_step_ok cap o b Hb Ho) as (b1 & E1 & Hp1).
    destruct (IH b1) as (b2 & E2 & Hp2); [apply Hp1|done|]. exists b2. cbn. rewrite E1. cbn.
    split; [done|by eapply callback_post_trans].
Qed.

Variable F : fault -> Prop.
Hypothesis F_blocked : F Blocked.

Lemma tick_ok cap b : binv cap b -> wpF F tick (returns (callback_post cap b)) b.
Proof.
  intros Hb. unfold wpF, tick. destruct (sched b) as [|ops rest] eqn:Es.
  - by apply callback_post_refl.
  - pose proof (inv_sched _ _ Hb) as Hs. rewrite Es in Hs. apply Forall_cons_1 in Hs as [Ho Hr].
    destruct (frontend_steps_ok cap ops (set_sched b rest)) as (b' & -> & Hp);
      [by apply binv_set_sched|done|]. cbn.
    eapply callback_post_trans; [|done]. split; [by apply binv_set_sched|].
    split; [by apply evolves_same|done].
Qed.

(** A wait ends with the gate open, or for want of a frontend. *)
Lemma wait_open_ok cap gate n b :
  binv cap b ->
  wpF F (wait_open gate n) (returns (fun b' => callback_post cap b b' /\ gate (b_gates b') <> 0)) b.
Proof.
  revert b. induction n as [|n IH]; intros b Hb; cbn [wait_open]; wp_steps;
    destruct (gate (b_gates b) =? 0) eqn:E; cbn [negb]; zbool;
    try by (apply wp_ret; split; [apply callback_post_refl|]).
  - done.
  - wp_steps. eapply wp_mono; [by apply tick_ok|]. intros [[]|st|c] b1 Hp1; try done.
    cbn [on_done]. eapply wp_mono; [apply IH, Hp1|]. intros [[]|st|c] b2 Hp2; try done.
    split; [|apply Hp2]. by eapply callback_post_trans; [|apply Hp2].
Qed.

Lemma wait_gate_ok cap gate b :
  binv cap b ->
  wpF F (wait_gate gate) (returns (fun b' => callback_post cap b b' /\ gate (b_gates b') <> 0)) b.
Proof. intros Hb. unfold wait_gate. wp_steps. by apply wait_open_ok. Qed.

Lemma push_ok cap kind data len b :
  binv cap b -> 0 <= kind < 256 -> 0 <= len <= zlen data -> len < 2 ^ 32 ->
  wpF F (push kind data len) (fun o b' => o = Done 0 /\ binv cap b' /\
    b_gates b' = b_gates b /\ b_r b' = b_r b /\ b_init b' = b_init b /\ b_pipe b' = b_pipe b /\
    sched b' = sched b /\
    sent (b_out b') = sent (b_out b) ++ [push_msg kind 0 data len] /\
    received (b_out b') = received (b_out b)) b.
Proof.
  intros Hb Hk Hl Hl2. destruct (inv_ring _ _ Hb) as (q & Hq & <- & Hs).
  destruct (rb_push_ok _ q kind 0 data len Hq) as (rb' & E & Hq'); [lia..|].
  unfold wpF, push. rewrite E. cbn. split; [done|]. split; [|done].
  destruct Hb as [_ ? ? ? ? ?]. split; try done. cbn.
  destruct (spec_push_stored q (push_msg kind 0 data len)) as (d & k & E1 & E2 & E3).
  exists (spec_push q (push_msg kind 0 data len)). split; [done|]. split; [done|]. cbn.
  rewrite E2, map_app. cbn. rewrite app_assoc. apply sublist_app; [|done].
  etrans; [|done]. apply sublist_app; [done|]. rewrite E1. by apply sublist_inserts_l.
Qed.

Lemma u32_le z : 0 <= z -> 0 <= u32 z <= z /\ u32 z < 2 ^ 32.
Proof. intros. pose proof (u32_range z). pose proof (Z.mod_le z (2 ^ 32)). unfold u32 in *. lia. Qed.

(** Pushing one of the kinds the callbacks use. *)
Lemma push_output_ok cap kind data len b :
  binv cap b -> kind ∈ output_kinds -> 0 <= len <= zlen data ->
  wpF F (push kind data (u32 len)) (returns (fun b' => callback_post cap b b' /\
    b_gates b' = b_gates b /\ b_r b' = b_r b /\ b_init b' = b_init b)) b.
Proof.
  intros Hb Hk Hl. pose proof (u32_le len ltac:(lia)).
  assert (0 <= kind < 256).
  { unfold output_kinds in Hk.
    repeat (apply elem_of_cons in Hk as [->|Hk]; [done|]). by apply elem_of_nil in Hk. }
  eapply wp_mono; [by apply (push_ok cap kind data (u32 len) b); [..|lia|lia]|].
  intros o b' (-> & Hb' & Hg & Hr & Hi & _ & _ & Hs & _). split; [|done]. split; [done|].
  split; [|by rewrite Hr]. split; try by rewrite Hr.
  eexists. split; [done|]. by apply Forall_singleton.
Qed.

Lemma push_str_output_ok cap kind s b :
  binv cap b -> kind ∈ output_kinds ->
  wpF F (push_str kind s) (returns (fun b' => callback_post cap b b' /\
    b_gates b' = b_gates b /\ b_r b' = b_r b /\ b_init b' = b_init b)) b.
Proof. intros. apply push_output_ok; [done..|]. pose proof (zlen_nonneg s). lia. Qed.

(** *** Reading a line for R *)

(** What R finds in its buffer: the line submitted, cut to [len - 2] bytes,
    a newline and the terminator. *)
Definition console_line (input : bytes) (len : Z) : bytes :=
  take (Z.to_nat (len - 2)) input ++ [Byte.x0a; Byte.x00].

Lemma fill_line_ok buf input len n :
  2 <= len <= zlen buf -> len <= INT_MAX -> zlen input < INT_MAX - 2 ->
  n = (if len <? i32 (zlen input + 2) then u64 (len - 2) else zlen input) ->
  exists buf1 buf2 buf3, memcpy buf 0 input 0 n = Ret buf1 /\
    memcpy buf1 n [Byte.x0a] 0 1 = Ret buf2 /\
    memcpy buf2 (u64 (n + 1)) [Byte.x00] 0 1 = Ret buf3 /\
    buf3 = console_line input len ++ drop (length (console_line input len)) buf.
Proof.
  intros Hl Hm Hi Hn. unfold INT_MAX in *. pose proof (zlen_nonneg input).
  rewrite i32_small in Hn by lia.
  assert (Hn' : n = Z.min (zlen input) (len - 2)).
  { rewrite Hn. destruct (len <? zlen input + 2) eqn:E; zbool; [rewrite u64_small by lia|]; lia. }
  clear Hn. set (line := take (Z.to_nat (len - 2)) input).
  assert (Hll : zlen line = n).
  { unfold line, zlen in *. rewrite length_take. lia. }
  assert (E1 : memcpy buf 0 input 0 n = Ret (line ++ drop (Z.to_nat n) buf)).
  { etrans; [apply (memcpy_at [] buf input n); lia|]. cbn. do 2 f_equal. unfold line.
    destruct (Z.le_ge_cases (zlen input) (len - 2)).
    - rewrite !take_ge by (unfold zlen in *; lia). done.
    - by replace n with (len - 2) by lia. }
  set (q := drop (Z.to_nat n) buf) in *.
  assert (Hq : zlen q = zlen buf - n) by (apply zlen_drop; lia).
  exists (line ++ q), (line ++ [Byte.x0a] ++ drop 1 q), (line ++ [Byte.x0a; Byte.x00] ++ drop 2 q).
  split; [done|]. split.
  { rewrite <- Hll at 1. rewrite memcpy_at by (rewrite ?Hq; try done; lia). done. }
  split.
  { rewrite u64_small by lia. replace (n + 1) with (zlen (line ++ [Byte.x0a])) by (zlens; lia).
    rewrite app_assoc. rewrite memcpy_at; [|rewrite (zlen_drop 1) by lia; lia|done].
    rewrite <- app_assoc. cbn. by rewrite drop_drop. }
  unfold console_line. fold line. rewrite <- app_assoc. cbn [app]. do 3 f_equal.
  unfold q. rewrite drop_drop, length_app. cbn [length]. f_equal. unfold zlen in *. lia.
Qed.

Lemma take_readline_ok cap buf len b :
  binv cap b -> 2 <= len <= zlen buf -> len <= INT_MAX ->
  let line := console_line (default [] (readline_input_buf (b_gates b))) len in
  wpF F (take_readline buf len) (fun o b' =>
    o = Done (line ++ drop (length line) buf, 1) /\ callback_post cap b b' /\
    readline_gate (b_gates b') = 0 /\ readline_input_buf (b_gates b') = None /\
    b_out b' = b_out b /\ sched b' = sched b) b.
Proof.
  intros Hb Hl Hm line. unfold take_readline. wp_steps.
  cbn [b_gates set_gates set_readline_gate readline_mutex]. rewrite (inv_mutex _ _ Hb).
  eapply wp_lift; [done|]. wp_steps. cbn [b_gates set_gates set_readline_gate set_readline_mutex readline_input_buf].
  unfold line in *. set (input := default [] (readline_input_buf (b_gates b))).
  assert (Hi : zlen input < INT_MAX - 2) by apply Hb.
  destruct (fill_line_ok buf input len _ Hl Hm Hi eq_refl) as (x1 & x2 & x3 & E1 & E2 & E3 & E).
  eapply wp_lift; [exact E1|]. wp_steps. eapply wp_lift; [exact E2|]. wp_steps.
  eapply wp_lift; [exact E3|]. wp_steps. eapply wp_lift; [done|]. wp_steps.
  split; [by rewrite <- E|]. split; [|done].
  split; [|split; [by apply evolves_same|done]]. destruct Hb as [? ? ? ? ? ?]. by split.
Qed.

Lemma cb_read_console_ok cap prompt buf len b :
  binv cap b -> 2 <= len <= zlen buf -> len <= INT_MAX ->
  wpF F (cb_read_console prompt buf len) (returns (callback_post cap b)) b.
Proof.
  intros Hb Hl Hm. unfold cb_read_console. wp_steps.
  eapply wp_mono; [by apply (push_str_output_ok cap RB_MSG_READLINE prompt b Hb);
                   repeat constructor|].
  intros [z|st|c] b1 Hp1; try done. cbn [returns on_done] in *. destruct Hp1 as (Hp1 & _).
  wp_steps. eapply wp_mono; [apply wait_gate_ok, Hp1|].
  intros [[]|st|c] b2 Hp2; try done. cbn [returns on_done] in *. destruct Hp2 as (Hp2 & _).
  pose proof (callback_post_trans _ _ _ _ Hp1 Hp2) as Hp.
  eapply wp_mono; [by apply (take_readline_ok cap); [apply Hp|..]|].
  intros o b3 (-> & Hp3 & _). by eapply callback_post_trans.
Qed.

(** *** The other callbacks *)

(** The text captured so far. *)
Definition captured (c : init_capture) : bytes :=
  take (Z.to_nat (init_output_len c)) (default [] (init_output_buf c)).

Lemma capture_store l s len buf :
  0 <= l -> 0 < len <= zlen s -> l + len < zlen buf -> zlen buf <= USER_SPACE ->
  exists buf1 buf2, memcpy buf l s 0 len = Ret buf1 /\
    memcpy buf1 (u64 (l + len)) [Byte.x00] 0 1 = Ret buf2 /\ zlen buf2 = zlen buf /\
    u64 (l + len) = l + len /\
    exists rest, buf2 = (take (Z.to_nat l) buf ++ take (Z.to_nat len) s) ++ Byte.x00 :: rest.
Proof.
  intros Hl Hs Hlen Hsp. unfold USER_SPACE in Hsp. rewrite u64_small by lia.
  set (t := take (Z.to_nat l) buf). set (q := drop (Z.to_nat l) buf).
  assert (Et : zlen t = l) by (apply zlen_take; lia).
  assert (Eq : zlen q = zlen buf - l) by (apply zlen_drop; lia).
  assert (Eb : buf = t ++ q) by (symmetry; apply take_drop).
  set (u := take (Z.to_nat len) s). assert (Eu : zlen u = len) by (apply zlen_take; lia).
  exists ((t ++ u) ++ drop (Z.to_nat len) q),
    ((t ++ u) ++ [Byte.x00] ++ drop 1 (drop (Z.to_nat len) q)).
  assert (E1 : memcpy buf l s 0 len = Ret ((t ++ u) ++ drop (Z.to_nat len) q)).
  { rewrite Eb at 1. rewrite <- Et at 1. rewrite memcpy_at by lia. by rewrite app_assoc. }
  split; [done|]. assert (El : l + len = zlen (t ++ u)) by (zlens; lia).
  split.
  { rewrite El. apply memcpy_at; [rewrite zlen_drop by lia; lia|done]. }
  split; [|split; [done|by eexists]].
  rewrite <- (memcpy_len _ _ _ _ _ _ E1), !zlen_app.
  assert (Hd : zlen (drop (Z.to_nat len) q) = zlen q - len) by (apply zlen_drop; lia).
  rewrite (zlen_drop 1) by lia. change (zlen [Byte.x00]) with 1. lia.
Qed.

(** The text is followed by its terminator. *)
Definition terminated (c : init_capture) : Prop :=
  match init_output_buf c with
  | None => True
  | Some p => exists rest, p = captured c ++ Byte.x00 :: rest
  end.

(** [cb_init_capture] fails only when the block it asks for is refused. *)
Definition capture_fault (c : init_capture) (len : Z) (f : fault) : Prop :=
  f = NullDeref /\ malloc ((init_output_len c + len + 1) * 2) = None.

Lemma cb_init_capture_ok s len otype b :
  capture_ok (b_init b) -> len <= zlen s -> len <= INT_MAX ->
  wpF (capture_fault (b_init b) len) (cb_init_capture s len otype) (fun o b' => o = Done tt /\
    exists c, b' = set_init b c /\ capture_ok c /\
      captured c = captured (b_init b) ++ take (Z.to_nat len) s /\
      (terminated (b_init b) -> terminated c)) b.
Proof.
  intros Hc Hs Hm. unfold INT_MAX in Hm. unfold cb_init_capture.
  destruct (len <=? 0) eqn:E0; zbool.
  { apply wp_ret. split; [done|]. exists (b_init b). split; [by destruct b|]. split; [done|].
    replace (Z.to_nat len) with 0%nat by lia. by rewrite app_nil_r. }
  wp_steps. destruct (b_init b) as [p l cap]. unfold captured, capture_fault.
  cbn [init_output_buf init_output_len init_output_cap] in *.
  assert (Hlc : 0 <= l <= cap /\ cap <= USER_SPACE /\ zlen (default [] p) = cap).
  { unfold capture_ok in Hc. cbn in Hc. unfold USER_SPACE in *. destruct p; cbn; [lia|]. cbn in *. zlens. lia. }
  destruct Hlc as (Hlc & Hcap & Hp). unfold USER_SPACE in Hcap. rewrite (u64_small (l + len + 1)) by lia.
  set (cap' := if cap <? l + len + 1 then u64 ((l + len + 1) * 2) else cap).
  set (p' := if cap <? l + len + 1 then realloc p cap' else p).
  destruct p' as [buf|] eqn:Ep'.
  2: { unfold wpF. cbn. split; [done|]. subst p' cap'. destruct (cap <? l + len + 1) eqn:E; zbool.
       - unfold realloc in Ep'. rewrite u64_small in Ep' by lia. by destruct (malloc _).
       - subst p. cbn in Hp. change (zlen (@nil byte)) with 0 in Hp. lia. }
  assert (Hbuf : zlen buf = cap' /\ cap' <= USER_SPACE /\ l + len < cap' /\
                 take (Z.to_nat l) buf = take (Z.to_nat l) (default [] p)).
  { subst p'. destruct (cap <? l + len + 1) eqn:E; zbool.
    - assert (Ecap : cap' = (l + len + 1) * 2) by (apply u64_small; lia).
      rewrite Ecap in *. apply realloc_ok in Ep' as (Hz & Hsp & [k ->]); [|lia].
      split; [done|]. split; [done|]. split; [lia|]. apply take_app_le. unfold zlen in *. lia.
    - subst p. cbn in *. unfold USER_SPACE. split; [done|]. split; [lia|]. split; [unfold cap'; lia|done]. }
  destruct Hbuf as (Hbz & Hbs & Hbl & Hbt).
  destruct (capture_store l s len buf) as (b1 & b2 & E1 & E2 & Hz2 & Eu & rest & Ht2); [lia..|].
  eapply wp_lift; [done|]. wp_steps. eapply wp_lift; [exact E1|]. wp_steps.
  eapply wp_lift; [exact E2|]. wp_steps. split; [done|]. eexists. split; [done|].
  split; [unfold capture_ok; cbn; lia|]. unfold terminated, captured. cbn. rewrite Eu, Ht2, <- Hbt.
  assert (Etext : take (Z.to_nat (l + len)) ((take (Z.to_nat l) buf ++ take (Z.to_nat len) s) ++ Byte.x00 :: rest)
                  = take (Z.to_nat l) buf ++ take (Z.to_nat len) s).
  { apply take_app_length'. rewrite length_app, !length_take. unfold zlen in *. lia. }
  rewrite Etext. split; [done|]. intros _. by exists rest.
Qed.

Lemma as_char_str_ok cap x b :
  binv cap b -> wpF F (as_char_str x) (returns (callback_post cap b)) b.
Proof.
  intros Hb. unfold as_char_str. wp_steps. split; [by apply binv_set_rw|].
  split; [by apply evolves_set_rw|]. apply pp_asChar.
Qed.

(** Chaining a step that keeps [callback_post] with the rest. *)
Lemma wp_post_bind {A B} cap b0 b (m : M A) (k : A -> M B) :
  callback_post cap b0 b ->
  (binv cap b -> wpF F m (returns (callback_post cap b)) b) ->
  (forall a b', callback_post cap b0 b' -> wpF F (k a) (returns (callback_post cap b0)) b') ->
  wpF F (m ≫= k) (returns (callback_post cap b0)) b.
Proof.
  intros Hp Hm Hk. apply wp_bind. eapply wp_mono; [apply Hm, Hp|].
  intros [a|st|c] b' Hb'; try done. apply Hk. by eapply callback_post_trans.
Qed.

Lemma wp_post {A} cap b0 b (m : M A) (P : bridge -> Prop) :
  callback_post cap b0 b ->
  wpF F m (returns (fun b' => callback_post cap b b' /\ P b')) b ->
  wpF F m (returns (callback_post cap b0)) b.
Proof.
  intros Hp Hm. eapply wp_mono; [done|]. intros [a|st|c] b' Hb'; try done.
  by eapply callback_post_trans; [|apply Hb'].
Qed.

Lemma raoui_emit_image_ok cap s p w h m b :
  binv cap b -> wpF F (raoui_emit_image s p w h m) (returns (callback_post cap b)) b.
Proof.
  intros Hb. unfold raoui_emit_image.
  assert (Hp : callback_post cap b b) by by apply callback_post_refl. revert Hp.
  generalize b at 2 4 as b'. intros b' Hp.
  do 5 (eapply wp_post_bind; [exact Hp|intros; by apply as_char_str_ok|];
        clear dependent b'; intros ? b' Hp).
  destruct (_ || _); [by apply wp_ret|].
  set (text := image_payload _ _ _ _ _). destruct (snprintf_ret text <? 0) eqn:E1; [by apply wp_ret|].
  destruct (8192 <=? snprintf_ret text) eqn:E2; [by apply wp_ret|]. zbool.
  eapply wp_post_bind; [done| |intros; by apply wp_ret].
  intros Hb'. eapply wp_mono; [apply (push_output_ok cap RB_MSG_IMAGE _ _ b' Hb')|].
  - repeat constructor.
  - split; [done|]. unfold snprintf_ret, snprintf_store in *.
    destruct (zlen text <=? INT_MAX) eqn:E3; zbool; [|lia].
    rewrite take_ge; [lia|]. unfold zlen in *. lia.
  - intros [] ? Hq; try done. apply Hq.
Qed.

Lemma check_interrupts_ok cap b :
  binv cap b -> wpF F check_interrupts (returns (callback_post cap b)) b.
Proof.
  intros Hb. destruct (inv_interrupts _ _ Hb) as [v Hv]. unfold check_interrupts. wp_steps.
  eapply wp_lift; [by rewrite Hv|]. wp_steps. split; [by destruct Hb|].
  split; [by apply evolves_same|done].
Qed.

(** *** Every callback, and every call into R *)

(** The capture installed during startup may run out of memory. *)
Definition capture_may_fail (b : bridge) : Prop :=
  ptr_R_WriteConsoleEx (b_r b) = CbInitCapture -> F NullDeref.

Lemma capture_may_fail_evolves b b' :
  evolves b b' -> capture_may_fail b -> capture_may_fail b'.
Proof. intros He Hf Hc. apply Hf. by rewrite <- (ev_console _ _ He). Qed.

Lemma console_write_ok cap s len otype b :
  binv cap b -> capture_may_fail b -> 0 <= len <= zlen s -> len <= INT_MAX ->
  wpF F (handle (WriteConsoleEx s len otype)) (returns (callback_post cap b)) b.
Proof.
  intros Hb Hf Hl Hm. cbn [handle]. wp_steps.
  destruct (ptr_R_WriteConsoleEx (b_r b)) eqn:Ec.
  - apply (wp_mono_F (capture_fault (b_init b) len)); [|intros f [-> _]; by apply Hf].
    eapply wp_mono; [by apply cb_init_capture_ok; [apply Hb|lia..]|].
    intros o b' (-> & c & -> & Hc & _). split; [|by split; [apply evolves_same|]].
    by destruct Hb.
  - unfold cb_write_console_ex. eapply wp_bind, wp_mono.
    { apply (push_output_ok cap (if otype =? 0 then RB_MSG_STDOUT else RB_MSG_STDERR) s len b Hb);
        [|done]. by destruct (otype =? 0); repeat constructor. }
    intros [z|st|c] b' Hp; try done. apply Hp.
  - unfold cb_runr_capture, pipe_write. wp_steps. destruct (0 <=? _); [|by apply wp_ret].
    wp_steps. split; [by destruct Hb|by split; [apply evolves_same|]].
Qed.

Lemma passthrough_ok cap b :
  binv cap b -> wpF F raoui_enter_passthrough (returns (callback_post cap b)) b.
Proof.
  intros Hb. unfold raoui_enter_passthrough. wp_steps.
  eapply wp_mono; [by apply (push_output_ok cap RB_MSG_PASSTHROUGH [] 0 b Hb); repeat constructor|].
  intros [z|st|c] b1 Hp1; try done. cbn [returns on_done] in *. destruct Hp1 as (Hp1 & _).
  wp_steps. eapply wp_mono; [apply wait_gate_ok, Hp1|].
  intros [[]|st|c] b2 Hp2; try done. cbn [returns on_done] in *. destruct Hp2 as (Hp2 & _).
  wp_steps. pose proof (callback_post_trans _ _ _ _ Hp1 Hp2) as (Hb2 & Hev & Hpp).
  split; [by destruct Hb2|split; [by etrans; [|apply evolves_same]|done]].
Qed.

Lemma handle_ok cap {B} (c : callback SEXP B) b :
  binv cap b -> capture_may_fail b -> callback_ok c ->
  wpF F (handle c) (returns (callback_post cap b)) b.
Proof.
  intros Hb Hf Hc. destruct c; cbn [callback_ok] in Hc.
  - destruct Hc as [Hc1 Hc2]. by apply console_write_ok.
  - by apply wp_ret, callback_post_refl.
  - cbn [handle]. unfold cb_show_message. eapply wp_bind, wp_mono.
    { by apply (push_str_output_ok cap RB_MSG_STDERR s b Hb); repeat constructor. }
    intros [z|st|c] b' Hp; try done. apply Hp.
  - destruct Hc. by apply (cb_read_console_ok cap).
  - by apply passthrough_ok.
  - cbn [handle]. unfold raoui_exit_passthrough. eapply wp_bind, wp_mono.
    { by apply (push_output_ok cap RB_MSG_PASSTHROUGH_END [] 0 b Hb); repeat constructor. }
    intros [z|st|c] b' Hp; try done. apply Hp.
  - by apply raoui_emit_image_ok.
  - by apply check_interrupts_ok.
Qed.

(** What a call into R leaves: the invariant, an evolved bridge and, when it
    returns, the value [P] and the protection stack at height [d]. *)
Definition call_post {A} cap b (d : Z) (P : A -> Prop) (o : outcome A) (b' : bridge) : Prop :=
  binv cap b' /\ evolves b b' /\
  match o with
  | Done a => P a /\ pp_depth (rw (b_r b')) = d
  | Jumped _ => True
  | Exited c => c = 1     (* R called cb_suicide *)
  end.

Lemma run_rcall_ok {A} (t : rcall SEXP W A) cap d P b :
  binv cap b -> capture_may_fail b -> rcall_ok pp_depth d t -> rcall_returns P t ->
  wpF F (run_rcall t) (call_post cap b d P) b.
Proof.
  intros Hb. assert (Hr : evolves b b) by done. revert Hb Hr.
  generalize b at 1 3 4 6 as b1. 
  induction t as [w a|w st|w msg|B w c k IH]; intros b1 Hb Hev Hf Hok Hret;
    cbn [run_rcall rcall_ok rcall_returns] in *.
  - unfold put_w. wp_steps. split; [by apply binv_set_rw|]. by split; [apply evolves_set_rw|].
  - unfold put_w. wp_steps. split; [by apply binv_set_rw|]. by split; [apply evolves_set_rw|].
  - unfold put_w. wp_steps. split; [by apply binv_set_rw|]. by split; [apply evolves_set_rw|].
  - destruct Hok as [Hc Hk]. unfold put_w. wp_steps.
    set (b2 := set_r b1 _). assert (Hb2 : binv cap b2) by by apply binv_set_rw.
    assert (Hev2 : evolves b b2) by by apply evolves_set_rw.
    eapply wp_mono; [by apply (tick_ok cap b2)|]. intros [[]|st|c'] b3 Hp3; try done.
    cbn [on_done returns] in *. assert (Hf3 : capture_may_fail b3).
    { eapply capture_may_fail_evolves; [apply Hp3|]. done. }
    wp_steps. eapply wp_mono; [by apply (handle_ok cap c b3 (proj1 Hp3) Hf3)|].
    intros [x|st|c'] b4 Hp4; try done. cbn [on_done returns] in *.
    pose proof (callback_post_trans _ _ _ _ Hp3 Hp4) as (Hb4 & Hev4 & Hpp4).
    apply (IH (rw (b_r b4)) x b4); [done|by etrans| | |done].
    { eapply capture_may_fail_evolves; [apply Hp4|]. done. }
    apply Hk. rewrite Hpp4. done.
Qed.

Lemma rcall_returns_true {A} (t : rcall SEXP W A) : rcall_returns (fun _ => True) t.
Proof. by induction t; cbn. Qed.

End Preservation.
