(* ===== verification/BridgeProps.v ===== *)
(** * Correctness of the bridge's callbacks

    What the frontend receives from a call into R, the hand-over of a
    readline() answer, the capture of startup output and the image message. *)

From S2P Require Import Prelude CString RingBuffer RingSpec RingProps CrashLog RApi SampleR.
From S2P Require Import Bridge BridgeSpec.

(** ** A bridge for the witnesses *)

(** 1 KiB of heap per block is enough for the samples. *)
#[export] Instance sample_heap : Heap := small_malloc.
#[export] Instance sample_heap_ok : HeapOk.
Proof. exact small_malloc_ok. Qed.

Definition sample_ring : ring :=
  {| rb_buf := Some (repeat Byte.x00 512); rb_capacity := 512; rb_head := 0; rb_tail := 0;
     rb_used := 0; rb_dropmsgs := 0; rb_dropbytes := 0; rb_lock := MutexFree |}.

Definition empty_capture : init_capture :=
  {| init_output_buf := None; init_output_len := 0; init_output_cap := 0 |}.

Definition sample_bridge (console : console_fn) (s : list (list frontend_op)) : bridge :=
  {| b_out := {| g_rb := sample_ring; sent := []; received := [] |};
     b_gates := {| passthrough_gate := 0; readline_gate := 0; readline_input_buf := None;
                   readline_mutex := MutexFree |};
     b_init := empty_capture;
     b_pipe := {| g_runr_pipe_fd := 7; pipe_fd := empty_fd |};
     b_r := {| ptr_R_WriteConsoleEx := console; R_interrupts_pending := Some 0;
               R_ToplevelExec_fn := true; R_ProcessEvents_fn := true; R_checkActivity_fn := true;
               withVisible_sym := SSym (lit "withVisible");
               raoui_after_top_level_sym := SSym (lit "raoui_after_top_level");
               rw := {| sw_pp := 0; sw_vars := [] |} |};
     sched := s |}.

Lemma sample_ring_represents : represents sample_ring (spec_init 512).
Proof. exact (rb_init_ok small_malloc 0 zero_ring 512 sample_ring small_malloc_ok eq_refl). Qed.

Lemma sample_bridge_inv console s :
  Forall (Forall (frontend_op_ok 512)) s -> binv 512 (sample_bridge console s).
Proof.
  intros Hs. split; try done.
  exists (spec_init 512). split; [exact sample_ring_represents|]. split; [done|constructor].
Qed.

(** ** What the frontend receives *)

Section Props.
Context `{RApiOk, HeapOk}.

(** C16. Whatever R does in one call (write to the console, read lines, pass
    through to the terminal, emit images, fail) and whatever the frontend does
    meanwhile, in any interleaving: the call never faults, it can only be left
    waiting for a frontend that has stopped; only output messages are sent; and
    what the frontend has popped, followed by what is still in the ring, is the
    sequence of the messages sent with some of them missing - never altered,
    duplicated or reordered (an oversize one truncated). *)
Theorem rcall_output_stream {A} (t : rcall SEXP W A) cap d b :
  binv cap b -> ptr_R_WriteConsoleEx (b_r b) <> CbInitCapture -> rcall_ok pp_depth d t ->
  match run_rcall t b with
  | Fault f => f = Blocked
  | Ret (b', o) => exists q outs,
      represents (g_rb (b_out b')) q /\
      sent (b_out b') = sent (b_out b) ++ outs /\ Forall is_output outs /\
      delivered (received (b_out b')) ++ mq_msgs q `sublist_of` map (stored cap) (sent (b_out b')) /\
      (forall a, o = Done a -> pp_depth (rw (b_r b')) = d)
  end.
Proof.
  intros Hb Hc Hok.
  assert (Hw : wp (run_rcall t) (call_post cap b d (fun _ => True)) b).
  { apply (run_rcall_ok waiting eq_refl); [done|intros E; by destruct Hc|done|].
    apply rcall_returns_true. }
  unfold wpF in Hw. destruct (run_rcall t b) as [[b' o]|f]; [|done].
  destruct Hw as ([(q & Hq & _ & Hs) _ _ _ _ _] & [(outs & Ho & Hf) _ _ _ _] & Hd).
  exists q, outs. split; [done|]. split; [done|]. split; [done|]. split; [done|].
  intros a ->. apply Hd.
Qed.

(** ** readline() *)

Definition not_submit (o : frontend_op) : Prop :=
  match o with FSubmitReadline _ => False | _ => True end.

Lemma frontend_step_gates cap o b :
  binv cap b -> frontend_op_ok cap o -> not_submit o ->
  exists b', frontend_step o b = Ret b' /\ callback_post cap b b' /\ sched b' = sched b /\
    readline_gate (b_gates b') = readline_gate (b_gates b).
Proof.
  intros Hb Ho Hn. destruct (frontend_step_ok cap o b Hb Ho) as (b' & E & Hp).
  exists b'. split; [done|]. split; [done|].
  destruct o; cbn [frontend_step] in E; try done;
    unfold rffi_rb_pop, rffi_rb_has_data, rffi_rb_reset, rffi_interrupt in E;
    repeat match type of E with
    | context [match ?x with _ => _ end] => destruct x
    end; res_inv; cbn in *; repeat match goal with
    | H : (let '(_, _) := ?p in _) = _ |- _ => destruct p; res_inv
    end; by subst.
Qed.

Lemma frontend_steps_gates cap ops b :
  binv cap b -> Forall (frontend_op_ok cap) ops -> Forall not_submit ops ->
  exists b', frontend_steps ops b = Ret b' /\ callback_post cap b b' /\ sched b' = sched b /\
    readline_gate (b_gates b') = readline_gate (b_gates b).
Proof.
  revert b. induction ops as [|o ops IH]; intros b Hb Ho Hn.
  { exists b. split; [done|]. split; [by apply callback_post_refl|done]. }
  apply Forall_cons_1 in Ho as [Ho Hos]. apply Forall_cons_1 in Hn as [Hn Hns].
  destruct (frontend_step_gates cap o b Hb Ho Hn) as (b1 & E1 & Hp1 & Es1 & Eg1).
  destruct (IH b1) as (b2 & E2 & Hp2 & Es2 & Eg2); [apply Hp1|done..|].
  exists b2. cbn. rewrite E1. cbn. split; [done|].
  split; [by eapply callback_post_trans|]. split; congruence.
Qed.

(** While no line is submitted the worker keeps waiting; the first submission
    opens the gate and its line is in the buffer. *)
Lemma wait_line cap idle input rest n b :
  binv cap b -> sched b = idle ++ [FSubmitReadline input] :: rest -> (length idle < n)%nat ->
  Forall (Forall not_submit) idle -> readline_gate (b_gates b) = 0 ->
  exists b', wait_open readline_gate n b = Ret (b', Done tt) /\ callback_post cap b b' /\
    sched b' = rest /\ readline_input_buf (b_gates b') = strdup input.
Proof.
  revert n b. induction idle as [|ops idle IH]; intros n b Hb Hs Hn Hi Hg;
    (destruct n as [|n]; [cbn in Hn; lia|]); cbn [wait_open];
    unfold mbind at 1, M_bind at 1, gets at 1; rewrite Hg; cbn [Z.eqb negb].
  - unfold mbind at 1, M_bind at 1, tick. rewrite Hs. cbn [app frontend_steps frontend_step].
    pose proof (inv_sched _ _ Hb) as Hso. rewrite Hs in Hso.
    apply Forall_cons_1 in Hso as [Hop Hrest]. apply Forall_cons_1 in Hop as [Hop _].
    destruct (rffi_submit_readline_input_ok cap (set_sched b rest) input) as (b1 & E1 & Hp1 & Eg & El);
      [by apply binv_set_sched|done|].
    rewrite E1. cbn. exists b1. assert (Es1 : sched b1 = rest).
    { unfold rffi_submit_readline_input in E1. by res_inv; subst. }
    destruct n; cbn; unfold mbind, M_bind, gets; rewrite Eg; cbn;
      (split; [done|split; [|done]]; eapply callback_post_trans; [|done]);
      (split; [by apply binv_set_sched|by split; [apply evolves_same|]]).
  - unfold mbind at 1, M_bind at 1, tick. rewrite Hs. cbn [app].
    pose proof (inv_sched _ _ Hb) as Hso. rewrite Hs in Hso.
    apply Forall_cons_1 in Hso as [Hop Hrest]. apply Forall_cons_1 in Hi as [Hi His].
    destruct (frontend_steps_gates cap ops (set_sched b (idle ++ [FSubmitReadline input] :: rest)))
      as (b1 & E1 & Hp1 & Es1 & Eg1); [by apply binv_set_sched|done..|].
    rewrite E1. cbn. destruct (IH n b1) as (b2 & E2 & Hp2 & Hr2);
      [apply Hp1|by rewrite Es1|cbn in Hn; lia|done|by rewrite Eg1|].
    exists b2. split; [done|]. split; [|done]. eapply callback_post_trans; [|done].
    eapply callback_post_trans; [|done].
    split; [by apply binv_set_sched|by split; [apply evolves_same|]].
Qed.

(** C17. readline(): R's request is announced by a READLINE message; when the
    frontend, after any number of other actions, submits a line, R receives
    exactly that line (cut to the buffer), newline-terminated, with result 1,
    and the gate and the line buffer are left empty for the next request. *)
Theorem readline_handoff cap prompt buf len idle input rest b :
  binv cap b -> 2 <= len <= zlen buf -> len <= INT_MAX ->
  sched b = idle ++ [FSubmitReadline input] :: rest -> Forall (Forall not_submit) idle ->
  readline_gate (b_gates b) = 0 -> strdup input = Some input ->
  exists b', cb_read_console prompt buf len b =
      Ret (b', Done (console_line input len ++ drop (length (console_line input len)) buf, 1)) /\
    readline_gate (b_gates b') = 0 /\ readline_input_buf (b_gates b') = None /\
    sched b' = rest /\
    push_msg RB_MSG_READLINE 0 prompt (u32 (zlen prompt)) ∈ sent (b_out b').
Proof.
  intros Hb Hl Hm Hs Hi Hg Hd. pose proof (u32_le (zlen prompt) (zlen_nonneg prompt)) as Hu.
  assert (Hw : wpF (fun _ => False) (cb_read_console prompt buf len) (fun o b' =>
    o = Done (console_line input len ++ drop (length (console_line input len)) buf, 1) /\
    readline_gate (b_gates b') = 0 /\ readline_input_buf (b_gates b') = None /\ sched b' = rest /\
    push_msg RB_MSG_READLINE 0 prompt (u32 (zlen prompt)) ∈ sent (b_out b')) b).
  { unfold cb_read_console, push_str, wait_gate. apply wp_bind.
    eapply wp_mono; [by apply (push_ok _ cap RB_MSG_READLINE prompt _ b Hb); [|lia..]|].
    intros o b1 (-> & Hb1 & Eg & _ & _ & _ & Es & Esent & _). cbn [on_done]. wp_steps.
    destruct (wait_line cap idle input rest (length (sched b1)) b1) as (b2 & E2 & Hp2 & Es2 & El2);
      [done|by rewrite Es|rewrite Es, Hs, length_app; cbn; lia|done|by rewrite Eg|].
    eapply wp_eq; [exact E2|]. cbn [on_done].
    eapply wp_mono; [by apply (take_readline_ok _ cap); [apply Hp2|..]|].
    intros o b3 (-> & Hp3 & Hg3 & Hl3 & Eo3 & Es3). rewrite El2, Hd. cbn [default].
    split; [done|]. split; [done|]. split; [done|]. split; [congruence|].
    rewrite Eo3. destruct Hp2 as (_ & [(outs & -> & _) _ _ _ _] & _). rewrite Esent.
    rewrite !elem_of_app, list_elem_of_singleton. auto. }
  apply wp_total in Hw as (b' & o & E & -> & Hw). by exists b'.
Qed.

(** ** Startup output *)

(** The console writes R makes while it starts. *)
Definition startup_write : Type := bytes * Z * Z.

Fixpoint capture_all (ws : list startup_write) : M unit :=
  match ws with
  | [] => mret tt
  | (s, len, otype) :: ws' => cb_init_capture s len otype ;; capture_all ws'
  end.

Definition written (w : startup_write) : bytes := let '(s, len, _) := w in take (Z.to_nat len) s.

Definition write_ok (w : startup_write) : Prop :=
  let '(s, len, _) := w in 0 <= len <= zlen s /\ len <= INT_MAX.

Lemma zlen_written w : write_ok w -> zlen (written w) = snd (fst w).
Proof. destruct w as [[s len] o]. intros [Hl _]. by apply zlen_take. Qed.

Lemma capture_all_ok ws total b :
  capture_ok (b_init b) -> Forall write_ok ws ->
  init_output_len (b_init b) + zlen (concat (map written ws)) <= total ->
  (forall n, 0 <= n <= 2 * (total + 1) -> is_Some (malloc n)) ->
  wpF (fun _ => False) (capture_all ws) (fun o b' => o = Done tt /\
    exists c, b' = set_init b c /\ capture_ok c /\
      captured c = captured (b_init b) ++ concat (map written ws) /\
      (terminated (b_init b) -> terminated c)) b.
Proof.
  revert b. induction ws as [|w ws IH]; intros b Hc Hw Ht Hm.
  - apply wp_ret. split; [done|]. exists (b_init b). rewrite app_nil_r. by destruct b.
  - apply Forall_cons_1 in Hw as [Hw Hws]. pose proof (zlen_written w Hw) as Hz.
    destruct w as [[s len] otype]. cbn [capture_all fst snd map concat] in *. destruct Hw as [Hl Hlm].
    zlens. apply wp_bind.
    assert (Hlen0 : 0 <= init_output_len (b_init b)).
    { unfold capture_ok in Hc. destruct (init_output_buf _); lia. }
    eapply wp_mono_F.
    + eapply wp_mono; [by apply cb_init_capture_ok; [done|lia..]|].
      intros o b1 (-> & c & -> & Hc1 & Ec & Hterm). cbn [on_done].
      assert (Hlc : init_output_len c = init_output_len (b_init b) + len).
      { assert (forall c', capture_ok c' -> zlen (captured c') = init_output_len c') as Hcap.
        { intros [p l k]. unfold capture_ok, captured. cbn. destruct p; cbn.
          - intros. apply zlen_take. lia.
          - intros [-> _]. done. }
        rewrite <- (Hcap c Hc1), Ec, zlen_app, (Hcap _ Hc), zlen_take; lia. }
      eapply wp_mono; [apply (IH (set_init b c)); [done|done|cbn; lia|done]|].
      intros o b2 (-> & c2 & -> & Hc2 & Ec2 & Ht2). split; [done|]. exists c2. split; [done|].
      split; [done|]. cbn in *. rewrite Ec2, Ec, <- app_assoc. auto.
    + intros f [_ Hf]. destruct (Hm ((init_output_len (b_init b) + len + 1) * 2)) as [x Hx]; [lia|].
      by rewrite Hf in Hx.
Qed.

(** C18. The output R prints while it initializes is kept whole: after any
    sequence of console writes, in a heap that grants the blocks asked for, the
    buffer handed over by rffi_take_init_output holds their concatenation, in
    order and NUL-terminated (so the frontend reads exactly that C string);
    nothing reaches the output ring; a second call hands over nothing. *)
Theorem init_output_concat ws b :
  b_init b = empty_capture -> Forall write_ok ws ->
  concat (map written ws) <> [] -> is_cstr (concat (map written ws)) ->
  (forall n, 0 <= n <= 2 * (zlen (concat (map written ws)) + 1) -> is_Some (malloc n)) ->
  exists b' p, capture_all ws b = Ret (b', Done tt) /\ b_out b' = b_out b /\
    rffi_take_init_output b' = (b, Some p) /\ c_string p = concat (map written ws) /\
    snd (rffi_take_init_output (fst (rffi_take_init_output b'))) = None.
Proof.
  intros Hi Hw Hne Hs Hm.
  destruct (wp_total _ _ _ (capture_all_ok ws (zlen (concat (map written ws))) b
    ltac:(by rewrite Hi) Hw ltac:(rewrite Hi; cbn; lia) Hm)) as (b' & o & E & -> & c & -> & Hc & Ec & Ht).
  rewrite Hi in Ec, Ht. specialize (Ht I). change (captured empty_capture) with (@nil byte) in Ec.
  cbn [app] in Ec.
  unfold terminated in Ht. destruct (init_output_buf c) as [p|] eqn:Ep.
  - destruct Ht as [rest Ht]. exists (set_init b c), p. split; [done|]. split; [done|].
    split; [|split; [|done]].
    + unfold rffi_take_init_output. cbn. rewrite Ep. f_equal. destruct b. cbn in *. by subst.
    + rewrite Ht, Ec. by apply c_string_app.
  - exfalso. apply Hne. rewrite <- Ec. unfold captured. rewrite Ep. apply take_nil.
Qed.

(** ** Images *)

Definition image_lines (source preview mime width height : bytes) : list bytes :=
  [lit "source_path=" ++ source; lit "preview_path=" ++ preview; lit "mime=" ++ mime;
   lit "width=" ++ width; lit "height=" ++ height].

Lemma image_payload_lines source preview mime width height :
  image_payload source preview mime width height =
  concat (map (fun t => t ++ [Byte.x0a]) (image_lines source preview mime width height)).
Proof. unfold image_payload, image_lines. cbn [map concat]. by rewrite <- !app_assoc, app_nil_r. Qed.

Definition one_line (s : bytes) : Prop := Byte.x0a ∉ s.

Lemma image_payload_parse source preview mime width height :
  Forall one_line [source; preview; mime; width; height] ->
  strtok Byte.x0a (image_payload source preview mime width height) =
  image_lines source preview mime width height.
Proof.
  intros Hf. rewrite image_payload_lines. apply strtok_lines. unfold image_lines.
  assert (Hl : forall k v, Byte.x0a ∉ k -> k <> [] -> one_line v -> k ++ v <> [] /\ Byte.x0a ∉ k ++ v).
  { intros k v Hk Hne Hv. rewrite elem_of_app. split; [by destruct k|]. unfold one_line in Hv. tauto. }
  assert (Hk : forall k, forallb (fun c => negb (bool_decide (c = Byte.x0a))) k = true -> Byte.x0a ∉ k).
  { intros k Hk Hin. rewrite forallb_forall in Hk. apply list_elem_of_In in Hin.
    apply Hk in Hin. by rewrite bool_decide_true in Hin. }
  apply Forall_cons_1 in Hf as [F1 Hf]. apply Forall_cons_1 in Hf as [F2 Hf].
  apply Forall_cons_1 in Hf as [F3 Hf]. apply Forall_cons_1 in Hf as [F4 Hf].
  apply Forall_cons_1 in Hf as [F5 _].
  repeat constructor; apply Hl; try done; by apply Hk.
Qed.


End Props.

(** ** Witnesses: the sample R reads a line while the frontend pops *)

Definition pop_buffer : bytes := repeat Byte.x00 600.

Definition busy_schedule : list (list frontend_op) :=
  [[FHasData; FPop pop_buffer 600]; []; [FPop pop_buffer 600; FInterrupt];
   [FSubmitReadline (lit "answer")]].

Lemma busy_schedule_ok : Forall (Forall (frontend_op_ok 512)) busy_schedule.
Proof. repeat constructor; by vm_compute. Qed.

Lemma rcall_output_stream_witness :
  match run_rcall (sample_line (lit "ask") {| sw_pp := 3; sw_vars := [] |})
          (sample_bridge CbWriteConsoleEx busy_schedule) with
  | Fault f => f = Blocked
  | Ret (b', o) => exists q outs,
      represents (g_rb (b_out b')) q /\
      sent (b_out b') = [] ++ outs /\ Forall is_output outs /\
      delivered (received (b_out b')) ++ mq_msgs q `sublist_of` map (stored 512) (sent (b_out b')) /\
      (forall a, o = Done a -> pp_depth (rw (b_r b')) = 3)
  end.
Proof.
  apply (rcall_output_stream (H := sample_R) (sample_line (lit "ask") {| sw_pp := 3; sw_vars := [] |}) 512 3
           (sample_bridge CbWriteConsoleEx busy_schedule)).
  - apply sample_bridge_inv, busy_schedule_ok.
  - done.
  - exact (proj1 (sample_line_ok (lit "ask") {| sw_pp := 3; sw_vars := [] |})).
Defined.

Lemma readline_handoff_witness :
  exists b', cb_read_console (lit "name? ") read_buffer 16
        (sample_bridge CbWriteConsoleEx busy_schedule) =
      Ret (b', Done (lit "answer" ++ [Byte.x0a; Byte.x00] ++ repeat Byte.x00 8, 1)) /\
    readline_gate (b_gates b') = 0 /\ readline_input_buf (b_gates b') = None /\ sched b' = [] /\
    push_msg RB_MSG_READLINE 0 (lit "name? ") 6 ∈ sent (b_out b').
Proof.
  apply (readline_handoff (H := sample_R) 512 (lit "name? ") read_buffer 16
    [[FHasData; FPop pop_buffer 600]; []; [FPop pop_buffer 600; FInterrupt]] (lit "answer") []).
  - apply sample_bridge_inv, busy_schedule_ok.
  - by vm_compute.
  - by vm_compute.
  - reflexivity.
  - repeat constructor.
  - reflexivity.
  - vm_compute. reflexivity.
Defined.

Lemma init_output_concat_witness :
  exists b' p,
    capture_all [(lit "Loading", 7, 0); ([], 0, 0); (lit " ok.", 3, 1)] (sample_bridge CbInitCapture []) =
      Ret (b', Done tt) /\ b_out b' = b_out (sample_bridge CbInitCapture []) /\
    rffi_take_init_output b' = (sample_bridge CbInitCapture [], Some p) /\
    c_string p = lit "Loading ok" /\
    snd (rffi_take_init_output (fst (rffi_take_init_output b'))) = None.
Proof.
  apply (init_output_concat (H := sample_R) [(lit "Loading", 7, 0); ([], 0, 0); (lit " ok.", 3, 1)]
           (sample_bridge CbInitCapture [])).
  - reflexivity.
  - repeat constructor; by vm_compute.
  - by vm_compute.
  - repeat constructor; by vm_compute.
  - intros n Hn. assert (Hn' : 0 <= n <= 22) by (by vm_compute in Hn). unfold malloc, sample_heap, small_malloc.
    rewrite (proj2 (Z.leb_le _ _)) by lia. rewrite (proj2 (Z.leb_le _ _)) by lia. by eexists.
Defined.

