(* ===== verification/Eval.v ===== *)
(** * Evaluating R code on the worker thread
      (c_ffi/load_r.c, lines 263-306, 507-520, 590-701, 845-876, 1019-1071)

    The functions that parse and evaluate submitted code, with every protect
    and unprotect, every push and every early exit of the C functions. *)

From S2P Require Import Prelude CString RingBuffer RingSpec CrashLog RApi Bridge.

Section Eval.
Context `{RApi, Heap}.

(** ** The data handed through R_ToplevelExec *)

Record parse_data := {
  pd_text : SEXP;
  pd_num : Z;
  pd_status : ParseStatus;
  pd_src : SEXP;
  pd_result : option SEXP;
}.

Record eval_data := {
  ed_expr : SEXP;
  ed_env : SEXP;
  ed_error : Z;
  ed_result : option SEXP;
}.

Definition safe_parse (d : parse_data) : M parse_data :=
  '(result, status) ← rrun (R_ParseVector (pd_text d) (pd_num d) (pd_src d));
  mret {| pd_text := pd_text d; pd_num := pd_num d; pd_status := status;
          pd_src := pd_src d; pd_result := result |}.

(** A parse left by a jump may have stored a status already. *)
Definition parse_store (st : option ParseStatus) (d : parse_data) : parse_data :=
  {| pd_text := pd_text d; pd_num := pd_num d; pd_status := default (pd_status d) st;
     pd_src := pd_src d; pd_result := pd_result d |}.

Definition safe_eval (d : eval_data) : M eval_data :=
  '(result, error) ← rrun (R_tryEval (ed_expr d) (ed_env d));
  mret {| ed_expr := ed_expr d; ed_env := ed_env d; ed_error := error; ed_result := result |}.

(** A jump out of the other wrappers stores nothing. *)
Definition no_store {D} (st : option ParseStatus) (d : D) : D := d.

Definition safe_print (value : SEXP) : M SEXP := rrun (Rf_PrintValue value) ;; mret value.

(** [pd.result ? pd.result : *R_NilValue_ptr] *)
Definition or_nil (r : option SEXP) : SEXP := default R_NilValue r.

Definition run_after_top_level_hook : M unit :=
  sym ← gets (fun b => raoui_after_top_level_sym (b_r b));
  fn ← reads (Rf_findVar sym R_GlobalEnv);
  if SEXP_eqb fn R_UnboundValue then mret tt
  else
    call ← rcalls (Rf_lang1 sym);
    hook_call ← protect call;
    toplevel_exec safe_eval no_store
      {| ed_expr := hook_call; ed_env := R_GlobalEnv; ed_error := 0; ed_result := None |} ;;
    unprotect 1.

(** [*R_interrupts_pending_ptr = 0;] *)
Definition clear_interrupts : M unit :=
  r ← gets b_r;
  lift (deref (R_interrupts_pending r)) ;;
  modify (fun b => set_r b (set_interrupts (b_r b) (Some 0))).

(** The opening of the three evaluators: protect the code string, parse it under
    a top-level context, protect the result. *)
Definition parse_code (code : bytes) : M (SEXP * ParseStatus) :=
  s ← rcalls (Rf_mkString code);
  code_sexp ← protect s;
  '(_, pd) ← toplevel_exec safe_parse parse_store
    {| pd_text := code_sexp; pd_num := -1; pd_status := PARSE_ERROR;
       pd_src := R_NilValue; pd_result := None |};
  parsed ← protect (or_nil (pd_result pd));
  mret (parsed, pd_status pd).

(** [withVisible(expr)] under a top-level context: the data afterwards, with
    [error] raised when the context caught a jump, and the protected result.
    Leaves two objects on the protection stack. *)
Definition eval_visible (expr : SEXP) (error : Z) : M (SEXP * Z) :=
  wv ← gets (fun b => withVisible_sym (b_r b));
  call ← rcalls (Rf_lang2 wv expr);
  wv_call ← protect call;
  '(ok, ed) ← toplevel_exec safe_eval no_store
    {| ed_expr := wv_call; ed_env := R_GlobalEnv; ed_error := error; ed_result := None |};
  let error := if ok =? 0 then 1 else ed_error ed in
  wv_result ← protect (or_nil (ed_result ed));
  mret (wv_result, error).

(** Autoprinting the value of [withVisible]'s list(value=, visible=) when it is
    visible.  [false]: the print method jumped out, and the value is still on
    the protection stack. *)
Definition autoprint (wv_result : SEXP) : M bool :=
  value ← reads (VECTOR_ELT wv_result 0);
  visible ← reads (VECTOR_ELT wv_result 1);
  v ← reads (Rf_asLogical visible);
  if negb (v =? 0) then
    protect value ;;
    '(ok, _) ← toplevel_exec safe_print no_store value;
    if ok =? 0 then mret false else unprotect 1 ;; mret true
  else mret true.

(** ** eval_code *)

Definition parse_message (s : ParseStatus) : bytes :=
  match s with
  | PARSE_INCOMPLETE => lit "Parse error: incomplete expression"
  | PARSE_ERROR => lit "Parse error"
  | _ => lit "Parse error: unknown"
  end.

(** The loop over the parsed expressions from index [i], [count] of them left;
    answers [error_occurred]. *)
Fixpoint eval_loop (parsed : SEXP) (i : Z) (count : nat) (error_occurred : Z) : M Z :=
  match count with
  | O => mret error_occurred
  | S count' =>
      expr ← reads (VECTOR_ELT parsed i);
      '(wv_result, error_occurred) ← eval_visible expr error_occurred;
      if negb (error_occurred =? 0) then
        unprotect 2 ;;
        push RB_MSG_R_ERROR [] 0 ;;
        mret error_occurred
      else
        printed ← autoprint wv_result;
        if (printed : bool) then
          run_after_top_level_hook ;;
          unprotect 2 ;;
          eval_loop parsed (i + 1) count' error_occurred
        else
          unprotect 3 ;;
          push RB_MSG_R_ERROR [] 0 ;;
          mret 1
  end.

Definition eval_code (code : bytes) : M Z :=
  clear_interrupts ;;
  '(parsed, parse_status) ← parse_code code;
  if negb (bool_decide (parse_status = PARSE_OK)) then
    push_str RB_MSG_R_ERROR (parse_message parse_status) ;;
    push RB_MSG_DONE [] 0 ;;
    unprotect 2 ;;
    mret (-1)
  else
    n ← reads (Rf_length parsed);
    error_occurred ← eval_loop parsed 0 (Z.to_nat n) 0;
    push RB_MSG_DONE [] 0 ;;
    unprotect 2 ;;
    mret (if error_occurred =? 0 then 0 else -1).

(** ** eval_for_string *)

(** [None] stands for [return NULL] inside the loop. *)
Fixpoint eval_string_loop (parsed : SEXP) (i : Z) (count : nat) (result : option SEXP)
    (err : Z) : M (option (option SEXP)) :=
  match count with
  | O => mret (Some result)
  | S count' =>
      expr ← reads (VECTOR_ELT parsed i);
      '(ok, ed) ← toplevel_exec safe_eval no_store
        {| ed_expr := expr; ed_env := R_GlobalEnv; ed_error := err; ed_result := None |};
      let err := if ok =? 0 then 1 else ed_error ed in
      if negb (err =? 0) then unprotect 2 ;; mret None
      else eval_string_loop parsed (i + 1) count' (ed_result ed) err
  end.

Definition eval_for_string (code : bytes) : M (option bytes) :=
  '(parsed, ps) ← parse_code code;
  if negb (bool_decide (ps = PARSE_OK)) then unprotect 2 ;; mret None
  else
    n ← reads (Rf_length parsed);
    r ← eval_string_loop parsed 0 (Z.to_nat n) (Some R_NilValue) 0;
    match r with
    | None => mret None
    | Some result =>
        x ← lift (deref result);
        x ← protect x;
        c ← rcalls (Rf_asChar x);
        char_sexp ← protect c;
        str ← reads (R_CHAR char_sexp);
        let out := strdup str in
        unprotect 4 ;;
        mret out
    end.

(** ** eval_in_sandbox: the evaluator of the forked child *)

Fixpoint sandbox_loop (parsed : SEXP) (i : Z) (count : nat) : M unit :=
  match count with
  | O => mret tt
  | S count' =>
      expr ← reads (VECTOR_ELT parsed i);
      '(wv_result, err) ← eval_visible expr 0;
      if negb (err =? 0) then unprotect 2
      else
        printed ← autoprint wv_result;
        if (printed : bool) then unprotect 2 ;; sandbox_loop parsed (i + 1) count'
        else unprotect 3
  end.

Definition eval_in_sandbox (code : bytes) : M unit :=
  clear_interrupts ;;
  '(parsed, ps) ← parse_code code;
  if negb (bool_decide (ps = PARSE_OK)) then
    p ← gets b_pipe;
    let msg := lit "Parse error" ++ [Byte.x0a] in
    (if 0 <=? g_runr_pipe_fd p then pipe_write msg (zlen msg) else mret tt) ;;
    unprotect 2
  else
    n ← reads (Rf_length parsed);
    sandbox_loop parsed 0 (Z.to_nat n) ;;
    unprotect 2.

(** ** Completions *)

(** Binding a string to a variable of the global environment. *)
Definition define_string (name value : bytes) : M unit :=
  sym ← rcalls (Rf_install name);
  s ← rcalls (Rf_mkString value);
  val ← protect s;
  rdo (Rf_defineVar sym val R_GlobalEnv) ;;
  unprotect 1.

(** Handing the completions over, or an empty list. *)
Definition push_completions (result : option bytes) : M Z :=
  match result with
  | Some r => push_str RB_MSG_COMPLETIONS r
  | None => push RB_MSG_COMPLETIONS [] 0
  end.

(** The program text of lines 1028-1036, [%dL] filled with the cursor. *)
Definition completion_code (cursor_pos : Z) : bytes :=
  lit "local({" ++
  lit "  utils:::.assignLinebuffer(.raoui_compl);" ++
  lit "  utils:::.assignEnd(" ++ format_d cursor_pos ++ lit "L);" ++
  lit "  utils:::.guessTokenFromLine();" ++
  lit "  utils:::.completeToken();" ++
  lit "  token <- get('token', envir=utils:::.CompletionEnv);" ++
  lit "  comps <- utils:::.retrieveCompletions();" ++
  lit "  paste0(c(token, comps), collapse=" ++ [Byte.x22; Byte.x5c; Byte.x6e; Byte.x22] ++
  lit ")" ++
  lit "})".

Definition run_completions (line : bytes) (cursor_pos : Z) : M unit :=
  define_string (lit ".raoui_compl") line ;;
  result ← eval_for_string (snprintf_store 512 (completion_code cursor_pos));
  push_completions result ;;
  mret tt.

Definition column_code : bytes :=
  lit "local({" ++
  lit "  object_name <- .raoui_column_object;" ++
  lit "  cols <- tryCatch({" ++
  lit "    obj <- get(object_name, envir=.GlobalEnv, inherits=TRUE);" ++
  lit "    if (is.data.frame(obj)) names(obj) else character();" ++
  lit "  }, error=function(e) character());" ++
  lit "  paste0(c('', cols), collapse='" ++ [Byte.x5c; Byte.x6e] ++ lit "')" ++
  lit "})".

Definition run_column_completions (object_name : bytes) : M unit :=
  define_string (lit ".raoui_column_object") object_name ;;
  result ← eval_for_string column_code;
  push_completions result ;;
  mret tt.

(** ** process_events *)

Definition process_events_inner (d : unit) : M unit :=
  r ← gets b_r;
  (if R_ProcessEvents_fn r then rrun R_ProcessEvents else mret tt) ;;
  r ← gets b_r;
  if R_checkActivity_fn r then
    what ← rrun R_checkActivity;
    if (what : bool) then rrun R_runHandlers else mret tt
  else mret tt.

Definition process_events : M unit :=
  r ← gets b_r;
  if R_ToplevelExec_fn r then toplevel_exec process_events_inner no_store tt ;; mret tt
  else mret tt.

End Eval.
