(* ===== verification/EvalSpec.v ===== *)
(** * What an evaluation leaves behind

    Weakest-precondition lemmas for the functions of Eval.v: the protection
    stack is balanced on every path, no longjmp escapes, and the messages
    pushed follow the protocol the frontend reads. *)

From S2P Require Import Prelude CString RingBuffer RingSpec CrashLog RApi Bridge BridgeSpec Eval.

Section EvalSpec.
Context `{RApiOk, HeapOk}.

Variable cap : Z.

(** The worker after startup: R_ToplevelExec was found and console output goes
    to the ring or, in the child, to the capture pipe. *)
Record ready (b : bridge) : Prop := {
  rd_inv : binv cap b;
  rd_toplevel : R_ToplevelExec_fn (b_r b) = true;
  rd_console : ptr_R_WriteConsoleEx (b_r b) <> CbInitCapture;
}.

(** From [b], some output was sent, then the messages [tail]; the protection
    stack has height [d]. *)
Record after (tail : list msg) (d : Z) (b b' : bridge) : Prop := {
  af_ready : ready b';
  af_sent : exists outs, sent (b_out b') = sent (b_out b) ++ outs ++ tail /\ Forall is_output outs;
  af_pp : pp_depth (rw (b_r b')) = d;
  af_console : ptr_R_WriteConsoleEx (b_r b') = ptr_R_WriteConsoleEx (b_r b);
}.

Definition depth (b : bridge) : Z := pp_depth (rw (b_r b)).

Lemma after_refl b : ready b -> after [] (depth b) b b.
Proof. intros. split; try done. exists []. by rewrite app_nil_r. Qed.

Lemma after_trans tail d1 d2 b1 b2 b3 :
  after [] d1 b1 b2 -> after tail d2 b2 b3 -> after tail d2 b1 b3.
Proof.
  intros [_ (o1 & E1 & F1) _ C1] [R2 (o2 & E2 & F2) P2 C2]. split; try done; try congruence.
  exists (o1 ++ o2). rewrite E2, E1, app_nil_r, !app_assoc. split; [done|by apply Forall_app_2].
Qed.

(** Only R's own state changed. *)
Lemma after_set_rw tail d d' b b' w :
  after tail d b b' -> pp_depth w = d' -> after tail d' b (set_r b' (set_rw (b_r b') w)).
Proof. intros [[] ? ? ?] Hw. split; try done. split; try done. by apply binv_set_rw. Qed.

Lemma after_evolves b b' d :
  ready b -> binv cap b' -> evolves b b' -> pp_depth (rw (b_r b')) = d -> after [] d b b'.
Proof.
  intros [? ? ?] Hb [(o & E & F) Ec Et ? ?] Hp. split; try done.
  - split; [done|by rewrite Et|by rewrite Ec].
  - exists o. by rewrite app_nil_r.
Qed.

(** The outcomes of a computation that no longjmp leaves. *)
Definition runs {A} (P : A -> bridge -> Prop) (o : outcome A) (b : bridge) : Prop :=
  match o with
  | Done a => P a b
  | Jumped _ => False
  | Exited c => c = 1
  end.

Lemma wp_runs_bind {A B} (m : M A) (k : A -> M B) P Q b :
  wp m (runs P) b -> (forall a b', P a b' -> wp (k a) (runs Q) b') -> wp (m ≫= k) (runs Q) b.
Proof.
  intros Hm Hk. apply wp_bind. eapply wp_mono; [exact Hm|]. intros [a|st|c] b' Ho; try done.
  by apply Hk.
Qed.

Lemma wp_runs_ret {A} (a : A) (P : A -> bridge -> Prop) b : P a b -> wp (mret a) (runs P) b.
Proof. done. Qed.

(** Past the reads of the state; then the next bind of a run: [tac] proves what its first part leaves. *)
Ltac wp_pure :=
  repeat (apply wp_bind; first [apply wp_gets | apply wp_reads]; cbn [on_done]).
Ltac wp_next tac := eapply wp_runs_bind; [tac|cbv beta].

(** ** Calls into R *)

Lemma ready_capture b : ready b -> capture_may_fail waiting b.
Proof. intros Hr Hc. by destruct (rd_console _ Hr). Qed.

Lemma rrun_ok {A} (f : W -> rcall SEXP W A) P b :
  ready b -> rcall_ok pp_depth (depth b) (f (rw (b_r b))) -> rcall_returns P (f (rw (b_r b))) ->
  wp (rrun f) (call_post cap b (depth b) P) b.
Proof.
  intros Hr Hok Hret. unfold rrun. eapply (run_rcall_ok waiting eq_refl); try done.
  - apply Hr.
  - by apply ready_capture.
Qed.

(** A call into R under R_ToplevelExec, through one of the wrappers: it comes
    back with the flag 1 and the wrapper's data, or with 0 and what the jump
    left, in both cases at the height it started from. *)
Lemma wp_toplevel_call {A D} (f : W -> rcall SEXP W A) (k : A -> M D) (wrap : A -> D)
    fn store data P (Q : Z * D -> Prop) b :
  fn data = rrun f ≫= k -> (forall a, k a = mret (wrap a)) -> ready b ->
  rcall_ok pp_depth (depth b) (f (rw (b_r b))) -> rcall_returns P (f (rw (b_r b))) ->
  (forall a, P a -> Q (1, wrap a)) -> (forall st, Q (0, store st data)) ->
  wp (toplevel_exec fn store data) (runs (fun r b' => Q r /\ after [] (depth b) b b')) b.
Proof.
  intros Hfn Hk Hr Hok Hret Hr1 Hr0. apply wp_toplevel; [apply Hr|]. rewrite Hfn.
  apply wp_bind. eapply wp_mono; [by apply (rrun_ok f P)|].
  intros [a|st|c] b' (Hb & He & Ho); cbn [on_done runs].
  - rewrite Hk. apply wp_ret. destruct Ho as [HP Hd]. split; [by apply Hr1|by apply after_evolves].
  - split; [apply Hr0|]. eapply after_set_rw; [by apply after_evolves|]. apply pp_unwind.
  - done.
Qed.

Lemma parse_exec_ok text num src status b :
  ready b ->
  wp (toplevel_exec safe_parse parse_store
        {| pd_text := text; pd_num := num; pd_status := status; pd_src := src; pd_result := None |})
     (runs (fun _ b' => True /\ after [] (depth b) b b')) b.
Proof.
  intros Hr. eapply (wp_toplevel_call (R_ParseVector text num src) _
      (fun r => {| pd_text := text; pd_num := num; pd_status := snd r;
                   pd_src := src; pd_result := fst r |})); try done.
  - by intros [].
  - apply parse_ok.
  - apply rcall_returns_true.
Qed.

(** The error flag is up exactly when there is no result. *)
Lemma eval_exec_ok expr env error b :
  ready b ->
  wp (toplevel_exec safe_eval no_store
        {| ed_expr := expr; ed_env := env; ed_error := error; ed_result := None |})
     (runs (fun r b' => (fst r = 0 \/ (fst r = 1 /\ (ed_result (snd r) = None <-> ed_error (snd r) <> 0)))
        /\ after [] (depth b) b b')) b.
Proof.
  intros Hr.
  eapply (wp_toplevel_call (R_tryEval expr env) _
    (fun r => {| ed_expr := expr; ed_env := env; ed_error := snd r; ed_result := fst r |})
    safe_eval no_store _ (fun r => fst r = None <-> snd r <> 0)
    (fun r => fst r = 0 \/ (fst r = 1 /\ (ed_result (snd r) = None <-> ed_error (snd r) <> 0)))); try done.
  - by intros [].
  - apply tryEval_ok.
  - apply tryEval_error.
  - intros a HP. by right.
  - by left.
Qed.

Lemma print_exec_ok value b :
  ready b ->
  wp (toplevel_exec safe_print no_store value)
     (runs (fun r b' => (fst r = 0 \/ fst r = 1) /\ after [] (depth b) b b')) b.
Proof.
  intros Hr.
  eapply (wp_toplevel_call (Rf_PrintValue value) _ (fun _ => value) safe_print no_store _
            (fun _ => True) (fun r => fst r = 0 \/ fst r = 1)); try done.
  - apply print_ok.
  - apply rcall_returns_true.
  - by right.
  - by left.
Qed.

(** ** The steps of the evaluators *)

Lemma wp_rcalls_after {A} (f : W -> W * A) tail d b0 b :
  after tail d b0 b -> (forall w, pp_depth (fst (f w)) = pp_depth w) ->
  wp (rcalls f) (runs (fun _ b' => after tail d b0 b')) b.
Proof.
  intros Ha Hf. apply wp_rcalls. eapply after_set_rw; [exact Ha|]. rewrite Hf. apply Ha.
Qed.

Lemma wp_protect_after x tail d b0 b :
  after tail d b0 b -> wp (protect x) (runs (fun y b' => y = x /\ after tail (d + 1) b0 b')) b.
Proof.
  intros Ha. apply wp_protect. split; [done|]. eapply after_set_rw; [exact Ha|].
  rewrite pp_protect. by rewrite (af_pp _ _ _ _ Ha).
Qed.

Lemma wp_unprotect_after n tail d b0 b :
  after tail d b0 b -> 0 <= n <= d ->
  wp (unprotect n) (runs (fun _ b' => after tail (d - n) b0 b')) b.
Proof.
  intros Ha Hn. pose proof (af_pp _ _ _ _ Ha) as Hp. apply wp_unprotect; [exact _|lia|].
  eapply after_set_rw; [exact Ha|]. rewrite pp_unprotect; lia.
Qed.

(** Pushing a message of the protocol. *)
Lemma wp_push_after kind s len tail d b0 b :
  after tail d b0 b -> 0 <= kind < 256 -> 0 <= len <= zlen s -> len < 2 ^ 32 ->
  wp (push kind s len) (runs (fun _ b' => after (tail ++ [push_msg kind 0 s len]) d b0 b')) b.
Proof.
  intros Ha Hk Hl Hl2. destruct Ha as [[Hb Ht Hc] (o & E & F) Hp Hcn].
  eapply wp_mono; [by apply (push_ok waiting cap kind s len b Hb)|].
  intros o' b' (-> & Hb' & Eg & Er & Ei & Ep & Es & Est & _). split; rewrite ?Er; try done.
  - split; by rewrite ?Er.
  - exists o. rewrite Est, E, <- !app_assoc. done.
Qed.

Lemma wp_push_str_after kind s tail d b0 b :
  after tail d b0 b -> 0 <= kind < 256 ->
  wp (push_str kind s)
     (runs (fun _ b' => after (tail ++ [push_msg kind 0 s (u32 (zlen s))]) d b0 b')) b.
Proof.
  intros Ha Hk. pose proof (u32_le (zlen s) (zlen_nonneg s)).
  apply wp_push_after; [done..|lia|lia].
Qed.

Lemma wp_clear_interrupts b :
  ready b -> wp clear_interrupts (runs (fun _ b' => after [] (depth b) b b' /\
    R_interrupts_pending (b_r b') = Some 0)) b.
Proof.
  intros Hr. destruct (inv_interrupts _ _ (rd_inv _ Hr)) as [v Hv].
  unfold clear_interrupts. wp_steps. eapply wp_lift; [by rewrite Hv|]. wp_steps.
  split; [|done]. apply after_evolves; [done| |by apply evolves_same|done].
  by destruct (rd_inv _ Hr).
Qed.

(** A step described from where it starts, continued from an earlier state. *)
Lemma wp_from {A} (m : M A) (P : A -> bridge -> Prop) d b0 b :
  after [] d b0 b -> (ready b -> wp m (runs (fun r b' => P r b' /\ after [] (depth b) b b')) b) ->
  wp m (runs (fun r b' => P r b' /\ after [] d b0 b')) b.
Proof.
  intros Ha Hm. eapply wp_mono; [apply Hm, Ha|]. intros [r|st|c] b' Ho; try done.
  destruct Ho as [HP Hb]. split; [done|]. rewrite <- (af_pp _ _ _ _ Ha). by eapply after_trans.
Qed.

Lemma parse_code_ok code d b0 b :
  after [] d b0 b -> wp (parse_code code) (runs (fun _ b' => after [] (d + 2) b0 b')) b.
Proof.
  intros Ha. unfold parse_code.
  wp_next ltac:(eapply wp_rcalls_after; [exact Ha|intros; apply pp_mkString]).
  intros s b1 Ha1. wp_next ltac:(by apply wp_protect_after).
  intros cs b2 [_ Ha2]. wp_next ltac:(eapply wp_from; [done|apply parse_exec_ok]).
  intros [ok pd] b3 [_ Ha3]. wp_next ltac:(by apply wp_protect_after).
  intros parsed b4 [_ Ha4]. apply wp_runs_ret. by replace (d + 2) with (d + 1 + 1) by lia.
Qed.

Lemma eval_visible_ok expr error d b0 b :
  after [] d b0 b ->
  wp (eval_visible expr error) (runs (fun _ b' => after [] (d + 2) b0 b')) b.
Proof.
  intros Ha. unfold eval_visible. wp_pure.
  wp_next ltac:(eapply wp_rcalls_after; [exact Ha|intros; apply pp_lang2]).
  intros call b1 Ha1. wp_next ltac:(by apply wp_protect_after).
  intros wv b2 [_ Ha2]. wp_next ltac:(eapply wp_from; [done|apply eval_exec_ok]).
  intros [ok ed] b3 [_ Ha3]. wp_next ltac:(by apply wp_protect_after).
  intros r b4 [_ Ha4]. apply wp_runs_ret. by replace (d + 2) with (d + 1 + 1) by lia.
Qed.

Lemma autoprint_ok wv_result d b0 b :
  0 <= d -> after [] d b0 b ->
  wp (autoprint wv_result)
     (runs (fun (p : bool) b' => after [] (if p then d else d + 1) b0 b')) b.
Proof.
  intros Hd Ha. unfold autoprint. wp_pure. case_match; [|by apply wp_runs_ret].
  wp_next ltac:(by apply wp_protect_after).
  intros v b1 [_ Ha1]. wp_next ltac:(eapply wp_from; [done|apply print_exec_ok]).
  intros [ok x] b2 [_ Ha2]. case_match; [by apply wp_runs_ret|].
  wp_next ltac:(apply (wp_unprotect_after 1); [exact Ha2|lia]).
  intros [] b3 Ha3. apply wp_runs_ret. by replace d with (d + 1 - 1) by lia.
Qed.

Lemma hook_ok d b0 b :
  0 <= d -> after [] d b0 b ->
  wp run_after_top_level_hook (runs (fun _ b' => after [] d b0 b')) b.
Proof.
  intros Hd Ha. unfold run_after_top_level_hook. wp_pure. case_match; [by apply wp_runs_ret|].
  wp_next ltac:(eapply wp_rcalls_after; [exact Ha|intros; apply pp_lang1]).
  intros call b1 Ha1. wp_next ltac:(by apply wp_protect_after).
  intros hc b2 [_ Ha2]. wp_next ltac:(eapply wp_from; [done|apply eval_exec_ok]).
  intros [ok ed] b3 [_ Ha3]. eapply wp_mono; [apply (wp_unprotect_after 1); [exact Ha3|lia]|].
  intros [[]|st|c] b4 Ha4; try done. cbn [runs] in *. by replace d with (d + 1 - 1) by lia.
Qed.

(** ** The evaluators *)

Definition R_ERROR_MSG : msg := push_msg RB_MSG_R_ERROR 0 [] 0.
Definition DONE_MSG : msg := push_msg RB_MSG_DONE 0 [] 0.

(** The error message an evaluation that failed sends before it stops. *)
Definition error_tail (error : Z) : list msg := if error =? 0 then [] else [R_ERROR_MSG].

Lemma eval_loop_ok parsed i count error d b0 b :
  0 <= d -> error = 0 -> after [] d b0 b ->
  wp (eval_loop parsed i count error) (runs (fun e b' => after (error_tail e) d b0 b')) b.
Proof.
  intros Hd. revert i error b. induction count as [|count IH]; intros i error b -> Ha; cbn [eval_loop].
  { by apply wp_runs_ret. }
  wp_pure. wp_next ltac:(by apply eval_visible_ok). intros [wv e] b1 Ha1.
  unfold error_tail. destruct (e =? 0) eqn:He; cbn [negb].
  - wp_next ltac:(apply autoprint_ok; [|exact Ha1]; lia). intros [] b2 Ha2.
    + wp_next ltac:(apply hook_ok; [|exact Ha2]; lia). intros [] b3 Ha3.
      wp_next ltac:(apply (wp_unprotect_after 2); [exact Ha3|lia]). intros [] b4 Ha4.
      replace (d + 2 - 2) with d in Ha4 by lia. zbool. by apply IH.
    + wp_next ltac:(apply (wp_unprotect_after 3); [exact Ha2|lia]). intros [] b3 Ha3.
      wp_next ltac:(by apply (wp_push_after RB_MSG_R_ERROR [] 0); [exact Ha3|..]).
      intros z b4 Ha4. apply wp_runs_ret. by replace (d + 2 + 1 - 3) with d in Ha4 by lia.
  - wp_next ltac:(apply (wp_unprotect_after 2); [exact Ha1|lia]). intros [] b3 Ha3.
    wp_next ltac:(by apply (wp_push_after RB_MSG_R_ERROR [] 0); [exact Ha3|..]).
    intros z b4 Ha4. apply wp_runs_ret. rewrite He. by replace (d + 2 - 2) with d in Ha4 by lia.
Qed.

(** What the frontend reads at the end of an evaluation that answered [rc]. *)
Definition protocol_tail (rc : Z) (tail : list msg) : Prop :=
  (rc = 0 /\ tail = [DONE_MSG]) \/
  (rc = -1 /\ exists e, tail = [e; DONE_MSG] /\ msg_kind e = RB_MSG_R_ERROR).

Lemma depth_nonneg b : 0 <= depth b.
Proof. apply pp_nonneg. Qed.

Lemma eval_code_ok code b :
  ready b ->
  wp (eval_code code) (runs (fun rc b' => exists tail, protocol_tail rc tail /\
    after tail (depth b) b b')) b.
Proof.
  intros Hr. pose proof (depth_nonneg b). unfold eval_code.
  wp_next ltac:(by apply wp_clear_interrupts). intros [] b1 [Ha1 _].
  wp_next ltac:(by apply parse_code_ok). intros [parsed ps] b2 Ha2.
  destruct (negb _).
  - wp_next ltac:(by apply (wp_push_str_after RB_MSG_R_ERROR); [exact Ha2|]).
    intros z b3 Ha3. wp_next ltac:(by apply (wp_push_after RB_MSG_DONE [] 0); [exact Ha3|..]).
    intros z' b4 Ha4. wp_next ltac:(apply (wp_unprotect_after 2); [exact Ha4|lia]).
    intros [] b5 Ha5. apply wp_runs_ret. replace (depth b + 2 - 2) with (depth b) in Ha5 by lia.
    eexists. split; [|exact Ha5]. right. split; [done|]. by eexists.
  - wp_pure. wp_next ltac:(eapply eval_loop_ok; [|done|exact Ha2]; lia). intros e b3 Ha3.
    wp_next ltac:(by apply (wp_push_after RB_MSG_DONE [] 0); [exact Ha3|..]).
    intros z' b4 Ha4. wp_next ltac:(apply (wp_unprotect_after 2); [exact Ha4|lia]).
    intros [] b5 Ha5. apply wp_runs_ret. replace (depth b + 2 - 2) with (depth b) in Ha5 by lia.
    eexists. split; [|exact Ha5]. unfold error_tail, protocol_tail. destruct (e =? 0); [by left|].
    right. split; [done|]. by exists R_ERROR_MSG.
Qed.

Lemma eval_string_loop_ok parsed i count result err d b0 b :
  0 <= d -> err = 0 -> result <> None -> after [] (d + 2) b0 b ->
  wp (eval_string_loop parsed i count result err)
     (runs (fun r b' => match r with
       | Some x => x <> None /\ after [] (d + 2) b0 b'
       | None => after [] d b0 b'
       end)) b.
Proof.
  intros Hd. revert i result err b.
  induction count as [|count IH]; intros i result err b -> Hres Ha; cbn [eval_string_loop].
  { by apply wp_runs_ret. }
  wp_pure. wp_next ltac:(eapply wp_from; [exact Ha|apply eval_exec_ok]).
  intros [ok ed] b1 [Hed Ha1]. cbn [fst snd] in Hed.
  destruct (negb _) eqn:He.
  - wp_next ltac:(apply (wp_unprotect_after 2); [exact Ha1|lia]). intros [] b2 Ha2.
    apply wp_runs_ret. by replace (d + 2 - 2) with d in Ha2 by lia.
  - zbool. destruct Hed as [->|[-> Hed]]; [done|]. cbn in He. apply IH; [done| |done].
    intros E. by apply Hed in E.
Qed.

Lemma eval_for_string_ok code d b0 b :
  0 <= d -> after [] d b0 b ->
  wp (eval_for_string code) (runs (fun _ b' => after [] d b0 b')) b.
Proof.
  intros Hd Ha. unfold eval_for_string.
  wp_next ltac:(by apply parse_code_ok). intros [parsed ps] b1 Ha1.
  destruct (negb _).
  { wp_next ltac:(apply (wp_unprotect_after 2); [exact Ha1|lia]). intros [] b2 Ha2.
    apply wp_runs_ret. by replace (d + 2 - 2) with d in Ha2 by lia. }
  wp_pure. wp_next ltac:(by apply eval_string_loop_ok; [exact Hd|..|exact Ha1]).
  intros [x|] b2; [|intros Ha2; by apply wp_runs_ret]. intros [Hx Ha2].
  destruct x as [x|]; [|done]. apply wp_bind. eapply wp_lift; [done|]. cbn [on_done].
  wp_next ltac:(by apply wp_protect_after). intros y b3 [-> Ha3].
  wp_next ltac:(eapply wp_rcalls_after; [exact Ha3|intros; apply pp_asChar]). intros c b4 Ha4.
  wp_next ltac:(by apply wp_protect_after). intros y b5 [-> Ha5]. wp_pure.
  wp_next ltac:(apply (wp_unprotect_after 4); [exact Ha5|lia]). intros [] b6 Ha6.
  apply wp_runs_ret. by replace (d + 2 + 1 + 1 - 4) with d in Ha6 by lia.
Qed.

Lemma sandbox_loop_ok parsed i count d b0 b :
  0 <= d -> after [] d b0 b ->
  wp (sandbox_loop parsed i count) (runs (fun _ b' => after [] d b0 b')) b.
Proof.
  intros Hd. revert i b. induction count as [|count IH]; intros i b Ha; cbn [sandbox_loop].
  { by apply wp_runs_ret. }
  wp_pure. wp_next ltac:(by apply eval_visible_ok). intros [wv e] b1 Ha1. destruct (negb _).
  { eapply wp_mono; [apply (wp_unprotect_after 2); [exact Ha1|lia]|].
    intros [[]|st|c] b2 Ha2; try done. cbn [runs] in *. by replace d with (d + 2 - 2) by lia. }
  wp_next ltac:(apply autoprint_ok; [|exact Ha1]; lia). intros [] b2 Ha2.
  - wp_next ltac:(apply (wp_unprotect_after 2); [exact Ha2|lia]). intros [] b3 Ha3.
    replace (d + 2 - 2) with d in Ha3 by lia. by apply IH.
  - eapply wp_mono; [apply (wp_unprotect_after 3); [exact Ha2|lia]|].
    intros [[]|st|c] b3 Ha3; try done. cbn [runs] in *. by replace d with (d + 2 + 1 - 3) by lia.
Qed.

Lemma eval_in_sandbox_ok code b :
  ready b -> wp (eval_in_sandbox code) (runs (fun _ b' => after [] (depth b) b b')) b.
Proof.
  intros Hr. pose proof (depth_nonneg b). unfold eval_in_sandbox.
  wp_next ltac:(by apply wp_clear_interrupts). intros [] b1 [Ha1 _].
  wp_next ltac:(by apply parse_code_ok). intros [parsed ps] b2 Ha2.
  assert (Hend : forall b3, after [] (depth b + 2) b b3 ->
    wp (unprotect 2) (runs (fun _ b' => after [] (depth b) b b')) b3).
  { intros b3 Ha3. eapply wp_mono; [apply (wp_unprotect_after 2); [exact Ha3|lia]|].
    intros [[]|st|c] b4 Ha4; try done. cbn [runs] in *. by replace (depth b) with (depth b + 2 - 2) by lia. }
  destruct (negb _).
  - wp_pure. apply (wp_runs_bind _ _ (fun _ b3 => after [] (depth b + 2) b b3)); [|by intros []].
    destruct (0 <=? _); [|by apply wp_runs_ret]. unfold pipe_write. apply wp_modify.
    destruct Ha2 as [[Hb Ht Hc] ? ? ?]. split; try done. split; try done. by destruct Hb.
  - wp_pure. wp_next ltac:(eapply sandbox_loop_ok; [|exact Ha2]; lia). intros [] b3 Ha3.
    by apply Hend.
Qed.

Lemma define_string_ok name value b :
  ready b -> wp (define_string name value) (runs (fun _ b' => after [] (depth b) b b')) b.
Proof.
  intros Hr. pose proof (depth_nonneg b). pose proof (after_refl _ Hr) as Ha.
  unfold define_string.
  wp_next ltac:(eapply wp_rcalls_after; [exact Ha|intros; apply pp_install]). intros sym b1 Ha1.
  wp_next ltac:(eapply wp_rcalls_after; [exact Ha1|intros; apply pp_mkString]). intros s b2 Ha2.
  wp_next ltac:(by apply wp_protect_after). intros y b3 [-> Ha3].
  wp_next ltac:(eapply wp_rcalls_after; [exact Ha3|intros; apply pp_defineVar]). intros [] b4 Ha4.
  eapply wp_mono; [apply (wp_unprotect_after 1); [exact Ha4|lia]|].
  intros [[]|st|c] b5 Ha5; try done. cbn [runs] in *. by replace (depth b) with (depth b + 1 - 1) by lia.
Qed.

(** A completion request is answered by exactly one message. *)
Definition completions_tail (tail : list msg) : Prop :=
  exists m, tail = [m] /\ msg_kind m = RB_MSG_COMPLETIONS.

Lemma push_completions_ok result d b0 b :
  after [] d b0 b ->
  wp (push_completions result)
     (runs (fun _ b' => exists tail, completions_tail tail /\ after tail d b0 b')) b.
Proof.
  intros Ha. destruct result as [r|]; cbn [push_completions]; eapply wp_mono.
  - by apply (wp_push_str_after RB_MSG_COMPLETIONS); [exact Ha|].
  - intros [z|st|c] b1 Ha1; try done. eexists. split; [|exact Ha1]. by eexists.
  - by apply (wp_push_after RB_MSG_COMPLETIONS [] 0); [exact Ha|..].
  - intros [z|st|c] b1 Ha1; try done. eexists. split; [|exact Ha1]. by eexists.
Qed.

(** The two requests share their shape: bind a name, evaluate, answer. *)
Lemma completion_request_ok name value code b :
  ready b ->
  wp (define_string name value ;; r ← eval_for_string code; push_completions r ;; mret tt)
     (runs (fun _ b' => exists tail, completions_tail tail /\ after tail (depth b) b b')) b.
Proof.
  intros Hr. pose proof (depth_nonneg b). wp_next ltac:(by apply define_string_ok). intros [] b1 Ha1.
  wp_next ltac:(eapply eval_for_string_ok; [|exact Ha1]; lia). intros r b2 Ha2.
  wp_next ltac:(by apply push_completions_ok). intros z b3 Ha3. by apply wp_runs_ret.
Qed.

(** A chain of bare calls into R: a jump may still be on its way out. *)
Definition calls_post {A} b (o : outcome A) (b' : bridge) : Prop :=
  call_post cap b (depth b) (fun _ => True) o b'.

Lemma calls_bind {A B} (m : M A) (k : A -> M B) b0 b :
  calls_post b0 (Done tt) b ->
  wp m (calls_post b) b ->
  (forall x b', calls_post b0 (Done tt) b' -> wp (k x) (calls_post b0) b') ->
  wp (m ≫= k) (calls_post b0) b.
Proof.
  intros (Hb & He & _ & Hd) Hm Hk. apply wp_bind. eapply wp_mono; [exact Hm|].
  intros [x|st|c] b' (Hb' & He' & Ho); cbn [on_done].
  - apply Hk. split; [done|]. split; [by etrans|]. split; [done|]. destruct Ho as [_ ->]. exact Hd.
  - split; [done|]. by split; [etrans|].
  - split; [done|]. by split; [etrans|].
Qed.

Lemma ready_calls b b' (x : unit) : ready b -> calls_post b (Done x) b' -> ready b'.
Proof.
  intros [? ? ?] (Hb & He & _). split; [done|by rewrite (ev_toplevel _ _ He)|].
  by rewrite (ev_console _ _ He).
Qed.

Lemma rrun_calls {A} (f : W -> rcall SEXP W A) b :
  ready b -> rcall_ok pp_depth (depth b) (f (rw (b_r b))) -> wp (rrun f) (calls_post b) b.
Proof. intros. apply rrun_ok; [done..|]. apply rcall_returns_true. Qed.

Lemma calls_post_refl {A} (a : A) b : ready b -> calls_post b (Done a) b.
Proof. intros Hr. split; [apply Hr|]. by split. Qed.

Lemma events_inner_ok b : ready b -> wp (process_events_inner tt) (calls_post b) b.
Proof.
  intros Hr. unfold process_events_inner. wp_pure.
  apply (calls_bind _ _ b b (calls_post_refl tt b Hr)).
  { case_match; [apply rrun_calls; [done|apply processEvents_ok]|by apply wp_ret, calls_post_refl]. }
  intros [] b1 Hc1. pose proof (ready_calls _ _ _ Hr Hc1) as Hr1. wp_pure.
  destruct (R_checkActivity_fn (b_r b1)); [|by apply wp_ret].
  apply (calls_bind _ _ b b1 Hc1); [apply rrun_calls; [done|apply checkActivity_ok]|].
  intros [] b2 Hc2; [|by apply wp_ret]. pose proof (ready_calls _ _ _ Hr Hc2) as Hr2.
  destruct Hc2 as (Hb2 & He2 & _ & Hd2).
  eapply wp_mono; [apply rrun_calls; [done|apply runHandlers_ok]|].
  intros o b3 (Hb3 & He3 & Ho). split; [done|]. split; [by etrans|]. destruct o; [|done..].
  split; [done|]. destruct Ho as [_ ->]. exact Hd2.
Qed.

Lemma process_events_ok b :
  ready b -> wp process_events (runs (fun _ b' => after [] (depth b) b b')) b.
Proof.
  intros Hr. unfold process_events. wp_pure. rewrite (rd_toplevel _ Hr).
  apply wp_bind, wp_toplevel; [apply Hr|]. eapply wp_mono; [by apply events_inner_ok|].
  intros [x|st|c] b' (Hb & He & Ho); cbn [on_done].
  - apply wp_runs_ret. apply after_evolves; [done..|apply Ho].
  - apply wp_runs_ret. eapply after_set_rw; [by apply after_evolves|]. apply pp_unwind.
  - exact Ho.
Qed.

End EvalSpec.
