(* ===== verification/EvalProps.v ===== *)
(** * Correctness of evaluation

    The message protocol of a submitted evaluation, what an error leaves
    undone, stale interrupts, the answer to a completion request. *)

From S2P Require Import Prelude CString RingBuffer RingSpec RingProps CrashLog RApi SampleR.
From S2P Require Import Bridge BridgeSpec BridgeProps Eval EvalSpec.

Section Props.
Context `{RApiOk, HeapOk}.

(** What an evaluation that came to its end left: the messages [tail] after
    some output, the protection stack where it was, the ring's stream intact. *)
Definition ends_with (cap : Z) (tail : list msg) (b b' : bridge) : Prop :=
  (exists outs, sent (b_out b') = sent (b_out b) ++ outs ++ tail /\ Forall is_output outs) /\
  pp_depth (rw (b_r b')) = pp_depth (rw (b_r b)) /\ binv cap b'.

Lemma after_ends cap tail b b' : after cap tail (depth b) b b' -> ends_with cap tail b b'.
Proof. intros [[Hb _ _] Ho Hd _]. done. Qed.

(** C20. Every submitted evaluation follows the protocol the frontend reads:
    whatever the code does (parse errors, R errors, a print method that fails,
    readline(), images) and whatever the frontend does meanwhile, no longjmp
    escapes and no fault occurs; the messages are output followed by exactly one
    DONE, preceded by exactly one R_ERROR precisely when -1 is returned; the
    protection stack is left as it was; an R_Suicide ends the process with 1. *)
Theorem eval_code_protocol cap code b :
  ready cap b ->
  match eval_code code b with
  | Fault f => f = Blocked
  | Ret (b', Done rc) => exists tail, protocol_tail rc tail /\ ends_with cap tail b b'
  | Ret (b', Jumped _) => False
  | Ret (b', Exited c) => c = 1
  end.
Proof.
  intros Hr. pose proof (eval_code_ok cap code b Hr) as Hw. unfold wpF in Hw.
  destruct (eval_code code b) as [[b' [rc|st|c]]|f]; try done.
  destruct Hw as (tail & Ht & Ha). exists tail. split; [done|by apply after_ends].
Qed.

(** ** Laws of the monad, state by state *)

Lemma M_bind_assoc {A B C} (m : M A) (f : A -> M B) (g : B -> M C) b :
  ((m ≫= f) ≫= g) b = (m ≫= (fun x => f x ≫= g)) b.
Proof. unfold mbind, M_bind. by destruct (m b) as [[b' [a|st|c]]|e]. Qed.

Lemma M_bind_ext {A B} (m : M A) (f g : A -> M B) b :
  (forall a b', f a b' = g a b') -> (m ≫= f) b = (m ≫= g) b.
Proof. intros Hfg. unfold mbind, M_bind. by destruct (m b) as [[b' [a|st|c]]|e]. Qed.


(** C22. An interrupt requested before an evaluation starts does not touch it:
    eval_code behaves as if the request had never been made. *)
Theorem stale_interrupt_cleared code v b :
  R_interrupts_pending (b_r b) = Some v ->
  eval_code code b = eval_code code (set_r b (set_interrupts (b_r b) (Some 0))) /\
  eval_code code (fst (rffi_interrupt b)) = eval_code code b.
Proof.
  intros Hv. assert (Hc : forall v', clear_interrupts (set_r b (set_interrupts (b_r b) (Some v'))) =
    clear_interrupts b).
  { intros v'. unfold clear_interrupts, mbind, M_bind, gets, lift, modify. rewrite Hv. cbn.
    done. }
  assert (He : forall v', eval_code code (set_r b (set_interrupts (b_r b) (Some v'))) = eval_code code b).
  { intros v'. unfold eval_code. unfold mbind at 1, M_bind at 1. rewrite Hc. done. }
  split; [by rewrite He|]. unfold rffi_interrupt. rewrite Hv. apply He.
Qed.

(** C23. A completion request (for a line or for the columns of an object) is
    answered by exactly one COMPLETIONS message, whether R computes the
    candidates, fails to parse or raises an error, and leaves the protection
    stack as it was. *)
Theorem completion_answered cap line pos b :
  ready cap b ->
  (forall m, m = run_completions line pos \/ m = run_column_completions line ->
   match m b with
   | Fault f => f = Blocked
   | Ret (b', Done _) => exists tail, completions_tail tail /\ ends_with cap tail b b'
   | Ret (b', Jumped _) => False
   | Ret (b', Exited c) => c = 1
   end).
Proof.
  intros Hr m Hm.
  assert (Hw : wp m (runs (fun _ b' => exists tail, completions_tail tail /\
                      after cap tail (depth b) b b')) b).
  { destruct Hm as [-> | ->]; by apply completion_request_ok. }
  unfold wpF in Hw. destruct (m b) as [[b' [[]|st|c]]|f]; try done.
  destruct Hw as (tail & Ht & Ha). exists tail. split; [done|by apply after_ends].
Qed.

(** C24. The evaluator of the sandboxed child and the string evaluator send no
    protocol message: console output apart, nothing reaches the ring, and the
    protection stack is balanced on every path. *)
Theorem quiet_evaluators cap code b :
  ready cap b ->
  match eval_in_sandbox code b with
  | Fault f => f = Blocked
  | Ret (b', Done _) => ends_with cap [] b b'
  | Ret (b', Jumped _) => False
  | Ret (b', Exited c) => c = 1
  end /\
  match eval_for_string code b with
  | Fault f => f = Blocked
  | Ret (b', Done _) => ends_with cap [] b b'
  | Ret (b', Jumped _) => False
  | Ret (b', Exited c) => c = 1
  end.
Proof.
  intros Hr. split.
  - pose proof (eval_in_sandbox_ok cap code b Hr) as Hw. unfold wpF in Hw.
    destruct (eval_in_sandbox code b) as [[b' [[]|st|c]]|f]; try done. by apply after_ends.
  - pose proof (eval_for_string_ok cap code (depth b) b b (depth_nonneg b) (after_refl cap b Hr)) as Hw.
    unfold wpF in Hw. destruct (eval_for_string code b) as [[b' [x|st|c]]|f]; try done.
    by apply after_ends.
Qed.


End Props.

(** ** Witnesses: the sample R under a busy frontend *)

Lemma sample_ready console s :
  console <> CbInitCapture -> Forall (Forall (frontend_op_ok 512)) s ->
  ready 512 (sample_bridge console s).
Proof. intros Hc Hs. split; [by apply sample_bridge_inv|done|done]. Qed.

Definition lines (ls : list bytes) : bytes := concat (map (fun l => l ++ [nl]) ls).

(** Prints a value, reads a line, fails: the last line is never evaluated. *)
Definition sample_code : bytes := lines [lit "hello"; lit "ask"; lit "stop"; lit "never"].

Definition sample_run : res (bridge * outcome Z) :=
  eval_code sample_code (sample_bridge CbWriteConsoleEx busy_schedule).

(** The kinds sent, [None] for a run that does not come to its end. *)
Definition sent_kinds {A} (r : res (bridge * outcome A)) : option (list Z) :=
  match r with
  | Ret (b, Done _) => Some (map msg_kind (sent (b_out b)))
  | _ => None
  end.

Example sample_run_kinds :
  sent_kinds sample_run =
  Some [RB_MSG_STDOUT; RB_MSG_READLINE; RB_MSG_STDOUT; RB_MSG_STDERR; RB_MSG_R_ERROR; RB_MSG_DONE].
Proof. vm_compute. reflexivity. Qed.

Lemma eval_code_protocol_witness :
  sent_kinds sample_run =
    Some [RB_MSG_STDOUT; RB_MSG_READLINE; RB_MSG_STDOUT; RB_MSG_STDERR; RB_MSG_R_ERROR; RB_MSG_DONE] /\
  match sample_run with
  | Fault f => f = Blocked
  | Ret (b', Done rc) => exists tail, protocol_tail rc tail /\
      ends_with 512 tail (sample_bridge CbWriteConsoleEx busy_schedule) b'
  | Ret (b', Jumped _) => False
  | Ret (b', Exited c) => c = 1
  end.
Proof.
  split; [vm_compute; reflexivity|].
  apply (eval_code_protocol (H := sample_R) 512 sample_code (sample_bridge CbWriteConsoleEx busy_schedule)).
  apply sample_ready; [done|apply busy_schedule_ok].
Defined.

Lemma stale_interrupt_cleared_witness :
  eval_code (lines [lit "spin"]) (sample_bridge CbWriteConsoleEx []) =
  eval_code (lines [lit "spin"]) (sample_bridge CbWriteConsoleEx []) /\
  eval_code (lines [lit "spin"]) (fst (rffi_interrupt (sample_bridge CbWriteConsoleEx []))) =
  eval_code (lines [lit "spin"]) (sample_bridge CbWriteConsoleEx []).
Proof.
  apply (stale_interrupt_cleared (H := sample_R) (lines [lit "spin"]) 0
           (sample_bridge CbWriteConsoleEx [])).
  reflexivity.
Defined.

Lemma completion_answered_witness :
  match run_completions (lit "pri") 3 (sample_bridge CbWriteConsoleEx busy_schedule) with
  | Fault f => f = Blocked
  | Ret (b', Done _) => exists tail, completions_tail tail /\
      ends_with 512 tail (sample_bridge CbWriteConsoleEx busy_schedule) b'
  | Ret (b', Jumped _) => False
  | Ret (b', Exited c) => c = 1
  end.
Proof.
  apply (completion_answered (H := sample_R) 512 (lit "pri") 3
           (sample_bridge CbWriteConsoleEx busy_schedule)); [|by left].
  apply sample_ready; [done|apply busy_schedule_ok].
Defined.

Lemma quiet_evaluators_witness :
  match eval_in_sandbox sample_code (sample_bridge CbRunrCapture []) with
  | Fault f => f = Blocked
  | Ret (b', Done _) => ends_with 512 [] (sample_bridge CbRunrCapture []) b'
  | Ret (b', Jumped _) => False
  | Ret (b', Exited c) => c = 1
  end /\
  match eval_for_string sample_code (sample_bridge CbRunrCapture []) with
  | Fault f => f = Blocked
  | Ret (b', Done _) => ends_with 512 [] (sample_bridge CbRunrCapture []) b'
  | Ret (b', Jumped _) => False
  | Ret (b', Exited c) => c = 1
  end.
Proof.
  apply (quiet_evaluators (H := sample_R) 512 sample_code (sample_bridge CbRunrCapture [])).
  apply sample_ready; [done|constructor].
Defined.

(** An R whose lexer raises an error on the second expression of any text. *)
Definition jumpy_R : RApi := {|
  SEXP := sx; W := sw; R_NilValue := SNil; R_GlobalEnv := SGlobal; R_UnboundValue := SUnbound;
  SEXP_eqb := sx_eqb; pp_depth := @pp_depth sample_R; Rf_protect := @Rf_protect sample_R;
  Rf_unprotect := @Rf_unprotect sample_R; Rf_mkString := @Rf_mkString sample_R;
  Rf_install := @Rf_install sample_R; Rf_lang1 := @Rf_lang1 sample_R;
  Rf_lang2 := @Rf_lang2 sample_R; Rf_asChar := @Rf_asChar sample_R; R_CHAR := @R_CHAR sample_R;
  VECTOR_ELT := @VECTOR_ELT sample_R; Rf_length := @Rf_length sample_R;
  Rf_asLogical := @Rf_asLogical sample_R; Rf_defineVar := @Rf_defineVar sample_R;
  Rf_findVar := @Rf_findVar sample_R;
  R_ParseVector t n src w := RJump {| sw_pp := 9; sw_vars := [] |} (Some PARSE_OK);
  R_tryEval := @R_tryEval sample_R; Rf_PrintValue := @Rf_PrintValue sample_R;
  R_ProcessEvents := @R_ProcessEvents sample_R; R_checkActivity := @R_checkActivity sample_R;
  R_runHandlers := @R_runHandlers sample_R; Rf_initialize_R := @Rf_initialize_R sample_R;
  setup_Rmainloop := @setup_Rmainloop sample_R; R_unwind := @R_unwind sample_R;
|}.

Lemma jumpy_R_ok : @RApiOk jumpy_R.
Proof. destruct sample_R_ok. by split. Qed.

Definition jumpy_bridge : @bridge jumpy_R :=
  {| b_out := {| g_rb := sample_ring; sent := []; received := [] |};
     b_gates := {| passthrough_gate := 0; readline_gate := 0; readline_input_buf := None;
                   readline_mutex := MutexFree |};
     b_init := empty_capture;
     b_pipe := {| g_runr_pipe_fd := -1; pipe_fd := empty_fd |};
     b_r := @Build_rglobals jumpy_R CbWriteConsoleEx (Some 0) true true true
              (SSym (lit "withVisible")) (SSym (lit "raoui_after_top_level"))
              {| sw_pp := 0; sw_vars := [] |};
     sched := [] |}.

Lemma jumpy_ready : ready (H := jumpy_R) 512 jumpy_bridge.
Proof.
  split; [|done|done]. split; try done. exists (spec_init 512).
  split; [exact sample_ring_represents|]. split; [done|constructor].
Qed.

