(* ===== verification/Seatbelt.v ===== *)
(** * The macOS profile builder (c_ffi/load_r.c, lines 733-839)

    The growable buffer that assembles the SBPL text, every store checked
    against the block, and [build_runr_profile]. *)

From S2P Require Import Prelude CString.

Section Seatbelt.
Context `{Heap}.

(** ** The string buffer *)

Record sbuf := {
  sb_buf : option bytes;
  sb_len : Z;
  sb_cap : Z;
}.

(** [s->buf[i] = c] *)
Definition store_byte (p : option bytes) (i : Z) (c : byte) : res (option bytes) :=
  b ← deref p; b' ← memcpy b i [c] 0 1; Ret (Some b').

Definition sb_reserve (s : sbuf) (extra : Z) : sbuf :=
  if sb_cap s <? u64 (sb_len s + extra + 1) then
    let cap := u64 (u64 (sb_len s + extra + 1) * 2) in
    {| sb_buf := realloc (sb_buf s) cap; sb_len := sb_len s; sb_cap := cap |}
  else s.

Definition sb_puts (s : sbuf) (str : bytes) : res sbuf :=
  let l := zlen str in
  let s := sb_reserve s l in
  b ← deref (sb_buf s);
  b ← memcpy b (sb_len s) str 0 l;
  let len := u64 (sb_len s + l) in
  p ← store_byte (Some b) len Byte.x00;
  Ret {| sb_buf := p; sb_len := len; sb_cap := sb_cap s |}.

Definition needs_escape (c : byte) : bool :=
  bool_decide (c = Byte.x22) || bool_decide (c = Byte.x5c).

(** The loop over the characters of the path. *)
Fixpoint put_escaped (p : option bytes) (len : Z) (path : bytes) : res (option bytes * Z) :=
  match path with
  | [] => Ret (p, len)
  | c :: path' =>
      '(p, len) ← (if needs_escape c then
                     p' ← store_byte p len Byte.x5c; Ret (p', u64 (len + 1))
                   else Ret (p, len));
      p ← store_byte p len c;
      put_escaped p (u64 (len + 1)) path'
  end.

(** The string literals of [sb_put_subpath]. *)
Definition SUBPATH_OPEN : bytes := lit "  (subpath " ++ [Byte.x22].
Definition SUBPATH_CLOSE : bytes := Byte.x22 :: lit ")" ++ [Byte.x0a].

Definition sb_put_subpath (s : sbuf) (path : bytes) : res sbuf :=
  s ← sb_puts s SUBPATH_OPEN;
  let s := sb_reserve s (u64 (2 * zlen path)) in
  '(p, len) ← put_escaped (sb_buf s) (sb_len s) path;
  p ← store_byte p len Byte.x00;
  sb_puts {| sb_buf := p; sb_len := len; sb_cap := sb_cap s |} SUBPATH_CLOSE.

Fixpoint sb_put_subpaths (s : sbuf) (paths : list bytes) : res sbuf :=
  match paths with
  | [] => Ret s
  | p :: ps => s' ← sb_put_subpath s p; sb_put_subpaths s' ps
  end.

(** ** The profile *)

Definition PROFILE_ROOTS : list bytes :=
  [lit "/usr"; lit "/System"; lit "/Library"; lit "/opt/homebrew";
   lit "/private/var"; lit "/etc"; lit "/private/etc"; lit "/dev"].

Definition PROFILE_SECRETS : list bytes :=
  [lit "/.ssh"; lit "/.aws"; lit "/.gnupg"; lit "/.config"; lit "/.netrc";
   lit "/.Renviron"; lit "/.Rhistory"; lit "/.bash_history"; lit "/.zsh_history";
   lit "/.docker"; lit "/.kube"; lit "/Library/Keychains"].

(** A string literal of the source ending in a newline. *)
Definition line (s : bytes) : bytes := s ++ [Byte.x0a].

Definition quoted (s : bytes) : bytes := Byte.x22 :: s ++ [Byte.x22].

Definition PROFILE_HEAD : bytes := line (lit "(version 1)") ++ line (lit "(allow default)").
Definition PROFILE_WRITES : bytes :=
  line (lit "(deny file-write*)") ++
  lit "(allow file-write* (subpath " ++ quoted (lit "/private/tmp/raoui-sandbox") ++ lit ") " ++
  lit "(literal " ++ quoted (lit "/dev/null") ++ line (lit "))").
Definition PROFILE_NET_EXEC : bytes := line (lit "(deny network*)") ++ line (lit "(deny process-exec*)").
Definition PROFILE_READS : bytes := line (lit "(deny file-read*)") ++ line (lit "(allow file-read*").
Definition PROFILE_CLOSE : bytes := line (lit ")").
Definition PROFILE_SECRET_OPEN : bytes := line (lit "(deny file-read*").

(** The paths handed over, one per line; [strdup] may fail. *)
Definition dyn_paths (dyn_in : option bytes) : list bytes :=
  match dyn_in with
  | None => []
  | Some s => match strdup s with None => [] | Some d => strtok Byte.x0a d end
  end.

(** The trailing deny (lines 821-835); [home] is what [getenv] answers for HOME. *)
Definition put_secrets (s : sbuf) (home : option bytes) : res sbuf :=
  match home with
  | Some (c :: h) =>
      s ← sb_puts s PROFILE_SECRET_OPEN;
      s ← sb_put_subpaths s (map (fun t => snprintf_store 4096 ((c :: h) ++ t)) PROFILE_SECRETS);
      sb_puts s PROFILE_CLOSE
  | _ => Ret s
  end.

Definition build_runr_profile (dyn_in home : option bytes) : res (option bytes) :=
  p ← store_byte (malloc 4096) 0 Byte.x00;
  s ← sb_puts {| sb_buf := p; sb_len := 0; sb_cap := 4096 |} PROFILE_HEAD;
  s ← sb_puts s PROFILE_WRITES;
  s ← sb_puts s PROFILE_NET_EXEC;
  s ← sb_puts s PROFILE_READS;
  s ← sb_put_subpaths s PROFILE_ROOTS;
  s ← sb_put_subpaths s (dyn_paths dyn_in);
  s ← sb_puts s PROFILE_CLOSE;
  s ← put_secrets s home;
  Ret (sb_buf s).

(** ** The buffer holds the text appended so far *)

Definition escape (path : bytes) : bytes :=
  flat_map (fun c => if needs_escape c then [Byte.x5c; c] else [c]) path.

Record sb_holds (s : sbuf) (text : bytes) : Prop := {
  sh_len : sb_len s = zlen text;
  sh_buf : exists b rest, sb_buf s = Some b /\ b = text ++ Byte.x00 :: rest /\ zlen b = sb_cap s;
  sh_cap : sb_cap s <= USER_SPACE;
}.

(** Blocks of up to [n] bytes are granted. *)
Definition grants (n : Z) : Prop := forall k, 0 <= k <= n -> is_Some (malloc k).

Context `{!HeapOk}.

Lemma sb_room s text : sb_holds s text -> zlen text < sb_cap s.
Proof.
  intros [_ (b & rest & _ & -> & Hc) _]. rewrite <- Hc. zlens. lia.
Qed.

Lemma sb_reserve_ok s text extra :
  sb_holds s text -> 0 <= extra <= 2 ^ 50 -> grants (2 * (zlen text + extra + 1)) ->
  sb_holds (sb_reserve s extra) text /\ zlen text + extra + 1 <= sb_cap (sb_reserve s extra).
Proof.
  intros Hs He Hg. pose proof (sb_room s text Hs). destruct Hs as [Hl (b & rest & Hb & Eb & Hz) Hc].
  unfold sb_reserve. unfold USER_SPACE in Hc. zlens.
  rewrite Hl, !(u64_small (zlen text + extra + 1)), u64_small by lia. zcase.
  - destruct (Hg ((zlen text + extra + 1) * 2)) as [x Hx]; [lia|].
    destruct (realloc (sb_buf s) ((zlen text + extra + 1) * 2)) as [q|] eqn:Eq.
    + rewrite Hb in Eq. apply realloc_ok in Eq as (Hq & Hu & [k Hk]); [|cbn; lia].
      cbn in Hk. split; [|cbn; lia]. split; cbn; [done| |done].
      exists q, (rest ++ k). split; [done|]. split; [|done].
      by rewrite Hk, Eb, <- app_assoc.
    + rewrite Hb in Eq. unfold realloc in Eq. by rewrite Hx in Eq.
  - split; [|lia]. split; [done| |done]. by exists b, rest.
Qed.

Lemma store_at p q i c :
  i = zlen p -> 1 <= zlen q -> store_byte (Some (p ++ q)) i c = Ret (Some (p ++ c :: drop 1 q)).
Proof. intros -> Hq. unfold store_byte. cbn. by rewrite memcpy_at. Qed.

Lemma sb_puts_ok s text str :
  sb_holds s text -> zlen str <= 2 ^ 50 -> grants (2 * (zlen text + zlen str + 1)) ->
  exists s', sb_puts s str = Ret s' /\ sb_holds s' (text ++ str).
Proof.
  intros Hs He Hg. zlens. destruct (sb_reserve_ok s text (zlen str) Hs) as [Hr Hroom]; [lia|done|].
  unfold sb_puts. set (s1 := sb_reserve s (zlen str)) in *.
  destruct Hr as [Hl (b & rest & Hb & -> & Hz) Hc]. rewrite Hb, Hl. cbn [deref mbind res_mbind].
  unfold USER_SPACE in Hc. zlens.
  rewrite memcpy_at by (zlens; lia). cbn [mbind res_mbind]. rewrite take_ge by (unfold zlen; lia).
  rewrite u64_small by lia. rewrite app_assoc.
  assert (Hq : zlen (drop (Z.to_nat (zlen str)) (Byte.x00 :: rest)) = 1 + zlen rest - zlen str).
  { rewrite zlen_drop; zlens; lia. }
  rewrite store_at; [|zlens; lia|lia]. cbn [mbind res_mbind].
  eexists. split; [done|]. split; cbn [sb_len sb_buf sb_cap]; [zlens; lia| |done].
  eexists _, _. split; [done|]. split; [done|]. rewrite !zlen_app, zlen_cons, (zlen_drop 1) by lia.
  rewrite Hq. lia.
Qed.

Lemma zlen_escape path : zlen path <= zlen (escape path) <= 2 * zlen path.
Proof.
  induction path as [|c path IH]; [done|]. unfold escape in *. cbn [flat_map].
  destruct (needs_escape c); rewrite zlen_app, !zlen_cons, zlen_nil; lia.
Qed.

Lemma put_escaped_ok path done_ rest :
  zlen (escape path) <= zlen rest -> zlen done_ + zlen rest <= USER_SPACE ->
  put_escaped (Some (done_ ++ rest)) (zlen done_) path =
  Ret (Some (done_ ++ escape path ++ drop (length (escape path)) rest),
       zlen (done_ ++ escape path)).
Proof.
  unfold USER_SPACE. revert done_ rest. induction path as [|c path IH]; intros d rest Hr Hu.
  { cbn. by rewrite app_nil_r. }
  pose proof (zlen_escape path). pose proof (zlen_nonneg path). pose proof (zlen_nonneg d).
  cbn [put_escaped]. unfold escape in *. cbn [flat_map] in *. set (tl := flat_map _ path) in *.
  assert (Hgo : forall d' rest', zlen tl + 1 <= zlen rest' -> zlen d' + zlen rest' <= 2 ^ 48 ->
    (p ← store_byte (Some (d' ++ rest')) (zlen d') c; put_escaped p (u64 (zlen d' + 1)) path) =
    Ret (Some ((d' ++ [c]) ++ tl ++ drop (length tl) (drop 1 rest')), zlen ((d' ++ [c]) ++ tl))).
  { intros d' rest' Hr' Hu'. pose proof (zlen_nonneg d'). rewrite store_at by lia. cbn [mbind res_mbind].
    rewrite u64_small by lia. replace (zlen d' + 1) with (zlen (d' ++ [c])) by (zlens; lia).
    change (c :: drop 1 rest') with ([c] ++ drop 1 rest'). rewrite app_assoc. apply IH.
    - rewrite (zlen_drop 1) by lia. lia.
    - rewrite (zlen_drop 1) by lia. zlens. lia. }
  destruct (needs_escape c); cbn [app] in *.
  - rewrite !zlen_cons in Hr. rewrite store_at by lia. cbn [mbind res_mbind].
    rewrite (u64_small (zlen d + 1)) by lia. replace (zlen d + 1) with (zlen (d ++ [Byte.x5c])) by (zlens; lia).
    change (Byte.x5c :: drop 1 rest) with ([Byte.x5c] ++ drop 1 rest). rewrite app_assoc.
    rewrite Hgo; [|rewrite (zlen_drop 1) by lia; lia|rewrite (zlen_drop 1) by lia; zlens; lia].
    rewrite !drop_drop, <- !app_assoc. cbn [app length]. done.
  - rewrite !zlen_cons in Hr. cbn [mbind res_mbind]. rewrite Hgo by lia.
    rewrite !drop_drop, <- !app_assoc. cbn [app length]. done.
Qed.

Definition subpath_text (path : bytes) : bytes := SUBPATH_OPEN ++ escape path ++ SUBPATH_CLOSE.

Lemma sb_put_subpath_ok s text path :
  sb_holds s text -> zlen path <= 2 ^ 48 ->
  grants (2 * (zlen text + 2 * zlen path + 30)) ->
  exists s', sb_put_subpath s path = Ret s' /\ sb_holds s' (text ++ subpath_text path).
Proof.
  intros Hs Hp Hg. pose proof (zlen_escape path) as Hesc. zlens.
  assert (Hopen : zlen SUBPATH_OPEN = 12) by reflexivity.
  assert (Hclose : zlen SUBPATH_CLOSE = 3) by reflexivity.
  destruct (sb_puts_ok s text SUBPATH_OPEN Hs) as (s1 & E1 & Hs1); [lia|intros k Hk; apply Hg; lia|].
  unfold sb_put_subpath. rewrite E1. cbn [mbind res_mbind]. rewrite u64_small by lia.
  destruct (sb_reserve_ok s1 _ (2 * zlen path) Hs1) as [Hs2 Hroom]; [lia| |].
  { intros k Hk. apply Hg. zlens. lia. }
  set (s2 := sb_reserve s1 (2 * zlen path)) in *.
  destruct Hs2 as [Hl (b & rest & Hb & -> & Hz) Hc]. rewrite Hb, Hl.
  rewrite put_escaped_ok by (zlens; lia). cbn [mbind res_mbind].
  set (t := (text ++ SUBPATH_OPEN)). rewrite app_assoc.
  assert (Hq : zlen (drop (length (escape path)) (Byte.x00 :: rest)) = 1 + zlen rest - zlen (escape path)).
  { replace (length (escape path)) with (Z.to_nat (zlen (escape path))) by (unfold zlen; lia).
    rewrite zlen_drop by (zlens; lia). zlens. lia. }
  rewrite store_at; [|done|zlens; lia]. cbn [mbind res_mbind].
  destruct (sb_puts_ok {| sb_buf := Some ((t ++ escape path) ++ Byte.x00 ::
      drop 1 (drop (length (escape path)) (Byte.x00 :: rest)));
      sb_len := zlen (t ++ escape path); sb_cap := sb_cap s2 |} (t ++ escape path) SUBPATH_CLOSE)
    as (s3 & E3 & Hs3); [|lia| |].
  - split; cbn; [done| |done]. eexists _, _. split; [done|]. split; [done|].
    rewrite !zlen_app, zlen_cons, (zlen_drop 1) by (zlens; lia). rewrite Hq. unfold t. zlens. lia.
  - intros k Hk. apply Hg. unfold t in Hk. zlens. lia.
  - exists s3. split; [done|]. unfold subpath_text, t in *. by rewrite <- !app_assoc in *.
Qed.

End Seatbelt.
