(* ===== verification/SeatbeltProps.v ===== *)
(** * Correctness of the macOS profile

    The text [build_runr_profile] assembles is read back by a reader of the
    subset of SBPL it uses, and the rules so read are judged under the
    last-match-wins semantics the source relies on. *)

From S2P Require Import Prelude CString RingProps Seatbelt.

(** ** The text of the profile *)

Section Text.
Context `{Heap}.

Definition subpaths_text (paths : list bytes) : bytes := concat (map subpath_text paths).

Definition secret_paths (home : bytes) : list bytes :=
  map (fun t => snprintf_store 4096 (home ++ t)) PROFILE_SECRETS.

Definition secrets_text (home : option bytes) : bytes :=
  match home with
  | Some (c :: h) => PROFILE_SECRET_OPEN ++ subpaths_text (secret_paths (c :: h)) ++ PROFILE_CLOSE
  | _ => []
  end.

Definition profile_text (dyn home : option bytes) : bytes :=
  (((((((PROFILE_HEAD ++ PROFILE_WRITES) ++ PROFILE_NET_EXEC) ++ PROFILE_READS)
    ++ subpaths_text PROFILE_ROOTS) ++ subpaths_text (dyn_paths dyn)) ++ PROFILE_CLOSE)
    ++ secrets_text home).

Context `{!HeapOk}.

Lemma grants_mono n k : grants n -> k <= n -> grants k.
Proof. intros Hg Hk m Hm. apply Hg. lia. Qed.

Lemma grants_bound n : 0 <= n -> grants n -> n <= USER_SPACE.
Proof. intros Hn Hg. destruct (Hg n) as [b Hb]; [lia|]. by apply heap_ok in Hb as [_ ?]. Qed.

Variable total : Z.
Hypothesis Hgrants : grants (6 * total + 60).

Lemma total_bound : 0 <= total -> 6 * total + 60 <= 2 ^ 48.
Proof. intros. apply grants_bound; [lia|done]. Qed.

Lemma puts_within s text str :
  sb_holds s text -> zlen (text ++ str) <= total ->
  exists s', sb_puts s str = Ret s' /\ sb_holds s' (text ++ str).
Proof.
  intros Hs Ht. zlens. pose proof total_bound. apply sb_puts_ok; [done|lia|].
  apply (grants_mono _ _ Hgrants). lia.
Qed.

Lemma subpaths_within s text paths :
  sb_holds s text -> zlen (text ++ subpaths_text paths) <= total ->
  exists s', sb_put_subpaths s paths = Ret s' /\ sb_holds s' (text ++ subpaths_text paths).
Proof.
  revert s text. induction paths as [|p ps IH]; intros s text Hs Ht.
  { exists s. unfold subpaths_text. cbn. by rewrite app_nil_r. }
  assert (Et : text ++ subpaths_text (p :: ps) = (text ++ subpath_text p) ++ subpaths_text ps).
  { unfold subpaths_text. cbn [map concat]. by rewrite app_assoc. }
  rewrite Et in *. pose proof total_bound.
  assert (Hp : zlen text + zlen p <= total).
  { pose proof (zlen_escape p). unfold subpath_text in Ht. zlens. lia. }
  pose proof (zlen_nonneg text). pose proof (zlen_nonneg p).
  destruct (sb_put_subpath_ok s text p Hs) as (s1 & E1 & Hs1); [lia| |].
  { apply (grants_mono _ _ Hgrants). lia. }
  destruct (IH s1 _ Hs1 Ht) as (s2 & E2 & Hs2). exists s2. cbn. by rewrite E1.
Qed.

Lemma build_runr_profile_ok dyn home :
  zlen (profile_text dyn home) <= total -> 4036 <= 6 * total ->
  exists p rest, build_runr_profile dyn home = Ret (Some p) /\
    p = profile_text dyn home ++ Byte.x00 :: rest.
Proof.
  intros Ht Hmin. destruct (Hgrants 4096) as [b0 Eb]; [lia|].
  pose proof (heap_ok _ _ Eb) as [Hz _]. unfold build_runr_profile. rewrite Eb.
  destruct b0 as [|x b0]; [done|].
  change (store_byte (Some (x :: b0)) 0 Byte.x00) with (store_byte (Some ([] ++ x :: b0)) 0 Byte.x00).
  rewrite store_at by (zlens; done || lia). cbn [mbind res_mbind app drop].
  set (s0 := {| sb_buf := _; sb_len := 0; sb_cap := 4096 |}).
  assert (Hs0 : sb_holds s0 []).
  { split; [done| |done]. exists (Byte.x00 :: b0), b0. rewrite !zlen_cons in *. done. }
  clearbody s0. unfold profile_text in *.
  pose proof (zlen_nonneg (secrets_text home)). pose proof (zlen_nonneg PROFILE_CLOSE).
  pose proof (zlen_nonneg (subpaths_text (dyn_paths dyn))).
  pose proof (zlen_nonneg (subpaths_text PROFILE_ROOTS)). pose proof (zlen_nonneg PROFILE_READS).
  pose proof (zlen_nonneg PROFILE_NET_EXEC). pose proof (zlen_nonneg PROFILE_WRITES).
  assert (Hsum := Ht). rewrite !zlen_app in Hsum.
  destruct (puts_within s0 [] PROFILE_HEAD Hs0) as (s1 & -> & Hs1); [cbn [app]; lia|].
  cbn [mbind res_mbind app] in *.
  destruct (puts_within s1 _ PROFILE_WRITES Hs1) as (s2 & -> & Hs2); [rewrite !zlen_app; lia|].
  cbn [mbind res_mbind].
  destruct (puts_within s2 _ PROFILE_NET_EXEC Hs2) as (s3 & -> & Hs3); [rewrite !zlen_app; lia|].
  cbn [mbind res_mbind].
  destruct (puts_within s3 _ PROFILE_READS Hs3) as (s4 & -> & Hs4); [rewrite !zlen_app; lia|].
  cbn [mbind res_mbind].
  destruct (subpaths_within s4 _ PROFILE_ROOTS Hs4) as (s5 & -> & Hs5); [rewrite !zlen_app; lia|].
  cbn [mbind res_mbind].
  destruct (subpaths_within s5 _ (dyn_paths dyn) Hs5) as (s6 & -> & Hs6); [rewrite !zlen_app; lia|].
  cbn [mbind res_mbind].
  destruct (puts_within s6 _ PROFILE_CLOSE Hs6) as (s7 & -> & Hs7); [rewrite !zlen_app; lia|].
  cbn [mbind res_mbind].
  set (text := ((((((PROFILE_HEAD ++ _) ++ _) ++ _) ++ _) ++ _) ++ _)) in *.
  assert (Hend : exists s8, put_secrets s7 home = Ret s8 /\ sb_holds s8 (text ++ secrets_text home)).
  { unfold secrets_text, put_secrets in *. destruct home as [[|c h]|]; try (exists s7; by rewrite app_nil_r).
    rewrite !zlen_app in Ht. pose proof (zlen_nonneg (subpaths_text (secret_paths (c :: h)))).
    destruct (puts_within s7 _ PROFILE_SECRET_OPEN Hs7) as (s8 & -> & Hs8); [rewrite !zlen_app; lia|].
    cbn [mbind res_mbind]. fold (secret_paths (c :: h)).
    destruct (subpaths_within s8 _ (secret_paths (c :: h)) Hs8) as (s9 & -> & Hs9); [rewrite !zlen_app; lia|].
    cbn [mbind res_mbind].
    destruct (puts_within s9 _ PROFILE_CLOSE Hs9) as (s10 & -> & Hs10); [rewrite !zlen_app; lia|].
    exists s10. split; [done|]. by rewrite <- !app_assoc in *. }
  destruct Hend as (s8 & -> & [_ (b & rest & Hb & -> & _) _]). cbn [mbind res_mbind].
  rewrite Hb. by exists ((text ++ secrets_text home) ++ Byte.x00 :: rest), rest.
Qed.

End Text.

(** ** A reader for the profile language *)

Inductive token := TOpen | TClose | TAtom (a : bytes) | TStr (s : bytes).

Inductive lex_mode := LPlain | LAtom (acc : bytes) | LStr (acc : bytes) | LEsc (acc : bytes).

Definition lex_plain (ts : list token) (c : byte) : list token * lex_mode :=
  if bool_decide (c = Byte.x28) then (ts ++ [TOpen], LPlain)
  else if bool_decide (c = Byte.x29) then (ts ++ [TClose], LPlain)
  else if bool_decide (c = Byte.x22) then (ts, LStr [])
  else if bool_decide (c = Byte.x20) || bool_decide (c = Byte.x0a) then (ts, LPlain)
  else (ts, LAtom [c]).

Definition is_delim (c : byte) : bool :=
  bool_decide (c ∈ [Byte.x28; Byte.x29; Byte.x22; Byte.x20; Byte.x0a]).

Definition lex_step (st : list token * lex_mode) (c : byte) : list token * lex_mode :=
  let '(ts, m) := st in
  match m with
  | LPlain => lex_plain ts c
  | LAtom acc => if is_delim c then lex_plain (ts ++ [TAtom acc]) c else (ts, LAtom (acc ++ [c]))
  | LStr acc =>
      if bool_decide (c = Byte.x22) then (ts ++ [TStr acc], LPlain)
      else if bool_decide (c = Byte.x5c) then (ts, LEsc acc)
      else (ts, LStr (acc ++ [c]))
  | LEsc acc => (ts, LStr (acc ++ [c]))
  end.

Definition lex_from (st : list token * lex_mode) (s : bytes) : list token * lex_mode :=
  fold_left lex_step s st.

(** One rule: an action, an operation and its filters (kind and path). *)
Record rule := {
  r_action : bytes;
  r_op : bytes;
  r_filters : list (bytes * bytes);
}.

Fixpoint parse_filters (ts : list token) : list (bytes * bytes) * list token :=
  match ts with
  | TOpen :: TAtom k :: TStr s :: TClose :: ts' =>
      let '(fs, rest) := parse_filters ts' in ((k, s) :: fs, rest)
  | _ => ([], ts)
  end.

Fixpoint parse_rules (fuel : nat) (ts : list token) : option (list rule) :=
  match ts with
  | [] => Some []
  | TOpen :: TAtom a :: TAtom o :: ts' =>
      match fuel, parse_filters ts' with
      | S fuel', (fs, TClose :: rest) =>
          rs ← parse_rules fuel' rest;
          Some ({| r_action := a; r_op := o; r_filters := fs |} :: rs)
      | _, _ => None
      end
  | _ => None
  end.

(** Reading a whole profile; a rule takes four tokens at least. *)
Definition parse_profile (s : bytes) : option (list rule) :=
  match lex_from ([], LPlain) s with
  | (ts, LPlain) => parse_rules (length ts) ts
  | _ => None
  end.

(** ** The rules the profile is meant to hold *)

Definition plain_rule (a o : bytes) : rule := {| r_action := a; r_op := o; r_filters := [] |}.
Definition subpaths (ps : list bytes) : list (bytes * bytes) := map (fun p => (lit "subpath", p)) ps.

Definition base_rules : list rule :=
  [plain_rule (lit "version") (lit "1");
   plain_rule (lit "allow") (lit "default");
   plain_rule (lit "deny") (lit "file-write*");
   {| r_action := lit "allow"; r_op := lit "file-write*";
      r_filters := [(lit "subpath", lit "/private/tmp/raoui-sandbox"); (lit "literal", lit "/dev/null")] |};
   plain_rule (lit "deny") (lit "network*");
   plain_rule (lit "deny") (lit "process-exec*");
   plain_rule (lit "deny") (lit "file-read*")].

Definition secret_rules (home : option bytes) : list rule :=
  match home with
  | Some (c :: h) =>
      [{| r_action := lit "deny"; r_op := lit "file-read*";
          r_filters := subpaths (secret_paths (c :: h)) |}]
  | _ => []
  end.

Definition read_rule (dyn : list bytes) : rule :=
  {| r_action := lit "allow"; r_op := lit "file-read*";
     r_filters := subpaths (PROFILE_ROOTS ++ dyn) |}.

Definition profile_rules `{Heap} (dyn home : option bytes) : list rule :=
  base_rules ++ read_rule (dyn_paths dyn) :: secret_rules home.

(** The tokens of filters and rules. *)
Definition filter_tokens (f : bytes * bytes) : list token :=
  [TOpen; TAtom (fst f); TStr (snd f); TClose].
Definition filters_tokens (fs : list (bytes * bytes)) : list token := concat (map filter_tokens fs).
Definition rule_tokens (r : rule) : list token :=
  TOpen :: TAtom (r_action r) :: TAtom (r_op r) :: filters_tokens (r_filters r) ++ [TClose].

(** ** Reading back what was written *)

Lemma lex_from_app st a b : lex_from st (a ++ b) = lex_from (lex_from st a) b.
Proof. apply fold_left_app. Qed.

(** The reader only ever appends tokens. *)
Lemma lex_plain_prefix ts c :
  lex_plain ts c = (ts ++ fst (lex_plain [] c), snd (lex_plain [] c)).
Proof. unfold lex_plain. repeat case_match; cbn; by rewrite ?app_nil_r. Qed.

Lemma lex_step_prefix ts m c :
  lex_step (ts, m) c = (ts ++ fst (lex_step ([], m) c), snd (lex_step ([], m) c)).
Proof.
  destruct m as [|acc|acc|acc]; cbn [lex_step].
  - apply lex_plain_prefix.
  - destruct (is_delim c); [|by rewrite app_nil_r].
    rewrite lex_plain_prefix, (lex_plain_prefix ([] ++ _)). cbn. by rewrite <- app_assoc.
  - repeat case_match; cbn; by rewrite ?app_nil_r.
  - cbn. by rewrite app_nil_r.
Qed.

Lemma lex_from_prefix s ts m :
  lex_from (ts, m) s = (ts ++ fst (lex_from ([], m) s), snd (lex_from ([], m) s)).
Proof.
  unfold lex_from. revert ts m. induction s as [|c s IH]; intros ts m; cbn [fold_left].
  { by rewrite app_nil_r. }
  rewrite lex_step_prefix. destruct (lex_step ([], m) c) as [ts1 m1]. cbn [fst snd].
  rewrite IH, (IH ts1). cbn [fst snd]. by rewrite app_assoc.
Qed.

(** A piece that reads to the tokens [k] between two rules or filters. *)
Definition reads_as (s : bytes) (k : list token) : Prop := lex_from ([], LPlain) s = (k, LPlain).

Lemma reads_as_app a b k l : reads_as a k -> reads_as b l -> reads_as (a ++ b) (k ++ l).
Proof.
  unfold reads_as. intros Ha Hb. rewrite lex_from_app, Ha, lex_from_prefix, Hb. done.
Qed.

(** An escaped path reads back as the path, whatever it contains: no quote or
    backslash in it can end the string. *)
Lemma lex_escape path ts acc : lex_from (ts, LStr acc) (escape path) = (ts, LStr (acc ++ path)).
Proof.
  unfold lex_from, escape in *. revert acc.
  induction path as [|c path IH]; intros acc; cbn [flat_map]; [by rewrite app_nil_r|].
  rewrite fold_left_app.
  assert (Hc : fold_left lex_step (if needs_escape c then [Byte.x5c; c] else [c]) (ts, LStr acc) =
               (ts, LStr (acc ++ [c]))).
  { unfold needs_escape. destruct (bool_decide (c = Byte.x22)) eqn:E1; [done|].
    destruct (bool_decide (c = Byte.x5c)) eqn:E2; [done|].
    cbn [orb fold_left lex_step]. by rewrite E1, E2. }
  by rewrite Hc, IH, <- app_assoc.
Qed.

Lemma subpath_reads path : reads_as (subpath_text path) (filter_tokens (lit "subpath", path)).
Proof.
  unfold reads_as, subpath_text. rewrite !lex_from_app.
  assert (E : lex_from ([], LPlain) SUBPATH_OPEN = ([TOpen; TAtom (lit "subpath")], LStr []))
    by (vm_compute; reflexivity).
  rewrite E, lex_escape. cbn [app]. reflexivity.
Qed.

Lemma subpaths_read ps : reads_as (subpaths_text ps) (filters_tokens (subpaths ps)).
Proof.
  induction ps as [|p ps IH]; [done|]. unfold subpaths_text, filters_tokens in *. cbn [map concat subpaths].
  apply reads_as_app; [apply subpath_reads|exact IH].
Qed.

Lemma parse_filters_tokens fs rest :
  (forall t r, rest = t :: r -> t <> TOpen) -> parse_filters (filters_tokens fs ++ rest) = (fs, rest).
Proof.
  intros Hr. induction fs as [|[k s] fs IH].
  - cbn. destruct rest as [|[]]; try done. by destruct (Hr TOpen rest).
  - unfold filters_tokens in *. cbn [map concat filter_tokens app fst snd parse_filters]. by rewrite IH.
Qed.

Lemma parse_rules_tokens rs fuel :
  (length rs <= fuel)%nat -> parse_rules fuel (concat (map rule_tokens rs)) = Some rs.
Proof.
  revert fuel. induction rs as [|[a o fs] rs IH]; intros fuel Hf; [by destruct fuel|].
  destruct fuel as [|fuel]; [cbn in Hf; lia|]. cbn [map concat].
  replace (rule_tokens {| r_action := a; r_op := o; r_filters := fs |} ++ concat (map rule_tokens rs))
    with (TOpen :: TAtom a :: TAtom o :: (filters_tokens fs ++ TClose :: concat (map rule_tokens rs))).
  - cbn [parse_rules]. rewrite parse_filters_tokens by (intros t r [= <- _]; done).
    rewrite IH by (cbn in Hf; lia). done.
  - unfold rule_tokens at 2. cbn [r_action r_op r_filters app]. by rewrite <- app_assoc.
Qed.

Lemma rules_fewer_tokens rs : (length rs <= length (concat (map rule_tokens rs)))%nat.
Proof. induction rs; cbn; [lia|]. rewrite length_app. cbn. lia. Qed.

Lemma reads_as_rules s rs : reads_as s (concat (map rule_tokens rs)) -> parse_profile s = Some rs.
Proof.
  unfold reads_as, parse_profile. intros ->. apply parse_rules_tokens, rules_fewer_tokens.
Qed.

Lemma rule_tokens_eq a o fs :
  rule_tokens {| r_action := a; r_op := o; r_filters := fs |} =
  [TOpen; TAtom a; TAtom o] ++ filters_tokens fs ++ [TClose].
Proof. done. Qed.

Lemma filters_tokens_app fs gs : filters_tokens (fs ++ gs) = filters_tokens fs ++ filters_tokens gs.
Proof. unfold filters_tokens. by rewrite map_app, concat_app. Qed.

Lemma profile_reads `{Heap} dyn home :
  reads_as (profile_text dyn home) (concat (map rule_tokens (profile_rules dyn home))).
Proof.
  assert (Hbase : reads_as (((PROFILE_HEAD ++ PROFILE_WRITES) ++ PROFILE_NET_EXEC) ++ PROFILE_READS)
    (concat (map rule_tokens base_rules) ++ [TOpen; TAtom (lit "allow"); TAtom (lit "file-read*")])).
  { vm_compute. reflexivity. }
  assert (Hclose : reads_as PROFILE_CLOSE [TClose]) by (vm_compute; reflexivity).
  assert (Hsec : reads_as (secrets_text home) (concat (map rule_tokens (secret_rules home)))).
  { unfold secrets_text, secret_rules. destruct home as [[|c h]|]; try done.
    cbn [map concat]. rewrite app_nil_r, rule_tokens_eq.
    apply reads_as_app; [vm_compute; reflexivity|]. apply reads_as_app; [apply subpaths_read|done]. }
  unfold profile_rules. rewrite map_app, concat_app. cbn [map concat]. unfold read_rule.
  rewrite rule_tokens_eq. unfold subpaths. rewrite map_app. fold (subpaths PROFILE_ROOTS).
  fold (subpaths (dyn_paths dyn)). rewrite filters_tokens_app.
  replace (profile_text dyn home) with
    ((((PROFILE_HEAD ++ PROFILE_WRITES) ++ PROFILE_NET_EXEC) ++ PROFILE_READS) ++
     (subpaths_text PROFILE_ROOTS ++ subpaths_text (dyn_paths dyn)) ++ PROFILE_CLOSE ++ secrets_text home)
    by (unfold profile_text; by rewrite <- !app_assoc).
  set (kb := concat (map rule_tokens base_rules)) in *.
  replace (kb ++ ([TOpen; TAtom (lit "allow"); TAtom (lit "file-read*")] ++
      (filters_tokens (subpaths PROFILE_ROOTS) ++ filters_tokens (subpaths (dyn_paths dyn))) ++ [TClose]) ++
      concat (map rule_tokens (secret_rules home)))
    with ((kb ++ [TOpen; TAtom (lit "allow"); TAtom (lit "file-read*")]) ++
      (filters_tokens (subpaths PROFILE_ROOTS) ++ filters_tokens (subpaths (dyn_paths dyn))) ++ [TClose] ++
      concat (map rule_tokens (secret_rules home)))
    by (by rewrite <- !app_assoc).
  apply reads_as_app; [exact Hbase|].
  apply reads_as_app; [apply reads_as_app; apply subpaths_read|].
  by apply reads_as_app.
Qed.

(** ** What the rules allow: the last rule that applies decides *)

Definition subpath_covers (s path : bytes) : bool :=
  bool_decide (path = s) || bool_decide (s = lit "/") || bool_decide (s ++ lit "/" `prefix_of` path).

Definition filter_covers (f : bytes * bytes) (path : bytes) : bool :=
  if bool_decide (fst f = lit "subpath") then subpath_covers (snd f) path
  else bool_decide (path = snd f).

Definition rule_applies (op path : bytes) (r : rule) : bool :=
  (bool_decide (r_op r = lit "default") || bool_decide (r_op r = op)) &&
  (bool_decide (r_filters r = []) || existsb (fun f => filter_covers f path) (r_filters r)).

Definition judge (op path : bytes) (v : bool) (r : rule) : bool :=
  if rule_applies op path r then
    if bool_decide (r_action r = lit "allow") then true
    else if bool_decide (r_action r = lit "deny") then false else v
  else v.

Definition verdict (rs : list rule) (op path : bytes) : bool := fold_left (judge op path) rs false.

Definition covered (ps : list bytes) (path : bytes) : bool := existsb (fun p => subpath_covers p path) ps.

Lemma existsb_subpaths ps path :
  existsb (fun f => filter_covers f path) (subpaths ps) = covered ps path.
Proof.
  unfold covered, subpaths. induction ps as [|p ps IH]; [done|]. cbn [map existsb]. by rewrite IH.
Qed.

(** The paths of the trailing deny. *)
Definition denied_paths (home : option bytes) : list bytes :=
  match home with Some (c :: h) => secret_paths (c :: h) | _ => [] end.

Lemma verdict_split rs1 rs2 op path :
  verdict (rs1 ++ rs2) op path = fold_left (judge op path) rs2 (verdict rs1 op path).
Proof. apply fold_left_app. Qed.

Lemma judge_other op path v r : r_op r <> lit "default" -> r_op r <> op -> judge op path v r = v.
Proof.
  intros Hd Ho. unfold judge, rule_applies.
  by rewrite (bool_decide_false (r_op r = lit "default")), (bool_decide_false (r_op r = op)).
Qed.

Lemma judge_reads path v a ps :
  judge (lit "file-read*") path v {| r_action := a; r_op := lit "file-read*"; r_filters := subpaths ps |} =
  if bool_decide (ps = []) || covered ps path then
    if bool_decide (a = lit "allow") then true else if bool_decide (a = lit "deny") then false else v
  else v.
Proof.
  unfold judge, rule_applies. cbn [r_op r_filters r_action].
  rewrite existsb_subpaths, (bool_decide_false (lit "file-read*" = lit "default")) by (vm_compute; congruence).
  rewrite (bool_decide_true (lit "file-read*" = lit "file-read*")) by done. cbn [orb andb].
  replace (bool_decide (subpaths ps = [])) with (bool_decide (ps = [])); [done|].
  apply bool_decide_ext. destruct ps; by split.
Qed.

Lemma verdict_reads `{Heap} dyn home path :
  verdict (profile_rules dyn home) (lit "file-read*") path =
  covered (PROFILE_ROOTS ++ dyn_paths dyn) path && negb (covered (denied_paths home) path).
Proof.
  unfold profile_rules. rewrite verdict_split.
  replace (verdict base_rules (lit "file-read*") path) with false by (vm_compute; reflexivity).
  cbn [fold_left]. unfold read_rule. rewrite judge_reads.
  rewrite (bool_decide_false (PROFILE_ROOTS ++ dyn_paths dyn = [])) by done. cbn [orb].
  rewrite (bool_decide_true (lit "allow" = lit "allow")) by done.
  unfold secret_rules, denied_paths. destruct home as [[|c h]|]; cbn [fold_left].
  - cbn [covered existsb negb]. rewrite andb_true_r. by destruct (covered _ _).
  - rewrite judge_reads, (bool_decide_false (secret_paths (c :: h) = [])) by done. cbn [orb].
    rewrite (bool_decide_false (lit "deny" = lit "allow")) by (vm_compute; congruence).
    rewrite (bool_decide_true (lit "deny" = lit "deny")) by done.
    destruct (covered (PROFILE_ROOTS ++ _) path), (covered (secret_paths (c :: h)) path); done.
  - cbn [covered existsb negb]. rewrite andb_true_r. by destruct (covered _ _).
Qed.

(** On any other operation the read rules are silent. *)
Lemma verdict_other `{Heap} dyn home op path :
  lit "file-read*" <> op -> verdict (profile_rules dyn home) op path = verdict base_rules op path.
Proof.
  intros Ho. unfold profile_rules. rewrite verdict_split. cbn [fold_left].
  rewrite judge_other by done. unfold secret_rules.
  destruct home as [[|c h]|]; cbn [fold_left]; by rewrite ?judge_other.
Qed.

Lemma verdict_writes path :
  verdict base_rules (lit "file-write*") path =
  subpath_covers (lit "/private/tmp/raoui-sandbox") path || bool_decide (path = lit "/dev/null").
Proof.
  set (op := lit "file-write*"). set (r := nth 3 base_rules (plain_rule [] [])).
  change base_rules with (take 3 base_rules ++ r :: drop 4 base_rules).
  rewrite verdict_split. cbn [fold_left].
  assert (E1 : verdict (take 3 base_rules) op path = false) by (vm_compute; reflexivity).
  assert (E2 : forall v, fold_left (judge op path) (drop 4 base_rules) v = v) by reflexivity.
  rewrite E1, E2. unfold judge, rule_applies, r, base_rules. cbn [nth r_op r_filters r_action existsb].
  rewrite (bool_decide_true (op = op)), orb_true_r by done.
  rewrite bool_decide_false by done. cbn [orb andb].
  rewrite (bool_decide_true (lit "allow" = lit "allow")) by done. unfold filter_covers. cbn [fst snd].
  rewrite (bool_decide_true (lit "subpath" = lit "subpath")) by done.
  rewrite (bool_decide_false (lit "literal" = lit "subpath")) by (vm_compute; congruence).
  rewrite orb_false_r. by destruct (_ || _).
Qed.

(** ** The text holds no NUL *)

Lemma cstr_app a b : is_cstr a -> is_cstr b -> is_cstr (a ++ b).
Proof. apply Forall_app_2. Qed.

Lemma cstr_check s : forallb (fun c => negb (bool_decide (c = Byte.x00))) s = true -> is_cstr s.
Proof.
  intros Hf. apply Forall_forall. intros c Hc. rewrite forallb_forall in Hf. specialize (Hf c Hc).
  intros ->. by rewrite bool_decide_true in Hf.
Qed.

Lemma escape_cstr p : is_cstr p -> is_cstr (escape p).
Proof.
  induction 1 as [|c p Hc _ IH]; [constructor|]. unfold escape. cbn [flat_map].
  apply cstr_app; [|exact IH]. destruct (needs_escape c); by repeat constructor.
Qed.

Lemma subpaths_cstr ps : Forall is_cstr ps -> is_cstr (subpaths_text ps).
Proof.
  induction 1 as [|p ps Hp _ IH]; [constructor|]. unfold subpaths_text in *. cbn [map concat].
  apply cstr_app; [|exact IH]. unfold subpath_text.
  apply cstr_app; [by apply cstr_check|]. apply cstr_app; [by apply escape_cstr|by apply cstr_check].
Qed.

Lemma constants_cstr (ps : list bytes) :
  forallb (forallb (fun c => negb (bool_decide (c = Byte.x00)))) ps = true -> Forall is_cstr ps.
Proof.
  intros Hf. apply Forall_forall. intros p Hp. rewrite forallb_forall in Hf. by apply cstr_check, Hf.
Qed.

Lemma profile_cstr `{Heap} dyn home :
  (forall d, dyn = Some d -> is_cstr d) -> (forall h, home = Some h -> is_cstr h) ->
  is_cstr (profile_text dyn home).
Proof.
  intros Hd Hh. unfold profile_text. repeat apply cstr_app; try by apply cstr_check.
  - apply subpaths_cstr. unfold dyn_paths, strdup. destruct dyn as [d|]; [|constructor].
    destruct (malloc _); [|constructor]. apply strtok_forall. by apply Hd.
  - unfold secrets_text. destruct home as [[|c h]|]; [constructor| |constructor].
    apply cstr_app; [by apply cstr_check|]. apply cstr_app; [|by apply cstr_check].
    apply subpaths_cstr. unfold secret_paths. apply Forall_map.
    assert (Hs : Forall is_cstr PROFILE_SECRETS) by by apply constants_cstr.
    eapply Forall_impl; [|exact Hs]. intros t Ht. unfold snprintf_store. apply Forall_take.
    apply cstr_app; [by apply Hh|done].
Qed.

(** ** The properties *)

Section Props.
Context `{HeapOk}.

(** The heap grants the blocks the builder asks for. *)
Definition heap_serves (dyn home : option bytes) : Prop :=
  grants (6 * zlen (profile_text dyn home) + 4100).

Lemma built_profile dyn home :
  (forall d, dyn = Some d -> is_cstr d) -> (forall h, home = Some h -> is_cstr h) ->
  heap_serves dyn home ->
  exists p, build_runr_profile dyn home = Ret (Some p) /\
    parse_profile (c_string p) = Some (profile_rules dyn home).
Proof.
  intros Hd Hh Hg. pose proof (zlen_nonneg (profile_text dyn home)) as Hz.
  destruct (build_runr_profile_ok (zlen (profile_text dyn home) + 673)) with (dyn := dyn) (home := home)
    as (p & rest & E & ->); [|lia|lia|].
  - apply (grants_mono _ _ Hg). lia.
  - exists (profile_text dyn home ++ Byte.x00 :: rest). split; [done|].
    rewrite c_string_app by by apply profile_cstr. apply reads_as_rules, profile_reads.
Qed.

(** C26. The Seatbelt profile is well formed and says what it is meant to say:
    for any R paths and $HOME - quotes, backslashes and parentheses in them
    included - the builder stays inside its growing buffer and its text, read
    as SBPL, is exactly the intended list of rules: the fixed denials and the
    scratch exception, one read allowance with every root and R path, and the
    trailing denial of the credential stores when $HOME is set. *)
Theorem profile_parses_to_rules dyn home :
  (forall d, dyn = Some d -> is_cstr d) -> (forall h, home = Some h -> is_cstr h) ->
  heap_serves dyn home ->
  exists p, build_runr_profile dyn home = Ret (Some p) /\
    parse_profile (c_string p) = Some (profile_rules dyn home).
Proof. apply built_profile. Qed.

(** C27. What the profile confines, the last matching rule deciding: no network
    and no exec at all; writing only under the scratch directory and to
    /dev/null; reading only under the system roots and the R paths, and never
    under a credential store of $HOME - even when an R path is $HOME itself, or
    lies inside the store. *)
Theorem profile_confines dyn home :
  (forall d, dyn = Some d -> is_cstr d) -> (forall h, home = Some h -> is_cstr h) ->
  heap_serves dyn home ->
  exists p rs, build_runr_profile dyn home = Ret (Some p) /\ parse_profile (c_string p) = Some rs /\
    forall path,
      verdict rs (lit "network*") path = false /\ verdict rs (lit "process-exec*") path = false /\
      (verdict rs (lit "file-write*") path = true <->
         subpath_covers (lit "/private/tmp/raoui-sandbox") path = true \/ path = lit "/dev/null") /\
      (verdict rs (lit "file-read*") path = true <->
         covered (PROFILE_ROOTS ++ dyn_paths dyn) path = true /\ covered (denied_paths home) path = false) /\
      (forall h s rest, home = Some h -> h <> [] -> zlen (h ++ s) < 4096 -> s ∈ PROFILE_SECRETS ->
         path = h ++ s ++ lit "/" ++ rest -> verdict rs (lit "file-read*") path = false).
Proof.
  intros Hd Hh Hg. destruct (built_profile dyn home Hd Hh Hg) as (p & E & Ep).
  exists p, (profile_rules dyn home). split; [done|]. split; [done|]. intros path.
  split; [rewrite verdict_other by (vm_compute; congruence); vm_compute; reflexivity|].
  split; [rewrite verdict_other by (vm_compute; congruence); vm_compute; reflexivity|].
  split.
  { rewrite verdict_other by (vm_compute; congruence). rewrite verdict_writes, orb_true_iff, bool_decide_eq_true. done. }
  rewrite verdict_reads. split; [by rewrite andb_true_iff, negb_true_iff|].
  intros h s rest -> Hne Hlen Hs ->. destruct h as [|c h]; [done|]. apply andb_false_iff. right.
  apply negb_false_iff. unfold denied_paths, covered, secret_paths. apply existsb_exists.
  exists (snprintf_store 4096 ((c :: h) ++ s)). split.
  - apply (in_map (fun t => snprintf_store 4096 ((c :: h) ++ t))). by apply list_elem_of_In.
  - unfold snprintf_store. rewrite take_ge by (unfold zlen in Hlen; lia).
    unfold subpath_covers. rewrite (bool_decide_true (_ `prefix_of` _)); [by rewrite orb_true_r|].
    exists rest. by rewrite <- !app_assoc.
Qed.

End Props.

(** ** Witnesses: R paths with quotes, $HOME itself among them *)

Definition big_heap : Heap := fun n =>
  if (0 <=? n) && (n <=? 65536) then Some (repeat Byte.x00 (Z.to_nat n)) else None.

Lemma big_heap_ok : HeapOk (H := big_heap).
Proof.
  intros n b. unfold malloc, big_heap. destruct (_ && _) eqn:E; [|done]. intros [= <-].
  zbool. unfold zlen, USER_SPACE. rewrite repeat_length. lia.
Qed.

Definition odd_paths : bytes :=
  lit "/Users/u" ++ [Byte.x0a] ++ lit "/x" ++ [Byte.x22; Byte.x5c] ++ lit ") (allow network*" ++ [Byte.x0a].

Lemma odd_paths_cstr d : Some odd_paths = Some d -> is_cstr d.
Proof. intros [= <-]. by apply cstr_check. Qed.

Lemma odd_home_cstr h : Some (lit "/Users/u") = Some h -> is_cstr h.
Proof. intros [= <-]. by apply cstr_check. Qed.

Lemma odd_heap_serves : heap_serves (H := big_heap) (Some odd_paths) (Some (lit "/Users/u")).
Proof.
  intros k Hk. assert (Hk' : 0 <= k <= 65536).
  { assert (Ez : zlen (profile_text (H := big_heap) (Some odd_paths) (Some (lit "/Users/u"))) <= 2000)
      by (vm_compute; congruence). lia. }
  unfold malloc, big_heap. rewrite (proj2 (Z.leb_le _ _)), (proj2 (Z.leb_le _ _)) by lia. by eexists.
Qed.

Lemma profile_parses_to_rules_witness :
  exists p, build_runr_profile (H := big_heap) (Some odd_paths) (Some (lit "/Users/u")) = Ret (Some p) /\
    parse_profile (c_string p) =
      Some (profile_rules (H := big_heap) (Some odd_paths) (Some (lit "/Users/u"))).
Proof.
  apply (profile_parses_to_rules (H := big_heap) (H0 := big_heap_ok)).
  - exact odd_paths_cstr.
  - exact odd_home_cstr.
  - exact odd_heap_serves.
Defined.

Lemma profile_confines_witness :
  exists p rs, build_runr_profile (H := big_heap) (Some odd_paths) (Some (lit "/Users/u")) = Ret (Some p) /\
    parse_profile (c_string p) = Some rs /\
    verdict rs (lit "file-read*") (lit "/Users/u/data.csv") = true /\
    verdict rs (lit "file-read*") (lit "/Users/u/.ssh/id_rsa") = false /\
    verdict rs (lit "network*") (lit "") = false.
Proof.
  destruct (profile_confines (H := big_heap) (H0 := big_heap_ok) (Some odd_paths) (Some (lit "/Users/u"))
    odd_paths_cstr odd_home_cstr odd_heap_serves) as (p & rs & E & Ep & Hv).
  exists p, rs. split; [done|]. split; [done|].
  split; [apply (Hv (lit "/Users/u/data.csv")); vm_compute; by split|].
  split; [|apply (Hv (lit ""))].
  apply (Hv (lit "/Users/u/.ssh/id_rsa")) with (h := lit "/Users/u") (s := lit "/.ssh") (rest := lit "id_rsa").
  - reflexivity.
  - by vm_compute.
  - by vm_compute.
  - left.
  - reflexivity.
Defined.
