(* ===== verification/RunR.v ===== *)
(** * Sandboxed evaluation in a fork (c_ffi/load_r.c, lines 703-731 and 878-1015)

    [run_r_on_worker]: the child confines itself and evaluates with its console
    on the capture pipe; the parent drains the pipe under a wall-clock watchdog,
    reaps the child and annotates the output.  The kernel's answers to the
    parent (clock, poll, read, waitpid) are a stream [poll_event]. *)

From S2P Require Import Prelude CString RingBuffer RingSpec CrashLog Seccomp Landlock.
From S2P Require Import RApi Bridge Eval Seatbelt.

Definition RUNR_WALL_TIMEOUT_MS : Z := 30000.
Definition RUNR_MAX_VSIZE_MB : bytes := lit "4096".

(** ** What the kernel answers in one round of the drain loop *)

Inductive poll_answer := PollReady | PollTimeout | PollError (eintr : bool).
Inductive read_answer := ReadData (d : bytes) | ReadEof | ReadError (eintr : bool).

(** [ev_sec], [ev_nsec]: clock_gettime; [ev_read]: the read made after a
    successful poll. *)
Record poll_event := {
  ev_sec : Z;
  ev_nsec : Z;
  ev_poll : poll_answer;
  ev_read : read_answer;
}.

Inductive wait_status := WaitExited (code : Z) | WaitSignaled (sig : Z).

Definition SIGXCPU : Z := 24.

Section Drain.
Context `{Heap}.

Record drain := {
  dr_buf : option bytes;
  dr_len : Z;
  dr_cap : Z;
}.

(** Appending [n] bytes of the block [src], growing to [grow need] when
    [len + n + 1] does not fit. *)
Definition drain_append (grow : Z -> Z) (st : drain) (src : bytes) (n : Z) : res drain :=
  let need := u64 (dr_len st + n + 1) in
  let st := if dr_cap st <? need then
              {| dr_buf := realloc (dr_buf st) (grow need); dr_len := dr_len st; dr_cap := grow need |}
            else st in
  b ← deref (dr_buf st);
  b' ← memcpy b (dr_len st) src 0 n;
  Ret {| dr_buf := Some b'; dr_len := u64 (dr_len st + n); dr_cap := dr_cap st |}.

Definition elapsed_ms (t0_sec t0_nsec : Z) (e : poll_event) : Z :=
  (ev_sec e - t0_sec) * 1000 + Z.quot (ev_nsec e - t0_nsec) 1000000.

(** The [for (;;)] loop from round [i]; answers the state and [timed_out]. *)
Fixpoint drain_loop (fuel : nat) (t0_sec t0_nsec : Z) (evs : nat -> poll_event) (i : nat)
    (st : drain) : res (drain * bool) :=
  match fuel with
  | O => Fault OutOfFuel
  | S fuel' =>
      let e := evs i in
      let remaining := RUNR_WALL_TIMEOUT_MS - elapsed_ms t0_sec t0_nsec e in
      if remaining <=? 0 then Ret (st, true)
      else
        match ev_poll e with
        | PollTimeout => Ret (st, true)
        | PollError true => drain_loop fuel' t0_sec t0_nsec evs (S i) st
        | PollError false => Ret (st, false)
        | PollReady =>
            match ev_read e with
            | ReadData d =>
                st' ← drain_append (fun need => u64 (need * 2)) st d (zlen d);
                drain_loop fuel' t0_sec t0_nsec evs (S i) st'
            | ReadEof => Ret (st, false)
            | ReadError true => drain_loop fuel' t0_sec t0_nsec evs (S i) st
            | ReadError false => Ret (st, false)
            end
        end
  end.

(** The em dash of the notes, in UTF-8. *)
Definition em_dash : bytes := [Byte.xe2; Byte.x80; Byte.x94].

(** The annotation snprintf writes to [note[128]]; empty when there is none. *)
Definition run_note (timed_out : bool) (st : wait_status) : bytes :=
  if timed_out then
    [Byte.x0a] ++ lit "[run_r: timed out after " ++ format_d (Z.quot RUNR_WALL_TIMEOUT_MS 1000) ++
    lit "s " ++ em_dash ++ lit " killed]" ++ [Byte.x0a]
  else
    match st with
    | WaitExited _ => []
    | WaitSignaled sig =>
        [Byte.x0a] ++ lit "[run_r: child killed by signal " ++ format_d sig ++
        (if sig =? SIGXCPU then lit " " ++ em_dash ++ lit " CPU limit" else []) ++
        lit "]" ++ [Byte.x0a]
    end.

(** [note] as an object: what snprintf stored and its terminator, in 128 bytes. *)
Definition note_object (s : bytes) : bytes :=
  let t := snprintf_store 128 s in t ++ repeat Byte.x00 (128 - length t).

(** What the parent did: its result, and whether it killed the child. *)
Record run_result := {
  rr_out : option bytes;
  rr_killed : bool;
}.

(** The parent's side, from the close of the write end on. *)
Definition run_r_parent (fuel : nat) (t0_sec t0_nsec : Z) (evs : nat -> poll_event)
    (status : wait_status) : res run_result :=
  let st0 := {| dr_buf := malloc 8192; dr_len := 0; dr_cap := 8192 |} in
  '(st1, timed_out) ← drain_loop fuel t0_sec t0_nsec evs 0 st0;
  let s := run_note timed_out status in
  let m := match s with [] => 0 | _ => snprintf_ret s end in
  st2 ← (if 0 <? m then drain_append (fun need => need) st1 (note_object s) m else Ret st1);
  b ← deref (dr_buf st2);
  b' ← memcpy b (dr_len st2) [Byte.x00] 0 1;
  Ret {| rr_out := Some b'; rr_killed := timed_out |}.

End Drain.

(** ** The child *)

Section Child.
Context `{RApi, Heap}.

(** The three branches of the [#if]: what sandbox_init answers on macOS, the
    Linux sandbox, or neither. *)
Inductive platform :=
  | PlatApple (sandbox_init : option bytes -> Z)
  | PlatLinux (sandbox_apply : option bytes -> option bytes -> option bytes * Z)
  | PlatOther.

(** The query of the live session's paths. *)
Definition read_paths_code : bytes :=
  lit "paste(unique(c(R.home(), .libPaths(), tempdir(), getwd())), " ++
  lit "collapse=" ++ [Byte.x22; Byte.x5c; Byte.x6e; Byte.x22] ++ lit ")".

Definition gather_runr_read_paths : M (option bytes) := eval_for_string read_paths_code.

Definition vsize_code : bytes :=
  lit "if (exists('mem.maxVSize')) invisible(mem.maxVSize(" ++ RUNR_MAX_VSIZE_MB ++ lit "))".

(** [write(pipefd[1], m, strlen(m)); _exit(98);] *)
Definition fail_child (m : bytes) : M unit := pipe_write m (zlen m) ;; exit_process 98.

Definition sandbox_failed_message (err : option bytes) : bytes :=
  snprintf_store 256 (lit "[run_r] sandbox setup failed: " ++ default (lit "unknown") err ++ [Byte.x0a]).

(** Confining the process; [mn] is snprintf's answer. *)
Definition enter_sandbox (plat : platform) (dyn profile home : option bytes) : M unit :=
  match plat with
  | PlatApple sandbox_init =>
      if negb (sandbox_init profile =? 0) then fail_child (lit "[run_r] sandbox_init failed" ++ [Byte.x0a])
      else mret tt
  | PlatLinux sandbox_apply =>
      let '(err, rc) := sandbox_apply dyn home in
      if negb (rc =? 0) then
        let s := lit "[run_r] sandbox setup failed: " ++ default (lit "unknown") err ++ [Byte.x0a] in
        let mn := snprintf_ret s in
        (if 0 <? mn then
           m ← lift (memcpy (repeat Byte.x00 (Z.to_nat mn)) 0
                       (snprintf_store 256 s ++ [Byte.x00]) 0 mn);
           pipe_write m mn
         else mret tt) ;;
        exit_process 98
      else mret tt
  | PlatOther => fail_child (lit "[run_r] no sandbox available on this platform" ++ [Byte.x0a])
  end.

(** [pipefd1] is the write end, on which [pipe_fd] of the state writes. *)
Definition run_r_child (plat : platform) (dyn profile home : option bytes) (pipefd1 : Z)
    (code : bytes) : M unit :=
  enter_sandbox plat dyn profile home ;;
  modify (fun b => set_pipe b {| g_runr_pipe_fd := pipefd1; pipe_fd := pipe_fd (b_pipe b) |}) ;;
  modify (fun b => set_r b (set_console (b_r b) CbRunrCapture)) ;;
  eval_for_string vsize_code ;;
  eval_in_sandbox code ;;
  exit_process 0.

(** The state the child of a fork runs in: a copy, with the forking thread
    alone - no frontend will act on it again. *)
Definition forked (b : bridge) (write_end : fd_state) : bridge :=
  set_pipe (set_sched b []) {| g_runr_pipe_fd := g_runr_pipe_fd (b_pipe b); pipe_fd := write_end |}.

(** ** run_r_on_worker *)

(** What the kernel answers to the whole call. *)
Record run_env := {
  env_plat : platform;
  env_home : option bytes;
  env_pipe : Z;
  env_fork : Z;                       (* negative, or the child's pid *)
  env_t0_sec : Z;
  env_t0_nsec : Z;
  env_events : nat -> poll_event;
  env_status : wait_status;
  env_rounds : nat;                   (* rounds of the loop run at most *)
}.

(** The parent's return value; the block is NUL-terminated.  The child runs
    [run_r_child (env_plat env) dyn profile (env_home env)] in [forked b]. *)
Definition run_r_on_worker (env : run_env) (code : bytes) : M (option bytes) :=
  dyn ← gather_runr_read_paths;
  profile ← match env_plat env with
            | PlatApple _ => lift (build_runr_profile dyn (env_home env))
            | _ => mret None
            end;
  if negb (env_pipe env =? 0) then mret (strdup (lit "[run_r] pipe() failed" ++ [Byte.x0a]))
  else if env_fork env <? 0 then mret (strdup (lit "[run_r] fork() failed" ++ [Byte.x0a]))
  else
    r ← lift (run_r_parent (env_rounds env) (env_t0_sec env) (env_t0_nsec env)
                (env_events env) (env_status env));
    mret (rr_out r).

End Child.
