(* ===== verification/RunRProps.v ===== *)
(** * Correctness of the sandboxed evaluation

    The parent's drain loop: its result, its termination under the watchdog;
    the child: it evaluates confined or not at all, and cannot read a line. *)

From S2P Require Import Prelude CString RingBuffer RingSpec RingProps CrashLog Seccomp Landlock LandlockProps.
From S2P Require Import RApi SampleR Bridge BridgeSpec BridgeProps Eval EvalSpec EvalProps Seatbelt SeatbeltProps RunR.

(** ** The parent *)

Section Parent.
Context `{HeapOk}.

(** The capture buffer holds [text] and has room for a terminator. *)
Definition dr_holds (st : drain) (text : bytes) : Prop :=
  dr_len st = zlen text /\ zlen text < dr_cap st <= USER_SPACE /\
  exists rest, dr_buf st = Some (text ++ rest) /\ zlen (text ++ rest) = dr_cap st.

Lemma drain_append_ok grow st text src n :
  dr_holds st text -> 0 <= n <= zlen src -> n <= 2 ^ 31 ->
  (zlen text + n + 1 <= grow (zlen text + n + 1) /\ grants (grow (zlen text + n + 1))) ->
  exists st', drain_append grow st src n = Ret st' /\ dr_holds st' (text ++ take (Z.to_nat n) src).
Proof.
  intros (Hl & Hc & rest & Hb & Hz) Hn Hn2 [Hgr Hgt]. unfold USER_SPACE in Hc.
  pose proof (zlen_nonneg text). unfold drain_append. rewrite Hl, (u64_small (zlen text + n + 1)) by lia.
  set (need := zlen text + n + 1) in *.
  set (st1 := if dr_cap st <? need then _ else st).
  assert (Hg1 : dr_len st1 = zlen text /\ need <= dr_cap st1 <= USER_SPACE /\
    exists rest1, dr_buf st1 = Some (text ++ rest1) /\ zlen (text ++ rest1) = dr_cap st1).
  { unfold st1. destruct (dr_cap st <? need) eqn:E; zbool.
    - destruct (Hgt (grow need)) as [x Hx]; [lia|]. cbn.
      destruct (realloc (dr_buf st) (grow need)) as [q|] eqn:Eq.
      + pose proof Hb as Hb'. rewrite Hb' in Eq. apply realloc_ok in Eq as (Hq & Hu & [k Hk]); [|cbn; lia].
        cbn in Hk. split; [done|]. split; [lia|]. exists (rest ++ k). rewrite app_assoc, <- Hk. done.
      + unfold realloc in Eq. by rewrite Hx in Eq.
    - split; [done|]. unfold USER_SPACE. split; [lia|]. by exists rest. }
  destruct Hg1 as (Hl1 & Hc1 & rest1 & Hb1 & Hz1). rewrite Hb1, Hl1. cbn [deref mbind res_mbind].
  unfold USER_SPACE in Hc1. zlens. rewrite memcpy_at by lia. cbn [mbind res_mbind].
  eexists. split; [done|]. unfold dr_holds. cbn. rewrite u64_small by lia.
  rewrite zlen_app, zlen_take by lia. unfold USER_SPACE. split; [done|]. split; [lia|].
  exists (drop (Z.to_nat n) rest1). rewrite <- app_assoc. split; [done|].
  rewrite !zlen_app, zlen_take, zlen_drop by lia. lia.
Qed.

(** ** What the loop reads *)

Definition event_ok (e : poll_event) : Prop :=
  match ev_read e with ReadData d => 1 <= zlen d <= 4096 | _ => True end.

(** The data of the reads up to the round that leaves the loop, and whether it
    left it for the watchdog. *)
Fixpoint drained (fuel : nat) (t0s t0n : Z) (evs : nat -> poll_event) (i : nat) : option (bytes * bool) :=
  match fuel with
  | O => None
  | S fuel' =>
      let e := evs i in
      if RUNR_WALL_TIMEOUT_MS - elapsed_ms t0s t0n e <=? 0 then Some ([], true)
      else
        match ev_poll e, ev_read e with
        | PollTimeout, _ => Some ([], true)
        | PollError false, _ => Some ([], false)
        | PollReady, ReadEof => Some ([], false)
        | PollReady, ReadError false => Some ([], false)
        | PollReady, ReadData d =>
            match drained fuel' t0s t0n evs (S i) with
            | Some (rest, timed_out) => Some (d ++ rest, timed_out)
            | None => None
            end
        | _, _ => drained fuel' t0s t0n evs (S i)
        end
  end.

Lemma drain_loop_ok fuel t0s t0n evs i st text data timed_out bound :
  (forall j, event_ok (evs j)) -> dr_holds st text ->
  drained fuel t0s t0n evs i = Some (data, timed_out) ->
  zlen (text ++ data) + 1 <= bound -> grants (2 * bound) ->
  exists st', drain_loop fuel t0s t0n evs i st = Ret (st', timed_out) /\ dr_holds st' (text ++ data).
Proof.
  intros Hev. revert i st text data. induction fuel as [|fuel IH]; intros i st text data Hst Hd Hb Hg; [done|].
  cbn [drained drain_loop] in *. pose proof (Hev i) as He. unfold event_ok in He.
  destruct (_ <=? 0); [injection Hd as <- <-; exists st; by rewrite app_nil_r|].
  destruct (ev_poll (evs i)) as [| |[]].
  - destruct (ev_read (evs i)) as [d| |[]].
    + destruct (drained fuel t0s t0n evs (S i)) as [[rest to]|] eqn:Hr; [|done]. injection Hd as <- <-.
      zlens. destruct Hst as (Hl & Hc & Hst).
      assert (Hst0 : dr_holds st text) by done. pose proof (grants_bound (2 * bound) ltac:(lia) Hg) as Hgb.
      unfold USER_SPACE in Hgb.
      destruct (drain_append_ok (fun need => u64 (need * 2)) st text d (zlen d) Hst0) as (st1 & -> & Hst1); [lia|lia| |].
      { rewrite u64_small by lia. split; [lia|]. apply (grants_mono _ _ Hg). lia. }
      cbn [mbind res_mbind]. rewrite take_ge in Hst1 by (unfold zlen; lia). rewrite app_assoc.
      apply IH; [done|done|zlens; lia|done].
    + injection Hd as <- <-. exists st. by rewrite app_nil_r.
    + by apply IH.
    + injection Hd as <- <-. exists st. by rewrite app_nil_r.
  - injection Hd as <- <-. exists st. by rewrite app_nil_r.
  - by apply IH.
  - injection Hd as <- <-. exists st. by rewrite app_nil_r.
Qed.

Lemma run_note_small timed_out st :
  (forall sig, st = WaitSignaled sig -> 0 < sig < 128) -> zlen (run_note timed_out st) < 128.
Proof.
  intros Hs. unfold run_note. destruct timed_out; [by vm_compute|]. destruct st as [c|sig]; [done|].
  specialize (Hs sig eq_refl). unfold format_d. rewrite (proj2 (Z.ltb_ge _ _)) by lia.
  pose proof (dec_digits_len 10 sig). zlens.
  change (zlen (lit "[run_r: child killed by signal ")) with 31. change (zlen (lit "]")) with 1.
  assert (zlen (if sig =? SIGXCPU then lit " " ++ em_dash ++ lit " CPU limit" else []) <= 14).
  { destruct (sig =? SIGXCPU); vm_compute; congruence. }
  lia.
Qed.

(** C28. What run_r returns: the bytes read from the child, in order and
    complete, followed by the annotation of an abnormal end (the watchdog's, or
    the signal's) and a terminator; the growing buffer is never overrun and the
    128-byte note never truncated; the child is killed exactly when the watchdog
    fired. *)
Theorem run_r_parent_result fuel t0s t0n evs status data timed_out :
  (forall j, event_ok (evs j)) ->
  (forall sig, status = WaitSignaled sig -> 0 < sig < 128) ->
  drained fuel t0s t0n evs 0 = Some (data, timed_out) ->
  grants (2 * zlen data + 8192) ->
  exists rest, run_r_parent fuel t0s t0n evs status =
    Ret {| rr_out := Some ((data ++ run_note timed_out status) ++ Byte.x00 :: rest);
           rr_killed := timed_out |}.
Proof.
  intros Hev Hsig Hd Hg. zlens. destruct (Hg 8192) as [b0 Eb]; [lia|].
  pose proof (heap_ok _ _ Eb) as [Hz Hz2]. pose proof (run_note_small timed_out status Hsig) as Hns.
  pose proof (grants_bound (2 * zlen data + 8192) ltac:(lia) Hg) as Hgb. unfold USER_SPACE in *.
  unfold run_r_parent. rewrite Eb.
  destruct (drain_loop_ok fuel t0s t0n evs 0 {| dr_buf := Some b0; dr_len := 0; dr_cap := 8192 |}
    [] data timed_out (zlen data + 1) Hev) as (st1 & -> & Hst1).
  - split; [done|]. unfold USER_SPACE. split; [rewrite zlen_nil; cbn; lia|]. by exists b0.
  - done.
  - cbn. lia.
  - apply (grants_mono _ _ Hg). lia.
  - cbn [mbind res_mbind app] in *. set (note := run_note timed_out status) in *.
    assert (Hm : exists st2, (if 0 <? match note with [] => 0 | _ => snprintf_ret note end
        then drain_append (fun need => need) st1 (note_object note) match note with [] => 0 | _ => snprintf_ret note end
        else Ret st1) = Ret st2 /\ dr_holds st2 (data ++ note)).
    { destruct (bool_decide (note = [])) eqn:En.
      - apply bool_decide_eq_true in En. rewrite En. exists st1. by rewrite app_nil_r.
      - apply bool_decide_eq_false in En.
        assert (Er : match note with [] => 0 | _ => snprintf_ret note end = zlen note).
        { destruct note; [done|]. unfold snprintf_ret, INT_MAX. by rewrite (proj2 (Z.leb_le _ _)) by lia. }
        rewrite Er. assert (0 < zlen note) by (destruct note; [done|zlens; lia]).
        rewrite (proj2 (Z.ltb_lt _ _)) by lia.
        assert (Eo : note_object note = note ++ repeat Byte.x00 (128 - length note)).
        { unfold note_object, snprintf_store. by rewrite take_ge by (unfold zlen in Hns; lia). }
        destruct (drain_append_ok (fun need => need) st1 data (note_object note) (zlen note) Hst1)
          as (st2 & E2 & Hst2); [rewrite Eo; zlens; lia|lia| |].
        { split; [lia|]. apply (grants_mono _ _ Hg). lia. }
        exists st2. split; [done|]. rewrite Eo, take_app_length' in Hst2 by (unfold zlen; lia). done. }
    destruct Hm as (st2 & -> & Hl & Hc & rest & Hb & Hbz). cbn [mbind res_mbind]. rewrite Hb, Hl.
    cbn [deref mbind res_mbind]. rewrite memcpy_at; [|zlens; lia|done]. cbn [mbind res_mbind]. by eexists.
Qed.

(** C29. run_r always comes back: if time passes - the clock of some round shows
    the 30 s deadline - the parent leaves its loop by then, whatever poll and
    read answer before (interrupted calls, a child that never writes or never
    stops writing), and returns a string. *)
Theorem run_r_watchdog_terminates n t0s t0n evs status :
  (forall j, event_ok (evs j)) ->
  (forall sig, status = WaitSignaled sig -> 0 < sig < 128) ->
  RUNR_WALL_TIMEOUT_MS <= elapsed_ms t0s t0n (evs n) ->
  grants (2 * (4096 * (Z.of_nat n + 1)) + 8192) ->
  exists out killed, run_r_parent (S n) t0s t0n evs status = Ret {| rr_out := Some out; rr_killed := killed |}.
Proof.
  intros Hev Hsig Ht Hg.
  assert (Hd : forall k i, (i + k = n)%nat -> exists data to, drained (S k) t0s t0n evs i = Some (data, to) /\
    zlen data <= 4096 * Z.of_nat k).
  { induction k as [|k IH]; intros i Hi.
    - exists [], true. cbn [drained]. replace i with n by lia.
      by rewrite (proj2 (Z.leb_le (RUNR_WALL_TIMEOUT_MS - elapsed_ms t0s t0n (evs n)) 0)) by lia.
    - destruct (IH (S i)) as (data & to & E & Hz); [lia|]. pose proof (Hev i) as He. unfold event_ok in He.
      assert (Hnil : forall t : bool, exists (data0 : bytes) (to0 : bool),
        Some ([], t) = Some (data0, to0) /\
        zlen data0 <= 4096 * Z.of_nat (S k)) by (intros t; exists [], t; split; [done|rewrite zlen_nil; lia]).
      assert (Hrec : exists data0 to0, drained (S k) t0s t0n evs (S i) = Some (data0, to0) /\
        zlen data0 <= 4096 * Z.of_nat (S k)) by (exists data, to; split; [done|lia]).
      remember (S k) as k1. cbn [drained].
      destruct (_ <=? 0); [apply Hnil|].
      destruct (ev_poll (evs i)) as [| |[]]; try apply Hnil; try apply Hrec.
      destruct (ev_read (evs i)) as [d| |[]]; try apply Hnil; try apply Hrec. rewrite E. exists (d ++ data), to.
      split; [done|]. zlens. lia. }
  destruct (Hd n 0%nat eq_refl) as (data & to & E & Hz).
  destruct (run_r_parent_result (S n) t0s t0n evs status data to Hev Hsig E) as (rest & Er).
  - apply (grants_mono _ _ Hg). lia.
  - rewrite Er. eauto.
Qed.

End Parent.

(** ** The child *)

Section Child.
Context `{RApiOk, HeapOk}.

(** The Linux branch: [raoui_sandbox_apply] of Landlock.v. *)
Definition linux_sandbox `{LandlockAbi, SandboxOs, LinuxAbi} (prctl : sock_fprog -> Z)
    (dyn home : option bytes) : option bytes * Z :=
  let '(_, err, rc) := raoui_sandbox_apply prctl dyn home in (err, rc).

Lemma ready_forked cap b wr : ready cap b -> ready cap (forked b wr).
Proof. intros [[] ? ?]. split; [|done|done]. by split. Qed.

(** What a confined child left: it exited with 0, or with 1 after R_Suicide. *)
Definition confined_end (c : Z) : Prop := c = 0 \/ c = 1.

Lemma child_body_ok cap pipefd1 code b :
  ready cap b ->
  wp (modify (fun b => set_pipe b {| g_runr_pipe_fd := pipefd1; pipe_fd := pipe_fd (b_pipe b) |}) ;;
      modify (fun b => set_r b (set_console (b_r b) CbRunrCapture)) ;;
      eval_for_string vsize_code ;;
      eval_in_sandbox code ;;
      exit_process 0)
     (fun o b' => exists c, o = @Exited unit c /\ confined_end c) b.
Proof.
  intros Hr. wp_steps. match goal with |- wpF _ _ _ ?st => set (b1 := st) end.
  assert (Hr1 : ready cap b1).
  { destruct Hr as [[] ? ?]. split; [|done|done]. by split. }
  eapply wp_mono.
  { apply (eval_for_string_ok cap vsize_code (depth b1) b1 b1); [apply depth_nonneg|by apply after_refl]. }
  intros [x|st|c] b2 Ho; cbn [runs on_done] in *; [|done|subst; exists 1; split; [done|by right]].
  apply wp_bind. eapply wp_mono; [apply (eval_in_sandbox_ok cap code b2), Ho|].
  intros [[]|st|c] b3 Ho3; cbn [runs on_done] in *; [|done|subst; exists 1; split; [done|by right]].
  unfold wpF, exit_process. exists 0. split; [done|by left].
Qed.


(** C31. Nobody answers a sandboxed readline(): in the child the request waits
    for ever (its READLINE message goes to a copy of the ring no one reads), so
    such an evaluation ends only by the parent's watchdog. *)
Theorem child_readline_blocks cap prompt buf len b wr :
  ready cap b -> readline_gate (b_gates b) = 0 ->
  cb_read_console prompt buf len (forked b wr) = Fault Blocked.
Proof.
  intros Hr Hg. unfold cb_read_console, push_str, wait_gate.
  pose proof (u32_le (zlen prompt) (zlen_nonneg prompt)) as Hu.
  pose proof (push_ok (fun _ => False) cap RB_MSG_READLINE prompt (u32 (zlen prompt)) (forked b wr)
    (rd_inv _ _ (ready_forked cap b wr Hr)) ltac:(done) ltac:(lia) ltac:(lia)) as Hp.
  apply wp_total in Hp as (b1 & o & E & -> & Hb1 & Eg & _ & _ & _ & Es & _).
  unfold mbind at 1, M_bind at 1. rewrite E. unfold mbind, M_bind, gets. rewrite Es. cbn.
  unfold mbind, M_bind, gets. rewrite Eg. cbn. by rewrite Hg.
Qed.

(** What the parent answers, in terms of the kernel's answers. *)
Definition run_r_answer (env : run_env) (data : bytes) (timed_out : bool) (out : option bytes) : Prop :=
  if negb (env_pipe env =? 0) then out = strdup (lit "[run_r] pipe() failed" ++ [Byte.x0a])
  else if env_fork env <? 0 then out = strdup (lit "[run_r] fork() failed" ++ [Byte.x0a])
  else exists rest, out = Some ((data ++ run_note timed_out (env_status env)) ++ Byte.x00 :: rest).


End Child.

(** ** Witnesses *)

(** Two writes, an interrupted poll, then the end of the pipe. *)
Definition chatty_child (i : nat) : poll_event :=
  match i with
  | O => {| ev_sec := 100; ev_nsec := 5; ev_poll := PollReady; ev_read := ReadData (lit "[1] 42") |}
  | 1%nat => {| ev_sec := 100; ev_nsec := 900; ev_poll := PollError true; ev_read := ReadEof |}
  | 2%nat => {| ev_sec := 101; ev_nsec := 0; ev_poll := PollReady; ev_read := ReadData (lit " done") |}
  | _ => {| ev_sec := 102; ev_nsec := 0; ev_poll := PollReady; ev_read := ReadEof |}
  end.

Lemma chatty_child_ok j : event_ok (chatty_child j).
Proof. destruct j as [|[|[|j]]]; by vm_compute. Qed.

(** One write, then silence until the deadline. *)
Definition hung_child (i : nat) : poll_event :=
  match i with
  | O => {| ev_sec := 100; ev_nsec := 0; ev_poll := PollReady; ev_read := ReadData (lit "waiting") |}
  | _ => {| ev_sec := 130; ev_nsec := 0; ev_poll := PollError true; ev_read := ReadEof |}
  end.

Lemma hung_child_ok j : event_ok (hung_child j).
Proof. destruct j; by vm_compute. Qed.

Lemma big_grants n : n <= 65536 -> grants (H := big_heap) n.
Proof.
  intros Hn k Hk. unfold malloc, big_heap.
  rewrite (proj2 (Z.leb_le _ _)), (proj2 (Z.leb_le _ _)) by lia. by eexists.
Qed.

Lemma run_r_parent_result_witness :
  exists rest, run_r_parent (H := big_heap) 9 100 0 chatty_child (WaitSignaled 24) =
    Ret {| rr_out := Some ((lit "[1] 42 done" ++ run_note false (WaitSignaled 24)) ++ Byte.x00 :: rest);
           rr_killed := false |}.
Proof.
  apply (run_r_parent_result (H := big_heap) (H0 := big_heap_ok) 9 100 0 chatty_child (WaitSignaled 24)
           (lit "[1] 42 done") false).
  - exact chatty_child_ok.
  - intros sig E. injection E as <-. lia.
  - vm_compute. reflexivity.
  - apply big_grants. vm_compute. congruence.
Defined.

Lemma run_r_watchdog_terminates_witness :
  exists out killed, run_r_parent (H := big_heap) 2 100 0 hung_child (WaitSignaled 9) =
    Ret {| rr_out := Some out; rr_killed := killed |}.
Proof.
  apply (run_r_watchdog_terminates (H := big_heap) (H0 := big_heap_ok) 1 100 0 hung_child (WaitSignaled 9)).
  - exact hung_child_ok.
  - intros sig E. injection E as <-. lia.
  - vm_compute. congruence.
  - apply big_grants. vm_compute. congruence.
Defined.

Definition sample_child_state : @bridge sample_R := sample_bridge CbWriteConsoleEx busy_schedule.

Lemma sample_child_ready : ready 512 sample_child_state.
Proof. apply sample_ready; [done|apply busy_schedule_ok]. Qed.


Lemma child_readline_blocks_witness :
  cb_read_console (lit "name? ") read_buffer 16 (forked sample_child_state empty_fd) = Fault Blocked.
Proof.
  apply (child_readline_blocks (H := sample_R) 512).
  - exact sample_child_ready.
  - reflexivity.
Defined.

Definition sample_env : run_env :=
  {| env_plat := PlatOther; env_home := None; env_pipe := 0; env_fork := 4242; env_t0_sec := 100;
     env_t0_nsec := 0; env_events := chatty_child; env_status := WaitExited 0; env_rounds := 9 |}.

Lemma sample_env_ready : ready 512 (sample_bridge CbWriteConsoleEx []).
Proof. apply sample_ready; [done|constructor]. Qed.

