(* ===== verification/Worker.v ===== *)
(** * The worker thread and its mailbox
      (c_ffi/load_r.c, lines 60-78 and 1073-1262)

    The request slots guarded by [cmd_mutex] are a record [mailbox]; each
    critical section is one atomic definition on it.  [step] interleaves the
    worker, the frontend and any number of run_r callers.  [worker_rounds] is
    the sequential view of the worker: the jobs it runs on the bridge. *)

From stdpp Require Import gmap.
From S2P Require Import Prelude CString RingBuffer RingSpec CrashLog RApi Bridge Eval RunR.

(** ** The slots *)

Section Mailbox.
Context `{Heap}.

Record mailbox := {
  pending_cmd : option bytes;
  pending_completion_line : option bytes;
  pending_completion_pos : Z;
  pending_column_object : option bytes;
  pending_runr : option bytes;
  runr_result : option bytes;
  runr_done : bool;
}.

Definition empty_mailbox : mailbox :=
  {| pending_cmd := None; pending_completion_line := None; pending_completion_pos := 0;
     pending_column_object := None; pending_runr := None; runr_result := None; runr_done := false |}.

(** *** The API functions, each one critical section *)

Definition rffi_submit (code : bytes) (m : mailbox) : mailbox :=
  {| pending_cmd := strdup code; pending_completion_line := pending_completion_line m;
     pending_completion_pos := pending_completion_pos m;
     pending_column_object := pending_column_object m; pending_runr := pending_runr m;
     runr_result := runr_result m; runr_done := runr_done m |}.

Definition rffi_request_completions (line : bytes) (cursor_pos : Z) (m : mailbox) : mailbox :=
  {| pending_cmd := pending_cmd m; pending_completion_line := strdup line;
     pending_completion_pos := cursor_pos; pending_column_object := None;
     pending_runr := pending_runr m; runr_result := runr_result m; runr_done := runr_done m |}.

Definition rffi_request_columns (object_name : bytes) (m : mailbox) : mailbox :=
  {| pending_cmd := pending_cmd m; pending_completion_line := None;
     pending_completion_pos := pending_completion_pos m;
     pending_column_object := strdup object_name;
     pending_runr := pending_runr m; runr_result := runr_result m; runr_done := runr_done m |}.

(** The two halves of rffi_run_r_sandboxed: the request, made while holding
    [runr_call_mutex], and the return once [runr_done] is seen. *)
Definition post_runr (code : bytes) (m : mailbox) : mailbox :=
  {| pending_cmd := pending_cmd m; pending_completion_line := pending_completion_line m;
     pending_completion_pos := pending_completion_pos m;
     pending_column_object := pending_column_object m; pending_runr := strdup code;
     runr_result := None; runr_done := false |}.

Definition take_runr (m : mailbox) : mailbox * option bytes :=
  ({| pending_cmd := pending_cmd m; pending_completion_line := pending_completion_line m;
      pending_completion_pos := pending_completion_pos m;
      pending_column_object := pending_column_object m; pending_runr := pending_runr m;
      runr_result := None; runr_done := runr_done m |}, runr_result m).

(** *** The worker's side *)

Inductive job :=
  | JEval (code : bytes)
  | JRunR (code : bytes)
  | JCompletions (line : bytes) (pos : Z)
  | JColumns (object_name : bytes)
  | JIdle.

(** What the worker takes under the mutex after its wait. *)
Definition worker_take (m : mailbox) : mailbox * job :=
  match pending_cmd m, pending_runr m, pending_completion_line m, pending_column_object m with
  | Some code, _, _, _ =>
      ({| pending_cmd := None; pending_completion_line := None;
          pending_completion_pos := pending_completion_pos m; pending_column_object := None;
          pending_runr := pending_runr m; runr_result := runr_result m; runr_done := runr_done m |},
       JEval code)
  | None, Some code, _, _ =>
      ({| pending_cmd := None; pending_completion_line := pending_completion_line m;
          pending_completion_pos := pending_completion_pos m;
          pending_column_object := pending_column_object m; pending_runr := None;
          runr_result := runr_result m; runr_done := runr_done m |}, JRunR code)
  | None, None, Some line, _ =>
      ({| pending_cmd := None; pending_completion_line := None;
          pending_completion_pos := pending_completion_pos m; pending_column_object := None;
          pending_runr := None; runr_result := runr_result m; runr_done := runr_done m |},
       JCompletions line (pending_completion_pos m))
  | None, None, None, Some object_name =>
      ({| pending_cmd := None; pending_completion_line := None;
          pending_completion_pos := pending_completion_pos m; pending_column_object := None;
          pending_runr := None; runr_result := runr_result m; runr_done := runr_done m |},
       JColumns object_name)
  | None, None, None, None => (m, JIdle)
  end.

(** Handing the sandboxed output over. *)
Definition post_result (out : option bytes) (m : mailbox) : mailbox :=
  {| pending_cmd := pending_cmd m; pending_completion_line := pending_completion_line m;
     pending_completion_pos := pending_completion_pos m;
     pending_column_object := pending_column_object m; pending_runr := pending_runr m;
     runr_result := out; runr_done := true |}.

(** The worker goes to its timed wait. *)
Definition worker_waits (m : mailbox) (shutdown_flag : bool) : bool :=
  negb (bool_decide (is_Some (pending_cmd m))) &&
  negb (bool_decide (is_Some (pending_completion_line m))) &&
  negb (bool_decide (is_Some (pending_column_object m))) &&
  negb (bool_decide (is_Some (pending_runr m))) && negb shutdown_flag.

(** The deadline of that wait: now + 100 ms, from gettimeofday's answer. *)
Definition wait_deadline (tv_sec tv_usec : Z) : Z * Z :=
  let tv_nsec := tv_usec * 1000 + 100000000 in
  if 1000000000 <=? tv_nsec then (tv_sec + 1, tv_nsec - 1000000000) else (tv_sec, tv_nsec).

(** ** All threads *)

(** Where the worker is: at the loop test, holding what it is about to take,
    running a job, out of the loop. *)
Inductive wphase := WLoop | WTake | WBusy (j : job) | WExited.

Inductive caller :=
  | Waiting (code : bytes)
  | Returned (code : bytes) (out : option bytes).

Record system := {
  mail : mailbox;
  worker : wphase;
  shutdown_flag : bool;
  call_owner : option nat;                (* who holds runr_call_mutex *)
  callers : gmap nat caller;              (* the calls of rffi_run_r_sandboxed *)
  started : list job;                     (* history: the jobs the worker took *)
  torn_down : bool;                       (* rffi_shutdown got past its join *)
}.

Definition set_mail (s : system) (m : mailbox) : system :=
  {| mail := m; worker := worker s; shutdown_flag := shutdown_flag s; call_owner := call_owner s;
     callers := callers s; started := started s; torn_down := torn_down s |}.
Definition set_worker (s : system) (w : wphase) : system :=
  {| mail := mail s; worker := w; shutdown_flag := shutdown_flag s; call_owner := call_owner s;
     callers := callers s; started := started s; torn_down := torn_down s |}.

(** [outcome code out]: a sandboxed run of [code] may answer [out]. *)
Variable outcome : bytes -> option bytes -> Prop.

Inductive step : system -> system -> Prop :=
  | StepSubmit s code : step s (set_mail s (rffi_submit code (mail s)))
  | StepCompletions s line pos : step s (set_mail s (rffi_request_completions line pos (mail s)))
  | StepColumns s name : step s (set_mail s (rffi_request_columns name (mail s)))
  | StepCall s id code :
      call_owner s = None -> callers s !! id = None ->
      step s {| mail := post_runr code (mail s); worker := worker s; shutdown_flag := shutdown_flag s;
                call_owner := Some id; callers := <[id := Waiting code]> (callers s);
                started := started s; torn_down := torn_down s |}
  | StepReturn s id code :
      callers s !! id = Some (Waiting code) -> runr_done (mail s) = true ->
      step s {| mail := fst (take_runr (mail s)); worker := worker s; shutdown_flag := shutdown_flag s;
                call_owner := None;
                callers := <[id := Returned code (snd (take_runr (mail s)))]> (callers s);
                started := started s; torn_down := torn_down s |}
  | StepCheck s : worker s = WLoop -> shutdown_flag s = false -> step s (set_worker s WTake)
  | StepExit s : worker s = WLoop -> shutdown_flag s = true -> step s (set_worker s WExited)
  | StepTake s :
      worker s = WTake ->
      step s {| mail := fst (worker_take (mail s)); worker := WBusy (snd (worker_take (mail s)));
                shutdown_flag := shutdown_flag s; call_owner := call_owner s; callers := callers s;
                started := started s ++ [snd (worker_take (mail s))]; torn_down := torn_down s |}
  | StepDone s j :
      worker s = WBusy j -> (forall code, j <> JRunR code) -> step s (set_worker s WLoop)
  | StepReply s code out :
      worker s = WBusy (JRunR code) -> outcome code out ->
      step s (set_worker (set_mail s (post_result out (mail s))) WLoop)
  | StepShutdown s :
      step s {| mail := mail s; worker := worker s; shutdown_flag := true; call_owner := call_owner s;
                callers := callers s; started := started s; torn_down := torn_down s |}
  | StepJoin s :
      shutdown_flag s = true -> worker s = WExited ->
      step s {| mail := mail s; worker := WExited; shutdown_flag := true; call_owner := call_owner s;
                callers := callers s; started := started s; torn_down := true |}.

(** Before the first request. *)
Definition initial : system :=
  {| mail := empty_mailbox; worker := WLoop; shutdown_flag := false; call_owner := None;
     callers := ∅; started := []; torn_down := false |}.

Definition steps : system -> system -> Prop := rtc step.
Definition reachable (s : system) : Prop := steps initial s.

End Mailbox.

(** ** The worker's jobs on the bridge *)

Section Jobs.
Context `{RApi, Heap}.

Definition reset_ring : M unit := fun b => b' ← rffi_rb_reset b; Ret (b', Done tt).

(** One job and the events processed after it; the answer is what a run_r caller
    is handed. *)
Definition run_job (env : run_env) (j : job) : M (option bytes) :=
  out ← match j with
        | JEval code => reset_ring ;; eval_code code ;; mret None
        | JRunR code => run_r_on_worker env code
        | JCompletions line pos => run_completions line pos ;; mret None
        | JColumns object_name => run_column_completions object_name ;; mret None
        | JIdle => mret None
        end;
  process_events ;;
  mret out.

(** The rounds of the worker loop, each with the kernel's answers to it. *)
Fixpoint worker_rounds (js : list (run_env * job)) : M unit :=
  match js with
  | [] => mret tt
  | (env, j) :: js' => run_job env j ;; worker_rounds js'
  end.

End Jobs.
