(* ===== verification/WorkerProps.v ===== *)
(** * Correctness of the worker and its mailbox

    The worker survives every job; requests are taken by priority and the last
    one wins; a sandboxed run's output goes to its own caller; what a shutdown
    stops, and whom it strands. *)

From stdpp Require Import gmap.
From S2P Require Import Prelude CString RingBuffer RingSpec RingProps CrashLog RApi SampleR.
From S2P Require Import Bridge BridgeSpec BridgeProps Eval EvalSpec EvalProps.
From S2P Require Import Seatbelt SeatbeltProps RunR RunRProps Worker.

(** ** The worker survives its jobs *)

Section Jobs.
Context `{RApiOk, HeapOk}.

(** The kernel's answers to a sandboxed run: a Linux or other non-Apple host, a
    drain loop that is left, and a heap that serves what was read. *)
Definition env_ok (env : run_env) : Prop :=
  (forall sb, env_plat env <> PlatApple sb) /\ (forall j, event_ok (env_events env j)) /\
  (forall sig, env_status env = WaitSignaled sig -> 0 < sig < 128) /\
  exists data timed_out,
    drained (env_rounds env) (env_t0_sec env) (env_t0_nsec env) (env_events env) 0 = Some (data, timed_out) /\
    grants (2 * zlen data + 8192).

(** The worker between two rounds: ready, and the protection stack as high as
    it was at [d]. *)
Definition round_ok cap d (b : bridge) : Prop := ready cap b /\ depth b = d.

Lemma reset_ring_ok cap b :
  ready cap b -> wp reset_ring (runs (fun _ b' => round_ok cap (depth b) b')) b.
Proof.
  intros [Hb Ht Hc]. destruct (rffi_rb_reset_ok cap b Hb) as (b' & E & Hb' & He & Hd).
  unfold wpF, reset_ring. rewrite E. cbn. split; [|done].
  split; [done|by rewrite (ev_toplevel _ _ He)|by rewrite (ev_console _ _ He)].
Qed.

Lemma after_round cap tail d b b' : after cap tail d b b' -> round_ok cap d b'.
Proof. by intros []. Qed.

Lemma run_job_ok cap env j b :
  ready cap b -> env_ok env -> wp (run_job env j) (runs (fun _ b' => round_ok cap (depth b) b')) b.
Proof.
  intros Hr (Hp & Hev & Hsig & data & to & Hd & Hg). unfold run_job.
  apply (wp_runs_bind _ _ (fun _ b' => round_ok cap (depth b) b')).
  - destruct j as [code|code|line pos|name|].
    + eapply wp_runs_bind; [by apply reset_ring_ok|]. intros [] b1 [Hr1 Hd1].
      eapply wp_runs_bind; [by apply eval_code_ok|]. intros rc b2 (tail & _ & Ha).
      apply wp_runs_ret. rewrite <- Hd1. by eapply after_round.
    + assert (Hw : wp (run_r_on_worker env code) (runs (fun _ b' => round_ok cap (depth b) b')) b).
      { unfold run_r_on_worker, gather_runr_read_paths. eapply wp_runs_bind.
        { apply (eval_for_string_ok cap _ (depth b) b b); [apply depth_nonneg|by apply after_refl]. }
        intros dyn b1 Ha. apply (wp_runs_bind _ _ (fun _ b2 => b2 = b1)).
        { destruct (env_plat env) as [sb|sb|]; [by destruct (Hp sb)|done|done]. }
        intros profile b2 ->. apply after_round in Ha.
        destruct (negb _); [by apply wp_runs_ret|]. destruct (env_fork env <? 0); [by apply wp_runs_ret|].
        destruct (run_r_parent_result _ _ _ _ _ _ _ Hev Hsig Hd Hg) as (rest & Er).
        apply wp_bind. eapply wp_lift; [exact Er|]. cbn [on_done]. by apply wp_runs_ret. }
      exact Hw.
    + eapply wp_runs_bind; [by apply completion_request_ok|]. intros [] b1 (tail & _ & Ha).
      apply wp_runs_ret. by eapply after_round.
    + eapply wp_runs_bind; [by apply completion_request_ok|]. intros [] b1 (tail & _ & Ha).
      apply wp_runs_ret. by eapply after_round.
    + by apply wp_runs_ret.
  - intros out b1 [Hr1 Hd1]. eapply wp_runs_bind; [by apply process_events_ok|].
    intros [] b2 Ha. apply wp_runs_ret. rewrite <- Hd1. by eapply after_round.
Qed.

Lemma rounds_ok cap js b :
  ready cap b -> Forall (fun ej => env_ok (fst ej)) js ->
  wp (worker_rounds js) (runs (fun _ b' => round_ok cap (depth b) b')) b.
Proof.
  intros Hr Hjs. assert (Hgo : forall b1, round_ok cap (depth b) b1 ->
    wp (worker_rounds js) (runs (fun _ b' => round_ok cap (depth b) b')) b1); [|by apply Hgo].
  induction Hjs as [|[env j] js He _ IH]; intros b1 [Hr1 Hd1]; cbn [worker_rounds].
  - by apply wp_runs_ret.
  - eapply wp_runs_bind; [by apply run_job_ok|]. intros out b2 Hb2. rewrite Hd1 in Hb2. by apply IH.
Qed.


End Jobs.

(** ** The mailbox *)

Section Mailbox.
Context `{Heap}.
Variable outcome : bytes -> option bytes -> Prop.

Abbreviation step := (step outcome).
Abbreviation steps := (steps outcome).
Abbreviation reachable := (reachable outcome).

(** Where a waiting request is: still in its slot, with the worker, or answered. *)
Definition request_state (s : system) (code : bytes) : Prop :=
  (pending_runr (mail s) = strdup code /\ runr_done (mail s) = false /\
     forall c, worker s <> WBusy (JRunR c)) \/
  (pending_runr (mail s) = None /\ runr_done (mail s) = false /\ worker s = WBusy (JRunR code) /\
     strdup code = Some code) \/
  (pending_runr (mail s) = None /\ runr_done (mail s) = true /\ outcome code (runr_result (mail s)) /\
     forall c, worker s <> WBusy (JRunR c)).

Record sys_inv (s : system) : Prop := {
  si_one : forall id code, callers s !! id = Some (Waiting code) -> call_owner s = Some id;
  si_owner : forall id, call_owner s = Some id ->
    exists code, callers s !! id = Some (Waiting code) /\ request_state s code;
  si_free : call_owner s = None ->
    pending_runr (mail s) = None /\ forall c, worker s <> WBusy (JRunR c);
  si_returned : forall id code out, callers s !! id = Some (Returned code out) -> outcome code out;
  si_compl : ~ (is_Some (pending_completion_line (mail s)) /\ is_Some (pending_column_object (mail s)));
}.

Lemma strdup_inv c d : strdup c = Some d -> d = c.
Proof. unfold strdup. destruct (malloc _); congruence. Qed.

(** The slots a sandboxed run uses, and the worker's place, decide the request. *)
Lemma sys_inv_frame s s' :
  sys_inv s -> callers s' = callers s -> call_owner s' = call_owner s ->
  pending_runr (mail s') = pending_runr (mail s) -> runr_done (mail s') = runr_done (mail s) ->
  runr_result (mail s') = runr_result (mail s) ->
  (forall c, worker s' = WBusy (JRunR c) <-> worker s = WBusy (JRunR c)) ->
  ~ (is_Some (pending_completion_line (mail s')) /\ is_Some (pending_column_object (mail s'))) ->
  sys_inv s'.
Proof.
  intros [Ho Hw Hf Hr _] Ec Eo Ep Ed Er Hwk Hcmp. split; try done.
  - intros id code. rewrite Ec, Eo. apply Ho.
  - intros id. rewrite Eo, Ec. intros (code & Hc & Hs)%Hw. exists code. split; [done|].
    unfold request_state. rewrite Ep, Ed, Er.
    assert (Hn : (forall c, worker s <> WBusy (JRunR c)) -> forall c, worker s' <> WBusy (JRunR c)).
    { intros Hn c Hc'. by apply (Hn c), Hwk. }
    destruct Hs as [(? & ? & ?)|[(? & ? & Hb & ?)|(? & ? & ? & ?)]]; [left|right; left|right; right]; auto.
    by apply Hwk in Hb.
  - rewrite Eo, Ep. intros [Hp Hn]%Hf. split; [done|]. intros c Hc'. by apply (Hn c), Hwk.
  - rewrite Ec. apply Hr.
Qed.

Lemma worker_take_compl m :
  ~ (is_Some (pending_completion_line m) /\ is_Some (pending_column_object m)) ->
  ~ (is_Some (pending_completion_line (fst (worker_take m))) /\
     is_Some (pending_column_object (fst (worker_take m)))).
Proof.
  intros Hm. unfold worker_take. repeat case_match; cbn;
    first [exact Hm | intros [[? ?] [? ?]]; congruence].
Qed.

(** Taking a job leaves a sandboxed request in its slot unless it is the job. *)
Lemma worker_take_runr m :
  (exists code, pending_runr m = Some code /\ snd (worker_take m) = JRunR code /\
     pending_runr (fst (worker_take m)) = None) \/
  (pending_runr (fst (worker_take m)) = pending_runr m /\ forall c, snd (worker_take m) <> JRunR c).
Proof. unfold worker_take. repeat case_match; cbn; eauto. Qed.

Lemma worker_take_result m :
  runr_done (fst (worker_take m)) = runr_done m /\ runr_result (fst (worker_take m)) = runr_result m.
Proof. unfold worker_take. by repeat case_match. Qed.

Lemma step_inv s s' : sys_inv s -> step s s' -> sys_inv s'.
Proof.
  intros Hi Hst. pose proof Hi as [Ho Hw Hf Hr Hcmp]. destruct Hst as
    [s code|s line pos|s name|s id code Hown Hnew|s id code Hid Hdone|s Hl Hsd|s Hl Hsd|s Ht|s j Hb Hj|
     s code out Hb Hout|s|s Hsd Hl].
  - by eapply sys_inv_frame.
  - eapply sys_inv_frame; try done. cbn. intros [_ [x Hx]]. done.
  - eapply sys_inv_frame; try done. cbn. intros [[x Hx] _]. done.
  - destruct (Hf Hown) as [Hp Hn]. split; cbn; try done.
    + intros id' code'. destruct (decide (id' = id)) as [->|Hne]; [done|].
      rewrite lookup_insert_ne by done. intros Hc. apply Ho in Hc. congruence.
    + intros id' [= <-]. exists code. rewrite lookup_insert_eq. split; [done|]. left. done.
    + intros id' code' out. destruct (decide (id' = id)) as [->|Hne];
        [by rewrite lookup_insert_eq|]. rewrite lookup_insert_ne by done. apply Hr.
  - pose proof (Ho _ _ Hid) as Hown. destruct (Hw _ Hown) as (code' & Hid' & Hs).
    assert (code' = code) by congruence. subst code'.
    destruct Hs as [(_ & ? & _)|[(_ & ? & _)|(Hp & _ & Hout & Hn)]]; try congruence.
    split; cbn; try done.
    + intros id' code'. destruct (decide (id' = id)) as [->|Hne];
        [by rewrite lookup_insert_eq|]. rewrite lookup_insert_ne by done. intros Hc.
      apply Ho in Hc. congruence.
    + intros id' code' out. destruct (decide (id' = id)) as [->|Hne].
      * rewrite lookup_insert_eq. by intros [= <- <-].
      * rewrite lookup_insert_ne by done. apply Hr.
  - eapply sys_inv_frame; try done. cbn. rewrite Hl. by split.
  - eapply sys_inv_frame; try done. cbn. rewrite Hl. by split.
  - destruct (worker_take_result (mail s)) as [Ed Er].
    assert (Hnb : forall c, worker s <> WBusy (JRunR c)) by (rewrite Ht; done).
    destruct (worker_take_runr (mail s)) as [(code & Hp & Hj & Hp')|[Hp Hj]].
    + split; cbn; try done.
      * intros id Hown. destruct (Hw id Hown) as (code' & Hc & Hs). exists code'. split; [done|].
        unfold request_state. cbn. right. left. rewrite Hj, Ed.
        destruct Hs as [(Hq & Hd & _)|[(? & _)|(? & _)]]; [|congruence..].
        rewrite Hp in Hq. symmetry in Hq. pose proof (strdup_inv _ _ Hq). subst code'. by rewrite Hq.
      * intros Hown. destruct (Hf Hown) as [? _]. congruence.
      * by apply worker_take_compl.
    + eapply sys_inv_frame; try done; cbn.
      * intros c. rewrite Ht. split; [|done]. intros [= E]. by destruct (Hj c).
      * by apply worker_take_compl.
  - eapply sys_inv_frame; try done. cbn. rewrite Hb. intros c. split; [done|]. intros [= ->]. by destruct (Hj c).
  - destruct (call_owner s) as [id|] eqn:Hown.
    + destruct (Hw id eq_refl) as (code' & Hc & Hs).
      destruct Hs as [(_ & _ & Hn)|[(Hp & Hd & Hb' & Hsd)|(_ & _ & _ & Hn)]]; [by destruct (Hn code)| |by destruct (Hn code)].
      rewrite Hb in Hb'. injection Hb' as <-. split; cbn; try done.
      * intros id' code' Hc'. pose proof (Ho _ _ Hc'). congruence.
      * intros id' Hid'. assert (id' = id) as -> by congruence. exists code. split; [done|].
        right. right. done.
    + destruct (Hf eq_refl) as [_ Hn]. by destruct (Hn code).
  - by eapply sys_inv_frame.
  - eapply sys_inv_frame; try done. cbn. rewrite Hl. by split.
Qed.

Lemma reachable_inv s : reachable s -> sys_inv s.
Proof.
  intros Hs. assert (Hi : sys_inv initial).
  { split; cbn; try done. by intros [[? ?] _]. }
  revert Hi. unfold reachable in Hs. induction Hs as [s|s1 s2 s3 Hst _ IH]; [done|].
  intros Hi. apply IH. by eapply step_inv.
Qed.

(** The worker leaves its loop only when told to. *)
Lemma exited_shutdown s : reachable s -> worker s = WExited -> shutdown_flag s = true.
Proof.
  assert (Hi : worker initial = WExited -> shutdown_flag initial = true) by done.
  intros Hs. revert Hi. unfold Worker.reachable in Hs.
  induction Hs as [s|s1 s2 s3 Hst _ IH]; [done|]. intros Hi. apply IH. destruct Hst; cbn in *; auto; done.
Qed.

Lemma steps_one s s' : step s s' -> steps s s'.
Proof. apply rtc_once. Qed.

Lemma steps_trans s1 s2 s3 : steps s1 s2 -> steps s2 s3 -> steps s1 s3.
Proof. apply (transitivity (R := rtc step)). Qed.

(** *** Which requests are served, and in what order *)

Inductive request :=
  | ReqSubmit (code : bytes)
  | ReqRunR (code : bytes)
  | ReqCompletions (line : bytes) (pos : Z)
  | ReqColumns (object_name : bytes).

Definition apply_request (m : mailbox) (r : request) : mailbox :=
  match r with
  | ReqSubmit code => rffi_submit code m
  | ReqRunR code => post_runr code m
  | ReqCompletions line pos => rffi_request_completions line pos m
  | ReqColumns name => rffi_request_columns name m
  end.

Definition request_fits (r : request) : Prop :=
  match r with ReqSubmit s | ReqRunR s | ReqCompletions s _ | ReqColumns s => grants (zlen s + 1) end.

(** The worker's rounds until it finds nothing to do. *)
Fixpoint served (fuel : nat) (m : mailbox) : list job :=
  match fuel with
  | O => []
  | S fuel' => match worker_take m with (_, JIdle) => [] | (m', j) => j :: served fuel' m' end
  end.

(** What should be served, from the requests alone. *)
Definition submission (r : request) : option job :=
  match r with ReqSubmit code => Some (JEval code) | _ => None end.
Definition sandboxed (r : request) : option job :=
  match r with ReqRunR code => Some (JRunR code) | _ => None end.
Definition editor_query (r : request) : option job :=
  match r with
  | ReqCompletions line pos => Some (JCompletions line pos)
  | ReqColumns name => Some (JColumns name)
  | _ => None
  end.
Definition last_of (f : request -> option job) (rs : list request) : list job :=
  option_list (list.last (omap f rs)).

Definition due (rs : list request) : list job :=
  match last_of submission rs with
  | [] => last_of sandboxed rs ++ last_of editor_query rs
  | cmd => cmd ++ last_of sandboxed rs
  end.

Lemma strdup_fits s : grants (zlen s + 1) -> strdup s = Some s.
Proof. intros Hg. unfold strdup. destruct (Hg (zlen s + 1)) as [b ->]; [|done]. pose proof (zlen_nonneg s). lia. Qed.

(** The slots hold the last request of each kind. *)
Definition slots_hold (rs : list request) (m : mailbox) : Prop :=
  last_of submission rs = option_list (JEval <$> pending_cmd m) /\
  last_of sandboxed rs = option_list (JRunR <$> pending_runr m) /\
  (pending_completion_line m = None \/ pending_column_object m = None) /\
  last_of editor_query rs =
    match pending_completion_line m, pending_column_object m with
    | Some line, None => [JCompletions line (pending_completion_pos m)]
    | None, Some name => [JColumns name]
    | _, _ => []
    end.

Lemma last_of_snoc f rs r : last_of f (rs ++ [r]) = match f r with Some j => [j] | None => last_of f rs end.
Proof.
  unfold last_of. rewrite omap_app. cbn. destruct (f r); cbn; [by rewrite list.last_snoc|by rewrite app_nil_r].
Qed.

Lemma slots_after rs : Forall request_fits rs -> slots_hold rs (foldl apply_request empty_mailbox rs).
Proof.
  induction rs as [|r rs IH] using rev_ind; [by repeat split; left|].
  intros [Hrs Hr]%Forall_app. apply Forall_cons_1 in Hr as [Hr _].
  destruct (IH Hrs) as (E1 & E2 & E0 & E3). rewrite foldl_app. cbn [foldl]. unfold slots_hold. rewrite !last_of_snoc.
  destruct r; cbn in *; rewrite ?(strdup_fits _ Hr); cbn; repeat split; auto.
Qed.

(** C34. Requests are served by priority, and only the last of each kind: after
    any sequence of submissions, sandboxed calls, completion and column requests
    the worker evaluates the last submission, then runs the last sandboxed
    request, and answers the last completion or column request only when nothing
    was submitted meanwhile; and it goes to sleep exactly when nothing is due. *)
Theorem worker_serves_latest rs fuel :
  Forall request_fits rs -> (3 <= fuel)%nat ->
  let m := foldl apply_request empty_mailbox rs in
  served fuel m = due rs /\ (worker_waits m false = true <-> due rs = []).
Proof.
  intros Hrs Hf m. destruct (slots_after rs Hrs) as (E1 & E2 & E0 & E3). fold m in E1, E2, E0, E3.
  unfold due. rewrite E1, E2, E3. destruct fuel as [|[|[|fuel]]]; [lia..|]. clear -E0.
  destruct m as [[cmd|] [line|] pos [obj|] [code|] res done0]; destruct E0, fuel; done.
Qed.

(** The deadline of the wait is normalised and 100 ms ahead. *)
Lemma wait_deadline_ok tv_sec tv_usec :
  0 <= tv_usec < 1000000 ->
  let '(sec, nsec) := wait_deadline tv_sec tv_usec in
  0 <= nsec < 1000000000 /\
  sec * 1000000000 + nsec = tv_sec * 1000000000 + tv_usec * 1000 + 100000000.
Proof. intros. unfold wait_deadline. zcase; lia. Qed.

(** *** A caller gets the output of its own code *)

(** A worker in its loop takes the request within two rounds and answers it. *)
Definition live (s : system) : Prop := worker s <> WExited /\ shutdown_flag s = false.

(** Any running worker comes back to its loop test; the callers do not move. *)
Lemma worker_settles s :
  (forall c, exists out, outcome c out) -> live s ->
  exists s', steps s s' /\ worker s' = WLoop /\ shutdown_flag s' = false /\ callers s' = callers s.
Proof.
  intros Htot [Hw Hsd].
  assert (Hbusy : forall s1 j, worker s1 = WBusy j -> shutdown_flag s1 = false ->
    exists s', steps s1 s' /\ worker s' = WLoop /\ shutdown_flag s' = false /\ callers s' = callers s1).
  { intros s1 j Hb Hs1. destruct j as [c|c|line pos|name|].
    2: { destruct (Htot c) as [out Hout]. eexists. split; [apply steps_one; by eapply StepReply|done]. }
    all: eexists; split; [apply steps_one; by eapply StepDone|done]. }
  destruct (worker s) as [| |j|] eqn:E; [by exists s| | |done].
  - edestruct (Hbusy) as (s' & Hst & ?); [| |exists s'; split; [eapply rtc_l; [by apply StepTake|exact Hst]|done]]; done.
  - by eapply Hbusy.
Qed.

(** One whole round from the loop test. *)
Lemma worker_round s code id :
  (forall c, exists out, outcome c out) -> worker s = WLoop -> shutdown_flag s = false ->
  pending_cmd (mail s) = None -> pending_runr (mail s) = Some code ->
  callers s !! id = Some (Waiting code) ->
  exists s' out, steps s s' /\ callers s' !! id = Some (Returned code out) /\ outcome code out.
Proof.
  intros Htot Hw Hsd Hc Hp Hid. destruct (Htot code) as [out Hout].
  eexists _, out. split; [|split; [|exact Hout]].
  - eapply rtc_l; [by apply StepCheck|]. eapply rtc_l; [by apply StepTake|].
    eapply rtc_l. { eapply (StepReply _ _ code out); [|done]. cbn. unfold worker_take. by rewrite Hc, Hp. }
    eapply rtc_l; [by eapply (StepReturn _ _ id code)|]. apply rtc_refl.
  - cbn. by rewrite lookup_insert_eq.
Qed.

Lemma caller_answered s id code :
  (forall c, exists out, outcome c out) -> reachable s -> shutdown_flag s = false ->
  callers s !! id = Some (Waiting code) -> strdup code = Some code ->
  exists s' out, steps s s' /\ callers s' !! id = Some (Returned code out) /\ outcome code out.
Proof.
  intros Htot Hr Hsd Hid Hdup.
  assert (Hl : live s). { split; [|done]. intros Hx%(exited_shutdown _ Hr). congruence. }
  destruct (worker_settles s Htot Hl) as (s1 & Hst & Hw1 & Hsd1 & Hc1).
  assert (Hr1 : reachable s1) by (by eapply steps_trans).
  assert (Hid1 : callers s1 !! id = Some (Waiting code)) by (by rewrite Hc1).
  enough (Hgo : exists s' out, steps s1 s' /\ callers s' !! id = Some (Returned code out) /\ outcome code out).
  { destruct Hgo as (s' & out & ? & ?). exists s', out. split; [by eapply steps_trans|done]. }
  pose proof (reachable_inv _ Hr1) as Hi. pose proof (si_one _ Hi _ _ Hid1) as Hown.
  destruct (si_owner _ Hi _ Hown) as (code' & Hid' & Hs). assert (code' = code) as -> by congruence.
  destruct Hs as [(Hp & _ & _)|[(_ & _ & Hb & _)|(_ & Hd & Hout & _)]].
  - rewrite Hdup in Hp. destruct (pending_cmd (mail s1)) as [cmd|] eqn:Hcmd; [|by eapply worker_round].
    assert (Ht : worker_take (mail s1) = (fst (worker_take (mail s1)), JEval cmd) /\
      pending_cmd (fst (worker_take (mail s1))) = None /\ pending_runr (fst (worker_take (mail s1))) = Some code).
    { unfold worker_take. rewrite Hcmd. cbn. by rewrite Hp. }
    destruct Ht as (Ej & Hcmd' & Hp'). apply (f_equal snd) in Ej. cbn in Ej.
    edestruct worker_round as (s' & out & Hrest & Hres); [exact Htot| | | | | |
      exists s', out; split; [|exact Hres]; eapply rtc_l; [by apply StepCheck|];
      eapply rtc_l; [by apply StepTake|]; eapply rtc_l; [|exact Hrest];
      eapply StepDone; [reflexivity|]]; cbn; try done. by rewrite Ej.
  - congruence.
  - eexists _, _. split; [apply steps_one; by eapply (StepReturn _ _ id code)|]. cbn.
    by rewrite lookup_insert_eq.
Qed.

(** C35. A sandboxed run's output reaches its own caller and no other: however
    calls, submissions and requests interleave, what a call of
    rffi_run_r_sandboxed returns is an outcome of the code it was given; and
    while no shutdown is asked, a waiting call can always still be answered. *)
Theorem caller_gets_own_output s :
  reachable s ->
  (forall id code out, callers s !! id = Some (Returned code out) -> outcome code out) /\
  (shutdown_flag s = false -> (forall c, exists out, outcome c out) ->
   forall id code, callers s !! id = Some (Waiting code) -> strdup code = Some code ->
   exists s' out, steps s s' /\ callers s' !! id = Some (Returned code out) /\ outcome code out).
Proof.
  intros Hr. split; [apply (si_returned _ (reachable_inv _ Hr))|]. intros Hsd Htot id code Hid Hdup.
  by eapply caller_answered.
Qed.

(** *** Shutdown *)

(** How many phases the worker has before it is out, once told to stop. *)
Definition rank (w : wphase) : nat :=
  match w with WExited => 0 | WLoop => 1 | WBusy _ => 2 | WTake => 3 end.

Definition taken_after (s s' : system) : Prop :=
  (worker s = WTake /\ started s' = started s /\ worker s' = WTake) \/
  (worker s = WTake /\ worker s' <> WTake /\ exists j, started s' = started s ++ [j]) \/
  (worker s <> WTake /\ worker s' <> WTake /\ started s' = started s).

Lemma shutdown_step s s' :
  shutdown_flag s = true -> step s s' ->
  shutdown_flag s' = true /\ taken_after s s' /\ (worker s' = worker s \/ (rank (worker s') < rank (worker s))%nat).
Proof.
  intros Hsd Hst. unfold taken_after. destruct Hst; cbn in *; try congruence;
    repeat split; try done; try (destruct (worker s) eqn:?; eauto; fail).
  all: repeat match goal with E : worker _ = _ |- _ => rewrite E; clear E end; cbn; eauto 6.
Qed.

Lemma shutdown_steps s s' :
  shutdown_flag s = true -> steps s s' -> shutdown_flag s' = true /\ taken_after s s'.
Proof.
  intros Hsd Hst. induction Hst as [s|s1 s2 s3 H1 _ IH].
  - split; [done|]. unfold taken_after. destruct (worker s); auto.
  - destruct (shutdown_step _ _ Hsd H1) as (Hs2 & Ht & _). destruct (IH Hs2) as (Hs3 & Ht'). split; [done|].
    unfold taken_after in *.
    destruct Ht as [(? & E & ?)|[(? & ? & j & E)|(? & ? & E)]], Ht' as [(? & E' & ?)|[(? & ? & j' & E')|(? & ? & E')]];
      rewrite E in E'; eauto 8; congruence.
Qed.

Lemma worker_can_move s :
  (forall c, exists out, outcome c out) -> worker s <> WExited -> shutdown_flag s = true ->
  exists s', step s s' /\ (rank (worker s') < rank (worker s))%nat /\ shutdown_flag s' = true.
Proof.
  intros Htot Hw Hsd. destruct (worker s) as [| |[c|c|line pos|name|]|] eqn:E; [| |..|done].
  4: { destruct (Htot c) as [out Hout]. eexists. split; [by eapply StepReply|]. by split; cbn; [lia|]. }
  all: eexists; (split; [first [by apply StepExit | by apply StepTake | by eapply StepDone]|]); cbn; split; first [done|lia].
Qed.


(** C37. A caller can be stranded: once the worker is out of its loop, a sandboxed
    run still waiting for its answer waits in every later state, because
    rffi_shutdown does not complete the pending request; it also still holds
    [runr_call_mutex]. *)
Theorem shutdown_strands_caller s s' id code :
  reachable s -> worker s = WExited -> callers s !! id = Some (Waiting code) ->
  runr_done (mail s) = false -> steps s s' ->
  callers s' !! id = Some (Waiting code) /\ call_owner s' = Some id /\ worker s' = WExited.
Proof.
  intros Hr Hw Hid Hd Hst. pose proof (si_one _ (reachable_inv _ Hr) _ _ Hid) as Hown. clear Hr.
  revert Hw Hid Hd Hown. induction Hst as [s|s1 s2 s3 H1 _ IH]; [done|].
  intros Hw Hid Hd Hown. destruct H1; cbn in *; try congruence; try (apply IH; done).
Qed.

End Mailbox.

(** ** Witnesses *)

(** Two rounds of every kind, the sandboxed one with [chatty_child]. *)
Definition sample_rounds : list (run_env * job) :=
  map (pair sample_env) [JEval sample_code; JCompletions (lit "pri") 3; JRunR sample_code; JIdle; JColumns (lit "df")].

Lemma sample_env_ok : env_ok (H1 := big_heap) sample_env.
Proof.
  split; [intros sb; discriminate|]. split; [exact chatty_child_ok|]. split; [intros sig E; discriminate|].
  exists (lit "[1] 42 done"), false. split; [by vm_compute|]. apply big_grants. by vm_compute.
Qed.


Definition sample_requests : list request :=
  [ReqCompletions (lit "pri") 3; ReqSubmit (lit "1+1"); ReqRunR (lit "ls()"); ReqSubmit (lit "2+2")].

Lemma worker_serves_latest_witness :
  let m := foldl (apply_request (H := big_heap)) empty_mailbox sample_requests in
  served 4 m = [JEval (lit "2+2"); JRunR (lit "ls()")] /\ (worker_waits m false = true <-> due sample_requests = []).
Proof.
  apply (worker_serves_latest (H := big_heap) sample_requests 4).
  - repeat constructor; apply big_grants; vm_compute; congruence.
  - lia.
Defined.

(** A call made, the shutdown asked, and the worker gone before it took the call. *)
Definition echo (code : bytes) (out : option bytes) : Prop := out = Some code.
Definition called : system :=
  {| mail := post_runr (H := big_heap) (lit "ls()") empty_mailbox; worker := WLoop; shutdown_flag := false;
     call_owner := Some 0%nat; callers := {[ 0%nat := Waiting (lit "ls()") ]}; started := []; torn_down := false |}.
Definition stopping : system :=
  {| mail := mail called; worker := WLoop; shutdown_flag := true; call_owner := Some 0%nat;
     callers := callers called; started := []; torn_down := false |}.
Definition stopped : system :=
  {| mail := mail called; worker := WExited; shutdown_flag := true; call_owner := Some 0%nat;
     callers := callers called; started := []; torn_down := true |}.

Lemma called_reachable : reachable (H := big_heap) echo called.
Proof. apply rtc_once. by apply (StepCall (H := big_heap) echo initial 0 (lit "ls()")). Qed.

Lemma stopped_reachable : reachable (H := big_heap) echo stopped.
Proof.
  eapply steps_trans; [exact called_reachable|].
  eapply rtc_l; [apply StepShutdown|]. eapply rtc_l; [by apply StepExit|].
  eapply rtc_l; [by apply StepJoin|]. apply rtc_refl.
Qed.

Lemma caller_gets_own_output_witness :
  (forall id code out, callers called !! id = Some (Returned code out) -> echo code out) /\
  exists s' out, steps (H := big_heap) echo called s' /\
    callers s' !! 0%nat = Some (Returned (lit "ls()") out) /\ echo (lit "ls()") out.
Proof.
  destruct (caller_gets_own_output (H := big_heap) echo called called_reachable) as [Hs Hl].
  split; [exact Hs|]. apply Hl.
  - reflexivity.
  - intros c. exists (Some c). reflexivity.
  - reflexivity.
  - vm_compute. reflexivity.
Defined.


Lemma shutdown_strands_caller_witness :
  callers stopped !! 0%nat = Some (Waiting (lit "ls()")) /\ call_owner stopped = Some 0%nat /\ worker stopped = WExited.
Proof.
  apply (shutdown_strands_caller (H := big_heap) echo stopped stopped 0 (lit "ls()")).
  - exact stopped_reachable.
  - reflexivity.
  - reflexivity.
  - reflexivity.
  - apply rtc_refl.
Defined.
