(* ===== verification/Startup.v ===== *)
(** * Starting and stopping R
      (c_ffi/load_r.c, lines 417-586, 1075-1087, 1157-1184 and 1253-1262)

    The dynamic linker and the thread library are a record [host] of the
    answers they give.  [process] is the state startup works on: the variables
    of R it writes and the bridge. *)

From S2P Require Import Prelude CString RingBuffer RingSpec CrashLog RApi Bridge RunR Worker.

(** ** The answers of the host *)

Record host := {
  h_apple : bool;                       (* __APPLE__ *)
  h_dlopen : bytes -> bool;
  h_dlsym : bytes -> bool;              (* libR exports the name *)
  h_mutex_init : Z;
  h_setstacksize : Z;
  h_pthread_create : Z;
}.

Definition LIBR_BASENAME (h : host) : bytes := if h_apple h then lit "libR.dylib" else lit "libR.so".

(** ** What startup writes *)

(** What a callback pointer of R holds. *)
Inductive hook := RDefault | CNull | CReadConsole | CFlushConsole | CShowMessage | CSuicide.

(** R's variables, and the pointers to them. *)
Record embedding := {
  env_R_HOME : option bytes;
  libR : bool;                          (* the handle is not NULL *)
  pointers : list bytes;                (* the names whose pointer is not NULL *)
  R_SignalHandlers : Z;
  ptr_R_ReadConsole : hook;
  ptr_R_WriteConsole : hook;
  ptr_R_FlushConsole : hook;
  ptr_R_ShowMessage : hook;
  ptr_R_Suicide : hook;
  R_Consolefile : hook;
  R_Outputfile : hook;
  R_Interactive : Z;
  R_CStackLimit : Z;
  routines : list (bytes * Z);          (* the .Call routines, with their arities *)
}.

Definition set_libR (e : embedding) (home : option bytes) (v : bool) (ps : list bytes) : embedding :=
  {| env_R_HOME := home; libR := v; pointers := ps; R_SignalHandlers := R_SignalHandlers e;
     ptr_R_ReadConsole := ptr_R_ReadConsole e; ptr_R_WriteConsole := ptr_R_WriteConsole e;
     ptr_R_FlushConsole := ptr_R_FlushConsole e; ptr_R_ShowMessage := ptr_R_ShowMessage e;
     ptr_R_Suicide := ptr_R_Suicide e; R_Consolefile := R_Consolefile e; R_Outputfile := R_Outputfile e;
     R_Interactive := R_Interactive e; R_CStackLimit := R_CStackLimit e; routines := routines e |}.

(** ** Loading libR *)

Definition load_libr (h : host) (r_home : bytes) (e : embedding) : embedding * Z :=
  let path := snprintf_store 1024 (r_home ++ lit "/lib/" ++ LIBR_BASENAME h) in
  if h_dlopen h path then (set_libR e (env_R_HOME e) true (pointers e), 0)
  else (set_libR e (env_R_HOME e) false (pointers e), -1).

(** The symbols LOAD_SYM asks for, in order. *)
Definition REQUIRED_SYMBOLS : list bytes :=
  [lit "Rf_initialize_R"; lit "setup_Rmainloop"; lit "R_ParseVector"; lit "R_tryEval"; lit "Rf_mkString";
   lit "Rf_protect"; lit "Rf_unprotect"; lit "VECTOR_ELT"; lit "Rf_length"; lit "Rf_PrintValue";
   lit "Rf_install"; lit "Rf_lang1"; lit "Rf_lang2"; lit "Rf_asLogical"; lit "Rf_asChar"; lit "R_CHAR";
   lit "Rf_defineVar"; lit "Rf_findVar"; lit "R_GlobalEnv"; lit "R_NilValue"; lit "R_UnboundValue";
   lit "R_SignalHandlers"; lit "R_interrupts_pending"; lit "R_Interactive"; lit "R_CStackLimit";
   lit "ptr_R_ReadConsole"; lit "ptr_R_WriteConsole"; lit "ptr_R_WriteConsoleEx"; lit "ptr_R_FlushConsole";
   lit "ptr_R_ShowMessage"; lit "ptr_R_Suicide"; lit "R_Consolefile"; lit "R_Outputfile";
   lit "R_getEmbeddingDllInfo"; lit "R_registerRoutines"].

Definition OPTIONAL_SYMBOLS : list bytes :=
  [lit "R_ToplevelExec"; lit "R_ProcessEvents"; lit "R_checkActivity"; lit "R_runHandlers"; lit "R_InputHandlers"].

(** LOAD_SYM of each: the first missing one ends the function with -1. *)
Fixpoint load_required (h : host) (names : list bytes) (ps : list bytes) : list bytes * Z :=
  match names with
  | [] => (ps, 0)
  | n :: names' => if h_dlsym h n then load_required h names' (ps ++ [n]) else (ps, -1)
  end.

Definition load_symbols (h : host) (e : embedding) : embedding * Z :=
  let '(ps, rc) := load_required h REQUIRED_SYMBOLS (pointers e) in
  if negb (rc =? 0) then (set_libR e (env_R_HOME e) (libR e) ps, rc)
  else (set_libR e (env_R_HOME e) (libR e) (ps ++ filter (fun n => h_dlsym h n = true) OPTIONAL_SYMBOLS), 0).

Definition resolved (e : embedding) (name : bytes) : bool := bool_decide (name ∈ pointers e).
#[global] Arguments resolved : simpl never.

(** ** R's initialization *)

Section Startup.
Context `{RApi, Heap}.

Record process := {
  emb : embedding;
  br : bridge;
  init_done : bool;
  init_result : Z;
}.

(** The pointers the bridge tests are the ones found; R's own pending flag is 0. *)
Definition bind_globals (e : embedding) (b : bridge) : bridge :=
  set_r b
    {| ptr_R_WriteConsoleEx := ptr_R_WriteConsoleEx (b_r b);
       R_interrupts_pending := if resolved e (lit "R_interrupts_pending") then Some 0 else None;
       R_ToplevelExec_fn := resolved e (lit "R_ToplevelExec");
       R_ProcessEvents_fn := resolved e (lit "R_ProcessEvents");
       R_checkActivity_fn := resolved e (lit "R_checkActivity") && resolved e (lit "R_runHandlers")
                             && resolved e (lit "R_InputHandlers");
       withVisible_sym := withVisible_sym (b_r b);
       raoui_after_top_level_sym := raoui_after_top_level_sym (b_r b);
       rw := rw (b_r b) |}.

(** [*R_SignalHandlers_ptr = 0] *)
Definition no_signal_handlers (e : embedding) : embedding :=
  {| env_R_HOME := env_R_HOME e; libR := libR e; pointers := pointers e; R_SignalHandlers := 0;
     ptr_R_ReadConsole := ptr_R_ReadConsole e; ptr_R_WriteConsole := ptr_R_WriteConsole e;
     ptr_R_FlushConsole := ptr_R_FlushConsole e; ptr_R_ShowMessage := ptr_R_ShowMessage e;
     ptr_R_Suicide := ptr_R_Suicide e; R_Consolefile := R_Consolefile e; R_Outputfile := R_Outputfile e;
     R_Interactive := R_Interactive e; R_CStackLimit := R_CStackLimit e; routines := routines e |}.

(** Lines 538-565: the callbacks (the console one is in the bridge), interactive
    mode, no C stack check. *)
Definition install_callbacks (e : embedding) : embedding :=
  {| env_R_HOME := env_R_HOME e; libR := libR e; pointers := pointers e;
     R_SignalHandlers := R_SignalHandlers e;
     ptr_R_ReadConsole := CReadConsole; ptr_R_WriteConsole := CNull;
     ptr_R_FlushConsole := CFlushConsole; ptr_R_ShowMessage := CShowMessage;
     ptr_R_Suicide := CSuicide; R_Consolefile := CNull; R_Outputfile := CNull;
     R_Interactive := 1; R_CStackLimit := u64 (-1); routines := routines e |}.

Definition register_routines (e : embedding) : embedding :=
  {| env_R_HOME := env_R_HOME e; libR := libR e; pointers := pointers e;
     R_SignalHandlers := R_SignalHandlers e;
     ptr_R_ReadConsole := ptr_R_ReadConsole e; ptr_R_WriteConsole := ptr_R_WriteConsole e;
     ptr_R_FlushConsole := ptr_R_FlushConsole e; ptr_R_ShowMessage := ptr_R_ShowMessage e;
     ptr_R_Suicide := ptr_R_Suicide e; R_Consolefile := R_Consolefile e; R_Outputfile := R_Outputfile e;
     R_Interactive := R_Interactive e; R_CStackLimit := R_CStackLimit e;
     routines := [(lit "raoui_enter_passthrough", 0); (lit "raoui_exit_passthrough", 0);
                  (lit "raoui_emit_image", 5)] |}.

Definition set_syms (wv hook : SEXP) (b : bridge) : bridge :=
  set_r b
    {| ptr_R_WriteConsoleEx := ptr_R_WriteConsoleEx (b_r b);
       R_interrupts_pending := R_interrupts_pending (b_r b);
       R_ToplevelExec_fn := R_ToplevelExec_fn (b_r b); R_ProcessEvents_fn := R_ProcessEvents_fn (b_r b);
       R_checkActivity_fn := R_checkActivity_fn (b_r b); withVisible_sym := wv;
       raoui_after_top_level_sym := hook; rw := rw (b_r b) |}.

Definition R_ARGS : list bytes := [lit "raoui"; lit "--quiet"; lit "--no-save"].

(** The calls into R of [init_r], with the console slot they run under. *)
Definition boot_R : M unit :=
  rcalls (Rf_initialize_R R_ARGS) ;;
  modify (fun b => set_r b (set_console (b_r b) CbInitCapture)) ;;
  rrun setup_Rmainloop ;;
  modify (fun b => set_r b (set_console (b_r b) CbWriteConsoleEx)) ;;
  wv ← rcalls (Rf_install (lit "withVisible"));
  hook ← rcalls (Rf_install (lit "raoui_after_top_level"));
  modify (set_syms wv hook).

Definition set_started (p : process) (e : embedding) (b : bridge) : process :=
  {| emb := e; br := b; init_done := init_done p; init_result := init_result p |}.

Definition init_r (h : host) (r_home : bytes) (p : process) : res (process * outcome Z) :=
  let e0 := set_libR (emb p) (Some r_home) (libR (emb p)) (pointers (emb p)) in
  let '(e1, rc1) := load_libr h r_home e0 in
  if negb (rc1 =? 0) then Ret (set_started p e1 (br p), Done (-1))
  else
    let '(e2, rc2) := load_symbols h e1 in
    let b2 := bind_globals e2 (br p) in
    if negb (rc2 =? 0) then Ret (set_started p e2 b2, Done (-1))
    else
      let e3 := install_callbacks (no_signal_handlers e2) in
      '(b3, o) ← boot_R b2;
      match o with
      | Done _ => Ret (set_started p (register_routines e3) b3, Done 0)
      | Jumped st => Ret (set_started p e3 b3, Jumped st)
      | Exited c => Ret (set_started p e3 b3, Exited c)
      end.

(** The worker thread up to its loop: the answer of [init_r] is published. *)
Definition r_thread_init (h : host) (r_home : bytes) (p : process) : res (process * outcome Z) :=
  '(p1, o) ← init_r h r_home p;
  match o with
  | Done rc => Ret ({| emb := emb p1; br := br p1; init_done := true; init_result := rc |}, Done rc)
  | _ => Ret (p1, o)
  end.

Definition RING_CAPACITY : Z := 1024 * 1024.

Definition set_ring (b : bridge) (rb : ring) : bridge :=
  set_out b {| g_rb := rb; sent := sent (b_out b); received := received (b_out b) |}.

(** A thread that was not created never sets [init_done], and the caller waits
    for it. *)
Definition rffi_start (h : host) (r_home : bytes) (p : process) : res (process * outcome Z) :=
  let '(rb, rc) := rb_init malloc (h_mutex_init h) (Some (g_rb (b_out (br p)))) RING_CAPACITY in
  rb' ← deref rb;
  let p1 := set_started p (emb p) (set_ring (br p) rb') in
  if negb (rc =? 0) then Ret (p1, Done (-1))
  else if negb (h_setstacksize h =? 0) then Ret (p1, Done (-1))
  else if negb (h_pthread_create h =? 0) then Fault Blocked
  else
    home ← deref (strdup r_home);
    '(p2, o) ← r_thread_init h home p1;
    match o with
    | Done _ => Ret (p2, Done (init_result p2))
    | _ => Ret (p2, o)
    end.

(** Past the join of the worker. *)
Definition rffi_shutdown (p : process) : res process :=
  rb ← rb_deinit (Some (g_rb (b_out (br p))));
  rb' ← deref rb;
  Ret (set_started p (set_libR (emb p) (env_R_HOME (emb p)) false (pointers (emb p))) (set_ring (br p) rb')).

(** A session: started, given jobs, shut down once the worker has left its loop. *)
Definition session (h : host) (r_home : bytes) (js : list (run_env * job)) (p : process)
    : res (process * outcome Z) :=
  '(p1, o) ← rffi_start h r_home p;
  match o with
  | Done rc =>
      if negb (rc =? 0) then Ret (p1, Done rc)
      else
        '(b2, o2) ← worker_rounds js (br p1);
        match o2 with
        | Done _ => p3 ← rffi_shutdown (set_started p1 (emb p1) b2); Ret (p3, Done 0)
        | Jumped st => Ret (set_started p1 (emb p1) b2, Jumped st)
        | Exited c => Ret (set_started p1 (emb p1) b2, Exited c)
        end
  | _ => Ret (p1, o)
  end.

End Startup.
