(* ===== verification/StartupProps.v ===== *)
(** * Correctness of startup and of a whole session

    What rffi_start answers, and that a session from start to shutdown stays
    inside the bounds the other files prove. *)

From S2P Require Import Prelude CString RingBuffer RingSpec CrashLog RApi SampleR.
From S2P Require Import Bridge BridgeSpec BridgeProps Eval EvalSpec EvalProps.
From S2P Require Import Seatbelt SeatbeltProps RunR RunRProps Worker WorkerProps Startup.

(** ** Loading *)

Definition libr_path (h : host) (r_home : bytes) : bytes :=
  snprintf_store 1024 (r_home ++ lit "/lib/" ++ LIBR_BASENAME h).

Lemma load_required_all h names ps :
  forallb (h_dlsym h) names = true -> load_required h names ps = (ps ++ names, 0).
Proof.
  revert ps. induction names as [|n names IH]; intros ps; cbn; [by rewrite app_nil_r|].
  intros [-> Hr]%andb_prop. by rewrite IH, <- app_assoc.
Qed.

Lemma load_required_missing h names ps :
  forallb (h_dlsym h) names = false -> exists ps', load_required h names ps = (ps', -1).
Proof.
  revert ps. induction names as [|n names IH]; intros ps; cbn; [done|].
  destruct (h_dlsym h n); cbn; [apply IH|by eexists].
Qed.

Lemma load_symbols_all h e :
  pointers e = [] -> forallb (h_dlsym h) REQUIRED_SYMBOLS = true ->
  load_symbols h e =
    (set_libR e (env_R_HOME e) (libR e)
       (REQUIRED_SYMBOLS ++ filter (fun n => h_dlsym h n = true) OPTIONAL_SYMBOLS), 0).
Proof. intros He Hr. unfold load_symbols. by rewrite (load_required_all _ _ _ Hr), He. Qed.

Section Startup.
Context `{RApiOk, HeapOk}.

(** A call that lets no jump out: R's main loop is set up under R's own
    top-level context, which catches the jumps of the startup code. *)
Fixpoint never_jumps {A} (t : rcall SEXP W A) : Prop :=
  match t with
  | RRet _ _ => True
  | RJump _ _ => False
  | RSuicide _ _ => True
  | RCallback _ _ k => forall w' x, never_jumps (k w' x)
  end.

(** What can stop a startup: waiting for the frontend, or a NULL block. *)
Definition start_fault (f : fault) : Prop := f = Blocked \/ f = NullDeref.

Abbreviation swp := (wpF start_fault).

Lemma start_blocked : start_fault Blocked.
Proof. by left. Qed.

Lemma start_capture b : capture_may_fail start_fault b.
Proof. intros _. by right. Qed.

Lemma run_rcall_no_jump {A} (t : rcall SEXP W A) cap d b :
  binv cap b -> rcall_ok pp_depth d t -> never_jumps t ->
  swp (run_rcall t) (fun o _ => match o with Jumped _ => False | _ => True end) b.
Proof.
  revert b. induction t as [w a|w st|w msg|B w c k IH]; intros b Hb Hok Hnj; try done.
  cbn [run_rcall rcall_ok never_jumps] in *. destruct Hok as [Hc Hk]. unfold put_w. wp_steps.
  set (b2 := set_r b _). assert (Hb2 : binv cap b2) by by apply binv_set_rw.
  eapply wp_mono; [by apply (tick_ok start_fault cap b2)|]. intros [[]|st|c'] b3 Hp3; try done.
  cbn [on_done returns] in *. wp_steps.
  eapply wp_mono; [by apply (handle_ok start_fault start_blocked cap c b3 (proj1 Hp3) (start_capture b3))|].
  intros [x|st|c'] b4 Hp4; try done. cbn [on_done returns] in *.
  pose proof (callback_post_trans _ _ _ _ Hp3 Hp4) as (Hb4 & _ & Hpp4).
  apply (IH (rw (b_r b4)) x b4); [done| |done]. apply Hk. rewrite Hpp4. done.
Qed.

Lemma boot_R_ok cap b :
  binv cap b -> R_ToplevelExec_fn (b_r b) = true -> (forall w, never_jumps (setup_Rmainloop w)) ->
  swp boot_R (runs (fun _ b' => round_ok cap (depth b) b' /\ ptr_R_WriteConsoleEx (b_r b') = CbWriteConsoleEx)) b.
Proof.
  intros Hb Ht Hnj. unfold boot_R. wp_steps.
  set (b1 := set_r (set_r b _) _). assert (Hb1 : binv cap b1) by by destruct Hb.
  assert (Hd1 : pp_depth (rw (b_r b1)) = depth b) by apply pp_initialize.
  assert (Ht1 : R_ToplevelExec_fn (b_r b1) = true) by done.
  pose proof (mainloop_ok (rw (b_r b1))) as Hok. rewrite Hd1 in Hok.
  assert (Hm : swp (rrun setup_Rmainloop) (runs (fun _ b2 => callback_post cap b1 b2)) b1).
  { unfold rrun. pose proof (run_rcall_ok start_fault start_blocked _ cap _ _ b1 Hb1 (start_capture b1) Hok (rcall_returns_true _)) as Hw.
    pose proof (run_rcall_no_jump _ cap _ b1 Hb1 Hok (Hnj _)) as Hj. unfold wpF in *.
    destruct (run_rcall _ b1) as [[b2 [x|st|c]]|f]; try done; [|by apply Hw].
    destruct Hw as (? & ? & _ & Hd2). split; [done|]. split; [done|]. by rewrite Hd2, Hd1. }
  eapply wp_mono; [exact Hm|]. intros [x|st|c] b2 Hp; cbn [runs on_done] in *; try done.
  destruct Hp as (Hb2 & He2 & Hd2). wp_steps. split; [|done]. split.
  - split; cbn; [by destruct Hb2|by rewrite (ev_toplevel _ _ He2)|done].
  - unfold depth at 1. cbn. by rewrite !pp_install, Hd2, Hd1.
Qed.

(** ** rffi_start *)

(** The process before startup: nothing sent, nothing loaded; the frontend's
    buffers have room for a message of the ring. *)
Record fresh (p : process) : Prop := {
  fr_pointers : pointers (emb p) = [];
  fr_sent : sent (b_out (br p)) = [];
  fr_received : received (b_out (br p)) = [];
  fr_mutex : readline_mutex (b_gates (br p)) = MutexFree;
  fr_line : readline_input_buf (b_gates (br p)) = None;
  fr_capture : capture_ok (b_init (br p));
  fr_sched : Forall (Forall (frontend_op_ok RING_CAPACITY)) (sched (br p));
}.

(** Everything the C code looks at before it calls R. *)
Definition can_start (h : host) (r_home : bytes) : bool :=
  bool_decide (is_Some (malloc RING_CAPACITY)) && (h_mutex_init h =? 0) && (h_setstacksize h =? 0) &&
  h_dlopen h (libr_path h r_home) && forallb (h_dlsym h) REQUIRED_SYMBOLS.

(** What [init_r] has set up in R when it answers 0. *)
Definition hooked (e : embedding) : Prop :=
  libR e = true /\ R_SignalHandlers e = 0 /\ R_Interactive e = 1 /\ R_CStackLimit e = 2 ^ 64 - 1 /\
  ptr_R_ReadConsole e = CReadConsole /\ ptr_R_WriteConsole e = CNull /\
  ptr_R_ShowMessage e = CShowMessage /\ ptr_R_Suicide e = CSuicide /\
  routines e = [(lit "raoui_enter_passthrough", 0); (lit "raoui_exit_passthrough", 0); (lit "raoui_emit_image", 5)].

Definition started_ok (p p' : process) : Prop :=
  round_ok RING_CAPACITY (depth (br p)) (br p') /\
  ptr_R_WriteConsoleEx (b_r (br p')) = CbWriteConsoleEx /\ hooked (emb p').

(** The ring is there and the pointers are bound: R may be booted. *)
Lemma fresh_bound p rb e :
  fresh p -> represents rb (spec_init RING_CAPACITY) -> resolved e (lit "R_interrupts_pending") = true ->
  binv RING_CAPACITY (bind_globals e (set_ring (br p) rb)).
Proof.
  intros [] Hr Hi. split; cbn; try done.
  - exists (spec_init RING_CAPACITY). cbn. rewrite fr_sent0, fr_received0. by split; [|split].
  - by rewrite fr_line0.
  - change (is_Some (if resolved e (lit "R_interrupts_pending") then Some 0 else None)). rewrite Hi. by eexists.
Qed.

Lemma resolved_required e ps name :
  pointers e = REQUIRED_SYMBOLS ++ ps -> bool_decide (name ∈ REQUIRED_SYMBOLS) = true -> resolved e name = true.
Proof.
  unfold resolved. intros -> Hn%bool_decide_eq_true. apply bool_decide_eq_true, elem_of_app. by left.
Qed.

Lemma resolved_toplevel h e :
  pointers e = REQUIRED_SYMBOLS ++ filter (fun n => h_dlsym h n = true) OPTIONAL_SYMBOLS ->
  h_dlsym h (lit "R_ToplevelExec") = true -> resolved e (lit "R_ToplevelExec") = true.
Proof.
  unfold resolved. intros -> Hs. apply bool_decide_eq_true, elem_of_app. right.
  apply list_elem_of_filter. split; [done|]. apply (bool_decide_unpack _). by vm_compute.
Qed.

Lemma init_r_ok h r_home p rb :
  fresh p -> represents rb (spec_init RING_CAPACITY) -> can_start h r_home = true ->
  h_dlsym h (lit "R_ToplevelExec") = true -> (forall w, never_jumps (setup_Rmainloop w)) ->
  match init_r h r_home (set_started p (emb p) (set_ring (br p) rb)) with
  | Fault f => start_fault f
  | Ret (p', Done rc) => rc = 0 /\ started_ok p p'
  | Ret (p', Jumped _) => False
  | Ret (p', Exited c) => c = 1
  end.
Proof.
  intros Hf Hr Hc Ht Hnj. unfold can_start in Hc. apply andb_prop in Hc as [Hc Hreq]. apply andb_prop in Hc as [_ Hdl].
  unfold init_r, load_libr. fold (libr_path h r_home). rewrite Hdl. cbn [negb Z.eqb].
  rewrite load_symbols_all; [|apply (fr_pointers _ Hf)|done]. cbn [negb Z.eqb].
  set (e2 := set_libR (set_libR _ _ true _) _ _ _).
  assert (Hint : resolved e2 (lit "R_interrupts_pending") = true) by (by eapply resolved_required).
  assert (Htop : resolved e2 (lit "R_ToplevelExec") = true) by (by eapply resolved_toplevel).
  pose proof (boot_R_ok RING_CAPACITY _ (fresh_bound p rb e2 Hf Hr Hint) Htop Hnj) as Hw.
  unfold wpF in Hw. cbn [br set_started]. destruct (boot_R _) as [[b3 [x|st|c]]|f]; cbn in Hw |- *; try done.
  split; [done|]. destruct Hw as [Hrd Hcon]. split; [exact Hrd|]. split; [exact Hcon|]. by repeat split.
Qed.

(** The ring of a startup that gets past [rb_init]. *)
Lemma start_ring h (rb : ring) :
  is_Some (malloc RING_CAPACITY) -> h_mutex_init h = 0 ->
  exists rb', rb_init malloc (h_mutex_init h) (Some rb) RING_CAPACITY = (Some rb', 0) /\
    represents rb' (spec_init RING_CAPACITY).
Proof.
  intros [b Hb] Hm. assert (E : exists rb', rb_init malloc (h_mutex_init h) (Some rb) RING_CAPACITY = (Some rb', 0)).
  { unfold rb_init. change (RING_CAPACITY <? RB_FRAME_HEADER_SIZE + 1) with false. rewrite Hb, Hm. by eexists. }
  destruct E as [rb' E]. exists rb'. split; [done|]. by eapply rb_init_ok; [apply heap_ok|].
Qed.

Lemma start_ok h r_home p :
  fresh p -> can_start h r_home = true -> h_pthread_create h = 0 -> strdup r_home = Some r_home ->
  h_dlsym h (lit "R_ToplevelExec") = true -> (forall w, never_jumps (setup_Rmainloop w)) ->
  match rffi_start h r_home p with
  | Fault f => start_fault f
  | Ret (p', Done rc) => rc = 0 /\ started_ok p p' /\ init_done p' = true
  | Ret (p', Jumped _) => False
  | Ret (p', Exited c) => c = 1
  end.
Proof.
  intros Hf Hc Hcr Hd Ht Hnj. pose proof Hc as Hc'. unfold can_start in Hc'.
  repeat (apply andb_prop in Hc' as [Hc' ?]). apply bool_decide_eq_true in Hc'. zbool.
  destruct (start_ring h (g_rb (b_out (br p)))) as (rb & E & Hr); [done..|].
  unfold rffi_start. rewrite E. cbn [deref mbind res_mbind]. cbn [negb Z.eqb].
  assert (Hss : h_setstacksize h = 0) by done. rewrite Hss, Hcr, Hd. cbn [negb Z.eqb deref mbind res_mbind].
  pose proof (init_r_ok h r_home p rb Hf Hr Hc Ht Hnj) as Hi. unfold r_thread_init.
  destruct (init_r _ _ _) as [[p' [rc|st|c]]|f]; cbn; try done.
  destruct Hi as (-> & [Hrd Hcon]). split; [done|]. by split; [split|].
Qed.

(** Nothing of R has run. *)
Definition untouched (p p' : process) : Prop :=
  rw (b_r (br p')) = rw (b_r (br p)) /\ sent (b_out (br p')) = sent (b_out (br p)) /\
  R_Interactive (emb p') = R_Interactive (emb p) /\ routines (emb p') = routines (emb p).

Lemma load_fails h r_home p :
  h_dlopen h (libr_path h r_home) && forallb (h_dlsym h) REQUIRED_SYMBOLS = false ->
  exists p', init_r h r_home p = Ret (p', Done (-1)) /\ untouched p p'.
Proof.
  intros Hl. unfold init_r, load_libr. fold (libr_path h r_home).
  destruct (h_dlopen h (libr_path h r_home)); cbn [andb] in Hl; cbn [negb Z.eqb]; [|by eexists].
  unfold load_symbols. destruct (load_required_missing h _ (pointers (set_libR (set_libR (emb p) (Some r_home)
    (libR (emb p)) (pointers (emb p))) (Some r_home) true (pointers (emb p)))) Hl) as [ps E].
  cbn [pointers set_libR] in *. rewrite E. by eexists.
Qed.

Lemma start_fails h r_home p :
  can_start h r_home = false -> h_pthread_create h = 0 -> strdup r_home = Some r_home ->
  exists p', rffi_start h r_home p = Ret (p', Done (-1)) /\ untouched p p'.
Proof.
  intros Hc Hcr Hd. unfold rffi_start, rb_init. change (RING_CAPACITY <? RB_FRAME_HEADER_SIZE + 1) with false.
  unfold can_start in Hc. destruct (malloc RING_CAPACITY) as [blk|]; cbn; [|by eexists].
  destruct (h_mutex_init h =? 0); cbn in *; [|by eexists].
  destruct (h_setstacksize h =? 0); cbn in *; [|by eexists]. rewrite Hcr, Hd. cbn.
  unfold r_thread_init. match goal with |- context [init_r h r_home ?q] => destruct (load_fails h r_home q) as (p' & -> & Hu) end;
    [exact Hc|]. cbn. by eexists.
Qed.

(** C38. rffi_start answers 0 or -1, and what each means: when the ring, the
    stack size, libR and every required symbol are there, R is booted and the
    worker is ready - callbacks, interactive mode and .Call routines in place,
    console output now sent to the ring, the protection stack as R left it -
    unless the process ends or a block for the captured startup output is
    refused; otherwise it answers -1 and no function of R has run. *)
Theorem rffi_start_answer h r_home p :
  fresh p -> h_pthread_create h = 0 -> strdup r_home = Some r_home ->
  h_dlsym h (lit "R_ToplevelExec") = true -> (forall w, never_jumps (setup_Rmainloop w)) ->
  (can_start h r_home = true ->
   match rffi_start h r_home p with
   | Fault f => f = Blocked \/ f = NullDeref
   | Ret (p', Done rc) => rc = 0 /\ started_ok p p' /\ init_done p' = true
   | Ret (p', Jumped _) => False
   | Ret (p', Exited c) => c = 1
   end) /\
  (can_start h r_home = false ->
   exists p', rffi_start h r_home p = Ret (p', Done (-1)) /\ untouched p p').
Proof.
  intros Hf Hcr Hd Ht Hnj. split; intros Hc.
  - pose proof (start_ok h r_home p Hf Hc Hcr Hd Ht Hnj) as Hs. by destruct (rffi_start _ _ _) as [[? []]|].
  - by apply start_fails.
Qed.

Lemma rffi_shutdown_ok cap p :
  ready cap (br p) -> exists p', rffi_shutdown p = Ret p' /\ libR (emb p') = false /\
    rb_buf (g_rb (b_out (br p'))) = None /\ rb_lock (g_rb (b_out (br p'))) = MutexNone.
Proof.
  intros Hr. destruct (inv_ring _ _ (rd_inv _ _ Hr)) as (q & Hq & _).
  unfold rffi_shutdown, rb_deinit. rewrite (rep_lock _ _ _ Hq). cbn. by eexists.
Qed.


End Startup.

(** ** Witnesses *)

(** Two megabytes of heap per block. *)
Definition ring_heap : Heap := fun n =>
  if (0 <=? n) && (n <=? 2097152) then Some (repeat Byte.x00 (Z.to_nat n)) else None.

Lemma ring_heap_ok : HeapOk (H := ring_heap).
Proof.
  intros n b. unfold malloc, ring_heap. destruct (_ && _) eqn:E; [|done]. intros [= <-].
  zbool. unfold zlen, USER_SPACE. rewrite repeat_length. lia.
Qed.

Lemma ring_heap_grants n : n <= 2097152 -> Seatbelt.grants (H := ring_heap) n.
Proof.
  intros Hn k Hk. unfold malloc, ring_heap.
  rewrite (proj2 (Z.leb_le _ _)), (proj2 (Z.leb_le _ _)) by lia. by eexists.
Qed.

(** A host where everything is found, and one without R. *)
Definition good_host : host :=
  {| h_apple := false; h_dlopen := fun _ => true; h_dlsym := fun _ => true;
     h_mutex_init := 0; h_setstacksize := 0; h_pthread_create := 0 |}.
Definition bare_host : host :=
  {| h_apple := false; h_dlopen := fun _ => false; h_dlsym := fun _ => true;
     h_mutex_init := 0; h_setstacksize := 0; h_pthread_create := 0 |}.

Definition sample_process : @process sample_R :=
  {| emb := {| env_R_HOME := None; libR := false; pointers := []; R_SignalHandlers := 1;
               ptr_R_ReadConsole := RDefault; ptr_R_WriteConsole := RDefault; ptr_R_FlushConsole := RDefault;
               ptr_R_ShowMessage := RDefault; ptr_R_Suicide := RDefault; R_Consolefile := RDefault;
               R_Outputfile := RDefault; R_Interactive := 0; R_CStackLimit := 8388608; routines := [] |};
     br := sample_bridge CbWriteConsoleEx []; init_done := false; init_result := -1 |}.

Lemma sample_process_fresh : fresh sample_process.
Proof. by split. Qed.

Lemma sample_never_jumps w : never_jumps (setup_Rmainloop (RApi := sample_R) w).
Proof. done. Qed.

Lemma ring_block : is_Some (malloc (Heap := ring_heap) RING_CAPACITY).
Proof. apply (ring_heap_grants RING_CAPACITY); unfold RING_CAPACITY; lia. Qed.

Lemma good_host_starts : can_start (H1 := ring_heap) good_host (lit "/usr/lib/R") = true.
Proof. unfold can_start. rewrite (bool_decide_eq_true_2 _ ring_block). by vm_compute. Qed.

Lemma rffi_start_answer_witness :
  match rffi_start (H0 := ring_heap) good_host (lit "/usr/lib/R") sample_process with
  | Fault f => f = Blocked \/ f = NullDeref
  | Ret (p', Done rc) => rc = 0 /\ started_ok sample_process p' /\ init_done p' = true
  | Ret (p', Jumped _) => False
  | Ret (p', Exited c) => c = 1
  end /\
  exists p', rffi_start (H0 := ring_heap) bare_host (lit "/usr/lib/R") sample_process = Ret (p', Done (-1)) /\
    untouched sample_process p'.
Proof.
  split.
  - apply (rffi_start_answer (H := sample_R) (H1 := ring_heap) (H2 := ring_heap_ok)
             good_host (lit "/usr/lib/R") sample_process sample_process_fresh eq_refl).
    + vm_compute. reflexivity.
    + reflexivity.
    + exact sample_never_jumps.
    + exact good_host_starts.
  - apply (rffi_start_answer (H := sample_R) (H1 := ring_heap) (H2 := ring_heap_ok)
             bare_host (lit "/usr/lib/R") sample_process sample_process_fresh eq_refl).
    + vm_compute. reflexivity.
    + reflexivity.
    + exact sample_never_jumps.
    + unfold can_start. rewrite (bool_decide_eq_true_2 _ ring_block). vm_compute. reflexivity.
Defined.

(** The jobs of a session, served by the two-megabyte heap. *)
Lemma sample_env_served : env_ok (H1 := ring_heap) sample_env.
Proof.
  split; [intros sb; discriminate|]. split; [exact chatty_child_ok|]. split; [intros sig E; discriminate|].
  exists (lit "[1] 42 done"), false. split; [by vm_compute|]. apply ring_heap_grants. by vm_compute.
Qed.

