(* ===== verification/Stubs.v ===== *)
(** * The OCaml stubs (lib/rffi_stubs.c)

    How OCaml values reach the API of the bridge and come back.  An OCaml
    string is a byte sequence followed by a NUL the stubs rely on: the C side
    sees it up to its first NUL byte. *)

From S2P Require Import Prelude CString RingBuffer RingSpec CrashLog RApi SampleR.
From S2P Require Import Bridge BridgeSpec BridgeProps Eval RunR Worker Startup StartupProps.

(** ** Values *)

(** [String_val]: the C string at the address of an OCaml string. *)
Definition String_val (s : bytes) : bytes := c_string (s ++ [Byte.x00]).

(** [caml_copy_string(out ? out : "")]. *)
Definition caml_copy_string (out : option bytes) : bytes := c_string (default [Byte.x00] out).

(** [Int_val] passed as an int. *)
Definition Int_val (v : Z) : Z := i32 v.

Definition CAML_RFFI_POP_BUF_CAP : Z := 1024 * 1024.

Section Stubs.
Context `{RApi, Heap}.

(** ** The stubs *)

Definition caml_rffi_init (h : host) (v_r_home : bytes) (p : process) : res (process * outcome Z) :=
  home ← deref (strdup (String_val v_r_home));
  rffi_start h home p.

Definition caml_rffi_submit (v_code : bytes) (m : mailbox) : mailbox :=
  rffi_submit (String_val v_code) m.

(** Its request and its answer: the call between them is the wait of the caller. *)
Definition caml_rffi_run_r_request (v_code : bytes) (m : mailbox) : res mailbox :=
  code ← deref (strdup (String_val v_code));
  Ret (post_runr code m).
Definition caml_rffi_run_r_answer (m : mailbox) : mailbox * bytes :=
  let '(m', out) := take_runr m in (m', caml_copy_string out).

Definition caml_rffi_take_init_output (b : bridge) : bridge * bytes :=
  let '(b', out) := rffi_take_init_output b in (b', caml_copy_string out).

Definition caml_rffi_shutdown (p : process) : res process := rffi_shutdown p.

Definition caml_rffi_interrupt (b : bridge) : bridge * Z := rffi_interrupt b.

Definition caml_rffi_rb_has_data (b : bridge) : res (bridge * bool) := rffi_rb_has_data b.

(** [None] if the buffer is empty, [Some (kind, flags, payload)] otherwise. *)
Definition caml_rffi_rb_pop (b : bridge) : res (bridge * option (Z * Z * bytes)) :=
  match malloc CAML_RFFI_POP_BUF_CAP with
  | None => Ret (b, None)
  | Some buf =>
      '(b', r) ← rffi_rb_pop buf CAML_RFFI_POP_BUF_CAP b;
      if bool_decide (pop_status r = RB_EMPTY) || bool_decide (pop_status r = RB_ERROR) then Ret (b', None)
      else
        '(kind, flags, out_len) ← deref (pop_meta r);
        let v_payload := repeat Byte.x00 (Z.to_nat out_len) in
        v ← memcpy v_payload 0 (pop_out r) 0 out_len;
        Ret (b', Some (kind, flags, v))
  end.

Definition caml_rffi_rb_reset (b : bridge) : res bridge := rffi_rb_reset b.

Definition caml_rffi_signal_passthrough (b : bridge) : bridge := rffi_signal_passthrough b.

Definition caml_rffi_set_crash_log_path (v_path : bytes) (st : crash_state) : crash_state :=
  rffi_set_crash_log_path strdup st (Some (String_val v_path)).

Definition caml_rffi_request_completions (v_line : bytes) (v_cursor_pos : Z) (m : mailbox) : mailbox :=
  rffi_request_completions (String_val v_line) (Int_val v_cursor_pos) m.

Definition caml_rffi_request_columns (v_object_name : bytes) (m : mailbox) : mailbox :=
  rffi_request_columns (String_val v_object_name) m.

Definition caml_rffi_submit_readline_input (v_input : bytes) (b : bridge) : res bridge :=
  rffi_submit_readline_input (String_val v_input) b.

End Stubs.

(** ** Strings in and out *)

(** What crosses is the text before the first NUL: all of it when there is none. *)
Lemma String_val_whole s : is_cstr s -> String_val s = s.
Proof. apply c_string_app. Qed.

Lemma String_val_cut s rest : is_cstr s -> String_val (s ++ Byte.x00 :: rest) = s.
Proof. intros Hs. unfold String_val. rewrite <- app_assoc. by apply c_string_app. Qed.

(** ** Popping a message *)

Section Props.
Context `{RApi, HeapOk}.

(** The payload handed to OCaml is the part of the buffer the pop wrote. *)
Lemma payload_copy (data buf : bytes) n :
  n = zlen data ->
  memcpy (repeat Byte.x00 (Z.to_nat n)) 0 (take (Z.to_nat n) data ++ drop (Z.to_nat n) buf) 0 n = Ret data.
Proof.
  intros ->. rewrite memcpy_ok.
  { f_equal. change (Z.to_nat 0) with 0%nat. unfold zlen. rewrite Nat2Z.id, take_0, drop_0, firstn_all.
    rewrite take_app_length. rewrite drop_ge by (rewrite repeat_length; lia). by rewrite app_nil_r. }
  all: pose proof (zlen_nonneg data); unfold zlen in *; rewrite ?length_app, ?length_take, ?repeat_length; lia.
Qed.

(** C40. A pop from OCaml loses nothing: for a ring no larger than the stub's
    buffer, caml_rffi_rb_pop answers [None] exactly when the ring is empty (or
    its buffer cannot be allocated, and then the ring is unchanged), and
    otherwise hands over the oldest message whole - kind, flags and every
    payload byte - and removes just that one; a truncated copy never happens. *)
Theorem caml_rb_pop_exact q b :
  represents (g_rb (b_out b)) q -> mq_capacity q <= CAML_RFFI_POP_BUF_CAP + RB_FRAME_HEADER_SIZE ->
  exists b' r, caml_rffi_rb_pop b = Ret (b', r) /\
    match malloc CAML_RFFI_POP_BUF_CAP, mq_msgs q with
    | None, _ => r = None /\ b' = b
    | Some _, [] => r = None /\ represents (g_rb (b_out b')) q
    | Some _, m :: rest =>
        r = Some (msg_kind m, msg_flags m, msg_data m) /\
        represents (g_rb (b_out b')) {| mq_capacity := mq_capacity q; mq_msgs := rest;
          mq_dropmsgs := mq_dropmsgs q; mq_dropbytes := mq_dropbytes q |}
    end.
Proof.
  intros Hq Hcap. unfold caml_rffi_rb_pop. destruct (malloc CAML_RFFI_POP_BUF_CAP) as [buf|] eqn:Em; [|by eauto].
  apply heap_ok in Em as [Hbuf _].
  destruct (rb_pop_ok _ _ buf CAML_RFFI_POP_BUF_CAP Hq) as (rb' & E & Hq'); [rewrite Hbuf; by split|].
  unfold rffi_rb_pop. rewrite E. cbn [mbind res_mbind deref]. unfold spec_pop in *.
  destruct (mq_msgs q) as [|m rest] eqn:Eq; cbn [fst snd pop_status pop_meta pop_out] in *.
  - eexists _, _. split; [reflexivity|]. by split.
  - pose proof (represents_msg_fits _ _ m Hq) as Hfit. rewrite Eq in Hfit. specialize (Hfit ltac:(left)).
    rewrite Z.min_l, (proj2 (Z.leb_le _ _)) by lia. rewrite (bool_decide_eq_false_2 (RB_OK = RB_EMPTY)) by done.
    rewrite (bool_decide_eq_false_2 (RB_OK = RB_ERROR)) by done. cbn [orb mbind res_mbind deref].
    rewrite payload_copy by done. cbn [mbind res_mbind]. eexists _, _. split; [reflexivity|]. by split.
Qed.

End Props.

(** ** Witness: the ring of the samples, after one push *)

Definition pushed_bridge : @bridge sample_R :=
  match push RB_MSG_STDOUT (lit "[1] 3") 5 (sample_bridge CbWriteConsoleEx []) with
  | Ret (b, _) => b
  | Fault _ => sample_bridge CbWriteConsoleEx []
  end.

Definition pushed_queue : mqueue := spec_push (spec_init 512) (push_msg RB_MSG_STDOUT 0 (lit "[1] 3") 5).

Lemma pushed_represents : represents (g_rb (b_out pushed_bridge)) pushed_queue.
Proof.
  destruct (rb_push_ok sample_ring (spec_init 512) RB_MSG_STDOUT 0 (lit "[1] 3") 5 sample_ring_represents)
    as (rb' & E & Hr); [done..|].
  unfold pushed_bridge, push. cbn [g_rb b_out sample_bridge]. by rewrite E.
Qed.

Lemma caml_rb_pop_exact_witness :
  exists b' r, caml_rffi_rb_pop (H0 := ring_heap) pushed_bridge = Ret (b', r) /\
    match malloc (Heap := ring_heap) CAML_RFFI_POP_BUF_CAP, mq_msgs pushed_queue with
    | None, _ => r = None /\ b' = pushed_bridge
    | Some _, [] => r = None /\ represents (g_rb (b_out b')) pushed_queue
    | Some _, m :: rest =>
        r = Some (msg_kind m, msg_flags m, msg_data m) /\
        represents (g_rb (b_out b')) {| mq_capacity := mq_capacity pushed_queue; mq_msgs := rest;
          mq_dropmsgs := mq_dropmsgs pushed_queue; mq_dropbytes := mq_dropbytes pushed_queue |}
    end.
Proof.
  apply (caml_rb_pop_exact (H := sample_R) (H0 := ring_heap) (H1 := ring_heap_ok) pushed_queue pushed_bridge).
  - exact pushed_represents.
  - vm_compute. congruence.
Defined.
